(* ===== verification/_CoqProject ===== *)
-Q . S2P
Prelude.v
RustNum.v
RustFmt.v
BTree.v
Merkle.v
Types.v
TraceBuilder.v
Isa.v
Executor.v
ExecutorFacts.v
TraceFacts.v
Guest.v
Sp1.v
Agreement.v
Soundness.v
TraceTypes.v
Onchain.v
Float64.v
FloatFmt.v
Policy.v
PolicyFacts.v
Metrics.v
Ingress.v
Engine.v
EngineFacts.v
Simulation.v
Wire.v
Files.v
ValidatorNode.v
ValidatorFacts.v
ValidatorNet.v
VerifierNode.v
VerifierNet.v
Client.v
Protocol.v
Network.v
NetworkFacts.v
Report.v
Instances.v
NetInstances.v
UnitTests.v
Witnesses.v
NodeWitnesses.v
NetWitnesses.v
