(* ===== verification/Prelude.v ===== *)
(** * CatalystSVM: a verification library

    CatalystSVM is a batching pipeline for zero-knowledge proofs over a small
    account machine.  Transactions arrive ([crates/ingress]), wait in a queue
    until a policy seals a batch ([crates/batch-policy]), are executed by the
    host against a [BTreeMap<String, u64>] ([crates/execution-engine]), leave a
    trace committed to by Merkle roots ([crates/trace-builder],
    [crates/common]), are re-executed by a guest program inside the SP1 zkVM
    ([crates/sp1-program]) under the prover and the verifier
    ([crates/sp1-prover], [crates/sp1-verifier]), and the results are published
    by a validator node, attested by a verifier node ([examples]) and recorded
    by an on-chain program ([onchain/catalyst_batcher]).  A client sends
    requests to the nodes; the two nodes share a directory of proof files.
    [crates/benchmark-cli] runs the pipeline on generated workloads.

    ** Conventions

    A function of the program is a function of the same name.  A method that
    changes its receiver takes the old value and returns the new one; a call
    that can fail returns [result E A] ([Ok], [Err]); a call that can panic
    returns [option] ([None] is the panic), so that [option (result E A * S)]
    is a method that may panic, may fail, and leaves the state [S] either way.
    Integers are [Z]; the arithmetic of [u64] is written out at its width in
    [RustNum], under a build profile: [Debug] checks overflow, [Release] wraps.
    The guest is a release build, the on-chain program always checks.  Floats
    are binary64 ([Float64]).  Third-party code is a class of operations with
    a class of laws: [HashLib]/[HashLaws] (SHA-256, hex), [Sp1Sdk]/[Sp1Laws]
    (the SP1 SDK and bincode), [RngLib]/[RngLaws] (the random generator),
    [AddressLib] (program addresses, of which nothing is assumed),
    [JsonLib]/[JsonLaws] (serde_json), [FileCodec]/[FileLaws] (the formats of the
    two files of a proof), [ReportLib] (tables and CSV).  The traits [Prover],
    [Verifier], [Clock] and [PolicyEngine] are classes, and [ProofSystem] is what
    the pipeline asks of a prover and a verifier.

    Collision resistance is never assumed, of SHA-256 or of program addresses.
    That some collision exists always holds, so it is never an alternative of a
    conclusion either: what commits to a value by hashes binds it unless two
    different texts among the finitely many that were hashed on the way
    ([state_inputs], [trace_inputs]) have the same digest ([collides_in], which
    is decidable and evaluates).

    ** Files

    - [Prelude]: results, indexed lists, sums, string order, tactics, hints.
    - [RustNum], [RustFmt], [Float64], [FloatFmt], [BTree]: integers, [format!],
      floats, their decimal text and ordered maps of the standard library, with
      the injectivity and exactness lemmas the rest uses.
    - [Merkle] ([crates/common/src/merkle.rs]): hashing, Merkle and state roots.
    - [Types] ([types.rs], [errors.rs], [clock.rs]): data, errors, clock.
    - [TraceBuilder] ([crates/trace-builder/src/lib.rs]).
    - [Isa]: the specification of the instruction set, a ledger of unbounded
      balances; no code of its own.
    - [Executor], [ExecutorFacts], [TraceFacts]
      ([crates/execution-engine/src/lib.rs]): both executors, that they refine
      the ledger, and what a trace records.
    - [Guest] ([crates/sp1-program/src/main.rs]), [Sp1] (prover, verifier, SDK),
      [Agreement] (host against guest), [Soundness] (what a proof means),
      [TraceTypes] (the types of traces and proofs).
    - [Onchain] ([catalyst_batcher/src/lib.rs]): instructions, account
      constraints, executions as the relation [steps].
    - [Policy], [PolicyFacts] ([crates/batch-policy/src/lib.rs]).
    - [Metrics] ([crates/common/src/metrics.rs]), [Ingress]
      ([crates/ingress/src/lib.rs]).
    - [Engine], [EngineFacts] ([crates/benchmark-cli/src/engine.rs]),
      [Simulation] ([run_simulation] and [run_comparison] of [main.rs]), [Report]
      (the rest of [main.rs]: commands, printed lines, files, charts as data).
    - [Wire] (records, requests and replies as lines of JSON), [Files] (paths,
      reads and writes of the proof directory).
    - [ValidatorNode], [ValidatorFacts] ([examples/validator/src/main.rs]): state,
      operations, RPC, and the interleavings of its tasks as [node_step].
    - [ValidatorNet]: the same node's connections, saved files and broadcasts.
    - [VerifierNode] ([examples/verifier-node/src/main.rs]): the same, with
      [verifier_step] one critical section of a handler; [VerifierNet]: its
      files, polling loop, messages and connections.
    - [Client] ([examples/client/src/main.rs]): the commands, as programs over a
      network that answers lines.
    - [Protocol]: what one program writes and another reads; [Network],
      [NetworkFacts]: a validator and a verifier over one directory, as the step
      relation [net_step], with torn writes.
    - [Instances], [NetInstances], [Witnesses], [NodeWitnesses], [NetWitnesses]:
      concrete instances of the classes, and every theorem that has hypotheses
      applied to a concrete run.
    - [UnitTests] (the [mod tests] of every crate): the repository's own tests,
      translated and run on the model.

    ** Theorems

    - Proofs ([Soundness]): the guest accepts the host's trace of a batch exactly
      when no transfer is unfunded and no opcode unknown; an accepted proof
      establishes that some batch, run by the host's executor, gives the roots,
      the trace hash and the compute the trace claims; honest proofs verify; batches with an unknown opcode are never proved; batches of ids
      always are.
    - Execution ([ExecutorFacts], [TraceFacts]): refinement of the ledger, exact
      conditions of panics, atomicity, framing, soundness of read sets,
      conservation of supply, faithful traces, totality of release builds.
    - Commitments ([Merkle], [TraceFacts]): state roots and trace hashes bind,
      unless texts hashed for them collide; the Merkle root alone does not bind
      the number of leaves.
    - Nodes ([ValidatorFacts], [VerifierNode]): over all interleavings, batches
      partition the submissions in order, published proofs are genuine, and the
      verifier's root, counter and list agree; the attested roots are
      unchecked copies; what waits long enough is sealed.
    - Network ([NetworkFacts], [Protocol], [ValidatorNet], [Client]): over all
      interleavings of two nodes that share a directory every attested batch is
      genuine, a published batch is attested by the next turn of the polling
      loop, and a turn between the two writes of a batch loses it for
      good, whatever else the directory holds; a client's
      submissions arrive as they were meant; every line is answered once.
    - Chain ([Onchain]): invariant and history of receipts, when a submission
      succeeds, who controls what, and that verification is open to everyone.
    - Pipeline ([EngineFacts], [Simulation], [Report], [Metrics], [Ingress],
      [PolicyFacts]): a run seals the arrivals into consecutive segments,
      each executed, proved and verified once; what whole comparisons add up, the files a comparison leaves, termination, loss of failed
      batches, exact reports, valid workloads, and bounds and promises of the
      policies.
    - Tests ([UnitTests]): the unit tests pass in a debug build, for every hash
      library, random generator and SDK that keeps its laws where the test does
      not depend on one; the one test that is ignored fails for every SDK.

    ** Fuel

    [merkle_loop] and [guest_merkle_loop] take the number of leaves, and a level
    at least halves it, rounding up: enough for every list.  [flush] is
    given one turn, which empties both queues.  [collect] and [feed] are given
    one call more than there are transactions.  [workload_terminates] and
    [comparison_terminates] prove the last two enough.

    ** Not modelled

    Sockets and the operating system are what they answer: the outcomes of
    connecting, reading, writing and sleeping are arguments, and an
    asynchronous task is a sequence of steps between which others run.  The text
    of JSON, bincode, CSV and tables, and the pixels of charts, are the classes
    above.  Argument parsing by clap, logging, the accept loops that spawn a task
    per connection, the build script of the guest, the TypeScript tests and the
    migration of the on-chain program, and lamports and rent on chain are left
    out. *)

From Stdlib Require Import ZArith Lia Ascii String Bool.
From stdpp Require Import base gmap strings list sorting.

(** ** Notations, automation and hint databases *)

Declare Scope rust_scope.
Delimit Scope rust_scope with rust.

Create HintDb rust discriminated.
#[export] Hint Constants Opaque : rust.
#[export] Hint Variables Opaque : rust.

(** Split every hypothesis that is a conjunction or an existential, and
    substitute the equations this yields. *)
Ltac simplify_hyps :=
  repeat match goal with
  | H : _ /\ _ |- _ => destruct H
  | H : exists _, _ |- _ => destruct H
  | H : Some _ = Some _ |- _ => injection H as H
  | H : None = Some _ |- _ => discriminate H
  | H : Some _ = None |- _ => discriminate H
  end; subst.

(** Case analysis on the scrutinee of the first [match] or [if] found in a
    hypothesis. *)
Ltac destruct_in H :=
  match type of H with
  | context [match ?x with _ => _ end] =>
      lazymatch x with
      | context [match _ with _ => _ end] => fail
      | _ => destruct x eqn:?
      end
  end.

(** The same on the goal. *)
Ltac destruct_goal :=
  match goal with
  | |- context [match ?x with _ => _ end] =>
      lazymatch x with
      | context [match _ with _ => _ end] => fail
      | _ => destruct x eqn:?
      end
  end.

(** Turn boolean comparisons on [Z] and boolean connectives into
    propositions. *)
Ltac zbool :=
  repeat match goal with
  | H : (_ <? _)%Z = true |- _ => apply Z.ltb_lt in H
  | H : (_ <? _)%Z = false |- _ => apply Z.ltb_ge in H
  | H : (_ <=? _)%Z = true |- _ => apply Z.leb_le in H
  | H : (_ <=? _)%Z = false |- _ => apply Z.leb_gt in H
  | H : (_ =? _)%Z = true |- _ => apply Z.eqb_eq in H
  | H : (_ =? _)%Z = false |- _ => apply Z.eqb_neq in H
  | H : (_ && _)%bool = true |- _ => apply andb_true_iff in H; destruct H
  | H : (_ || _)%bool = false |- _ => apply orb_false_iff in H; destruct H
  end.

(** ** [Result<A, E>] *)

(** The error type comes first so that [result E] is a monad. *)
Inductive result (E A : Type) : Type :=
| Ok (a : A)
| Err (e : E).
Arguments Ok {E A} a.
Arguments Err {E A} e.

#[export] Instance result_eq_dec {E A} `{EqDecision E, EqDecision A} :
  EqDecision (result E A).
Proof.
  intros [a|e] [a'|e'];
    [destruct (decide (a = a'))| | |destruct (decide (e = e'))];
    (left; congruence) || (right; congruence).
Defined.

#[export] Instance result_ret {E} : MRet (result E) := fun _ a => Ok a.
#[export] Instance result_bind {E} : MBind (result E) := fun _ _ f r =>
  match r with Ok a => f a | Err e => Err e end.
#[export] Instance result_fmap {E} : FMap (result E) := fun _ _ f r =>
  match r with Ok a => Ok (f a) | Err e => Err e end.

Definition is_ok {E A} (r : result E A) : bool :=
  match r with Ok _ => true | Err _ => false end.

(** [Result::map_err] *)
Definition map_err {E E' A} (f : E -> E') (r : result E A) : result E' A :=
  match r with Ok a => Ok a | Err e => Err (f e) end.

Lemma result_bind_Ok {E A B} (f : A -> result E B) (r : result E A) b :
  r ≫= f = Ok b <-> exists a, r = Ok a /\ f a = Ok b.
Proof. destruct r; naive_solver. Qed.

Lemma map_err_Ok {E E' A} (f : E -> E') (r : result E A) a :
  map_err f r = Ok a <-> r = Ok a.
Proof. destruct r; naive_solver. Qed.

(** ** Lists *)

Section lists.
Context {A B : Type}.

(** Folding a partial step over a list: [None] is a panic of the step, which
    unwinds the whole loop. *)
Fixpoint foldlM (f : B -> A -> option B) (b : B) (l : list A) : option B :=
  match l with
  | [] => Some b
  | x :: l => f b x ≫= fun b' => foldlM f b' l
  end.

Lemma foldlM_app (f : B -> A -> option B) b l1 l2 :
  foldlM f b (l1 ++ l2) = foldlM f b l1 ≫= fun b' => foldlM f b' l2.
Proof.
  revert b; induction l1 as [|x l1 IH]; intros b; [done|].
  cbn. destruct (f b x); cbn; [apply IH|done].
Qed.

(** An invariant kept by every step is kept by the fold. *)
Lemma foldlM_invariant (f : B -> A -> option B) (I : B -> Prop) b l b' :
  (forall b x b', x ∈ l -> I b -> f b x = Some b' -> I b') ->
  I b -> foldlM f b l = Some b' -> I b'.
Proof.
  revert b; induction l as [|x l IH]; intros b Hstep Hb; cbn.
  - intros [= <-]. done.
  - intros (b1 & Hx & Hl)%bind_Some.
    eapply IH; [|eapply Hstep; [left|done|done]|done].
    intros ? ? ? Hin. apply Hstep. by right.
Qed.

(** If every step succeeds then so does the fold. *)
Lemma foldlM_total (f : B -> A -> option B) b l :
  (forall b x, x ∈ l -> is_Some (f b x)) -> is_Some (foldlM f b l).
Proof.
  revert b; induction l as [|x l IH]; intros b Hstep; cbn; [by eexists|].
  destruct (Hstep b x) as [b1 ->]; [left|]. cbn.
  apply IH. intros ? ? ?. apply Hstep. by right.
Qed.
End lists.

(** [Iterator::enumerate] *)
Definition enumerate {A} (l : list A) : list (Z * A) := imap (fun i x => (Z.of_nat i, x)) l.

Lemma length_enumerate {A} (l : list A) : length (enumerate l) = length l.
Proof. apply length_imap. Qed.

Lemma enumerate_app {A} (l : list A) x :
  enumerate (l ++ [x]) = enumerate l ++ [(Z.of_nat (length l), x)].
Proof. unfold enumerate. rewrite imap_app. simpl. by rewrite Nat.add_0_r. Qed.

(** Induction two elements at a time, for loops over [chunks(2)]. *)
Lemma list_ind2 {A} (P : list A -> Prop) :
  P [] -> (forall a, P [a]) -> (forall a b l, P l -> P (a :: b :: l)) -> forall l, P l.
Proof.
  intros H0 H1 H2 l.
  enough (P l /\ forall a, P (a :: l)) by tauto.
  induction l as [|a l [IH IH']]; [auto|]. split; [apply IH'|]. auto.
Qed.

(** [Iterator::sum] over integers, before any width is imposed. *)
Definition Zsum (l : list Z) : Z := foldr Z.add 0%Z l.

Lemma Zsum_nil : Zsum [] = 0%Z.
Proof. done. Qed.
Lemma Zsum_cons x l : Zsum (x :: l) = (x + Zsum l)%Z.
Proof. done. Qed.

Lemma Zsum_app l1 l2 : Zsum (l1 ++ l2) = (Zsum l1 + Zsum l2)%Z.
Proof.
  induction l1 as [|x l1 IH]; [done|].
  rewrite <-app_comm_cons, !Zsum_cons. lia.
Qed.

Lemma Zsum_nonneg l : Forall (fun x => 0 <= x)%Z l -> (0 <= Zsum l)%Z.
Proof. induction 1; rewrite ?Zsum_cons, ?Zsum_nil; lia. Qed.

Arguments Zsum : simpl never.

#[export] Instance Zsum_proper : Proper ((≡ₚ) ==> (=)) Zsum.
Proof.
  intros l l' Hl. unfold Zsum.
  apply (foldr_permutation_proper (=) Z.add 0%Z); [|done]. intros; lia.
Qed.

(** ** Strings *)

Fixpoint string_forallb (p : ascii -> bool) (s : string) : bool :=
  match s with
  | EmptyString => true
  | String a s => p a && string_forallb p s
  end.

(** No occurrence of the character [c]. *)
Definition free_of (c : ascii) (s : string) : bool :=
  string_forallb (fun a => negb (Ascii.eqb a c)) s.

Lemma string_forallb_app p s t :
  string_forallb p (s +:+ t) = string_forallb p s && string_forallb p t.
Proof.
  induction s as [|a s IH]; [done|]. simpl. rewrite IH. by rewrite andb_assoc.
Qed.

Lemma string_forallb_impl (p q : ascii -> bool) s :
  (forall a, p a = true -> q a = true) ->
  string_forallb p s = true -> string_forallb q s = true.
Proof.
  intros Hpq. induction s as [|a s IH]; [done|]. simpl.
  rewrite !andb_true_iff. intros [? ?]. auto.
Qed.

Lemma string_length_app s t :
  String.length (s +:+ t) = (String.length s + String.length t)%nat.
Proof. induction s as [|a s IH]; simpl; [done|]. by rewrite IH. Qed.

Lemma free_of_app c s t : free_of c (s +:+ t) = free_of c s && free_of c t.
Proof. apply string_forallb_app. Qed.

Lemma free_of_cons_same c s : free_of c (String c s) = false.
Proof. unfold free_of. simpl. by rewrite Ascii.eqb_refl. Qed.

(** A string whose tail after the last separator contains no separator splits
    in one way. *)
Lemma split_last_unique c k1 v1 k2 v2 :
  free_of c v1 = true -> free_of c v2 = true ->
  k1 +:+ String c v1 = k2 +:+ String c v2 -> k1 = k2 /\ v1 = v2.
Proof.
  intros H1 H2. revert k2.
  induction k1 as [|a k1 IH]; intros [|b k2] Heq; simpl in Heq; injection Heq; intros; subst.
  - done.
  - by rewrite free_of_app, free_of_cons_same, andb_false_r in H1.
  - by rewrite free_of_app, free_of_cons_same, andb_false_r in H2.
  - destruct (IH k2) as [-> ->]; done.
Qed.

(** The same for a head without separator before the first one. *)
Lemma split_first_unique c k1 v1 k2 v2 :
  free_of c k1 = true -> free_of c k2 = true ->
  k1 +:+ String c v1 = k2 +:+ String c v2 -> k1 = k2 /\ v1 = v2.
Proof.
  revert k2. induction k1 as [|a k1 IH]; intros [|b k2] H1 H2 Heq;
    simpl in Heq; injection Heq; intros; subst.
  - done.
  - by rewrite free_of_cons_same in H2.
  - by rewrite free_of_cons_same in H1.
  - unfold free_of in H1, H2. simpl in H1, H2. apply andb_true_iff in H1, H2.
    destruct (IH k2) as [-> ->]; [tauto..|done].
Qed.

Lemma append_inj_length s1 t1 s2 t2 :
  String.length s1 = String.length s2 -> s1 +:+ t1 = s2 +:+ t2 -> s1 = s2 /\ t1 = t2.
Proof.
  revert s2. induction s1 as [|a s1 IH]; intros [|b s2] Hl Heq;
    simpl in Hl, Heq; try discriminate; [done|].
  injection Hl as Hl. injection Heq as -> Heq.
  destruct (IH s2) as [-> ->]; done.
Qed.

Lemma append_inj_r s t1 t2 : s +:+ t1 = s +:+ t2 -> t1 = t2.
Proof. intros H. by apply append_inj_length in H as [_ ?]. Qed.

(** Rust's [String] is ordered byte by byte, as [String.leb]. *)
Definition str_le (s t : string) : Prop := String.leb s t = true.

#[export] Instance str_le_dec s t : Decision (str_le s t).
Proof. unfold str_le. apply _. Defined.
