(* ===== verification/RustNum.v ===== *)
(** * Machine integers

    [u64] (and the host's 64-bit [usize]) as [Z] with the width written out:
    checked or wrapping arithmetic according to the build profile, saturating
    operations, and little-endian byte conversion.  The workspace's
    [Cargo.toml] leaves [overflow-checks] at Cargo's defaults, so a [+] that
    overflows panics in a debug build and wraps in a release build; the
    on-chain workspace sets [overflow-checks = true] and always panics.  A
    panic is [None]. *)

From Stdlib Require Import ZArith Lia Strings.Byte.
From stdpp Require Import base list option countable.
From S2P Require Import Prelude.

Local Open Scope Z_scope.

Definition u64_bound : Z := 2 ^ 64.
Definition U64_MAX : Z := u64_bound - 1.

(** The values a [u64] can hold. *)
Definition is_u64 (z : Z) : Prop := 0 <= z < u64_bound.

#[export] Instance is_u64_dec z : Decision (is_u64 z).
Proof. unfold is_u64. apply _. Defined.

(** ** Checked and wrapping arithmetic *)

Inductive profile := Debug | Release.

#[export] Instance profile_eq_dec : EqDecision profile.
Proof. solve_decision. Defined.

(** What a [u64] operation whose mathematical result is [z] yields. *)
Definition u64_arith (p : profile) (z : Z) : option Z :=
  if decide (is_u64 z) then Some z
  else match p with
       | Debug => None
       | Release => Some (z mod u64_bound)
       end.

Definition u64_add (p : profile) (x y : Z) : option Z := u64_arith p (x + y).
Definition u64_sub (p : profile) (x y : Z) : option Z := u64_arith p (x - y).
Definition u64_mul (p : profile) (x y : Z) : option Z := u64_arith p (x * y).

(** [AtomicU64::fetch_add] wraps whatever the profile. *)
Definition u64_wrapping_add (x y : Z) : Z := (x + y) mod u64_bound.

Definition u64_saturating_add (x y : Z) : Z := Z.min (x + y) U64_MAX.
Definition u64_saturating_sub (x y : Z) : Z := Z.max (x - y) 0.

(** [Iterator::sum] over [u64]. *)
Definition u64_sum (p : profile) (l : list Z) : option Z := foldlM (u64_add p) 0 l.

Lemma u64_bound_pos : 0 < u64_bound.
Proof. done. Qed.

Lemma u64_arith_in p z : is_u64 z -> u64_arith p z = Some z.
Proof. intros H. unfold u64_arith. by rewrite decide_True. Qed.

Lemma u64_arith_range p z r : u64_arith p z = Some r -> is_u64 r.
Proof.
  unfold u64_arith. case_decide; [by intros [= <-]|].
  destruct p; [done|]. intros [= <-].
  apply Z.mod_pos_bound, u64_bound_pos.
Qed.

(** Whatever the profile, the result is right modulo [2^64]. *)
Lemma u64_arith_mod p z r : u64_arith p z = Some r -> r mod u64_bound = z mod u64_bound.
Proof.
  unfold u64_arith. case_decide; [by intros [= <-]|].
  destruct p; [done|]. intros [= <-]. by rewrite Z.mod_mod.
Qed.

Lemma u64_arith_release z : u64_arith Release z = Some (z mod u64_bound).
Proof.
  unfold u64_arith. case_decide as H; [|done]. by rewrite Z.mod_small.
Qed.

Lemma u64_arith_debug z r : u64_arith Debug z = Some r <-> is_u64 z /\ r = z.
Proof. unfold u64_arith. case_decide; naive_solver. Qed.

(** A debug build only differs from a release build by panicking. *)
Lemma u64_arith_debug_release z r :
  u64_arith Debug z = Some r -> u64_arith Release z = Some r.
Proof. intros [? ->]%u64_arith_debug. by apply u64_arith_in. Qed.

Lemma u64_add_range p x y r : u64_add p x y = Some r -> is_u64 r.
Proof. apply u64_arith_range. Qed.

Lemma u64_sub_range p x y r : u64_sub p x y = Some r -> is_u64 r.
Proof. apply u64_arith_range. Qed.

Lemma u64_sub_le p x y : is_u64 x -> 0 <= y <= x -> u64_sub p x y = Some (x - y).
Proof. intros [??] ?. apply u64_arith_in. split; lia. Qed.

Lemma u64_saturating_add_range x y : is_u64 x -> 0 <= y -> is_u64 (u64_saturating_add x y).
Proof.
  unfold is_u64, u64_saturating_add, U64_MAX. pose proof u64_bound_pos. lia.
Qed.

Lemma u64_saturating_sub_range x y : is_u64 x -> 0 <= y -> is_u64 (u64_saturating_sub x y).
Proof. unfold is_u64, u64_saturating_sub. lia. Qed.

Lemma u64_sum_foldlM_mod p a l r :
  foldlM (u64_add p) a l = Some r -> r mod u64_bound = (a + Zsum l) mod u64_bound.
Proof.
  revert a. induction l as [|x l IH]; intros a; simpl.
  - intros [= ->]. by rewrite Zsum_nil, Z.add_0_r.
  - intros (b & Hb & Hr)%bind_Some. apply IH in Hr. apply u64_arith_mod in Hb.
    rewrite Hr, Zsum_cons, Z.add_assoc, <-Z.add_mod_idemp_l, Hb, Z.add_mod_idemp_l;
      done.
Qed.

(** A sum that stays in range is the exact sum, in either profile. *)
Lemma u64_sum_foldlM_exact p a l :
  0 <= a -> Forall (fun x => 0 <= x) l -> a + Zsum l < u64_bound ->
  foldlM (u64_add p) a l = Some (a + Zsum l).
Proof.
  intros Ha Hl. revert a Ha. induction Hl as [|x l Hx Hl IH]; intros a Ha; simpl.
  - rewrite Zsum_nil. intros. f_equal. lia.
  - rewrite Zsum_cons. intros Hlt. pose proof (Zsum_nonneg l Hl).
    replace (u64_add p a x) with (Some (a + x))
      by (symmetry; apply u64_arith_in; split; lia).
    simpl. rewrite IH by lia. f_equal. lia.
Qed.

Lemma u64_sum_exact p l :
  Forall (fun x => 0 <= x) l -> Zsum l < u64_bound -> u64_sum p l = Some (Zsum l).
Proof. intros. unfold u64_sum. by rewrite u64_sum_foldlM_exact. Qed.

#[export] Hint Resolve u64_arith_range u64_add_range u64_sub_range
  u64_saturating_add_range u64_saturating_sub_range : rust.

(** ** Little-endian bytes *)

(** Bytes are keys of maps. *)
#[export] Instance byte_eq_decision : EqDecision byte := Byte.byte_eq_dec.
#[export] Program Instance byte_countable : Countable byte :=
  inj_countable Byte.to_N Byte.of_N _.
Next Obligation. intros b. apply Byte.of_to_N. Qed.


Definition u8_to_Z (b : byte) : Z := Z.of_N (Byte.to_N b).

Definition u8_of_Z (z : Z) : byte :=
  match Byte.of_N (Z.to_N (z mod 256)) with
  | Some b => b
  | None => Byte.x00
  end.

(** [u64::from_le_bytes], on a slice of any length. *)
Fixpoint u64_from_le_bytes (bs : list byte) : Z :=
  match bs with
  | [] => 0
  | b :: bs => u8_to_Z b + 256 * u64_from_le_bytes bs
  end.

(** The [n] low bytes of [z], low byte first; [u64::to_le_bytes] is [n = 8]. *)
Fixpoint le_bytes (n : nat) (z : Z) : list byte :=
  match n with
  | O => []
  | S n => u8_of_Z z :: le_bytes n (z / 256)
  end.

Definition u64_to_le_bytes (z : Z) : list byte := le_bytes 8 z.

Lemma u8_to_Z_range b : 0 <= u8_to_Z b < 256.
Proof.
  unfold u8_to_Z. pose proof (Byte.to_N_bounded b). lia.
Qed.

Lemma u8_of_to_Z b : u8_of_Z (u8_to_Z b) = b.
Proof.
  unfold u8_of_Z. rewrite Z.mod_small by apply u8_to_Z_range.
  unfold u8_to_Z. by rewrite N2Z.id, Byte.of_to_N.
Qed.

Lemma u8_to_of_Z z : u8_to_Z (u8_of_Z z) = z mod 256.
Proof.
  unfold u8_of_Z, u8_to_Z. pose proof (Z.mod_pos_bound z 256).
  destruct (Byte.of_N (Z.to_N (z mod 256))) as [b|] eqn:E.
  - apply Byte.to_of_N in E. rewrite E. lia.
  - apply Byte.of_N_None_iff in E. lia.
Qed.

Lemma length_le_bytes n z : length (le_bytes n z) = n.
Proof. revert z. induction n; simpl; auto. Qed.

Lemma length_u64_to_le_bytes z : length (u64_to_le_bytes z) = 8%nat.
Proof. apply length_le_bytes. Qed.

Lemma u64_from_le_bytes_range bs :
  0 <= u64_from_le_bytes bs < 256 ^ Z.of_nat (length bs).
Proof.
  induction bs as [|b bs IH]; simpl length; simpl u64_from_le_bytes; [done|].
  rewrite Nat2Z.inj_succ, Z.pow_succ_r by lia.
  pose proof (u8_to_Z_range b). nia.
Qed.

Lemma u64_from_le_bytes_u64 bs :
  (length bs <= 8)%nat -> is_u64 (u64_from_le_bytes bs).
Proof.
  intros Hl. pose proof (u64_from_le_bytes_range bs) as [? Hlt]. split; [done|].
  eapply Z.lt_le_trans; [exact Hlt|].
  change u64_bound with (256 ^ 8). apply Z.pow_le_mono_r; lia.
Qed.

Lemma from_le_bytes_le_bytes n z :
  0 <= z < 256 ^ Z.of_nat n -> u64_from_le_bytes (le_bytes n z) = z.
Proof.
  revert z. induction n as [|n IH]; intros z; [simpl; lia|].
  rewrite Nat2Z.inj_succ, Z.pow_succ_r by lia. intros [? ?].
  simpl. rewrite IH, u8_to_of_Z.
  - pose proof (Z.div_mod z 256). lia.
  - split; [apply Z.div_pos; lia|]. apply Z.div_lt_upper_bound; lia.
Qed.

Lemma from_to_le_bytes z : is_u64 z -> u64_from_le_bytes (u64_to_le_bytes z) = z.
Proof. intros H. by apply from_le_bytes_le_bytes. Qed.

#[export] Hint Resolve u64_from_le_bytes_u64 : rust.
