(* ===== verification/RustFmt.v ===== *)
(** * The formatting the program uses

    [format!] with [{}] on integers, booleans and strings, [{:06}] and
    [{:08x}], and [join].  Identifiers, account names, state leaves
    and trace entries are all built with these, so their injectivity is what
    makes the identifiers unique and the commitments binding. *)

From Stdlib Require Import ZArith Lia Ascii String Bool DecimalString HexadecimalString Strings.Byte.
From Stdlib Require Import DecimalN HexadecimalN.
From stdpp Require Import base list strings.
From S2P Require Import Prelude RustNum.

Local Open Scope Z_scope.

(** ** Unsigned integers *)

(** [format!("{}", z)] *)
Definition fmt_u64 (z : Z) : string :=
  DecimalString.NilEmpty.string_of_uint (N.to_uint (Z.to_N z)).

(** [format!("{:x}", z)] *)
Definition fmt_hex (z : Z) : string :=
  HexadecimalString.NilEmpty.string_of_uint (N.to_hex_uint (Z.to_N z)).

Fixpoint zeros (n : nat) : string :=
  match n with
  | O => EmptyString
  | S n => String "0" (zeros n)
  end.

(** The [0] flag with a minimum width: never truncates. *)
Definition pad_zero (w : nat) (s : string) : string :=
  zeros (w - String.length s) +:+ s.

(** [format!("{:06}", z)] is [fmt_pad 6 z]; [format!("{:08x}", z)] is
    [fmt_hex_pad 8 z]. *)
Definition fmt_pad (w : nat) (z : Z) : string := pad_zero w (fmt_u64 z).
Definition fmt_hex_pad (w : nat) (z : Z) : string := pad_zero w (fmt_hex z).

(** [format!("{}", b)] *)
Definition fmt_bool (b : bool) : string := if b then "true" else "false".

Definition is_digit (a : ascii) : bool :=
  (48 <=? Z.of_nat (nat_of_ascii a)) && (Z.of_nat (nat_of_ascii a) <=? 57).

Lemma fmt_u64_digits z : string_forallb is_digit (fmt_u64 z) = true.
Proof.
  unfold fmt_u64. generalize (N.to_uint (Z.to_N z)) as d.
  induction d as [| | | | | | | | | |]; simpl; done.
Qed.

(** A decimal number contains none of the separators the program uses. *)
Lemma fmt_u64_free c z : is_digit c = false -> free_of c (fmt_u64 z) = true.
Proof.
  intros Hc. eapply string_forallb_impl; [|apply fmt_u64_digits].
  intros a Ha. apply negb_true_iff, Ascii.eqb_neq. intros ->. congruence.
Qed.

Lemma fmt_u64_nonempty z : fmt_u64 z <> EmptyString.
Proof.
  unfold fmt_u64. intros H.
  assert (DecimalString.NilEmpty.uint_of_string (fmt_u64 z) = Some (N.to_uint (Z.to_N z)))
    as Hp by apply DecimalString.NilEmpty.usu.
  unfold fmt_u64 in Hp. rewrite H in Hp. injection Hp as Hp.
  destruct (Z.to_N z) as [|p]; [done|].
  by apply (f_equal N.of_uint) in Hp; rewrite DecimalN.Unsigned.of_to in Hp.
Qed.

(** *** Reading a number back *)

Definition parse_dec (s : string) : option Z :=
  (fun d => Z.of_N (N.of_uint d)) <$> DecimalString.NilEmpty.uint_of_string s.
Definition parse_hex (s : string) : option Z :=
  (fun d => Z.of_N (N.of_hex_uint d)) <$> HexadecimalString.NilEmpty.uint_of_string s.

Lemma parse_fmt_u64 z : 0 <= z -> parse_dec (fmt_u64 z) = Some z.
Proof.
  intros Hz. unfold parse_dec, fmt_u64. rewrite DecimalString.NilEmpty.usu. simpl.
  rewrite DecimalN.Unsigned.of_to. by rewrite Z2N.id.
Qed.

Lemma parse_fmt_hex z : 0 <= z -> parse_hex (fmt_hex z) = Some z.
Proof.
  intros Hz. unfold parse_hex, fmt_hex. rewrite HexadecimalString.NilEmpty.usu. simpl.
  rewrite HexadecimalN.Unsigned.of_to. by rewrite Z2N.id.
Qed.

Lemma parse_dec_zeros n s : parse_dec s <> None -> parse_dec (zeros n +:+ s) = parse_dec s.
Proof.
  intros Hs. induction n as [|n IH]; [done|]. rewrite <-IH.
  simpl. unfold parse_dec in *. simpl.
  destruct (DecimalString.NilEmpty.uint_of_string (zeros n +:+ s)) as [d|] eqn:E; [done|].
  by rewrite <-IH in Hs.
Qed.

Lemma parse_hex_zeros n s : parse_hex s <> None -> parse_hex (zeros n +:+ s) = parse_hex s.
Proof.
  intros Hs. induction n as [|n IH]; [done|]. rewrite <-IH.
  simpl. unfold parse_hex in *. simpl.
  destruct (HexadecimalString.NilEmpty.uint_of_string (zeros n +:+ s)) as [d|] eqn:E; [done|].
  by rewrite <-IH in Hs.
Qed.

Lemma parse_fmt_pad w z : 0 <= z -> parse_dec (fmt_pad w z) = Some z.
Proof.
  intros Hz. unfold fmt_pad, pad_zero.
  rewrite parse_dec_zeros; rewrite parse_fmt_u64; done.
Qed.

Lemma parse_fmt_hex_pad w z : 0 <= z -> parse_hex (fmt_hex_pad w z) = Some z.
Proof.
  intros Hz. unfold fmt_hex_pad, pad_zero.
  rewrite parse_hex_zeros; rewrite parse_fmt_hex; done.
Qed.

(** *** Injectivity, from reading back *)

Lemma fmt_u64_inj x y : 0 <= x -> 0 <= y -> fmt_u64 x = fmt_u64 y -> x = y.
Proof.
  intros Hx Hy H. apply (f_equal parse_dec) in H.
  rewrite !parse_fmt_u64 in H by done. by injection H.
Qed.

Lemma fmt_pad_inj w x y : 0 <= x -> 0 <= y -> fmt_pad w x = fmt_pad w y -> x = y.
Proof.
  intros Hx Hy H. apply (f_equal parse_dec) in H.
  rewrite !parse_fmt_pad in H by done. by injection H.
Qed.

Lemma fmt_hex_pad_inj w x y : 0 <= x -> 0 <= y -> fmt_hex_pad w x = fmt_hex_pad w y -> x = y.
Proof.
  intros Hx Hy H. apply (f_equal parse_hex) in H.
  rewrite !parse_fmt_hex_pad in H by done. by injection H.
Qed.

Lemma fmt_bool_inj a b : fmt_bool a = fmt_bool b -> a = b.
Proof. by destruct a, b. Qed.

Lemma fmt_bool_free a : free_of ":" (fmt_bool a) = true.
Proof. by destruct a. Qed.

(** ** Hexadecimal text of bytes *)

Definition hex_digit (z : Z) : ascii :=
  ascii_of_N (Z.to_N (if z <? 10 then 48 + z else 87 + z)).

Fixpoint hex_of_bytes (d : list byte) : string :=
  match d with
  | [] => EmptyString
  | b :: d => String (hex_digit (u8_to_Z b / 16))
                (String (hex_digit (u8_to_Z b mod 16)) (hex_of_bytes d))
  end.

Lemma hex_digit_inj x y : 0 <= x < 16 -> 0 <= y < 16 -> hex_digit x = hex_digit y -> x = y.
Proof.
  intros Hx Hy H.
  assert (forall z, 0 <= z < 16 -> N_of_ascii (hex_digit z) = Z.to_N (if z <? 10 then 48 + z else 87 + z))
    as Hd by (intros z Hz; apply N_ascii_embedding; destruct (z <? 10) eqn:?; zbool; lia).
  apply (f_equal N_of_ascii) in H. rewrite !Hd in H by done.
  destruct (x <? 10) eqn:?, (y <? 10) eqn:?; zbool; lia.
Qed.

Lemma byte_digits b c :
  hex_digit (u8_to_Z b / 16) = hex_digit (u8_to_Z c / 16) ->
  hex_digit (u8_to_Z b mod 16) = hex_digit (u8_to_Z c mod 16) -> b = c.
Proof.
  pose proof (u8_to_Z_range b). pose proof (u8_to_Z_range c). intros H1 H2.
  apply hex_digit_inj in H1; [|Z.to_euclidean_division_equations; lia..].
  apply hex_digit_inj in H2; [|Z.to_euclidean_division_equations; lia..].
  rewrite <-(u8_of_to_Z b), <-(u8_of_to_Z c). f_equal.
  Z.to_euclidean_division_equations; lia.
Qed.

(** ** [join] *)

(** [v.join(sep)] *)
Definition join (sep : string) (l : list string) : string := String.concat sep l.

Lemma join_cons2 sep x y l : join sep (x :: y :: l) = x +:+ sep +:+ join sep (y :: l).
Proof. done. Qed.

(** Lists of the same length whose elements hold no separator are determined
    by their join. *)
Lemma join_inj (c : ascii) l1 l2 :
  length l1 = length l2 ->
  Forall (fun s => free_of c s = true) l1 -> Forall (fun s => free_of c s = true) l2 ->
  join (String c "") l1 = join (String c "") l2 -> l1 = l2.
Proof.
  intros Hlen H1. revert l2 Hlen.
  induction H1 as [|x l1 Hx H1 IH]; intros [|y l2] Hlen H2 Heq; try discriminate; [done|].
  inversion_clear H2 as [|? ? Hy Hl2]. simpl in Hlen. injection Hlen as Hlen.
  destruct l1 as [|x' l1], l2 as [|y' l2]; try discriminate.
  - unfold join in Heq. simpl in Heq. by rewrite Heq.
  - rewrite !join_cons2 in Heq. simpl in Heq.
    apply split_first_unique in Heq as [-> Heq]; [|done..].
    f_equal. by apply IH.
Qed.

(** ** Matching on strings *)

(** [str::to_lowercase] on ASCII; other characters are left alone (the one
    that lowers to a letter of the names the program compares with is the Kelvin
    sign). *)
Definition ascii_lower (a : ascii) : ascii :=
  let n := nat_of_ascii a in
  if ((65 <=? n) && (n <=? 90))%nat then ascii_of_nat (n + 32) else a.

Fixpoint to_lowercase (s : string) : string :=
  match s with
  | EmptyString => EmptyString
  | String a s => String (ascii_lower a) (to_lowercase s)
  end.

(** [s] is one of the patterns of an arm of a [match]. *)
Definition one_of (s : string) (l : list string) : bool := existsb (String.eqb s) l.
