(* ===== verification/BTree.v ===== *)
(** * [BTreeMap<String, u64>]

    The program keeps its state in a [BTreeMap], whose iteration visits the
    keys in ascending byte order.  The map itself is a [gmap string Z]; the
    iteration is the sorted list of its bindings.  That list is a function of
    the map alone, whatever the order of the insertions that built it. *)

From Stdlib Require Import ZArith Lia Ascii String.
From stdpp Require Import base gmap strings list sorting.
From S2P Require Import Prelude.

(** ** The key order *)

Lemma ascii_compare_lt a b :
  Ascii.compare a b = Lt <-> (N_of_ascii a < N_of_ascii b)%N.
Proof. apply N.compare_lt_iff. Qed.

Lemma ascii_compare_eq a b : Ascii.compare a b = Eq <-> a = b.
Proof.
  split; [apply Ascii.compare_eq_iff|].
  intros ->. apply N.compare_refl.
Qed.

Lemma str_le_cons a s b t :
  str_le (String a s) (String b t) <->
  (N_of_ascii a < N_of_ascii b)%N \/ (a = b /\ str_le s t).
Proof.
  unfold str_le, String.leb. simpl.
  destruct (Ascii.compare a b) eqn:E.
  - apply ascii_compare_eq in E as ->. split; [tauto|].
    intros [H|[_ H]]; [lia|done].
  - apply ascii_compare_lt in E. tauto.
  - split; [done|]. intros [H|[-> _]].
    + apply ascii_compare_lt in H. congruence.
    + assert (Ascii.compare b b = Eq) by by apply ascii_compare_eq. congruence.
Qed.

#[export] Instance str_le_trans : Transitive str_le.
Proof.
  intros s. induction s as [|a s IH]; intros [|b t] [|c u]; try done.
  rewrite !str_le_cons. intros [H1|[-> H1]] [H2|[-> H2]].
  - left. lia.
  - by left.
  - by left.
  - right. split; [done|]. by eapply IH.
Qed.

#[export] Instance str_le_total : Total str_le.
Proof.
  intros s. induction s as [|a s IH]; intros [|b t]; [by left..|by right|].
  rewrite !str_le_cons.
  destruct (N.lt_trichotomy (N_of_ascii a) (N_of_ascii b)) as [?|[E|?]].
  - by left; left.
  - assert (a = b) as ->.
    { rewrite <-(ascii_N_embedding a), <-(ascii_N_embedding b). by rewrite E. }
    destruct (IH t); [left|right]; by right.
  - by right; left.
Qed.

#[export] Instance str_le_antisymm : AntiSymm (=) str_le.
Proof. intros s t. apply String.leb_antisym. Qed.

(** ** Ordered iteration *)

Definition key_le {V} (p q : string * V) : Prop := str_le p.1 q.1.

#[export] Instance key_le_dec {V} (p q : string * V) : Decision (key_le p q).
Proof. unfold key_le. apply _. Defined.

#[export] Instance key_le_trans {V} : Transitive (@key_le V).
Proof. intros p q r. unfold key_le. apply str_le_trans. Qed.

#[export] Instance key_le_total {V} : Total (@key_le V).
Proof. intros p q. unfold key_le. apply str_le_total. Qed.

(** [BTreeMap::iter]: the bindings in ascending key order. *)
Definition btree_iter {V} (m : gmap string V) : list (string * V) :=
  merge_sort key_le (map_to_list m).

(** [*m.get(k).unwrap_or(&d)] *)
Definition get_or {V} (d : V) (m : gmap string V) (k : string) : V := default d (m !! k).

(** [m.entry(k).or_insert(v)], as a statement. *)
Definition entry_or_insert {V} (k : string) (v : V) (m : gmap string V) : gmap string V :=
  match m !! k with
  | Some _ => m
  | None => <[k:=v]> m
  end.

Section iter.
Context {V : Type}.
Implicit Types m : gmap string V.

Lemma btree_iter_perm m : btree_iter m ≡ₚ map_to_list m.
Proof. apply merge_sort_Permutation. Qed.

Lemma btree_iter_sorted m : StronglySorted key_le (btree_iter m).
Proof. apply (StronglySorted_merge_sort _). Qed.

Lemma btree_iter_keys_NoDup m : NoDup (btree_iter m).*1.
Proof. rewrite btree_iter_perm. apply NoDup_fst_map_to_list. Qed.

Lemma btree_iter_NoDup m : NoDup (btree_iter m).
Proof. rewrite btree_iter_perm. apply NoDup_map_to_list. Qed.

Lemma elem_of_btree_iter m k v : (k, v) ∈ btree_iter m <-> m !! k = Some v.
Proof. rewrite btree_iter_perm. apply elem_of_map_to_list. Qed.

Lemma length_btree_iter m : length (btree_iter m) = size m.
Proof. rewrite btree_iter_perm. apply length_map_to_list. Qed.

Lemma list_to_map_btree_iter m : list_to_map (btree_iter m) = m.
Proof.
  rewrite <-(list_to_map_to_list m) at 2.
  apply list_to_map_proper; [apply btree_iter_keys_NoDup|apply btree_iter_perm].
Qed.

(** The iteration determines the map. *)
Lemma btree_iter_inj m1 m2 : btree_iter m1 = btree_iter m2 -> m1 = m2.
Proof.
  intros H. by rewrite <-(list_to_map_btree_iter m1), H, list_to_map_btree_iter.
Qed.

Lemma btree_iter_nil m : btree_iter m = [] <-> m = ∅.
Proof.
  rewrite <-length_zero_iff_nil, length_btree_iter. apply map_size_empty_iff.
Qed.

(** Any listing of the bindings in ascending key order, each key once, is
    the iteration. *)
Lemma btree_iter_unique m l :
  StronglySorted key_le l -> NoDup l.*1 ->
  (forall k v, (k, v) ∈ l <-> m !! k = Some v) -> l = btree_iter m.
Proof.
  intros Hs Hnd Hl.
  assert (l ≡ₚ btree_iter m) as Hp.
  { apply NoDup_Permutation; [by eapply NoDup_fmap_1|apply btree_iter_NoDup|].
    intros [k v]. by rewrite elem_of_btree_iter. }
  eapply (StronglySorted_unique_strong key_le); [|done|apply btree_iter_sorted|done].
  intros [k1 v1] [k2 v2] H1 H2 Hle1 Hle2.
  assert (k1 = k2) as -> by by apply str_le_antisymm.
  apply Hl in H1. apply elem_of_btree_iter in H2. congruence.
Qed.

Lemma lookup_entry_or_insert k v m j :
  entry_or_insert k v m !! j = if decide (k = j) then Some (default v (m !! k)) else m !! j.
Proof.
  unfold entry_or_insert. case_decide as E; [subst j|];
    destruct (m !! k) eqn:H; simplify_map_eq; done.
Qed.

Lemma entry_or_insert_insert k v w m :
  <[k:=w]> (entry_or_insert k v m) = <[k:=w]> m.
Proof.
  unfold entry_or_insert. destruct (m !! k); [done|]. apply insert_insert_eq.
Qed.

Lemma map_Forall_entry_or_insert (P : string -> V -> Prop) k v m :
  P k v -> map_Forall P m -> map_Forall P (entry_or_insert k v m).
Proof.
  intros Hk Hm. unfold entry_or_insert. destruct (m !! k); [done|].
  by apply map_Forall_insert_2.
Qed.
End iter.

#[export] Hint Resolve map_Forall_insert_2 map_Forall_entry_or_insert : rust.
