(* ===== verification/Merkle.v ===== *)
(** * Hashing and Merkle roots ([crates/common/src/merkle.rs])

    The hash function and the hex encoding are third-party crates ([sha2],
    [hex]): they are the operations of the class [HashLib], with what the
    program relies on as the class [HashLaws].  Collision resistance is never
    assumed, and the bare existence of a collision is never a conclusion (a
    digest is shorter than what it digests, so there always is one): the binding
    theorems conclude that two inputs are equal or that two of the texts the
    program hashed for them, which [state_inputs] and [merkle_inputs] list,
    collide. *)

From Stdlib Require Import ZArith Lia Ascii String Bool Strings.Byte.
From stdpp Require Import base gmap strings list sorting.
From S2P Require Import Prelude RustNum RustFmt BTree.

(** ** The hashing crates *)

Definition is_hex_digit (a : ascii) : bool :=
  let n := nat_of_ascii a in
  ((48 <=? n) && (n <=? 57))%nat || ((97 <=? n) && (n <=? 102))%nat.

Class HashLib := {
  sha256 : list byte -> list byte;        (* [Sha256::digest] *)
  hex_encode : list byte -> string;       (* [hex::encode] *)
}.

Class HashLaws `{HashLib} : Prop := {
  sha256_length d : length (sha256 d) = 32;
  hex_encode_length d : String.length (hex_encode d) = 2 * length d;
  hex_encode_digits d : string_forallb is_hex_digit (hex_encode d) = true;
  hex_encode_inj : Inj (=) (=) hex_encode;
}.

Section merkle.
Context `{HashLib}.

Definition hash_bytes (data : list byte) : string := hex_encode (sha256 data).

Definition hash_str (s : string) : string := hash_bytes (list_byte_of_string s).

(** [slice::chunks(2)]: the last chunk may have one element. *)
Fixpoint chunks2 (l : list string) : list (string * option string) :=
  match l with
  | [] => []
  | [a] => [(a, None)]
  | a :: b :: l => (a, Some b) :: chunks2 l
  end.

Definition combined (chunk : string * option string) : string :=
  match chunk with
  | (a, Some b) => a +:+ b
  | (a, None) => a +:+ a
  end.

Definition hash_chunk (chunk : string * option string) : string := hash_str (combined chunk).

(** One round of the [while] loop. *)
Definition next_level (level : list string) : list string :=
  map hash_chunk (chunks2 level).

(** The loop [while current_level.len() > 1]; [None] is running out of
    fuel, which [merkle_loop_total] excludes. *)
Fixpoint merkle_loop (fuel : nat) (current_level : list string) : option (list string) :=
  if (1 <? length current_level)%nat then
    match fuel with
    | O => None
    | S fuel => merkle_loop fuel (next_level current_level)
    end
  else Some current_level.

Definition merkle_root (leaves : list string) : string :=
  match leaves with
  | [] => hash_bytes (list_byte_of_string "empty")
  | [leaf] => leaf
  | _ => default "" (merkle_loop (length leaves) leaves ≫= head)
  end.

(** The leaf of one account in the state tree. *)
Definition state_leaf (kv : string * Z) : string := kv.1 +:+ ":" +:+ fmt_u64 kv.2.

Definition state_root (state : gmap string Z) : string :=
  let leaves := map (fun kv => hash_str (state_leaf kv)) (btree_iter state) in
  match leaves with
  | [] => hash_bytes (list_byte_of_string "empty_state")
  | _ => merkle_root leaves
  end.

(** What a trace entry is hashed from. *)
Definition trace_entry_data (tx_id : string) (success : bool) (compute_used : Z)
    (read_set write_set : list string) : string :=
  "tx:" +:+ tx_id +:+ ":success:" +:+ fmt_bool success +:+ ":cu:" +:+
  fmt_u64 compute_used +:+ ":reads:" +:+ join "," read_set +:+ ":writes:" +:+
  join "," write_set.

Definition hash_trace_entry (tx_id : string) (success : bool) (compute_used : Z)
    (read_set write_set : list string) : string :=
  hash_str (trace_entry_data tx_id success compute_used read_set write_set).

(** ** The texts that are hashed

    In the order the functions above hash them. *)

Definition level_inputs (level : list string) : list string := map combined (chunks2 level).

Fixpoint loop_inputs (fuel : nat) (current_level : list string) : list string :=
  if (1 <? length current_level)%nat then
    match fuel with
    | O => []
    | S fuel => level_inputs current_level ++ loop_inputs fuel (next_level current_level)
    end
  else [].

Definition merkle_inputs (leaves : list string) : list string :=
  match leaves with
  | [] => ["empty"]
  | _ => loop_inputs (length leaves) leaves
  end.

Definition state_inputs (state : gmap string Z) : list string :=
  match btree_iter state with
  | [] => ["empty_state"]
  | kvs => map state_leaf kvs ++ merkle_inputs (map (fun kv => hash_str (state_leaf kv)) kvs)
  end.

(** Two different texts of a list have the same digest. *)
Definition collides_in (texts : list string) : Prop :=
  Exists (fun s => Exists (fun t =>
    s <> t /\ sha256 (list_byte_of_string s) = sha256 (list_byte_of_string t)) texts) texts.

#[export] Instance collides_in_dec texts : Decision (collides_in texts).
Proof. unfold collides_in. apply _. Defined.

(** A level is the hashes of its inputs. *)
Lemma next_level_inputs l : next_level l = map hash_str (level_inputs l).
Proof. unfold next_level, level_inputs. by rewrite map_map. Qed.

(** ** The loop terminates with one hash *)

Lemma length_next_level l : length (next_level l) = (S (length l) / 2)%nat.
Proof.
  unfold next_level. rewrite length_map.
  induction l as [|a|a b l IH] using list_ind2; [done..|].
  cbn [chunks2 length]. rewrite IH.
  replace (S (S (S (length l)))) with (S (length l) + 1 * 2)%nat by lia.
  rewrite Nat.div_add; lia.
Qed.

Lemma next_level_shorter l : (1 < length l)%nat -> (0 < length (next_level l) < length l)%nat.
Proof.
  intros Hl. rewrite length_next_level. split.
  - apply Nat.div_str_pos. lia.
  - apply Nat.Div0.div_lt_upper_bound; lia.
Qed.

Lemma merkle_loop_fuel n l :
  (0 < length l <= S n)%nat -> exists r, merkle_loop n l = Some [r].
Proof.
  revert l. induction n as [|n IH]; intros l Hl; cbn [merkle_loop].
  - destruct l as [|r [|]]; simpl in *; [lia|by exists r|lia].
  - destruct (1 <? length l)%nat eqn:E.
    + apply Nat.ltb_lt in E. apply IH. pose proof (next_level_shorter l E). lia.
    + apply Nat.ltb_ge in E. destruct l as [|r [|]]; simpl in *; [lia|by exists r|lia].
Qed.

Lemma merkle_loop_more_fuel n m l r :
  merkle_loop n l = Some r -> (n <= m)%nat -> merkle_loop m l = Some r.
Proof.
  revert m l. induction n as [|n IH]; intros m l; destruct m as [|m];
    cbn [merkle_loop]; destruct (1 <? length l)%nat; try done; try lia.
  intros Hl Hm. apply IH; [done|lia].
Qed.

Lemma merkle_root_loop n l r :
  merkle_loop n l = Some [r] -> merkle_root l = r.
Proof.
  intros Hn. destruct l as [|a [|b l]].
  - by destruct n.
  - destruct n; simpl in Hn; by injection Hn.
  - unfold merkle_root.
    destruct (merkle_loop_fuel (length (a :: b :: l)) (a :: b :: l)) as [r' Hr'];
      [simpl; lia|].
    rewrite Hr'. simpl.
    apply merkle_loop_more_fuel with (m := (n + length (a :: b :: l))%nat) in Hn; [|lia].
    apply merkle_loop_more_fuel with (m := (n + length (a :: b :: l))%nat) in Hr'; [|lia].
    congruence.
Qed.

(** The recursive reading of the loop: a root is the root of the next
    level. *)
Lemma merkle_root_next l :
  (1 < length l)%nat -> merkle_root l = merkle_root (next_level l).
Proof.
  intros Hl. pose proof (next_level_shorter l Hl).
  destruct (merkle_loop_fuel (length l) (next_level l)) as [r Hr]; [lia|].
  rewrite (merkle_root_loop _ _ _ Hr).
  apply (merkle_root_loop (S (length l))). cbn [merkle_loop].
  by rewrite (proj2 (Nat.ltb_lt _ _) Hl).
Qed.

Lemma merkle_root_single x : merkle_root [x] = x.
Proof. done. Qed.

Lemma loop_inputs_fuel n m l :
  (length l <= S n)%nat -> (length l <= S m)%nat -> loop_inputs n l = loop_inputs m l.
Proof.
  revert m l. induction n as [|n IH]; intros m l Hn Hm; destruct m as [|m]; cbn [loop_inputs];
    destruct (1 <? length l)%nat eqn:E; try done; apply Nat.ltb_lt in E; [lia..|].
  f_equal. pose proof (next_level_shorter l E). apply IH; lia.
Qed.

Lemma merkle_inputs_next l :
  (1 < length l)%nat -> merkle_inputs l = level_inputs l ++ merkle_inputs (next_level l).
Proof.
  intros Hl. pose proof (next_level_shorter l Hl) as [Hpos Hlt].
  assert (forall k : list string, k <> [] -> merkle_inputs k = loop_inputs (length k) k) as Hm
    by by intros [|].
  rewrite !Hm by (intros E; rewrite E in *; simpl in *; lia).
  destruct (length l) as [|n] eqn:En; [lia|]. cbn [loop_inputs].
  rewrite En, (proj2 (Nat.ltb_lt _ _) Hl). f_equal. apply loop_inputs_fuel; lia.
Qed.

(** Induction along the levels of a tree. *)
Lemma level_ind (P : list string -> Prop) :
  (forall x, P [x]) ->
  (forall l, (1 < length l)%nat -> P (next_level l) -> P l) ->
  forall l, l <> [] -> P l.
Proof.
  intros H1 Hstep l. remember (length l) as n eqn:Hn. revert l Hn.
  induction (lt_wf n) as [n _ IH]. intros l -> Hne.
  destruct (decide (1 < length l)%nat) as [Hl|Hl].
  - apply Hstep; [done|]. pose proof (next_level_shorter l Hl) as [Hpos ?].
    eapply IH; [|done|]; [lia|]. intros E. rewrite E in Hpos. simpl in Hpos. lia.
  - destruct l as [|x [|]]; simpl in *; [done|apply H1|lia].
Qed.

(** Two perfect subtrees of the same height are joined by one hash. *)
Lemma next_level_app l1 l2 :
  Nat.Even (length l1) -> next_level (l1 ++ l2) = next_level l1 ++ next_level l2.
Proof.
  unfold next_level. rewrite <-map_app. intros Hev. f_equal. revert Hev.
  induction l1 as [|a|a b l1 IH] using list_ind2; intros Hev; [done| |].
  - destruct Hev as [k Hk]. simpl in Hk. lia.
  - simpl. rewrite IH; [done|]. destruct Hev as [k Hk]. simpl in Hk.
    exists (k - 1)%nat. lia.
Qed.

Lemma merkle_root_join d l1 l2 :
  length l1 = (2 ^ d)%nat -> length l2 = (2 ^ d)%nat ->
  merkle_root (l1 ++ l2) = hash_str (merkle_root l1 +:+ merkle_root l2).
Proof.
  revert l1 l2. induction d as [|d IH]; intros l1 l2 H1 H2.
  - destruct l1 as [|a [|]], l2 as [|b [|]]; try discriminate. done.
  - rewrite Nat.pow_succ_r' in H1, H2.
    assert (0 < 2 ^ d)%nat by (apply Nat.neq_0_lt_0, Nat.pow_nonzero; lia).
    assert (forall l, length l = (2 * 2 ^ d)%nat -> length (next_level l) = (2 ^ d)%nat) as Hh.
    { intros l Hl. rewrite length_next_level, Hl.
      replace (S (2 * 2 ^ d))%nat with (1 + 2 ^ d * 2)%nat by lia.
      by rewrite Nat.div_add. }
    rewrite (merkle_root_next (l1 ++ l2)) by (rewrite length_app; lia).
    rewrite next_level_app by (rewrite H1; by exists (2 ^ d)%nat).
    rewrite IH by auto. by rewrite <-!merkle_root_next by lia.
Qed.

(** A level of odd length hashes like the same level with its last element
    repeated: the root does not bind the number of leaves. *)
Lemma merkle_root_duplicate_last l x :
  l <> [] -> Nat.Even (length l) ->
  merkle_root (l ++ [x]) = merkle_root (l ++ [x; x]).
Proof.
  intros Hne Hev. assert (0 < length l)%nat by (destruct l; simpl; [done|lia]).
  rewrite (merkle_root_next (l ++ [x])), (merkle_root_next (l ++ [x; x]))
    by (rewrite length_app; simpl; lia).
  by rewrite !next_level_app.
Qed.
End merkle.

(** ** What a root binds *)

Section binding.
Context `{HashLaws}.
Local Open Scope Z_scope.

(** A hex-encoded SHA-256 hash. *)
Definition digest (s : string) : Prop :=
  String.length s = 64%nat /\ string_forallb is_hex_digit s = true.

Lemma hash_str_digest s : digest (hash_str s).
Proof.
  unfold digest, hash_str, hash_bytes.
  by rewrite hex_encode_length, sha256_length, hex_encode_digits.
Qed.

Lemma digest_free c s : is_hex_digit c = false -> digest s -> free_of c s = true.
Proof.
  intros Hc [_ Hs]. eapply string_forallb_impl; [|exact Hs].
  intros a Ha. apply negb_true_iff, Ascii.eqb_neq. intros ->. congruence.
Qed.

Lemma digest_app_inj a b a' b' :
  digest a -> digest a' -> a +:+ b = a' +:+ b' -> a = a' /\ b = b'.
Proof. intros [Ha _] [Ha' _]. apply append_inj_length. congruence. Qed.

Lemma next_level_digest l : Forall digest (next_level l).
Proof. rewrite next_level_inputs. apply Forall_map, Forall_true. apply hash_str_digest. Qed.

(** *** Among given texts

    [L] has all the texts hashed in what follows; the lemmas say in which way
    two of them collide. *)
Section among.
Variable L : list string.

Lemma hash_str_inj s t :
  s ∈ L -> t ∈ L -> hash_str s = hash_str t -> s = t \/ collides_in L.
Proof.
  intros Hs Ht Heq%hex_encode_inj. destruct (decide (s = t)) as [|Hne]; [by left|].
  right. apply Exists_exists. exists s. split; [done|]. apply Exists_exists. by exists t.
Qed.

(** Inner nodes hash the concatenation of two hashes, leaves hash a text with
    a colon: no node is both, short of a collision.  [node k] is the shape
    of a node [k] levels above the leaves. *)
Fixpoint node (k : nat) (x : string) : Prop :=
  match k with
  | O => exists p, x = hash_str p /\ p ∈ L /\ free_of ":" p = false
  | S k => exists a b, x = hash_str (a +:+ b) /\ a +:+ b ∈ L /\ node k a /\ node k b
  end.

Lemma node_digest k x : node k x -> digest x.
Proof. destruct k; simpl; intros; simplify_hyps; apply hash_str_digest. Qed.

Lemma node_digests k l : Forall (node k) l -> Forall digest l.
Proof. intros Hl. eapply Forall_impl; [exact Hl|]. intros x. apply node_digest. Qed.

Lemma nodes_free k a b : node k a -> node k b -> free_of ":" (a +:+ b) = true.
Proof.
  intros Ha%node_digest Hb%node_digest.
  by rewrite free_of_app, !(digest_free ":").
Qed.

Lemma node_height_unique j k x : node j x -> node k x -> j = k \/ collides_in L.
Proof.
  revert k x. induction j as [|j IH]; intros [|k] x; cbn [node].
  - by left.
  - intros (p & -> & HpL & Hp) (a & b & Heq & HL & Ha & Hb).
    apply hash_str_inj in Heq as [->|]; [|by right|done..]. exfalso.
    by rewrite (nodes_free k) in Hp.
  - intros (a & b & -> & HL & Ha & Hb) (p & Heq & HpL & Hp).
    apply hash_str_inj in Heq as [<-|]; [|by right|done..]. exfalso.
    by rewrite (nodes_free j) in Hp.
  - intros (a & b & -> & HL & Ha & Hb) (a' & b' & Heq & HL' & Ha' & Hb').
    apply hash_str_inj in Heq as [Heq|]; [|by right|done..].
    apply digest_app_inj in Heq as [-> ->]; eauto using node_digest.
    destruct (IH _ _ Ha Ha') as [->|]; [by left|by right].
Qed.

(** The hash of a pair of digests determines the pair. *)
Lemma hash_pair_inj a b c d :
  a +:+ b ∈ L -> c +:+ d ∈ L -> digest a -> digest c ->
  hash_str (a +:+ b) = hash_str (c +:+ d) -> (a = c /\ b = d) \/ collides_in L.
Proof.
  intros Hab Hcd Ha Hc [Heq|]%hash_str_inj; [|by right|done..].
  left. by apply digest_app_inj.
Qed.

(** [L] has the texts of a pair and of the rest of its level. *)
Lemma level_inputs_cons2 a b l :
  level_inputs (a :: b :: l) ⊆ L <-> a +:+ b ∈ L /\ level_inputs l ⊆ L.
Proof. unfold level_inputs. cbn [chunks2 map combined]. set_solver. Qed.

Lemma level_inputs_one a : level_inputs [a] ⊆ L <-> a +:+ a ∈ L.
Proof. unfold level_inputs. cbn [chunks2 map combined]. set_solver. Qed.

Ltac split_inputs :=
  repeat match goal with
  | Hi : level_inputs (_ :: _ :: _) ⊆ L |- _ => apply level_inputs_cons2 in Hi as [? ?]
  | Hi : level_inputs [_] ⊆ L |- _ => apply level_inputs_one in Hi
  end.

Lemma merkle_inputs_split l :
  (1 < length l)%nat -> merkle_inputs l ⊆ L ->
  level_inputs l ⊆ L /\ merkle_inputs (next_level l) ⊆ L.
Proof. intros Hl. rewrite merkle_inputs_next by done. set_solver. Qed.

Lemma next_level_node k l :
  level_inputs l ⊆ L -> Forall (node k) l -> Forall (node (S k)) (next_level l).
Proof.
  unfold next_level.
  induction l as [|a|a b l IH] using list_ind2; intros HL Hl; [done|..].
  - apply level_inputs_one in HL. inversion_clear Hl. repeat constructor. by exists a, a.
  - apply level_inputs_cons2 in HL as [Hab HL].
    inversion_clear Hl as [|? ? Ha Hl']. inversion_clear Hl' as [|? ? Hb Hl].
    constructor; [by exists a, b|by apply IH].
Qed.

Lemma merkle_root_node k l :
  l <> [] -> merkle_inputs l ⊆ L -> Forall (node k) l ->
  exists j, node (k + j) (merkle_root l) /\ ((1 < length l)%nat -> (0 < j)%nat).
Proof.
  intros Hne. revert k. pattern l. revert l Hne. apply level_ind.
  - intros x k _ Hx. inversion_clear Hx. exists 0%nat.
    rewrite Nat.add_0_r. split; [done|]. simpl; lia.
  - intros l Hl IH k [HL HLn]%merkle_inputs_split Hk; [|done].
    destruct (IH (S k)) as (j & Hj & _); [done|by apply next_level_node|].
    exists (S j). rewrite (merkle_root_next l Hl).
    rewrite Nat.add_succ_r. split; [exact Hj|lia].
Qed.

(** One level up is injective on lists of distinct hashes, and keeps them
    distinct. *)
Lemma elem_of_level_inputs x l :
  x ∈ level_inputs l -> exists a b, x = a +:+ b /\ a ∈ l /\ b ∈ l.
Proof.
  unfold level_inputs. rewrite list_elem_of_fmap.
  induction l as [|a|a b l IH] using list_ind2; simpl; intros ([c o] & -> & Hin).
  - by apply elem_of_nil in Hin.
  - apply list_elem_of_singleton in Hin as [= -> ->].
    exists a, a. repeat split; constructor.
  - apply elem_of_cons in Hin as [[= -> ->]|Hin].
    + exists a, b. repeat split; repeat constructor.
    + destruct IH as (a' & b' & ? & ? & ?); [by exists (c, o)|].
      exists a', b'. split; [done|]. split; by do 2 right.
Qed.

Lemma next_level_NoDup l :
  level_inputs l ⊆ L -> Forall digest l -> NoDup l -> NoDup (next_level l) \/ collides_in L.
Proof.
  induction l as [|a|a b l IH] using list_ind2; intros HL Hd Hnd.
  - left. constructor.
  - left. apply NoDup_singleton.
  - apply level_inputs_cons2 in HL as [Hab HL].
    apply NoDup_cons in Hnd as [Ha Hnd]. apply NoDup_cons in Hnd as [Hb Hnd].
    inversion_clear Hd as [|? ? Hda Hd']. inversion_clear Hd' as [|? ? Hdb Hd].
    destruct IH as [IH|]; [done..| |by right].
    destruct (decide (hash_str (a +:+ b) ∈ next_level l)) as [Hin|Hin].
    + rewrite next_level_inputs in Hin. apply list_elem_of_fmap in Hin as (p & Heq & Hp).
      apply hash_str_inj in Heq as [Heq|]; [|by right|done|by apply HL]. exfalso.
      apply elem_of_level_inputs in Hp as (a' & b' & -> & Ha' & Hb').
      apply digest_app_inj in Heq as [-> ->]; [|done|by eapply Forall_forall in Hd].
      apply Ha. by right.
    + left. by constructor.
Qed.

Lemma next_level_inj l1 l2 :
  level_inputs l1 ⊆ L -> level_inputs l2 ⊆ L ->
  Forall digest l1 -> Forall digest l2 -> NoDup l1 -> NoDup l2 ->
  next_level l1 = next_level l2 -> l1 = l2 \/ collides_in L.
Proof.
  revert l2. induction l1 as [|a|a b l1 IH] using list_ind2;
    intros [|c [|d l2]] HL1 HL2 Hd1 Hd2 Hn1 Hn2 Heq; try discriminate; [by left|..];
    split_inputs;
    rewrite ?Forall_cons in Hd1, Hd2; rewrite ?NoDup_cons in Hn1, Hn2; destruct_and?;
    injection Heq as Heq; intros; unfold hash_chunk, combined in Heq;
    apply hash_pair_inj in Heq as [[? ?]|]; try (by right); try done.
  - subst. by left.
  - subst. by match goal with Hn : ?x ∉ ?x :: _ |- _ => destruct Hn; left end.
  - subst. by match goal with Hn : ?x ∉ ?x :: _ |- _ => destruct Hn; left end.
  - subst. destruct (IH l2) as [->|]; [done..|by left|by right].
Qed.

(** Equal roots of lists of distinct nodes of one height, whatever their
    lengths: the lists are equal. *)
Lemma merkle_root_inj k l1 l2 :
  l1 <> [] -> l2 <> [] -> merkle_inputs l1 ⊆ L -> merkle_inputs l2 ⊆ L ->
  Forall (node k) l1 -> Forall (node k) l2 -> NoDup l1 -> NoDup l2 ->
  merkle_root l1 = merkle_root l2 -> l1 = l2 \/ collides_in L.
Proof.
  intros Hne1. revert k l2. pattern l1. revert l1 Hne1. apply level_ind.
  - intros x k l2 Hne2 _ HL2 Hk1 Hk2 _ _ Heq. rewrite merkle_root_single in Heq.
    destruct l2 as [|y [|y' l2]]; [done|left; by rewrite Heq|].
    destruct (merkle_root_node k (y :: y' :: l2)) as (j & Hj & Hpos); [done..|].
    rewrite <-Heq in Hj. inversion_clear Hk1 as [|? ? Hx _].
    destruct (node_height_unique _ _ _ Hx Hj) as [E|]; [|by right].
    simpl in Hpos. lia.
  - intros l1 Hl1 IH k l2 Hne2 HL1 HL2 Hk1 Hk2 Hn1 Hn2 Heq.
    destruct (merkle_inputs_split l1 Hl1 HL1) as [Hi1 Hi1'].
    destruct (decide (1 < length l2)%nat) as [Hl2|Hl2].
    + destruct (merkle_inputs_split l2 Hl2 HL2) as [Hi2 Hi2'].
      destruct (next_level_NoDup l1) as [Hn1'|]; [done|by eapply node_digests|done| |by right].
      destruct (next_level_NoDup l2) as [Hn2'|]; [done|by eapply node_digests|done| |by right].
      pose proof (next_level_shorter l2 Hl2) as [Hpos _].
      destruct (IH (S k) (next_level l2)) as [E|]; try done; try by apply next_level_node.
      * intros E. rewrite E in Hpos. simpl in Hpos. lia.
      * by rewrite <-!merkle_root_next.
      * eapply next_level_inj; eauto using node_digests.
      * by right.
    + destruct l2 as [|y [|]]; [done| |simpl in Hl2; lia].
      rewrite merkle_root_single in Heq.
      destruct (merkle_root_node k l1) as (j & Hj & Hpos); [|done|done|].
      { intros ->. simpl in Hl1. lia. }
      rewrite Heq in Hj. inversion_clear Hk2 as [|? ? Hy _].
      destruct (node_height_unique _ _ _ Hy Hj) as [E|]; [|by right]. lia.
Qed.

(** With the number of leaves known, any list of hashes is bound. *)
Lemma next_level_inj_length l1 l2 :
  level_inputs l1 ⊆ L -> level_inputs l2 ⊆ L ->
  length l1 = length l2 -> Forall digest l1 -> Forall digest l2 ->
  next_level l1 = next_level l2 -> l1 = l2 \/ collides_in L.
Proof.
  revert l2. induction l1 as [|a|a b l1 IH] using list_ind2;
    intros [|c [|d l2]] HL1 HL2 Hlen Hd1 Hd2 Heq; try discriminate; [by left|..];
    split_inputs;
    rewrite ?Forall_cons in Hd1, Hd2; destruct_and?;
    injection Heq as Heq; intros; unfold hash_chunk, combined in Heq;
    apply hash_pair_inj in Heq as [[? ?]|]; try (by right); try done;
    subst; [by left|].
  injection Hlen as Hlen. destruct (IH l2) as [->|]; [done..|by left|by right].
Qed.

Lemma merkle_root_inj_length l1 l2 :
  l1 <> [] -> merkle_inputs l1 ⊆ L -> merkle_inputs l2 ⊆ L ->
  length l1 = length l2 -> Forall digest l1 -> Forall digest l2 ->
  merkle_root l1 = merkle_root l2 -> l1 = l2 \/ collides_in L.
Proof.
  intros Hne1. revert l2. pattern l1. revert l1 Hne1. apply level_ind.
  - intros x [|y [|]] _ _ Hlen _ _ Heq; try discriminate. left. by f_equal.
  - intros l1 Hl1 IH l2 HL1 HL2 Hlen Hd1 Hd2 Heq.
    assert (1 < length l2)%nat as Hl2 by by rewrite <-Hlen.
    destruct (merkle_inputs_split l1 Hl1 HL1) as [Hi1 Hi1'].
    destruct (merkle_inputs_split l2 Hl2 HL2) as [Hi2 Hi2'].
    destruct (IH (next_level l2)) as [E|]; try done; try apply next_level_digest.
    + by rewrite !length_next_level, Hlen.
    + by rewrite <-!merkle_root_next.
    + by apply next_level_inj_length.
    + by right.
Qed.
End among.

(** *** States *)

(** The leaves of two states of [u64] balances determine the states. *)
Lemma state_leaf_inj k1 v1 k2 v2 :
  0 <= v1 -> 0 <= v2 -> state_leaf (k1, v1) = state_leaf (k2, v2) -> (k1, v1) = (k2, v2).
Proof.
  unfold state_leaf. simpl. intros Hv1 Hv2 Heq.
  apply split_last_unique in Heq as [-> Heq]; [|by apply fmt_u64_free..].
  by apply fmt_u64_inj in Heq as ->.
Qed.

Definition state_leaves (state : gmap string Z) : list string :=
  map (fun kv => hash_str (state_leaf kv)) (btree_iter state).

Lemma state_leaves_ne state : state <> ∅ -> state_leaves state <> [].
Proof. by intros Hs E%map_eq_nil%btree_iter_nil. Qed.

Lemma state_root_leaves state :
  state <> ∅ -> state_root state = merkle_root (state_leaves state).
Proof.
  intros Hne. unfold state_root, state_leaves.
  destruct (btree_iter state) as [|kv l] eqn:E; [|done].
  by apply btree_iter_nil in E.
Qed.

Lemma state_inputs_leaves state :
  state <> ∅ ->
  state_inputs state = map state_leaf (btree_iter state) ++ merkle_inputs (state_leaves state).
Proof.
  intros Hne. unfold state_inputs, state_leaves.
  destruct (btree_iter state) as [|kv l] eqn:E; [|done].
  by apply btree_iter_nil in E.
Qed.

Lemma state_leaf_colon kv : free_of ":" (state_leaf kv) = false.
Proof.
  unfold state_leaf. rewrite free_of_app.
  change (free_of ":" (":" +:+ fmt_u64 kv.2)) with false.
  apply andb_false_r.
Qed.

Lemma state_leaves_node L state :
  map state_leaf (btree_iter state) ⊆ L -> Forall (node L 0) (state_leaves state).
Proof.
  intros HL. apply Forall_forall. intros x (kv & -> & Hkv)%list_elem_of_fmap.
  exists (state_leaf kv). split; [done|]. split; [|apply state_leaf_colon].
  apply HL, list_elem_of_fmap. by exists kv.
Qed.

Definition u64_state (state : gmap string Z) : Prop := map_Forall (fun _ v => is_u64 v) state.

Lemma btree_iter_nonneg state :
  u64_state state -> Forall (fun kv => 0 <= kv.2) (btree_iter state).
Proof.
  intros Hs. apply Forall_forall. intros [k v] Hkv%elem_of_btree_iter.
  apply (Hs k v Hkv).
Qed.

Section states_among.
Variable L : list string.

(** Hashing lists of bindings is injective, short of a collision. *)
Lemma leaf_hashes_inj l1 l2 :
  map state_leaf l1 ⊆ L -> map state_leaf l2 ⊆ L ->
  Forall (fun kv => 0 <= kv.2) l1 -> Forall (fun kv => 0 <= kv.2) l2 ->
  map (fun kv => hash_str (state_leaf kv)) l1 = map (fun kv => hash_str (state_leaf kv)) l2 ->
  l1 = l2 \/ collides_in L.
Proof.
  intros HL1 HL2 H1. revert l2 HL1 HL2. induction H1 as [|[k v] l1 Hv H1 IH];
    intros [|[k' v'] l2] HL1 HL2 H2 Heq; try discriminate; [by left|].
  cbn [map] in *. injection Heq as Heq Hl. inversion_clear H2 as [|? ? Hv' Hl2].
  apply (hash_str_inj L) in Heq as [Heq|]; [|by right|set_solver..].
  apply state_leaf_inj in Heq as [= -> ->]; [|done..].
  destruct (IH l2) as [->|]; [set_solver..|done|done|by left|by right].
Qed.

Lemma leaf_hashes_NoDup l :
  map state_leaf l ⊆ L -> Forall (fun kv => 0 <= kv.2) l -> NoDup l ->
  NoDup (map (fun kv => hash_str (state_leaf kv)) l) \/ collides_in L.
Proof.
  intros HL Hl Hnd. induction Hnd as [|[k v] l Hin Hnd IH]; [left; constructor|].
  inversion_clear Hl as [|? ? Hv Hl']. cbn [map] in *.
  destruct IH as [IH'|]; [set_solver|done| |by right].
  destruct (decide (hash_str (state_leaf (k, v)) ∈
                    map (fun kv => hash_str (state_leaf kv)) l)) as [Hc|Hc].
  - apply list_elem_of_fmap in Hc as ([k' v'] & Heq & Hkv').
    assert (state_leaf (k', v') ∈ map state_leaf l)
      by (apply list_elem_of_fmap; by exists (k', v')).
    apply (hash_str_inj L) in Heq as [Heq|]; [|by right|set_solver..].
    pose proof (proj1 (Forall_forall _ _) Hl' _ Hkv').
    apply state_leaf_inj in Heq as [= -> ->]; done.
  - left. by constructor.
Qed.

(** The root of the empty state is the root of no other state. *)
Lemma empty_root_other state :
  state <> ∅ -> "empty_state" ∈ L -> state_inputs state ⊆ L ->
  hash_str "empty_state" = state_root state -> collides_in L.
Proof.
  intros Hne HL. rewrite state_inputs_leaves by done. intros [Hl Hm]%list_subseteq_app_iff_l Heq.
  rewrite state_root_leaves in Heq by done.
  destruct (merkle_root_node L 0 (state_leaves state)) as ([|j] & Hj & _).
  - by apply state_leaves_ne.
  - done.
  - by apply state_leaves_node.
  - destruct Hj as (p & Hp & HpL & Hf). rewrite <-Heq in Hp.
    by apply (hash_str_inj L) in Hp as [<-|].
  - destruct Hj as (a & b & Hp & Hab & Ha & Hb). rewrite <-Heq in Hp.
    apply (hash_str_inj L) in Hp as [Hp|]; [|done..].
    apply node_digest in Ha as [Ha _]. apply (f_equal String.length) in Hp.
    rewrite string_length_app, Ha in Hp. simpl in Hp. lia.
Qed.
End states_among.

(** Every state root is a digest. *)
Lemma state_root_digest state : digest (state_root state).
Proof.
  destruct (decide (state = ∅)) as [->|Hne]; [apply hash_str_digest|].
  rewrite state_root_leaves by done.
  assert (state_inputs state ⊆ state_inputs state) as HL by done.
  rewrite state_inputs_leaves in HL at 1 by done. apply list_subseteq_app_iff_l in HL as [Hl Hm].
  destruct (merkle_root_node (state_inputs state) 0 (state_leaves state)) as (j & Hj & _).
  - by apply state_leaves_ne.
  - done.
  - by apply state_leaves_node.
  - by eapply node_digest.
Qed.

(** Equal state roots mean equal states, or a collision among the texts hashed
    for the two. *)
Lemma state_root_inj s1 s2 :
  u64_state s1 -> u64_state s2 -> state_root s1 = state_root s2 ->
  s1 = s2 \/ collides_in (state_inputs s1 ++ state_inputs s2).
Proof.
  intros H1 H2 Heq. set (L := state_inputs s1 ++ state_inputs s2).
  assert (state_inputs s1 ⊆ L /\ state_inputs s2 ⊆ L) as [HL1 HL2] by set_solver.
  clearbody L.
  destruct (decide (s1 = ∅)) as [->|Hne1], (decide (s2 = ∅)) as [->|Hne2].
  - by left.
  - right. eapply empty_root_other; [exact Hne2|set_solver|done|exact Heq].
  - right. eapply empty_root_other; [exact Hne1|set_solver|done|exact (eq_sym Heq)].
  - rewrite state_inputs_leaves in HL1, HL2 by done.
    destruct (proj1 (list_subseteq_app_iff_l _ _ _) HL1) as [Hl1 Hm1].
    destruct (proj1 (list_subseteq_app_iff_l _ _ _) HL2) as [Hl2 Hm2].
    destruct (leaf_hashes_NoDup L (btree_iter s1)) as [Hn1|];
      [done|by apply btree_iter_nonneg|apply btree_iter_NoDup| |by right].
    destruct (leaf_hashes_NoDup L (btree_iter s2)) as [Hn2|];
      [done|by apply btree_iter_nonneg|apply btree_iter_NoDup| |by right].
    rewrite !state_root_leaves in Heq by done.
    destruct (merkle_root_inj L 0 (state_leaves s1) (state_leaves s2)) as [El|];
      auto using state_leaves_node, state_leaves_ne.
    destruct (leaf_hashes_inj L (btree_iter s1) (btree_iter s2)) as [E|];
      auto using btree_iter_nonneg.
    left. by apply btree_iter_inj.
Qed.
End binding.

(** [state_root] and [hash_trace_entry] are the functions of the host's
    [common] crate; the roots of the other crates are defined from them. *)
Arguments merkle_root : simpl never.
Arguments hash_str : simpl never.
Arguments hash_bytes : simpl never.

(** ** The properties *)

(** C10: The state root is binding: two states of machine words with the same
    root are the same state, unless two of the texts that are hashed to compute
    the two roots are different and have the same SHA-256 digest. *)
Theorem state_root_binding `{HashLaws} s1 s2 :
  u64_state s1 -> u64_state s2 -> state_root s1 = state_root s2 ->
  s1 = s2 \/ collides_in (state_inputs s1 ++ state_inputs s2).
Proof. apply state_root_inj. Qed.

(** C40: The Merkle root does not bind the number of leaves: every list of an
    odd number of leaves, three or more, has the same root as the list with its
    last leaf repeated.  A single leaf is its own root, and two copies of it
    have the root of their concatenation. *)
Theorem merkle_root_malleable `{HashLib} l x :
  (Nat.Odd (length (l ++ [x])) -> (3 <= length (l ++ [x]))%nat ->
   merkle_root ((l ++ [x]) ++ [x]) = merkle_root (l ++ [x])) /\
  merkle_root [x] = x /\ merkle_root [x; x] = hash_str (x +:+ x).
Proof.
  split; [|done]. rewrite length_app, <-app_assoc. simpl. intros Hodd Hlen. symmetry.
  apply merkle_root_duplicate_last; [intros ->; simpl in Hlen; lia|].
  rewrite Nat.add_1_r in Hodd. by apply Nat.Odd_succ.
Qed.
