(* ===== verification/Types.v ===== *)
(** * Shared data, errors and clocks

    [crates/common/src/types.rs], [errors.rs] and [clock.rs]: the data the
    pipeline stages exchange, the error enums with their [Display] texts, and
    the clock interface with both clocks (where the nodes use [SystemClock], its
    readings are arguments).  The metrics records hold floats and live in
    [Metrics]. *)

From Stdlib Require Import ZArith Lia String Strings.Byte.
From stdpp Require Import base list strings option.
From S2P Require Import Prelude RustNum RustFmt.

Local Open Scope Z_scope.

(** ** Transactions *)

Record TransactionId := mkTransactionId { as_str : string }.

#[export] Instance TransactionId_eq_dec : EqDecision TransactionId.
Proof. intros [s] [t]. destruct (decide (s = t)); [left|right]; congruence. Defined.

Inductive TransactionPriority := Low | Normal | High | Critical.

#[export] Instance TransactionPriority_eq_dec : EqDecision TransactionPriority.
Proof. solve_decision. Defined.

(** The discriminants, which [derive(PartialOrd, Ord)] compares. *)
Definition priority_discr (p : TransactionPriority) : Z :=
  match p with Low => 0 | Normal => 1 | High => 2 | Critical => 3 end.

(** [p >= q] *)
Definition priority_ge (p q : TransactionPriority) : bool :=
  priority_discr q <=? priority_discr p.

Definition TransactionPriority_default : TransactionPriority := Normal.

Record Transaction := mkTransaction {
  tx_id : TransactionId;
  arrival_ts : Z;
  sender : string;
  program_id : string;
  accounts : list string;
  instruction_data : list byte;
  priority : TransactionPriority;
  estimated_cu : Z;
  deadline_ms : option Z;
}.

(** [Transaction::new] *)
Definition Transaction_new (id : TransactionId) (snd prog : string) : Transaction := {|
  tx_id := id;
  arrival_ts := 0;
  sender := snd;
  program_id := prog;
  accounts := [];
  instruction_data := [];
  priority := TransactionPriority_default;
  estimated_cu := 200000;
  deadline_ms := None;
|}.

(** The callers of [Transaction::new] then assign some of the fields. *)
Definition tx_set_instruction_data (d : list byte) (tx : Transaction) : Transaction :=
  let 'mkTransaction id ts s p a _ pr cu dl := tx in mkTransaction id ts s p a d pr cu dl.
Definition tx_set_priority (pr : TransactionPriority) (tx : Transaction) : Transaction :=
  let 'mkTransaction id ts s p a d _ cu dl := tx in mkTransaction id ts s p a d pr cu dl.
Definition tx_set_arrival_ts (ts : Z) (tx : Transaction) : Transaction :=
  let 'mkTransaction id _ s p a d pr cu dl := tx in mkTransaction id ts s p a d pr cu dl.
Definition tx_set_estimated_cu (cu : Z) (tx : Transaction) : Transaction :=
  let 'mkTransaction id ts s p a d pr _ dl := tx in mkTransaction id ts s p a d pr cu dl.

(** ** Batches *)

Inductive BatchStatus := Pending | Sealed | Executed | ProofGenerated | Verified | Failed.

#[export] Instance BatchStatus_eq_dec : EqDecision BatchStatus.
Proof. solve_decision. Defined.

Inductive SealReason :=
| CountThreshold | TimeThreshold | LatencyBudget | PriorityFastLane | Manual | Adaptive.

#[export] Instance SealReason_eq_dec : EqDecision SealReason.
Proof. solve_decision. Defined.

Definition SealReason_display (r : SealReason) : string :=
  match r with
  | CountThreshold => "count_threshold"
  | TimeThreshold => "time_threshold"
  | LatencyBudget => "latency_budget"
  | PriorityFastLane => "priority_fast_lane"
  | Manual => "manual"
  | Adaptive => "adaptive"
  end.

Record Batch := mkBatch {
  b_batch_id : string;
  b_tx_ids : list TransactionId;
  b_start_ts : Z;
  b_seal_ts : Z;
  b_reason_sealed : SealReason;
  b_batch_hash : string;
  b_trace_hash : option string;
  b_proof_hash : option string;
  b_status : BatchStatus;
  b_total_cu : Z;
}.

(** [Batch::new] *)
Definition Batch_new (id : string) (start_ts : Z) : Batch := {|
  b_batch_id := id;
  b_tx_ids := [];
  b_start_ts := start_ts;
  b_seal_ts := 0;
  b_reason_sealed := Manual;
  b_batch_hash := "";
  b_trace_hash := None;
  b_proof_hash := None;
  b_status := Pending;
  b_total_cu := 0;
|}.

Definition Batch_size (b : Batch) : Z := Z.of_nat (length (b_tx_ids b)).

(** ** Execution traces *)

Record TraceEntry := mkTraceEntry {
  te_tx_idx : Z;
  te_tx_id : TransactionId;
  te_pre_state_hash : string;
  te_instruction : string;
  te_accounts_read : list string;
  te_accounts_written : list string;
  te_post_state_hash : string;
  te_compute_used : Z;
  te_success : bool;
  te_error : option string;
}.

Record ExecutionTrace := mkExecutionTrace {
  et_batch_id : string;
  et_entries : list TraceEntry;
  et_state_root_pre : string;
  et_state_root_post : string;
  et_trace_hash : string;
  et_total_compute : Z;
  et_success_count : Z;
  et_failure_count : Z;
}.

(** [ExecutionTrace::new] *)
Definition ExecutionTrace_new (id root_pre : string) : ExecutionTrace := {|
  et_batch_id := id;
  et_entries := [];
  et_state_root_pre := root_pre;
  et_state_root_post := "";
  et_trace_hash := "";
  et_total_compute := 0;
  et_success_count := 0;
  et_failure_count := 0;
|}.

(** ** Proofs and verification results *)

Record ProofCommitment := mkProofCommitment {
  pc_batch_hash : string;
  pc_trace_hash : string;
  pc_state_root_pre : string;
  pc_state_root_post : string;
  pc_total_compute : Z;
  pc_tx_count : Z;
}.

(** The struct [Proof] of [types.rs]. *)
Record BatchProof := mkBatchProof {
  pf_batch_id : string;
  pf_proof_data : list byte;
  pf_proof_hash : string;
  pf_commitment : ProofCommitment;
  pf_generated_at : Z;
  pf_proving_time_ms : Z;
  pf_proof_size_bytes : Z;
}.

Record VerificationResult := mkVerificationResult {
  vr_batch_id : string;
  vr_is_valid : bool;
  vr_verification_time_ms : Z;
  vr_error : option string;
}.

(** ** Errors *)

Inductive IngressError :=
| InvalidFormat (s : string)
| InvalidSender (s : string)
| InvalidProgram (s : string)
| IngressComputeBudgetExceeded (requested max : Z)
| EmptyInstruction
| ValidationFailed (s : string).

Definition IngressError_display (e : IngressError) : string :=
  match e with
  | InvalidFormat s => "invalid transaction format: " +:+ s
  | InvalidSender s => "invalid sender: " +:+ s
  | InvalidProgram s => "invalid program ID: " +:+ s
  | IngressComputeBudgetExceeded r m =>
      "compute budget " +:+ fmt_u64 r +:+ " exceeds maximum " +:+ fmt_u64 m
  | EmptyInstruction => "empty instruction data"
  | ValidationFailed s => "validation failed: " +:+ s
  end.

Inductive ExecError :=
| InvalidOpcode (op : Z)
| InsufficientBalance (needed available : Z)
| AccountNotFound (s : string)
| ExecComputeBudgetExceeded (used limit : Z)
| BatchFailed (s : string)
| StateCorruption (s : string).

Definition ExecError_display (e : ExecError) : string :=
  match e with
  | InvalidOpcode op => "invalid instruction opcode: " +:+ fmt_u64 op
  | InsufficientBalance n a =>
      "insufficient balance for transfer: need " +:+ fmt_u64 n +:+ ", have " +:+ fmt_u64 a
  | AccountNotFound s => "account not found: " +:+ s
  | ExecComputeBudgetExceeded u l =>
      "compute budget exceeded: used " +:+ fmt_u64 u +:+ ", limit " +:+ fmt_u64 l
  | BatchFailed s => "batch execution failed: " +:+ s
  | StateCorruption s => "state corruption detected: " +:+ s
  end.

Inductive ProveError :=
| InvalidTrace (s : string)
| CommitmentFailed (s : string)
| SerializationFailed (s : string)
| Internal (s : string).

Definition ProveError_display (e : ProveError) : string :=
  match e with
  | InvalidTrace s => "invalid trace: " +:+ s
  | CommitmentFailed s => "commitment generation failed: " +:+ s
  | SerializationFailed s => "proof serialization failed: " +:+ s
  | Internal s => "prover internal error: " +:+ s
  end.

Inductive VerifyError :=
| CommitmentMismatch (expected actual : string)
| InvalidProofFormat (s : string)
| TraceHashMismatch
| StateRootMismatch (pre_match post_match : bool)
| VerificationFailed (s : string).

Definition VerifyError_display (e : VerifyError) : string :=
  match e with
  | CommitmentMismatch e a => "commitment mismatch: expected " +:+ e +:+ ", got " +:+ a
  | InvalidProofFormat s => "invalid proof format: " +:+ s
  | TraceHashMismatch => "trace hash mismatch"
  | StateRootMismatch p q =>
      "state root mismatch: pre=" +:+ fmt_bool p +:+ ", post=" +:+ fmt_bool q
  | VerificationFailed s => "verification failed: " +:+ s
  end.

(** [PipelineError], with the [#[from]] conversions as its first four
    constructors. *)
Inductive PipelineError :=
| IngressErr (e : IngressError)
| ExecutionErr (e : ExecError)
| ProvingErr (e : ProveError)
| VerificationErr (e : VerifyError)
| EmptyQueue
| BatchNotFound (s : string)
| ConfigErr (s : string).

Definition PipelineError_display (e : PipelineError) : string :=
  match e with
  | IngressErr e => "ingress error: " +:+ IngressError_display e
  | ExecutionErr e => "execution error: " +:+ ExecError_display e
  | ProvingErr e => "proving error: " +:+ ProveError_display e
  | VerificationErr e => "verification error: " +:+ VerifyError_display e
  | EmptyQueue => "queue is empty"
  | BatchNotFound s => "batch not found: " +:+ s
  | ConfigErr s => "configuration error: " +:+ s
  end.

(** ** Clocks *)

(** The trait [Clock].  Its methods take [&self]; the time they change is the
    state passed along. *)
Class Clock (C : Type) := {
  now_ms : C -> Z;
  advance : C -> Z -> C;
  sleep_ms : C -> Z -> C;
}.

Record VirtualClock := mkVirtualClock { current_ms : Z }.

Definition VirtualClock_new (start_ms : Z) : VirtualClock := mkVirtualClock start_ms.
Definition VirtualClock_set (c : VirtualClock) (ms : Z) : VirtualClock := mkVirtualClock ms.
Definition VirtualClock_default : VirtualClock := VirtualClock_new 0.
Definition VirtualClock_now_ms (c : VirtualClock) : Z := current_ms c.
Definition VirtualClock_advance (c : VirtualClock) (ms : Z) : VirtualClock :=
  mkVirtualClock (u64_wrapping_add (current_ms c) ms).
Definition VirtualClock_sleep_ms (c : VirtualClock) (ms : Z) : VirtualClock :=
  VirtualClock_advance c ms.

#[export] Instance VirtualClock_Clock : Clock VirtualClock := {
  now_ms := VirtualClock_now_ms;
  advance := VirtualClock_advance;
  sleep_ms := VirtualClock_sleep_ms;
}.

(** What the pipeline asks of a clock: advancing by an amount that fits moves
    the time by exactly that amount, and so does sleeping. *)
Class ClockLaws (C : Type) `{Clock C} : Prop := {
  now_ms_u64 c : is_u64 (now_ms c) -> forall ms, is_u64 (now_ms (advance c ms));
  now_ms_advance c ms :
    0 <= ms -> is_u64 (now_ms c + ms) -> is_u64 (now_ms c) ->
    now_ms (advance c ms) = now_ms c + ms;
  sleep_advance c ms : sleep_ms c ms = advance c ms;
}.

#[export] Instance VirtualClock_laws : ClockLaws VirtualClock.
Proof.
  split.
  - intros c _ ms. apply Z.mod_pos_bound, u64_bound_pos.
  - intros c ms _ Hfit _. by apply Z.mod_small.
  - done.
Qed.

(** [SystemClock], which has no state of its own: what it reads is the state of
    the operating system, the nanoseconds since the epoch (negative before it)
    and the moment a sleep ends. *)
Record SystemClock := mkSystemClock {
  os_nanos : Z;
  os_wakes : Z -> Z -> Z;      (* from the moment and the milliseconds asked for *)
}.

(** [as_millis() as u64], and 0 before the epoch. *)
Definition SystemClock_now_ms (c : SystemClock) : Z :=
  if os_nanos c <? 0 then 0 else (os_nanos c / 1000000) mod u64_bound.
Definition SystemClock_advance (c : SystemClock) (ms : Z) : SystemClock := c.
Definition SystemClock_sleep_ms (c : SystemClock) (ms : Z) : SystemClock :=
  mkSystemClock (os_wakes c (os_nanos c) ms) (os_wakes c).

#[export] Instance SystemClock_Clock : Clock SystemClock | 10 := {
  now_ms := SystemClock_now_ms;
  advance := SystemClock_advance;
  sleep_ms := SystemClock_sleep_ms;
}.

Lemma SystemClock_now_u64 c : is_u64 (SystemClock_now_ms c).
Proof.
  unfold SystemClock_now_ms. destruct (os_nanos c <? 0); [by split|].
  apply Z.mod_pos_bound, u64_bound_pos.
Qed.

(** A sleep that lasts at least as long as asked, as [thread::sleep] does, moves
    the clock by at least that, until the milliseconds overflow a [u64]. *)
Lemma SystemClock_sleeps c ms :
  0 <= os_nanos c -> 0 <= ms -> os_nanos c + ms * 1000000 <= os_wakes c (os_nanos c) ms ->
  os_wakes c (os_nanos c) ms < u64_bound * 1000000 ->
  SystemClock_now_ms c + ms <= SystemClock_now_ms (SystemClock_sleep_ms c ms).
Proof.
  intros H0 Hms Hle Hlt. unfold SystemClock_now_ms, SystemClock_sleep_ms. cbn [os_nanos].
  set (x := os_nanos c) in *. set (y := os_wakes c x ms) in *. clearbody x y.
  rewrite (proj2 (Z.ltb_ge x 0)), (proj2 (Z.ltb_ge y 0)) by lia.
  rewrite !Z.mod_small by (Z.to_euclidean_division_equations; lia).
  Z.to_euclidean_division_equations; lia.
Qed.

(** It is no clock for the pipeline: advancing it does nothing. *)
Lemma SystemClock_no_laws : ~ ClockLaws SystemClock.
Proof.
  intros Hl. pose proof (@now_ms_advance _ _ Hl (mkSystemClock 0 (fun t _ => t)) 1) as Ha.
  cbv in Ha. discriminate Ha; (by split) || done.
Qed.
