(* ===== verification/TraceBuilder.v ===== *)
(** * Trace building ([crates/trace-builder/src/lib.rs])

    The builder accumulates one entry per executed transaction and commits to
    them.  [trace_consistent] is what a finished trace promises to its
    consumers (prover, verifier, nodes); [build_consistent] shows that
    whatever sequence of [add_entry] calls is made, [build] delivers it. *)

From Stdlib Require Import ZArith Lia Ascii String Bool.
From stdpp Require Import base gmap strings list.
From S2P Require Import Prelude RustNum RustFmt BTree Merkle Types.

Local Open Scope Z_scope.

Record TraceBuilder := mkTraceBuilder {
  tb_batch_id : string;
  tb_entries : list TraceEntry;
  tb_pre_state_root : string;
  tb_total_compute : Z;
  tb_success_count : Z;
  tb_failure_count : Z;
}.

Section builder.
Context `{HashLib} (prof : profile).

(** [compute_state_root] of this crate. *)
Definition compute_state_root (state : gmap string Z) : string :=
  if decide (state = ∅) then hash_str "empty_state"
  else
    let leaves := map (fun kv => hash_str (kv.1 +:+ ":" +:+ fmt_u64 kv.2)) (btree_iter state) in
    merkle_root leaves.

Definition TraceBuilder_new (batch_id : string) (initial_state : gmap string Z)
    : TraceBuilder := {|
  tb_batch_id := batch_id;
  tb_entries := [];
  tb_pre_state_root := compute_state_root initial_state;
  tb_total_compute := 0;
  tb_success_count := 0;
  tb_failure_count := 0;
|}.

Definition add_entry (self : TraceBuilder) (tx_idx : Z) (tx_id : TransactionId)
    (pre_state_hash instruction : string) (accounts_read accounts_written : list string)
    (post_state_hash : string) (compute_used : Z) (success : bool) (error : option string)
    : option TraceBuilder :=
  total_compute ← u64_add prof (tb_total_compute self) compute_used;
  success_count ← (if success then u64_add prof (tb_success_count self) 1
                   else Some (tb_success_count self));
  failure_count ← (if success then Some (tb_failure_count self)
                   else u64_add prof (tb_failure_count self) 1);
  Some {|
    tb_batch_id := tb_batch_id self;
    tb_entries := tb_entries self ++
      [{| te_tx_idx := tx_idx; te_tx_id := tx_id; te_pre_state_hash := pre_state_hash;
          te_instruction := instruction; te_accounts_read := accounts_read;
          te_accounts_written := accounts_written; te_post_state_hash := post_state_hash;
          te_compute_used := compute_used; te_success := success; te_error := error |}];
    tb_pre_state_root := tb_pre_state_root self;
    tb_total_compute := total_compute;
    tb_success_count := success_count;
    tb_failure_count := failure_count;
  |}.

(** The hash of an entry, as the closure in [build] computes it. *)
Definition entry_hash (e : TraceEntry) : string :=
  hash_trace_entry (as_str (te_tx_id e)) (te_success e) (te_compute_used e)
    (te_accounts_read e) (te_accounts_written e).

Definition build (self : TraceBuilder) (final_state : gmap string Z) : ExecutionTrace :=
  let post_state_root := compute_state_root final_state in
  let entry_hashes := map entry_hash (tb_entries self) in
  let trace_hash := merkle_root entry_hashes in
  {| et_batch_id := tb_batch_id self;
     et_entries := tb_entries self;
     et_state_root_pre := tb_pre_state_root self;
     et_state_root_post := post_state_root;
     et_trace_hash := trace_hash;
     et_total_compute := tb_total_compute self;
     et_success_count := tb_success_count self;
     et_failure_count := tb_failure_count self |}.

(** Both crates compute the same root. *)
Lemma compute_state_root_eq state : compute_state_root state = state_root state.
Proof.
  unfold compute_state_root. case_decide as E; [by subst|].
  by rewrite state_root_leaves.
Qed.

(** ** What the counters of a builder mean *)

Definition successes (es : list TraceEntry) : list TraceEntry :=
  filter (fun e => te_success e = true) es.
Definition failures (es : list TraceEntry) : list TraceEntry :=
  filter (fun e => te_success e = false) es.

Lemma length_successes_failures es :
  (length (successes es) + length (failures es))%nat = length es.
Proof.
  induction es as [|e es IH]; [done|]. unfold successes, failures in *.
  rewrite !filter_cons. destruct (te_success e); simpl; lia.
Qed.

Lemma successes_app es e :
  successes (es ++ [e]) = successes es ++ (if te_success e then [e] else []).
Proof.
  unfold successes. rewrite filter_app, filter_cons. by destruct (te_success e).
Qed.

Lemma failures_app es e :
  failures (es ++ [e]) = failures es ++ (if te_success e then [] else [e]).
Proof.
  unfold failures. rewrite filter_app, filter_cons. by destruct (te_success e).
Qed.

Definition total_cost (es : list TraceEntry) : Z := Zsum (map te_compute_used es).

Lemma total_cost_snoc es e : total_cost (es ++ [e]) = total_cost es + te_compute_used e.
Proof.
  unfold total_cost. rewrite map_app, Zsum_app. cbn [map].
  rewrite Zsum_cons, Zsum_nil. lia.
Qed.

(** The entries' total cost and number are below [2^64]: the counters have
    not overflowed. *)
Definition fits (es : list TraceEntry) : Prop :=
  Forall (fun e => 0 <= te_compute_used e) es /\
  total_cost es < u64_bound /\ Z.of_nat (length es) < u64_bound.

Lemma fits_nonneg es : fits es -> 0 <= total_cost es.
Proof. intros [Hf _]. apply Zsum_nonneg, Forall_map, Hf. Qed.

Lemma fits_app_inv es e : fits (es ++ [e]) -> fits es /\ 0 <= te_compute_used e.
Proof.
  intros (Hf & Hc & Hl). apply Forall_app in Hf as [Hf He]. inversion_clear He.
  rewrite total_cost_snoc in Hc. rewrite length_app in Hl. simpl in *.
  repeat split; [done|lia|lia|done].
Qed.

(** The counters of a builder are those of its entries. *)
Definition counters_ok (es : list TraceEntry) (total succ fail : Z) : Prop :=
  total = total_cost es /\
  succ = Z.of_nat (length (successes es)) /\
  fail = Z.of_nat (length (failures es)).

Definition builder_ok (self : TraceBuilder) : Prop :=
  fits (tb_entries self) ->
  counters_ok (tb_entries self) (tb_total_compute self) (tb_success_count self)
    (tb_failure_count self).

Lemma TraceBuilder_new_ok id s : builder_ok (TraceBuilder_new id s).
Proof. intros _. done. Qed.

(** [add_entry] appends one entry and leaves the identity of the trace
    alone. *)
Lemma add_entry_entries self i id pre ins rd wr post cu ok err self' :
  add_entry self i id pre ins rd wr post cu ok err = Some self' ->
  tb_entries self' = tb_entries self ++ [mkTraceEntry i id pre ins rd wr post cu ok err] /\
  tb_batch_id self' = tb_batch_id self /\
  tb_pre_state_root self' = tb_pre_state_root self.
Proof.
  unfold add_entry. intros (? & _ & (? & _ & (? & _ & [= <-])%bind_Some)%bind_Some)%bind_Some.
  done.
Qed.

Lemma add_entry_ok self i id pre ins rd wr post cu ok err self' :
  add_entry self i id pre ins rd wr post cu ok err = Some self' ->
  builder_ok self -> builder_ok self'.
Proof.
  intros Hadd Hok. pose proof (add_entry_entries _ _ _ _ _ _ _ _ _ _ _ _ Hadd) as (Hes & _).
  unfold builder_ok. rewrite Hes. intros Hfit.
  pose proof (fits_app_inv _ _ Hfit) as [Hfit' Hcu]. simpl in Hcu.
  pose proof (fits_nonneg _ Hfit'). destruct (Hok Hfit') as (Ht & Hs & Hf).
  destruct Hfit as (_ & Hcost & Hlen).
  rewrite total_cost_snoc in Hcost. rewrite length_app in Hlen. simpl in Hcost, Hlen.
  pose proof (length_successes_failures (tb_entries self)).
  unfold counters_ok. rewrite total_cost_snoc, successes_app, failures_app, !length_app.
  unfold add_entry, u64_add in Hadd.
  destruct ok; rewrite !u64_arith_in in Hadd by (split; lia);
    simpl in Hadd; injection Hadd as <-; simpl; repeat split; lia.
Qed.

(** While the counters fit, [add_entry] does not panic in any build. *)
Lemma add_entry_total self i id pre ins rd wr post cu ok err :
  builder_ok self ->
  fits (tb_entries self ++ [mkTraceEntry i id pre ins rd wr post cu ok err]) ->
  is_Some (add_entry self i id pre ins rd wr post cu ok err).
Proof.
  intros Hok Hfit. pose proof (fits_app_inv _ _ Hfit) as [Hfit' Hcu]. simpl in Hcu.
  pose proof (fits_nonneg _ Hfit'). destruct (Hok Hfit') as (Ht & Hs & Hf).
  destruct Hfit as (_ & Hcost & Hlen).
  rewrite total_cost_snoc in Hcost. rewrite length_app in Hlen. simpl in Hcost, Hlen.
  pose proof (length_successes_failures (tb_entries self)).
  unfold add_entry, u64_add.
  destruct ok; rewrite !u64_arith_in by (split; lia); simpl; by eexists.
Qed.

(** ** The contract of a finished trace *)

Record trace_consistent (pre post : gmap string Z) (t : ExecutionTrace) : Prop := {
  tc_root_pre : et_state_root_pre t = compute_state_root pre;
  tc_root_post : et_state_root_post t = compute_state_root post;
  tc_hash : et_trace_hash t = merkle_root (map entry_hash (et_entries t));
  tc_counters : fits (et_entries t) ->
    counters_ok (et_entries t) (et_total_compute t) (et_success_count t)
      (et_failure_count t);
}.

Lemma build_consistent self pre post :
  tb_pre_state_root self = compute_state_root pre -> builder_ok self ->
  trace_consistent pre post (build self post).
Proof. intros Hpre Hok. by split. Qed.
End builder.

#[export] Hint Resolve TraceBuilder_new_ok add_entry_ok build_consistent : rust.
