(* ===== verification/Isa.v ===== *)
(** * The instruction set as a specification

    The host executor ([crates/execution-engine]) and the zkVM guest
    ([crates/sp1-program]) each implement the four-opcode instruction set on
    their own.  This file says once what an instruction means: decoding of the
    instruction bytes, and the effect on a ledger of unbounded balances.
    [Executor] and [Guest] are then shown to refine it, and [Agreement]
    compares them through it. *)

From Stdlib Require Import ZArith Lia Ascii String Strings.Byte.
From stdpp Require Import base gmap strings list fin_maps.
From S2P Require Import Prelude RustNum RustFmt BTree.

Local Open Scope Z_scope.

(** ** Decoding *)

Inductive instr :=
| ITransfer (amount target : Z)
| ISetData (key value : Z)
| IIncrement (key delta : Z)
| INoop
| IShort (opcode : Z)       (* opcode 0, 1 or 2 with fewer than 16 data bytes *)
| IInvalid (opcode : Z)     (* any other opcode *)
| IEmpty.                   (* no bytes at all *)

(** The two little-endian words that follow the opcode byte. *)
Definition word0 (data : list byte) : Z := u64_from_le_bytes (take 8 data).
Definition word1 (data : list byte) : Z := u64_from_le_bytes (take 8 (drop 8 data)).

Definition decode_op (op : Z) (data : list byte) : instr :=
  let words (f : Z -> Z -> instr) :=
    if (length data <? 16)%nat then IShort op else f (word0 data) (word1 data) in
  if op =? 0 then words ITransfer
  else if op =? 1 then words ISetData
  else if op =? 2 then words IIncrement
  else if op =? 3 then INoop
  else IInvalid op.

Definition decode (bytes : list byte) : instr :=
  match bytes with
  | [] => IEmpty
  | op :: data => decode_op (u8_to_Z op) data
  end.

(** The encoding clients use: [opcode, word, word]. *)
Definition encode_words (op x y : Z) : list byte :=
  u8_of_Z op :: u64_to_le_bytes x ++ u64_to_le_bytes y.

Definition encode (i : instr) : list byte :=
  match i with
  | ITransfer a t => encode_words 0 a t
  | ISetData k v => encode_words 1 k v
  | IIncrement k d => encode_words 2 k d
  | INoop => [u8_of_Z 3]
  | IShort op => [u8_of_Z op]
  | IInvalid op => [u8_of_Z op]
  | IEmpty => []
  end.

(** The operands an encoded instruction can carry. *)
Definition encodable (i : instr) : Prop :=
  match i with
  | ITransfer x y | ISetData x y | IIncrement x y => is_u64 x /\ is_u64 y
  | INoop | IEmpty => True
  | IShort op => 0 <= op <= 2
  | IInvalid op => 3 < op < 256
  end.

Lemma word0_encode x y : is_u64 x -> word0 (u64_to_le_bytes x ++ u64_to_le_bytes y) = x.
Proof.
  intros Hx. unfold word0. rewrite take_app_length' by by rewrite length_u64_to_le_bytes.
  by apply from_to_le_bytes.
Qed.

Lemma word1_encode x y : is_u64 y -> word1 (u64_to_le_bytes x ++ u64_to_le_bytes y) = y.
Proof.
  intros Hy. unfold word1. rewrite drop_app_length' by by rewrite length_u64_to_le_bytes.
  rewrite take_ge by by rewrite length_u64_to_le_bytes.
  by apply from_to_le_bytes.
Qed.

Lemma length_words x y : length (u64_to_le_bytes x ++ u64_to_le_bytes y) = 16%nat.
Proof. by rewrite length_app, !length_u64_to_le_bytes. Qed.

Lemma decode_encode_words op f x y :
  0 <= op < 256 -> is_u64 x -> is_u64 y ->
  (forall data, (16 <= length data)%nat -> decode_op op data = f (word0 data) (word1 data)) ->
  decode (encode_words op x y) = f x y.
Proof.
  intros Hop Hx Hy Hf. cbn [decode encode_words].
  rewrite u8_to_of_Z, Z.mod_small by done.
  rewrite Hf by by rewrite length_words. by rewrite word0_encode, word1_encode.
Qed.

Lemma words_long (data : list byte) :
  (16 <= length data)%nat -> (length data <? 16)%nat = false.
Proof. intros. by apply Nat.ltb_ge. Qed.

Lemma decode_encode i : encodable i -> decode (encode i) = i.
Proof.
  destruct i as [x y|x y|x y| |op|op|]; cbn [encodable encode];
    try (intros [Hx Hy]; apply decode_encode_words; [lia|done|done|];
         intros data Hd; unfold decode_op; by rewrite words_long).
  - done.
  - intros Hop. cbn [decode]. rewrite u8_to_of_Z, Z.mod_small by lia.
    unfold decode_op. assert (op = 0 \/ op = 1 \/ op = 2) as [->|[->| ->]] by lia; done.
  - intros Hop. cbn [decode]. rewrite u8_to_of_Z, Z.mod_small by lia.
    unfold decode_op. repeat (case_match; zbool; [lia|]). done.
  - done.
Qed.

(** The operands of a decoded instruction are machine words. *)
Lemma word0_u64 data : is_u64 (word0 data).
Proof. apply u64_from_le_bytes_u64. rewrite length_take. lia. Qed.
Lemma word1_u64 data : is_u64 (word1 data).
Proof. apply u64_from_le_bytes_u64. rewrite length_take. lia. Qed.

(** ** Accounts *)

Definition account_key (idx : Z) : string := "account_" +:+ fmt_u64 idx.
Definition data_key (idx : Z) : string := "data_" +:+ fmt_u64 idx.

Lemma account_data_ne i j : account_key i <> data_key j.
Proof. done. Qed.

Lemma account_key_inj i j : 0 <= i -> 0 <= j -> account_key i = account_key j -> i = j.
Proof. intros Hi Hj H%append_inj_r. by apply fmt_u64_inj. Qed.

Lemma data_key_inj i j : 0 <= i -> 0 <= j -> data_key i = data_key j -> i = j.
Proof. intros Hi Hj H%append_inj_r. by apply fmt_u64_inj. Qed.

(** ** The ledger *)

(** Accounts read, accounts written and compute units of an applied
    instruction. *)
Definition effect : Type := list string * list string * Z.

Definition transfer_ledger (snd tgt : string) (amount : Z) (s : gmap string Z)
    : gmap string Z :=
  let s1 := <[snd := get_or 0 s snd - amount]> s in
  <[tgt := get_or 0 s1 tgt + amount]> s1.

(** The new ledger and, when the instruction is applied, its effect. *)
Definition ledger_exec (snd : string) (i : instr) (s : gmap string Z)
    : gmap string Z * option effect :=
  match i with
  | ITransfer amount t =>
      let tgt := account_key t in
      if get_or 0 s snd <? amount then (s, None)
      else (transfer_ledger snd tgt amount s, Some ([snd; tgt], [snd; tgt], 5000))
  | ISetData k v => (<[data_key k := v]> s, Some ([], [data_key k], 3000))
  | IIncrement k d =>
      (<[data_key k := u64_saturating_add (get_or 0 s (data_key k)) d]> s,
       Some ([data_key k], [data_key k], 2000))
  | INoop => (s, Some ([], [], 1000))
  | IShort _ | IInvalid _ | IEmpty => (s, None)
  end.

(** The credit of a transfer stays below [2^64]. *)
Definition credit_fits (snd : string) (i : instr) (s : gmap string Z) : Prop :=
  match i with
  | ITransfer amount t =>
      amount <= get_or 0 s snd ->
      get_or 0 (<[snd := get_or 0 s snd - amount]> s) (account_key t) + amount < u64_bound
  | _ => True
  end.

#[export] Instance credit_fits_dec snd i s : Decision (credit_fits snd i s).
Proof. unfold credit_fits. destruct i; apply _. Defined.

(** *** Total supply *)

Definition supply (s : gmap string Z) : Z := map_fold (fun _ v acc => v + acc) 0 s.

Lemma supply_insert_None k v s : s !! k = None -> supply (<[k:=v]> s) = v + supply s.
Proof.
  intros Hk. unfold supply. rewrite map_fold_insert_L; [done| |done].
  intros; lia.
Qed.

Lemma supply_delete k v s : s !! k = Some v -> supply s = v + supply (delete k s).
Proof.
  intros Hk. rewrite <-(insert_delete_id s k v Hk) at 1.
  apply supply_insert_None, lookup_delete_eq.
Qed.

Lemma supply_insert k v s : supply (<[k:=v]> s) = supply s - get_or 0 s k + v.
Proof.
  unfold get_or. destruct (s !! k) as [w|] eqn:Hk; simpl.
  - rewrite <-insert_delete_eq, supply_insert_None by apply lookup_delete_eq.
    rewrite (supply_delete k w s Hk). lia.
  - rewrite supply_insert_None by done. lia.
Qed.

Lemma supply_entry_or_insert k v s :
  supply (entry_or_insert k v s) = supply s + match s !! k with Some _ => 0 | None => v end.
Proof.
  unfold entry_or_insert. destruct (s !! k) eqn:Hk; [lia|].
  rewrite supply_insert_None by done. lia.
Qed.

(** A transfer moves value and creates none, whoever the two parties are. *)
Lemma supply_transfer snd tgt amount s : supply (transfer_ledger snd tgt amount s) = supply s.
Proof. unfold transfer_ledger. rewrite !supply_insert. lia. Qed.

(** *** Frame *)

Lemma ledger_exec_frame snd i s s' rd wr cu k :
  ledger_exec snd i s = (s', Some (rd, wr, cu)) -> k ∉ wr -> s' !! k = s !! k.
Proof.
  destruct i as [a t|x v|x d| | | |]; cbn [ledger_exec]; [|intros [= <- <- <- <-]..|done|done|done].
  - case_match; [done|]. intros [= <- <- <- <-] Hk.
    apply not_elem_of_cons in Hk as [Hk1 Hk]. apply not_elem_of_cons in Hk as [Hk2 _].
    unfold transfer_ledger. by simplify_map_eq.
  - intros Hk%not_elem_of_cons. destruct Hk. by simplify_map_eq.
  - intros Hk%not_elem_of_cons. destruct Hk. by simplify_map_eq.
  - done.
Qed.

Lemma ledger_exec_rejected snd i s s' : ledger_exec snd i s = (s', None) -> s' = s.
Proof.
  destruct i; cbn [ledger_exec]; try case_match; by intros [= <-].
Qed.

Create HintDb isa discriminated.
#[export] Hint Resolve word0_u64 word1_u64 : isa.

(** ** Batches *)

(** A batch as the specification sees it: senders with decoded
    instructions. *)
Definition ledger_run (txs : list (string * instr)) (s : gmap string Z) : gmap string Z :=
  foldl (fun s tx => (ledger_exec tx.1 tx.2 s).1) s txs.

(** No credit of the batch overflows. *)
Fixpoint run_fits (txs : list (string * instr)) (s : gmap string Z) : Prop :=
  match txs with
  | [] => True
  | (snd, i) :: txs => credit_fits snd i s /\ run_fits txs (ledger_exec snd i s).1
  end.

#[export] Instance run_fits_dec txs s : Decision (run_fits txs s).
Proof.
  revert s. induction txs as [|[snd i] txs IH]; intros s; cbn [run_fits]; apply _.
Defined.

Lemma ledger_run_app l1 l2 s : ledger_run (l1 ++ l2) s = ledger_run l2 (ledger_run l1 s).
Proof. apply foldl_app. Qed.

Lemma run_fits_app l1 l2 s :
  run_fits (l1 ++ l2) s <-> run_fits l1 s /\ run_fits l2 (ledger_run l1 s).
Proof.
  revert s. induction l1 as [|[snd i] l1 IH]; intros s; simpl; [tauto|].
  rewrite IH. tauto.
Qed.
