(* ===== verification/Executor.v ===== *)
(** * The execution engine ([crates/execution-engine/src/lib.rs])

    [DeterministicExecutor] with its three instruction handlers, the
    [Executor] implementation over transaction ids, and [FullExecutor] over
    full transactions.  A handler takes the state and returns the new state
    with a [Result]; [None] is a panic.  The theorems about it are in
    [ExecutorFacts] and [TraceFacts]. *)

From Stdlib Require Import ZArith Lia Ascii String Strings.Byte.
From stdpp Require Import base gmap strings list fin_maps.
From S2P Require Import Prelude RustNum RustFmt BTree Merkle Types TraceBuilder Isa.

Local Open Scope Z_scope.

Inductive Opcode := OpTransfer | OpSetData | OpIncrement | OpNoop | OpInvalid.

(** [impl From<u8> for Opcode] *)
Definition Opcode_from (v : Z) : Opcode :=
  if v =? 0 then OpTransfer
  else if v =? 1 then OpSetData
  else if v =? 2 then OpIncrement
  else if v =? 3 then OpNoop
  else OpInvalid.

Record DeterministicExecutor := mkDeterministicExecutor {
  max_cu_per_tx : Z;
  fail_on_invalid : bool;
}.

Definition DeterministicExecutor_new (max_cu : Z) : DeterministicExecutor :=
  {| max_cu_per_tx := max_cu; fail_on_invalid := true |}.

Definition with_fail_on_invalid (self : DeterministicExecutor) (fail : bool)
    : DeterministicExecutor :=
  {| max_cu_per_tx := max_cu_per_tx self; fail_on_invalid := fail |}.

(** [Result<(reads, writes, compute), ExecError>] with the state after it. *)
Definition exec_outcome : Type := gmap string Z * result ExecError effect.

(** [data[0..8]] and [data[8..16]] of a slice of at least 16 bytes. *)
Definition le_word_at (off : nat) (data : list byte) : Z :=
  u64_from_le_bytes (take 8 (drop off data)).

Section executor.
Context (prof : profile).

Definition execute_transfer (self : DeterministicExecutor) (state : gmap string Z)
    (sender : string) (data : list byte) : option exec_outcome :=
  if (length data <? 16)%nat then Some (state, Err (InvalidOpcode 0)) else
  let amount := le_word_at 0 data in
  let target_idx := le_word_at 8 data in
  let target := "account_" +:+ fmt_u64 target_idx in
  let sender_balance := get_or 0 state sender in
  if sender_balance <? amount then
    Some (state, Err (InsufficientBalance amount sender_balance))
  else
    debited ← u64_sub prof (get_or 0 state sender) amount;
    let state := <[sender := debited]> state in
    credited ← u64_add prof (get_or 0 state target) amount;
    let state := <[target := credited]> state in
    let reads := [sender; target] in
    let writes := [sender; target] in
    Some (state, Ok (reads, writes, 5000)).

Definition execute_set_data (self : DeterministicExecutor) (state : gmap string Z)
    (data : list byte) : option exec_outcome :=
  if (length data <? 16)%nat then Some (state, Err (InvalidOpcode 1)) else
  let key_idx := le_word_at 0 data in
  let value := le_word_at 8 data in
  let key := "data_" +:+ fmt_u64 key_idx in
  let state := <[key := value]> state in
  Some (state, Ok ([], [key], 3000)).

Definition execute_increment (self : DeterministicExecutor) (state : gmap string Z)
    (data : list byte) : option exec_outcome :=
  if (length data <? 16)%nat then Some (state, Err (InvalidOpcode 2)) else
  let key_idx := le_word_at 0 data in
  let delta := le_word_at 8 data in
  let key := "data_" +:+ fmt_u64 key_idx in
  let new_value := u64_saturating_add (get_or 0 state key) delta in
  let state := <[key := new_value]> state in
  Some (state, Ok ([key], [key], 2000)).

Definition execute_instruction (self : DeterministicExecutor) (state : gmap string Z)
    (sender : string) (instruction_data : list byte) : option exec_outcome :=
  match instruction_data with
  | [] => Some (state, Err (InvalidOpcode 255))
  | op :: data =>
      match Opcode_from (u8_to_Z op) with
      | OpTransfer => execute_transfer self state sender data
      | OpSetData => execute_set_data self state data
      | OpIncrement => execute_increment self state data
      | OpNoop => Some (state, Ok ([], [], 1000))
      | OpInvalid =>
          if fail_on_invalid self then Some (state, Err (InvalidOpcode (u8_to_Z op)))
          else Some (state, Ok ([], [], 500))
      end
  end.

Context `{HashLib}.

(** One turn of the [for] loop of [Executor::execute]: the state and the
    builder are the loop's mutable variables. *)
Definition execute_step (self : DeterministicExecutor)
    (acc : gmap string Z * TraceBuilder) (it : Z * TransactionId)
    : option (gmap string Z * TraceBuilder) :=
  let '(state, builder) := acc in
  let '(idx, tx_id) := it in
  let pre_state_hash := compute_state_root state in
  let instruction_data := [u8_of_Z 3] in
  let sender := "sender_" +:+ as_str tx_id in
  '(state, res) ← execute_instruction self state sender instruction_data;
  let post_state_hash := compute_state_root state in
  builder ← match res with
    | Ok (reads, writes, compute_used) =>
        let compute_used := Z.min compute_used (max_cu_per_tx self) in
        add_entry prof builder idx tx_id pre_state_hash "execute" reads writes
          post_state_hash compute_used true None
    | Err e =>
        add_entry prof builder idx tx_id pre_state_hash "execute" [] []
          post_state_hash 0 false (Some (ExecError_display e))
    end;
  Some (state, builder).

(** The initial balances of [Executor::execute]. *)
Definition init_sender_balances (tx_ids : list TransactionId) : gmap string Z :=
  foldl (fun state tx_id => entry_or_insert ("sender_" +:+ as_str tx_id) 1000000 state)
    ∅ tx_ids.

(** [DeterministicExecutor as Executor]::execute; [now_ms] is read for a
    variable that is not used. *)
Definition execute (self : DeterministicExecutor) (batch : Batch)
    : option (result ExecError ExecutionTrace) :=
  let state := init_sender_balances (b_tx_ids batch) in
  let builder := TraceBuilder_new (b_batch_id batch) state in
  '(state, builder) ← foldlM (execute_step self) (state, builder)
                             (enumerate (b_tx_ids batch));
  Some (Ok (build builder state)).

(** [FullExecutor] wraps a [DeterministicExecutor]. *)
Record FullExecutor := mkFullExecutor { inner : DeterministicExecutor }.

Definition FullExecutor_new (max_cu : Z) : FullExecutor :=
  {| inner := DeterministicExecutor_new max_cu |}.

(** [format!("opcode_{}", tx.instruction_data.first().unwrap_or(&255))] *)
Definition opcode_label (instruction_data : list byte) : string :=
  "opcode_" +:+ fmt_u64 (match instruction_data with [] => 255 | op :: _ => u8_to_Z op end).

(** One turn of the loop of [execute_with_transactions]. *)
Definition full_step (self : FullExecutor) (acc : gmap string Z * TraceBuilder)
    (it : Z * Transaction) : option (gmap string Z * TraceBuilder) :=
  let '(state, builder) := acc in
  let '(idx, tx) := it in
  let pre_state_hash := compute_state_root state in
  '(state, res) ← execute_instruction (inner self) state (sender tx) (instruction_data tx);
  let post_state_hash := compute_state_root state in
  builder ← match res with
    | Ok (reads, writes, compute_used) =>
        let compute_used := Z.min compute_used (max_cu_per_tx (inner self)) in
        add_entry prof builder idx (tx_id tx) pre_state_hash
          (opcode_label (instruction_data tx)) reads writes
          post_state_hash compute_used true None
    | Err e =>
        add_entry prof builder idx (tx_id tx) pre_state_hash "failed" [] []
          post_state_hash 0 false (Some (ExecError_display e))
    end;
  Some (state, builder).

(** The initial balances of [execute_with_transactions]. *)
Definition init_balances (transactions : list Transaction) : gmap string Z :=
  foldl (fun state tx => entry_or_insert (sender tx) 1000000 state) ∅ transactions.

Definition execute_with_transactions (self : FullExecutor) (batch : Batch)
    (transactions : list Transaction) : option (result ExecError ExecutionTrace) :=
  let state := init_balances transactions in
  let builder := TraceBuilder_new (b_batch_id batch) state in
  '(state, builder) ← foldlM (full_step self) (state, builder) (enumerate transactions);
  Some (Ok (build builder state)).
End executor.

(** ** Small runs *)

Definition demo_exec : DeterministicExecutor := DeterministicExecutor_new 200000.

Example transfer_moves :
  execute_instruction Debug demo_exec {["alice" := 1000]} "alice" (encode (ITransfer 300 7))
  = Some ({["alice" := 700; "account_7" := 300]},
          Ok (["alice"; "account_7"], ["alice"; "account_7"], 5000)).
Proof. reflexivity. Qed.

Example transfer_rejected :
  execute_instruction Debug demo_exec {["alice" := 10]} "alice" (encode (ITransfer 300 7))
  = Some ({["alice" := 10]}, Err (InsufficientBalance 300 10)).
Proof. reflexivity. Qed.
