(* ===== verification/ExecutorFacts.v ===== *)
(** * What the execution engine guarantees

    The theorems about [Executor]: refinement of the ledger of [Isa] on every
    branch, when a panic is possible, the invariant of the state, atomicity
    and framing, soundness of the reported access sets, and conservation of
    the total supply. *)

From Stdlib Require Import ZArith Lia Ascii String Strings.Byte.
From stdpp Require Import base gmap strings list fin_maps.
From S2P Require Import Prelude RustNum RustFmt BTree Merkle Types TraceBuilder Isa Executor.

Local Open Scope Z_scope.

(** ** The specification of the host's answers *)

(** The error the host reports for a rejected instruction. *)
Definition host_error (snd : string) (i : instr) (s : gmap string Z) : ExecError :=
  match i with
  | ITransfer amount _ => InsufficientBalance amount (get_or 0 s snd)
  | IShort op | IInvalid op => InvalidOpcode op
  | _ => InvalidOpcode 255
  end.

(** What [execute_instruction] answers while no credit overflows. *)
Definition host_exec (fail : bool) (snd : string) (i : instr) (s : gmap string Z)
    : exec_outcome :=
  match ledger_exec snd i s with
  | (s', Some eff) => (s', Ok eff)
  | (s', None) =>
      (s', match i with
           | IInvalid _ => if fail then Err (host_error snd i s) else Ok ([], [], 500)
           | _ => Err (host_error snd i s)
           end)
  end.

(** The release build's state after a transfer whose credit overflows. *)
Definition wrapped_transfer (snd tgt : string) (amount : Z) (s : gmap string Z)
    : gmap string Z :=
  let s1 := <[snd := get_or 0 s snd - amount]> s in
  <[tgt := (get_or 0 s1 tgt + amount) mod u64_bound]> s1.

Lemma get_or_u64 s k : u64_state s -> is_u64 (get_or 0 s k).
Proof.
  intros Hs. unfold get_or. destruct (s !! k) as [v|] eqn:E; [by apply (Hs k)|done].
Qed.

Lemma u64_state_insert s k v : u64_state s -> is_u64 v -> u64_state (<[k:=v]> s).
Proof. intros. by apply map_Forall_insert_2. Qed.

#[export] Hint Resolve get_or_u64 u64_state_insert : rust.

Lemma le_word_at_0 data : le_word_at 0 data = word0 data.
Proof. done. Qed.
Lemma le_word_at_8 data : le_word_at 8 data = word1 data.
Proof. done. Qed.

(** Splitting on the opcode byte: one goal per instruction, [decode] and the
    handlers reduced. *)
Ltac split_opcode op :=
  unfold Opcode_from, decode_op in *;
  destruct (op =? 0) eqn:?; [|destruct (op =? 1) eqn:?; [|destruct (op =? 2) eqn:?;
    [|destruct (op =? 3) eqn:?]]].

Section facts.
Context (prof : profile).
Implicit Types (self : DeterministicExecutor) (s : gmap string Z).

Lemma execute_transfer_spec self s snd data :
  u64_state s -> (16 <= length data)%nat ->
  let i := ITransfer (word0 data) (word1 data) in
  execute_transfer prof self s snd data =
    if decide (credit_fits snd i s) then Some (host_exec (fail_on_invalid self) snd i s)
    else match prof with
         | Debug => None
         | Release =>
             let tgt := account_key (word1 data) in
             Some (wrapped_transfer snd tgt (word0 data) s,
                   Ok ([snd; tgt], [snd; tgt], 5000))
         end.
Proof.
  intros Hs Hlen i. unfold execute_transfer.
  rewrite words_long by done. rewrite le_word_at_0, le_word_at_8.
  pose proof (get_or_u64 s snd Hs) as [Hb0 Hb1]. pose proof (word0_u64 data) as [Ha0 _].
  unfold i, host_exec, ledger_exec. cbn [credit_fits].
  fold (account_key (word1 data)). set (tgt := account_key (word1 data)) in *.
  destruct (get_or 0 s snd <? word0 data) eqn:E; zbool.
  { rewrite decide_True by lia. done. }
  rewrite u64_sub_le by (split; lia || done). cbn [mbind option_bind].
  set (s1 := <[snd:=get_or 0 s snd - word0 data]> s).
  pose proof (get_or_u64 s1 tgt) as [Ht0 Ht1].
  { apply u64_state_insert; [done|split; lia]. }
  unfold u64_add. case_decide as Hfit.
  - rewrite u64_arith_in by (split; [lia|by apply Hfit]). done.
  - unfold u64_arith. rewrite decide_False; [by destruct prof|].
    intros [_ Hlt]. apply Hfit. by intros _.
Qed.

(** *** The main equation *)

(** Every branch of [execute_instruction] at once: decoding, then the ledger
    step, except that a credit of [2^64] or more panics in a debug build and
    wraps in a release build. *)
Lemma execute_instruction_spec self s snd bytes :
  u64_state s ->
  execute_instruction prof self s snd bytes =
    if decide (credit_fits snd (decode bytes) s)
    then Some (host_exec (fail_on_invalid self) snd (decode bytes) s)
    else match prof, decode bytes with
         | Release, ITransfer amount t =>
             Some (wrapped_transfer snd (account_key t) amount s,
                   Ok ([snd; account_key t], [snd; account_key t], 5000))
         | _, _ => None
         end.
Proof.
  intros Hs. destruct bytes as [|op data]; [done|]. cbn [execute_instruction decode].
  generalize (u8_to_Z op) as o. intros o. split_opcode o; zbool; subst; try done.
  - destruct (length data <? 16)%nat eqn:Hl.
    + unfold execute_transfer. rewrite Hl. done.
    + apply Nat.ltb_ge in Hl. rewrite execute_transfer_spec by done.
      case_decide; [done|]. by destruct prof.
  - unfold execute_set_data. by destruct (length data <? 16)%nat.
  - unfold execute_increment. by destruct (length data <? 16)%nat.
  - unfold host_exec. cbn. by destruct (fail_on_invalid self).
Qed.
End facts.

(** ** Consequences *)

Lemma host_exec_state fail snd i s : (host_exec fail snd i s).1 = (ledger_exec snd i s).1.
Proof. unfold host_exec. by destruct (ledger_exec snd i s) as [s' [e|]]. Qed.

Lemma host_exec_ok fail snd i s s' rd wr cu :
  host_exec fail snd i s = (s', Ok (rd, wr, cu)) ->
  ledger_exec snd i s = (s', Some (rd, wr, cu)) \/
  (s' = s /\ ledger_exec snd i s = (s, None) /\ rd = [] /\ wr = [] /\ cu = 500).
Proof.
  unfold host_exec. destruct (ledger_exec snd i s) as [s1 [e|]] eqn:E.
  - intros [= -> ->]. by left.
  - apply ledger_exec_rejected in E as E'. subst s1.
    destruct i; try done. destruct fail; [done|]. intros [= <- <- <- <-]. by right.
Qed.

Lemma ledger_exec_u64 snd i s :
  u64_state s -> credit_fits snd i s ->
  (forall x y, i = ITransfer x y -> 0 <= x) ->
  (forall k v, i = ISetData k v -> is_u64 v) ->
  (forall k d, i = IIncrement k d -> 0 <= d) ->
  u64_state (ledger_exec snd i s).1.
Proof.
  intros Hs Hfit Ht Hv Hd. destruct i as [a t|k v|k d| | | |]; cbn [ledger_exec]; try done.
  - case_match eqn:E; [done|]. zbool. simpl.
    pose proof (get_or_u64 s snd Hs) as [Hb0 Hb1]. specialize (Ht a t eq_refl).
    assert (u64_state (<[snd:=get_or 0 s snd - a]> s)) as Hs1
      by (apply u64_state_insert; [done|split; lia]).
    pose proof (get_or_u64 _ (account_key t) Hs1) as [Hc0 Hc1].
    apply u64_state_insert; [done|]. split; [lia|by apply Hfit].
  - apply u64_state_insert; [done|]. by eapply Hv.
  - apply u64_state_insert; [done|]. apply u64_saturating_add_range; [by apply get_or_u64|].
    by eapply Hd.
Qed.

Lemma decode_operands bytes :
  (forall x y, decode bytes = ITransfer x y -> is_u64 x /\ is_u64 y) /\
  (forall x y, decode bytes = ISetData x y -> is_u64 x /\ is_u64 y) /\
  (forall x y, decode bytes = IIncrement x y -> is_u64 x /\ is_u64 y).
Proof.
  destruct bytes as [|op data]; [by repeat split|]. cbn [decode]. generalize (u8_to_Z op).
  intros o. split_opcode o; destruct (length data <? 16)%nat;
    (split; [|split]); intros x y [= <- <-]; auto using word0_u64, word1_u64.
Qed.

Section consequences.
Context (prof : profile).
Implicit Types (self : DeterministicExecutor) (s : gmap string Z).

(** What a non-panicking call can have done: the ledger step, or a wrapped
    transfer of a release build. *)
Lemma execute_instruction_cases self s snd bytes s' r :
  u64_state s -> execute_instruction prof self s snd bytes = Some (s', r) ->
  (credit_fits snd (decode bytes) s /\
   (s', r) = host_exec (fail_on_invalid self) snd (decode bytes) s) \/
  (exists amount t, decode bytes = ITransfer amount t /\
     ~ credit_fits snd (decode bytes) s /\ prof = Release /\
     s' = wrapped_transfer snd (account_key t) amount s /\
     r = Ok ([snd; account_key t], [snd; account_key t], 5000)).
Proof.
  intros Hs. rewrite execute_instruction_spec by done.
  case_decide as Hfit; [intros [= <-]; by left|].
  destruct prof; [done|]. destruct (decode bytes) as [a t| | | | | |] eqn:E; try done.
  intros [= <- <-]. right. by exists a, t.
Qed.

Lemma execute_instruction_u64 self s snd bytes s' r :
  u64_state s -> execute_instruction prof self s snd bytes = Some (s', r) -> u64_state s'.
Proof.
  intros Hs Hex. pose proof (decode_operands bytes) as (Ht & Hv & Hd).
  apply execute_instruction_cases in Hex as [[Hfit Heq]|(a & t & E & Hn & -> & -> & ->)]; [..|done].
  - apply (f_equal fst) in Heq. rewrite host_exec_state in Heq. simpl in Heq. subst s'.
    apply ledger_exec_u64; [done..| | |].
    + intros x y E. by apply Ht in E as [[? ?] ?].
    + intros x y E. by apply Hv in E as [? ?].
    + intros x y E. by apply Hd in E as [? [? ?]].
  - destruct (Ht a t E) as [Ha _]. rewrite E in Hn.
    pose proof (get_or_u64 s snd Hs).
    assert (a <= get_or 0 s snd) as Hle.
    { destruct (decide (a <= get_or 0 s snd)); [done|].
      exfalso. apply Hn. cbn [credit_fits]. lia. }
    unfold wrapped_transfer. apply u64_state_insert.
    + apply u64_state_insert; [done|]. destruct Ha, H. split; lia.
    + apply Z.mod_pos_bound, u64_bound_pos.
Qed.
End consequences.

(** *** Dependence on the state *)

(** Two states read alike at a key; an absent account reads as 0. *)
Definition agree_on (ks : list string) (s1 s2 : gmap string Z) : Prop :=
  forall k, k ∈ ks -> get_or 0 s1 k = get_or 0 s2 k.

Lemma get_or_insert k v s j : get_or 0 (<[k:=v]> s) j = if decide (k = j) then v else get_or 0 s j.
Proof. unfold get_or. rewrite lookup_insert. by case_decide. Qed.

Lemma agree_on_insert ks k v s1 s2 :
  agree_on ks s1 s2 -> agree_on ks (<[k:=v]> s1) (<[k:=v]> s2).
Proof. intros Ha j Hj. rewrite !get_or_insert. case_decide; auto. Qed.

(** The accounts whose balances decide what an instruction does. *)
Definition depends_on (snd : string) (i : instr) : list string :=
  match i with
  | ITransfer _ t => [snd; account_key t]
  | IIncrement k _ => [data_key k]
  | _ => []
  end.

Lemma agree_transfer snd t amount s1 s2 :
  agree_on [snd; account_key t] s1 s2 ->
  get_or 0 s1 snd = get_or 0 s2 snd /\
  get_or 0 (<[snd:=get_or 0 s1 snd - amount]> s1) (account_key t) =
  get_or 0 (<[snd:=get_or 0 s2 snd - amount]> s2) (account_key t).
Proof.
  intros Ha. assert (get_or 0 s1 snd = get_or 0 s2 snd) as Hs by (apply Ha; left).
  split; [done|]. rewrite Hs. apply agree_on_insert with (ks := [snd; account_key t]);
    [done|by right; left].
Qed.

Lemma credit_fits_agree snd i s1 s2 :
  agree_on (depends_on snd i) s1 s2 -> credit_fits snd i s1 -> credit_fits snd i s2.
Proof.
  destruct i as [a t| | | | | |]; try done. cbn [depends_on credit_fits]. intros Ha.
  destruct (agree_transfer snd t a s1 s2 Ha) as [H1 H2]. by rewrite H2, H1.
Qed.

Lemma agree_on_sym ks s1 s2 : agree_on ks s1 s2 -> agree_on ks s2 s1.
Proof. intros Ha k Hk. symmetry. by apply Ha. Qed.

(** Agreeing states give the same answer and the same new balances at the
    accounts written. *)
Lemma host_exec_agree fail snd i s1 s2 :
  agree_on (depends_on snd i) s1 s2 ->
  (host_exec fail snd i s1).2 = (host_exec fail snd i s2).2 /\
  forall rd wr cu, (host_exec fail snd i s1).2 = Ok (rd, wr, cu) ->
    forall k, k ∈ wr -> get_or 0 (host_exec fail snd i s1).1 k = get_or 0 (host_exec fail snd i s2).1 k.
Proof.
  intros Ha. unfold host_exec, host_error.
  destruct i as [a t|x v|x d| |op|op|]; cbn [ledger_exec depends_on] in *; try done.
  - destruct (agree_transfer snd t a s1 s2 Ha) as [H1 _]. rewrite H1.
    destruct (get_or 0 s2 snd <? a); [done|]. simpl.
    split; [done|]. intros rd wr cu [= <- <- <-] k Hk. unfold transfer_ledger.
    pose proof (agree_on_insert _ snd (get_or 0 s1 snd - a) _ _ Ha) as Ha'.
    rewrite H1 in *. rewrite (Ha' (account_key t)) by (right; left).
    by apply agree_on_insert with (ks := [snd; account_key t]).
  - split; [done|]. simpl. intros rd wr cu [= <- <- <-] k ->%list_elem_of_singleton.
    by rewrite !get_or_insert, !decide_True.
  - simpl. split; [done|]. intros rd wr cu [= <- <- <-] k ->%list_elem_of_singleton.
    rewrite (Ha (data_key x)) by left. by rewrite !get_or_insert, !decide_True.
  - split; [done|]. simpl. intros rd wr cu [= <- <- <-] k Hk%elem_of_nil. done.
  - split; [done|]. destruct fail; [done|]. simpl.
    intros rd wr cu [= <- <- <-] k Hk%elem_of_nil. done.
Qed.

Lemma wrapped_transfer_agree snd t amount s1 s2 k :
  agree_on [snd; account_key t] s1 s2 -> k ∈ [snd; account_key t] ->
  get_or 0 (wrapped_transfer snd (account_key t) amount s1) k =
  get_or 0 (wrapped_transfer snd (account_key t) amount s2) k.
Proof.
  intros Ha Hk. destruct (agree_transfer snd t amount s1 s2 Ha) as [H1 H2].
  unfold wrapped_transfer. rewrite H2, H1.
  apply agree_on_insert with (ks := [snd; account_key t]); [|done].
  by apply agree_on_insert.
Qed.

(** The read set reported with a success covers what the result depends
    on. *)
Lemma host_exec_reads fail snd i s s' rd wr cu :
  host_exec fail snd i s = (s', Ok (rd, wr, cu)) -> depends_on snd i = rd.
Proof.
  unfold host_exec. destruct i as [a t|x v|x d| | | |]; cbn [ledger_exec depends_on];
    try congruence.
  - destruct (get_or 0 s snd <? a); simpl; congruence.
  - destruct fail; congruence.
Qed.

(** ** The properties *)

(** C6: On every encoded instruction whose credit fits in 64 bits, the host
    executor does exactly the ledger step of the specification and reports its
    access sets and compute units, or the specified error, in either build
    profile. *)
Theorem host_refines_ledger prof self s snd i :
  u64_state s -> encodable i -> credit_fits snd i s ->
  execute_instruction prof self s snd (encode i) = Some (host_exec (fail_on_invalid self) snd i s).
Proof.
  intros Hs Hi Hfit. rewrite execute_instruction_spec by done.
  rewrite decode_encode by done. by rewrite decide_True.
Qed.

(** C7: [execute_instruction] panics on arbitrary instruction bytes exactly
    when the build checks overflow and the credit of a funded transfer reaches
    [2^64]. *)
Theorem host_panics_iff prof self s snd bytes :
  u64_state s ->
  execute_instruction prof self s snd bytes = None <->
  prof = Debug /\ ~ credit_fits snd (decode bytes) s.
Proof.
  intros Hs. rewrite execute_instruction_spec by done.
  case_decide as Hfit; [naive_solver|]. destruct prof; [naive_solver|].
  destruct (decode bytes); try naive_solver.
Qed.

(** C24: An instruction that fails leaves the state untouched; one that
    succeeds changes no account outside the write set it reports. *)
Theorem host_atomic_and_framed prof self s snd bytes s' r :
  u64_state s -> execute_instruction prof self s snd bytes = Some (s', r) ->
  match r with
  | Err _ => s' = s
  | Ok (_, wr, _) => forall k, k ∉ wr -> s' !! k = s !! k
  end.
Proof.
  intros Hs Hex.
  apply execute_instruction_cases in Hex as [[_ Heq]|(a & t & E & _ & _ & -> & ->)]; [..|done].
  - destruct r as [[[rd wr] cu]|e].
    + apply eq_sym, host_exec_ok in Heq as [Heq|(-> & _)]; [|done].
      intros k. by eapply ledger_exec_frame.
    + unfold host_exec in Heq. destruct (ledger_exec _ _ _) as [s1 [eff|]] eqn:El; [done|].
      apply ledger_exec_rejected in El as ->. by injection Heq.
  - intros k [Hk1 [Hk2 _]%not_elem_of_cons]%not_elem_of_cons.
    unfold wrapped_transfer. by simplify_map_eq.
Qed.

(** C25: The read set reported with a success is sound: on any other state with
    the same balances at the accounts read, the instruction succeeds with the
    same access sets and compute units and leaves the same balances at the
    accounts written. *)
Theorem host_read_set_sound prof self s1 s2 snd bytes s1' rd wr cu :
  u64_state s1 -> u64_state s2 ->
  execute_instruction prof self s1 snd bytes = Some (s1', Ok (rd, wr, cu)) ->
  agree_on rd s1 s2 ->
  exists s2', execute_instruction prof self s2 snd bytes = Some (s2', Ok (rd, wr, cu)) /\
    agree_on wr s1' s2'.
Proof.
  intros Hs1 Hs2 Hex Ha. rewrite execute_instruction_spec by done.
  apply execute_instruction_cases in Hex as [[Hfit Heq]|(a & t & E & Hn & -> & -> & [= -> -> ->])]; [..|done].
  - pose proof (host_exec_reads _ _ _ _ _ _ _ _ (eq_sym Heq)) as Hd. rewrite <-Hd in Ha.
    rewrite decide_True by by eapply credit_fits_agree.
    destruct (host_exec_agree (fail_on_invalid self) _ _ _ _ Ha) as [Hr Hw].
    rewrite <-Heq in Hr, Hw. destruct (host_exec _ _ _ s2) as [s2' r2].
    simpl in Hr, Hw. subst r2. exists s2'. split; [done|]. intros k. by eapply Hw.
  - rewrite E in *. rewrite decide_False.
    + eexists. split; [done|]. intros k. by apply wrapped_transfer_agree.
    + intros Hfit. apply Hn. eapply credit_fits_agree; [|done].
      by apply agree_on_sym.
Qed.

(** A transfer never changes the total supply, except that a release
    build whose credit overflows destroys exactly [2^64] units. *)
Theorem host_transfer_supply prof self s snd bytes amount t s' r :
  u64_state s -> decode bytes = ITransfer amount t ->
  execute_instruction prof self s snd bytes = Some (s', r) ->
  supply s' = supply s - (if decide (credit_fits snd (decode bytes) s) then 0 else u64_bound).
Proof.
  intros Hs Hdec Hex.
  apply execute_instruction_cases in Hex as [[Hfit Heq]|(a & t' & E & Hn & _ & -> & _)]; [..|done].
  - rewrite decide_True by done. apply (f_equal fst) in Heq.
    rewrite host_exec_state, Hdec in Heq. simpl in Heq. rewrite Heq.
    case_match; simpl; [lia|]. rewrite supply_transfer. lia.
  - rewrite decide_False by done.
    destruct (proj1 (decode_operands bytes) a t' E) as [[Ha0 Ha1] _]. rewrite E in Hn. cbn [credit_fits] in Hn.
    pose proof (get_or_u64 s snd Hs) as [Hb0 Hb1].
    destruct (decide (a <= get_or 0 s snd)) as [Hle|]; [|exfalso; apply Hn; lia].
    set (s1 := <[snd:=get_or 0 s snd - a]> s) in *.
    pose proof (get_or_u64 s1 (account_key t')) as [Hc0 Hc1];
      [apply u64_state_insert; [done|split; lia]|].
    assert (u64_bound <= get_or 0 s1 (account_key t') + a) as Hge by lia.
    unfold wrapped_transfer. fold s1. rewrite supply_insert. unfold s1 at 1. rewrite supply_insert.
    rewrite (Z.mod_eq _ u64_bound) by done.
    replace ((get_or 0 s1 (account_key t') + a) / u64_bound) with 1; [lia|].
    apply Z.div_unique with (get_or 0 s1 (account_key t') + a - u64_bound); lia.
Qed.
