(* ===== verification/TraceFacts.v ===== *)
(** * What an execution trace records

    The loops of [Executor::execute] and [execute_with_transactions] are two
    instances of one pattern: execute, then record one entry.  [records] states
    the pattern for a single turn, [recorded_run] carries it through the loop,
    and the theorems read off what the finished trace says. *)

From Stdlib Require Import ZArith Lia Ascii String Strings.Byte.
From stdpp Require Import base gmap strings list fin_maps.
From S2P Require Import Prelude RustNum RustFmt BTree Merkle Types TraceBuilder Isa Executor.
From S2P Require Import ExecutorFacts.

Local Open Scope Z_scope.

(** The state hashes of consecutive entries link up from [r] to [r']. *)
Fixpoint chained (r : string) (es : list TraceEntry) (r' : string) : Prop :=
  match es with
  | [] => r = r'
  | e :: es => te_pre_state_hash e = r /\ chained (te_post_state_hash e) es r'
  end.

Lemma chained_snoc r es r' e :
  chained r es r' -> te_pre_state_hash e = r' ->
  chained r (es ++ [e]) (te_post_state_hash e).
Proof.
  revert r. induction es as [|e' es IH]; intros r; simpl.
  - intros -> ->. done.
  - intros [<- Hc] He. auto.
Qed.

(** A failed entry charges nothing, touches nothing and says why; a
    successful one carries no error. *)
Definition entry_wf (e : TraceEntry) : Prop :=
  if te_success e then te_error e = None
  else te_compute_used e = 0 /\ te_accounts_read e = [] /\ te_accounts_written e = [] /\
       te_pre_state_hash e = te_post_state_hash e /\ is_Some (te_error e).

Section records.
Context `{HashLib} (prof : profile).

(** One turn of a loop over transactions identified by [id]. *)
Record records {T} (id : T -> TransactionId) (max_cu : Z)
    (acc : gmap string Z * TraceBuilder) (it : Z * T)
    (acc' : gmap string Z * TraceBuilder) (e : TraceEntry) : Prop := {
  rec_entries : tb_entries acc'.2 = tb_entries acc.2 ++ [e];
  rec_idx : te_tx_idx e = it.1;
  rec_id : te_tx_id e = id it.2;
  rec_pre : te_pre_state_hash e = compute_state_root acc.1;
  rec_post : te_post_state_hash e = compute_state_root acc'.1;
  rec_wf : entry_wf e;
  rec_cost : te_compute_used e <= Z.min 5000 max_cu \/ te_compute_used e = 0;
  rec_nonneg : 0 <= max_cu -> 0 <= te_compute_used e;
  rec_state : u64_state acc'.1;
  rec_root : tb_pre_state_root acc'.2 = tb_pre_state_root acc.2;
  rec_batch : tb_batch_id acc'.2 = tb_batch_id acc.2;
  rec_ok : builder_ok acc.2 -> builder_ok acc'.2;
}.

(** The compute units of a success, before the cap. *)
Lemma host_cost self s snd bytes s' rd wr cu :
  u64_state s -> execute_instruction prof self s snd bytes = Some (s', Ok (rd, wr, cu)) ->
  500 <= cu <= 5000.
Proof.
  intros Hs Hex.
  apply execute_instruction_cases in Hex as [[_ Heq]|(a & t & _ & _ & _ & _ & [= -> -> ->])];
    [..|done].
  - apply eq_sym, host_exec_ok in Heq as [Heq|(_ & _ & _ & _ & ->)]; [|lia].
    destruct (decode bytes) as [a t|k v|k d| | | |]; cbn [ledger_exec] in Heq;
      try (injection Heq as _ _ _ <-; lia); [|discriminate..].
    destruct (get_or 0 s snd <? a); [done|]. injection Heq as _ _ _ <-. lia.
  - lia.
Qed.

(** A failure leaves the state as it was. *)
Lemma host_error_state self s snd bytes s' e :
  u64_state s -> execute_instruction prof self s snd bytes = Some (s', Err e) -> s' = s.
Proof.
  intros Hs Hex.
  apply execute_instruction_cases in Hex as [[_ Heq]|(a & t & _ & _ & _ & _ & [=])]; [|done].
  unfold host_exec in Heq. destruct (ledger_exec _ _ _) as [s1 [eff|]] eqn:El; [done|].
  apply ledger_exec_rejected in El as ->. by injection Heq.
Qed.

(** The common body of both loops. *)
Lemma record_step {T} (id : T -> TransactionId) self s b idx tx snd bytes ok_label err_label s' r b' :
  u64_state s ->
  execute_instruction prof self s snd bytes = Some (s', r) ->
  match r with
  | Ok (reads, writes, cu) =>
      add_entry prof b idx (id tx) (compute_state_root s) ok_label reads writes
        (compute_state_root s') (Z.min cu (max_cu_per_tx self)) true None
  | Err e =>
      add_entry prof b idx (id tx) (compute_state_root s) err_label [] []
        (compute_state_root s') 0 false (Some (ExecError_display e))
  end = Some b' ->
  exists e, records id (max_cu_per_tx self) (s, b) (idx, tx) (s', b') e.
Proof.
  intros Hs Hex Hadd. pose proof (execute_instruction_u64 prof _ _ _ _ _ _ Hs Hex) as Hs'.
  destruct r as [[[rd wr] cu]|err].
  - pose proof (host_cost _ _ _ _ _ _ _ _ Hs Hex).
    pose proof (add_entry_entries _ _ _ _ _ _ _ _ _ _ _ _ _ Hadd) as (He & Hid & Hroot).
    eexists. split; simpl; try done; [simpl; lia|simpl; lia|by eapply add_entry_ok].
  - pose proof (host_error_state _ _ _ _ _ _ Hs Hex) as ->.
    pose proof (add_entry_entries _ _ _ _ _ _ _ _ _ _ _ _ _ Hadd) as (He & Hid & Hroot).
    eexists. split; simpl; try done; [by right|by eapply add_entry_ok].
Qed.

Lemma execute_step_records self s b it acc' :
  u64_state s -> execute_step prof self (s, b) it = Some acc' ->
  exists e, records Datatypes.id (max_cu_per_tx self) (s, b) it acc' e.
Proof.
  intros Hs. destruct it as [idx id]. unfold execute_step.
  intros ([s' r] & Hex & (b' & Hadd & [= <-])%bind_Some)%bind_Some.
  eapply record_step; [done|exact Hex|]. by destruct r as [[[rd wr] cu]|err].
Qed.

Lemma full_step_records (self : FullExecutor) s b it acc' :
  u64_state s -> full_step prof self (s, b) it = Some acc' ->
  exists e, records tx_id (max_cu_per_tx (inner self)) (s, b) it acc' e.
Proof.
  intros Hs. destruct it as [idx tx]. unfold full_step.
  intros ([s' r] & Hex & (b' & Hadd & [= <-])%bind_Some)%bind_Some.
  eapply record_step; [done|exact Hex|]. by destruct r as [[[rd wr] cu]|err].
Qed.
End records.

Section runs.
Context `{HashLib} (prof : profile).

(** What the loop has established after the transactions [done], started
    from the state [pre]. *)
Record recorded {T} (id : T -> TransactionId) (max_cu : Z) (batch_id : string)
    (pre : gmap string Z) (done : list T) (acc : gmap string Z * TraceBuilder) : Prop := {
  rd_chain : chained (compute_state_root pre) (tb_entries acc.2) (compute_state_root acc.1);
  rd_ids : map te_tx_id (tb_entries acc.2) = map id done;
  rd_idxs : map te_tx_idx (tb_entries acc.2) = map fst (enumerate done);
  rd_wf : Forall entry_wf (tb_entries acc.2);
  rd_cost : Forall (fun e => 0 <= te_compute_used e <= 5000) (tb_entries acc.2);
  rd_state : u64_state acc.1;
  rd_root : tb_pre_state_root acc.2 = compute_state_root pre;
  rd_batch : tb_batch_id acc.2 = batch_id;
  rd_ok : builder_ok acc.2;
}.

Lemma recorded_start {T} (id : T -> TransactionId) max_cu batch_id pre :
  u64_state pre ->
  recorded id max_cu batch_id pre [] (pre, TraceBuilder_new batch_id pre).
Proof. intros Hs. split; try done; try constructor. Qed.

Lemma recorded_step {T} (id : T -> TransactionId) max_cu batch_id pre done acc x acc' e :
  0 <= max_cu ->
  recorded id max_cu batch_id pre done acc ->
  records id max_cu acc (Z.of_nat (length done), x) acc' e ->
  recorded id max_cu batch_id pre (done ++ [x]) acc'.
Proof.
  intros Hmax [] []. split; rewrite ?rec_entries0, ?rec_root0, ?rec_batch0; auto.
  - rewrite <-rec_post0. eapply chained_snoc; [exact rd_chain0|done].
  - rewrite !map_app, rd_ids0. simpl. by rewrite rec_id0.
  - rewrite enumerate_app, !map_app, rd_idxs0. simpl. by rewrite rec_idx0.
  - apply Forall_app. by repeat constructor.
  - apply Forall_app. split; [done|]. constructor; [|done].
    specialize (rec_nonneg0 Hmax). lia.
Qed.

Lemma recorded_run {T} (id : T -> TransactionId) max_cu batch_id pre f (txs : list T) acc :
  0 <= max_cu -> u64_state pre ->
  (forall s b it acc', u64_state s -> f (s, b) it = Some acc' ->
     exists e, records id max_cu (s, b) it acc' e) ->
  foldlM f (pre, TraceBuilder_new batch_id pre) (enumerate txs) = Some acc ->
  recorded id max_cu batch_id pre txs acc.
Proof.
  intros Hmax Hpre Hf. revert acc.
  induction txs as [|x txs IH] using rev_ind; intros acc.
  - intros [= <-]. by apply recorded_start.
  - rewrite enumerate_app, foldlM_app. intros ([s b] & Hrun & Hlast)%bind_Some.
    cbn [foldlM] in Hlast. apply bind_Some in Hlast as (acc1 & Hlast & [= <-]).
    specialize (IH _ Hrun).
    destruct (Hf _ _ _ _ (rd_state _ _ _ _ _ _ IH) Hlast) as [e He].
    by eapply recorded_step.
Qed.

(** What the finished trace says, from what the loop recorded. *)
Record trace_records {T} (id : T -> TransactionId) (batch_id : string)
    (pre : gmap string Z) (txs : list T) (t : ExecutionTrace) : Prop := {
  tr_batch : et_batch_id t = batch_id;
  tr_ids : map te_tx_id (et_entries t) = map id txs;
  tr_idxs : map te_tx_idx (et_entries t) = map fst (enumerate txs);
  tr_wf : Forall entry_wf (et_entries t);
  tr_pre : et_state_root_pre t = compute_state_root pre;
  tr_chain : chained (et_state_root_pre t) (et_entries t) (et_state_root_post t);
  tr_hash : et_trace_hash t = merkle_root (map entry_hash (et_entries t));
  tr_counters : counters_ok (et_entries t) (et_total_compute t) (et_success_count t)
    (et_failure_count t);
}.

Lemma cost_bound es :
  Forall (fun e => 0 <= te_compute_used e <= 5000) es ->
  0 <= total_cost es <= 5000 * Z.of_nat (length es).
Proof.
  unfold total_cost. induction 1 as [|e es He Hes IH]; [done|].
  cbn [map length]. rewrite Zsum_cons. lia.
Qed.

Lemma recorded_fits {T} (id : T -> TransactionId) max_cu batch_id pre txs acc :
  5000 * Z.of_nat (length txs) < u64_bound ->
  recorded id max_cu batch_id pre txs acc -> fits (tb_entries acc.2).
Proof.
  intros Hlen []. pose proof (cost_bound _ rd_cost0).
  assert (length (tb_entries acc.2) = length txs) as Hl.
  { by rewrite <-(length_map te_tx_id), rd_ids0, length_map. }
  rewrite Hl in *. repeat split; [|lia|lia].
  eapply Forall_impl; [done|]. simpl. lia.
Qed.

Lemma recorded_trace {T} (id : T -> TransactionId) max_cu batch_id pre txs s b :
  5000 * Z.of_nat (length txs) < u64_bound ->
  recorded id max_cu batch_id pre txs (s, b) ->
  trace_records id batch_id pre txs (build b s).
Proof.
  intros Hlen Hrec. pose proof (recorded_fits _ _ _ _ _ _ Hlen Hrec) as Hfit.
  destruct Hrec. simpl in *. split; simpl; auto. by rewrite rd_root0.
Qed.
End runs.

(** ** The initial balances *)

Lemma init_balances_u64 txs : u64_state (init_balances txs).
Proof.
  unfold init_balances. assert (u64_state ∅) as H0 by apply map_Forall_empty.
  revert H0. generalize (∅ : gmap string Z). induction txs as [|tx txs IH]; intros s Hs; [done|].
  simpl. apply IH. apply map_Forall_entry_or_insert; [by split|done].
Qed.

Lemma init_sender_balances_u64 ids : u64_state (init_sender_balances ids).
Proof.
  unfold init_sender_balances. assert (u64_state ∅) as H0 by apply map_Forall_empty.
  revert H0. generalize (∅ : gmap string Z). induction ids as [|id ids IH]; intros s Hs; [done|].
  simpl. apply IH. apply map_Forall_entry_or_insert; [by split|done].
Qed.

#[export] Hint Resolve init_balances_u64 init_sender_balances_u64 : rust.

Section refinement.
Context `{HashLib} (prof : profile).

(** The specification's view of a list of transactions. *)
Definition ledger_txs (txs : list Transaction) : list (string * instr) :=
  map (fun tx => (sender tx, decode (instruction_data tx))) txs.

Lemma ledger_txs_app l1 l2 : ledger_txs (l1 ++ l2) = ledger_txs l1 ++ ledger_txs l2.
Proof. apply map_app. Qed.

(** One turn of the loop moves the state by one ledger step. *)
Lemma full_step_state (self : FullExecutor) s b idx tx acc' :
  u64_state s -> credit_fits (sender tx) (decode (instruction_data tx)) s ->
  full_step prof self (s, b) (idx, tx) = Some acc' ->
  acc'.1 = (ledger_exec (sender tx) (decode (instruction_data tx)) s).1.
Proof.
  intros Hs Hfit. unfold full_step. rewrite execute_instruction_spec by done.
  rewrite decide_True by done. rewrite <-(host_exec_state (fail_on_invalid (inner self))).
  destruct (host_exec _ _ _ _) as [s' r]. cbn [mbind option_bind].
  intros (b' & _ & [= <-])%bind_Some. done.
Qed.

(** If no credit overflows, the loop's final state is the ledger's. *)
Lemma full_run_state (self : FullExecutor) pre b0 txs acc :
  0 <= max_cu_per_tx (inner self) -> u64_state pre ->
  foldlM (full_step prof self) (pre, TraceBuilder_new b0 pre) (enumerate txs) = Some acc ->
  run_fits (ledger_txs txs) pre -> acc.1 = ledger_run (ledger_txs txs) pre.
Proof.
  intros Hmax Hpre. revert acc. induction txs as [|tx txs IH] using rev_ind; intros acc.
  - by intros [= <-].
  - rewrite enumerate_app, foldlM_app. intros ([s b] & Hrun & Hlast)%bind_Some.
    cbn [foldlM] in Hlast. apply bind_Some in Hlast as (acc1 & Hlast & [= <-]).
    rewrite ledger_txs_app, run_fits_app, ledger_run_app.
    intros [Hfits Hfit]. specialize (IH _ Hrun Hfits). simpl in IH. subst s.
    assert (u64_state (ledger_run (ledger_txs txs) pre)) as Hs.
    { eapply (rd_state tx_id (max_cu_per_tx (inner self)) b0 pre txs (_, b)),
        recorded_run; [done..| |exact Hrun].
      apply full_step_records. }
    destruct Hfit as [Hfit _]. by eapply full_step_state.
Qed.

(** No transaction of a batch stops a release build. *)
Lemma u64_arith_release_total z : is_Some (u64_arith Release z).
Proof. rewrite u64_arith_release. by eexists. Qed.

Lemma add_entry_release self i id pre ins rd wr post cu ok err :
  is_Some (add_entry Release self i id pre ins rd wr post cu ok err).
Proof.
  unfold add_entry, u64_add. rewrite !u64_arith_release. destruct ok; by eexists.
Qed.

Lemma execute_instruction_release self s snd bytes :
  u64_state s -> is_Some (execute_instruction Release self s snd bytes).
Proof.
  intros Hs. rewrite execute_instruction_spec by done.
  case_decide as Hfit; [by eexists|].
  destruct (decode bytes); try (exfalso; by apply Hfit). by eexists.
Qed.

Lemma full_step_release (self : FullExecutor) s b it :
  u64_state s -> is_Some (full_step Release self (s, b) it).
Proof.
  intros Hs. destruct it as [idx tx]. unfold full_step.
  destruct (execute_instruction_release (inner self) s (sender tx) (instruction_data tx) Hs)
    as [[s' r] ->]. cbn [mbind option_bind].
  destruct r as [[[rd wr] cu]|e];
    match goal with |- context [add_entry Release ?b ?i ?id ?p ?l ?rd ?wr ?q ?c ?o ?e] =>
      destruct (add_entry_release b i id p l rd wr q c o e) as [b' ->] end; by eexists.
Qed.
End refinement.

(** A loop whose step cannot fail on a machine state never fails. *)
Lemma full_run_release `{HashLib} (self : FullExecutor) txs s b :
  u64_state s -> is_Some (foldlM (full_step Release self) (s, b) txs).
Proof.
  revert s b. induction txs as [|it txs IH]; intros s b Hs; [by eexists|].
  destruct (full_step_release self s b it Hs) as [[s' b'] Hst]. cbn [foldlM]. rewrite Hst.
  cbn [mbind option_bind]. apply IH.
  destruct (full_step_records Release self s b it _ Hs Hst) as [e []]. done.
Qed.

(** ** What the trace hash binds *)

(** The part of an entry the hash pins down. *)
Definition entry_outcome (e : TraceEntry) : string * bool * Z :=
  (as_str (te_tx_id e), te_success e, te_compute_used e).

(** A hashed text can be split back when the id has no separator. *)
Lemma trace_entry_data_inj id1 ok1 cu1 rd1 wr1 id2 ok2 cu2 rd2 wr2 :
  free_of ":" id1 = true -> free_of ":" id2 = true -> 0 <= cu1 -> 0 <= cu2 ->
  trace_entry_data id1 ok1 cu1 rd1 wr1 = trace_entry_data id2 ok2 cu2 rd2 wr2 ->
  (id1, ok1, cu1) = (id2, ok2, cu2).
Proof.
  intros H1 H2 Hc1 Hc2 Heq. unfold trace_entry_data in Heq.
  apply append_inj_r in Heq. apply (split_first_unique ":") in Heq as [-> Heq]; [|done..].
  apply (append_inj_r "success:") in Heq.
  apply (split_first_unique ":") in Heq as [->%fmt_bool_inj Heq]; [|apply fmt_bool_free..].
  apply (append_inj_r "cu:") in Heq.
  apply (split_first_unique ":") in Heq as [->%fmt_u64_inj _]; [done|done|done|..];
    by apply fmt_u64_free.
Qed.

(** The texts hashed for the hash of a trace, in order. *)
Definition entry_text (e : TraceEntry) : string :=
  trace_entry_data (as_str (te_tx_id e)) (te_success e) (te_compute_used e)
    (te_accounts_read e) (te_accounts_written e).

Definition trace_inputs `{HashLib} (es : list TraceEntry) : list string :=
  map entry_text es ++ merkle_inputs (map entry_hash es).

Lemma entry_hashes_inj `{HashLaws} L es1 es2 :
  map entry_text es1 ⊆ L -> map entry_text es2 ⊆ L ->
  Forall (fun e => free_of ":" (as_str (te_tx_id e)) = true /\ 0 <= te_compute_used e)
    (es1 ++ es2) ->
  map entry_hash es1 = map entry_hash es2 ->
  map entry_outcome es1 = map entry_outcome es2 \/ collides_in L.
Proof.
  intros HL1 HL2 [Hf1 Hf2]%Forall_app. revert es2 HL2 Hf2.
  induction Hf1 as [|e1 es1 [Hid1 Hc1] Hf1 IH]; intros [|e2 es2] HL2 Hf2 Heq; try discriminate.
  - by left.
  - apply Forall_cons in Hf2 as [[Hid2 Hc2] Hf2]. cbn [map] in *. injection Heq as He Hes.
    change (hash_str (entry_text e1) = hash_str (entry_text e2)) in He.
    apply (hash_str_inj L) in He as [Hd|]; [|by right|set_solver..].
    destruct (IH ltac:(set_solver) es2 ltac:(set_solver) Hf2 Hes) as [Ho|]; [|by right].
    left. cbn [map]. f_equal; [|done]. by eapply trace_entry_data_inj.
Qed.

(** ** The properties *)

(** C9: A batch executed by [FullExecutor] yields a trace with one entry per
    transaction, in order and under its own id and index; consecutive state
    hashes link the pre-state root to the post-state root; failed entries
    charge and touch nothing; the trace hash is the Merkle root of the
    entries; and the three counters are those of the entries. *)
Theorem full_execution_records `{HashLib} prof (self : FullExecutor) batch txs t :
  0 <= max_cu_per_tx (inner self) -> 5000 * Z.of_nat (length txs) < u64_bound ->
  execute_with_transactions prof self batch txs = Some (Ok t) ->
  trace_records tx_id (b_batch_id batch) (init_balances txs) txs t.
Proof.
  intros Hmax Hlen ([s b] & Hrun & [= <-])%bind_Some.
  eapply recorded_trace; [done|]. eapply recorded_run; [done| | |exact Hrun].
  - apply init_balances_u64.
  - apply full_step_records.
Qed.

(** If no credit overflows, the trace of a batch commits to the ledger the
    specification computes from the same transactions. *)
Theorem full_execution_refines_ledger `{HashLib} prof (self : FullExecutor) batch txs t :
  0 <= max_cu_per_tx (inner self) ->
  run_fits (ledger_txs txs) (init_balances txs) ->
  execute_with_transactions prof self batch txs = Some (Ok t) ->
  et_state_root_pre t = state_root (init_balances txs) /\
  et_state_root_post t = state_root (ledger_run (ledger_txs txs) (init_balances txs)).
Proof.
  intros Hmax Hfits ([s b] & Hrun & [= <-])%bind_Some. simpl.
  pose proof (full_run_state prof self _ _ _ _ Hmax (init_balances_u64 txs) Hrun Hfits) as Hs.
  simpl in Hs. subst s. rewrite compute_state_root_eq. split; [|done].
  rewrite <-compute_state_root_eq.
  assert (recorded tx_id (max_cu_per_tx (inner self)) (b_batch_id batch) (init_balances txs)
    txs (ledger_run (ledger_txs txs) (init_balances txs), b)) as [].
  { eapply recorded_run; [done|apply init_balances_u64|apply full_step_records|exact Hrun]. }
  done.
Qed.

(** In a release build every batch of transactions yields a trace: no opcode,
    balance or length makes the executor fail or panic. *)
Lemma release_execution_total `{HashLib} (self : FullExecutor) batch txs :
  exists t, execute_with_transactions Release self batch txs = Some (Ok t).
Proof.
  unfold execute_with_transactions.
  destruct (full_run_release self (enumerate txs) (init_balances txs)
    (TraceBuilder_new (b_batch_id batch) (init_balances txs)) (init_balances_u64 txs))
    as [[s b] ->].
  by eexists.
Qed.

(** C26: The trace hash binds what each transaction did: two traces with as many
    entries, whose ids have no colon, and with the same hash agree entry by
    entry on id, success and compute units, unless two of the texts hashed for
    the two hashes are different and have the same SHA-256 digest. *)
Theorem trace_hash_binding `{HashLaws} es1 es2 :
  length es1 = length es2 ->
  Forall (fun e => free_of ":" (as_str (te_tx_id e)) = true /\ 0 <= te_compute_used e)
    (es1 ++ es2) ->
  merkle_root (map entry_hash es1) = merkle_root (map entry_hash es2) ->
  map entry_outcome es1 = map entry_outcome es2 \/
  collides_in (trace_inputs es1 ++ trace_inputs es2).
Proof.
  intros Hlen Hf Hroot. set (L := trace_inputs es1 ++ trace_inputs es2).
  assert (map entry_text es1 ⊆ L /\ merkle_inputs (map entry_hash es1) ⊆ L /\
    map entry_text es2 ⊆ L /\ merkle_inputs (map entry_hash es2) ⊆ L) as (Ht1 & Hm1 & Ht2 & Hm2)
    by (unfold L, trace_inputs; set_solver).
  clearbody L.
  assert (forall es, Forall digest (map entry_hash es)) as Hd.
  { intros es. apply Forall_map, Forall_true. intros e. apply hash_str_digest. }
  destruct es1 as [|e1 es1]; [destruct es2; [by left|done]|].
  destruct (merkle_root_inj_length L (map entry_hash (e1 :: es1)) (map entry_hash es2))
    as [Heq|]; [done..|by rewrite !length_map|done|done|done| |by right].
  by eapply entry_hashes_inj.
Qed.
