(* ===== verification/Guest.v ===== *)
(** * The zkVM guest ([crates/sp1-program/src/main.rs])

    The program SP1 proves the execution of.  It has its own copies of the
    hashing functions and of the instruction set, re-executes the batch, and
    commits public inputs only if the five assertions hold.  [guest_main] is
    the whole program as a function of its three inputs; [None] is a panic,
    and the public inputs are the result. *)

From Stdlib Require Import ZArith Lia Ascii String Bool Strings.Byte.
From stdpp Require Import base gmap strings list fin_maps.
From S2P Require Import Prelude RustNum RustFmt BTree Merkle Types TraceBuilder Isa Executor.
From S2P Require Import ExecutorFacts.

Local Open Scope Z_scope.

Record SerializableTransaction := mkSerializableTransaction {
  st_tx_id : string;
  st_sender : string;
  st_instruction_data : list byte;
}.

Record ExecutionTraceInput := mkExecutionTraceInput {
  ti_batch_id : string;
  ti_state_root_pre : string;
  ti_state_root_post : string;
  ti_trace_hash : string;
  ti_total_compute : Z;
  ti_tx_count : Z;
}.

Record PublicInputs := mkPublicInputs {
  pi_batch_id : string;
  pi_state_root_pre : string;
  pi_state_root_post : string;
  pi_trace_hash : string;
  pi_total_compute : Z;
  pi_tx_count : Z;
}.

(** Reads, writes, compute units, success flag and error text. *)
Record guest_outcome := mkGuestOutcome {
  go_reads : list string;
  go_writes : list string;
  go_compute : Z;
  go_success : bool;
  go_error : option string;
}.

Section guest.
Context `{HashLib} (prof : profile).

(** *** Hashing *)

Definition guest_hash_bytes (data : list byte) : string := hex_encode (sha256 data).
Definition guest_hash_str (s : string) : string := guest_hash_bytes (list_byte_of_string s).

Definition guest_next (current : list string) : list string :=
  map (fun chunk =>
    let combined := match chunk with
                    | (a, Some b) => a +:+ b
                    | (a, None) => a +:+ a
                    end in
    guest_hash_str combined) (chunks2 current).

Fixpoint guest_merkle_loop (fuel : nat) (current : list string) : option (list string) :=
  if (1 <? length current)%nat then
    match fuel with
    | O => None
    | S fuel => guest_merkle_loop fuel (guest_next current)
    end
  else Some current.

(** [current[0].clone()]: the index is in range by then. *)
Definition guest_merkle_root (leaves : list string) : string :=
  match leaves with
  | [] => guest_hash_bytes (list_byte_of_string "empty")
  | [leaf] => leaf
  | _ => default "" (guest_merkle_loop (length leaves) leaves ≫= (fun current => current !! 0%nat))
  end.

Definition guest_compute_state_root (state : gmap string Z) : string :=
  if decide (state = ∅) then guest_hash_str "empty_state"
  else
    let leaves :=
      map (fun kv => guest_hash_str (kv.1 +:+ ":" +:+ fmt_u64 kv.2)) (btree_iter state) in
    guest_merkle_root leaves.

Definition guest_hash_trace_entry (tx_id : string) (success : bool) (compute_used : Z)
    (accounts_read accounts_written : list string) : string :=
  let reads := join "," accounts_read in
  let writes := join "," accounts_written in
  let data := "tx:" +:+ tx_id +:+ ":success:" +:+ fmt_bool success +:+ ":cu:" +:+
    fmt_u64 compute_used +:+ ":reads:" +:+ reads +:+ ":writes:" +:+ writes in
  guest_hash_str data.

(** *** Instructions *)

Definition guest_execute_instruction (state : gmap string Z) (sender : string)
    (instruction_data : list byte) : option (gmap string Z * guest_outcome) :=
  match instruction_data with
  | [] => Some (state, mkGuestOutcome [] [] 0 false (Some "empty instruction"))
  | opcode :: data =>
      let opcode := u8_to_Z opcode in
      if opcode =? 0 then
        if (length data <? 16)%nat then
          Some (state, mkGuestOutcome [] [] 0 false (Some "invalid transfer data"))
        else
        let amount := le_word_at 0 data in
        let target_idx := le_word_at 8 data in
        let target := "account_" +:+ fmt_u64 target_idx in
        let sender_balance := get_or 0 state sender in
        if sender_balance <? amount then
          Some (state, mkGuestOutcome [sender] [] 5000 false (Some "insufficient balance"))
        else
        debited ← u64_sub prof (get_or 0 state sender) amount;
        let state := <[sender := debited]> state in
        credited ← u64_add prof (get_or 0 state target) amount;
        let state := <[target := credited]> state in
        Some (state, mkGuestOutcome [sender; target] [sender; target] 5000 true None)
      else if opcode =? 1 then
        if (length data <? 16)%nat then
          Some (state, mkGuestOutcome [] [] 0 false (Some "invalid setdata"))
        else
        let key_idx := le_word_at 0 data in
        let value := le_word_at 8 data in
        let key := "data_" +:+ fmt_u64 key_idx in
        let state := <[key := value]> state in
        Some (state, mkGuestOutcome [] [key] 3000 true None)
      else if opcode =? 2 then
        if (length data <? 16)%nat then
          Some (state, mkGuestOutcome [] [] 0 false (Some "invalid increment"))
        else
        let key_idx := le_word_at 0 data in
        let delta := le_word_at 8 data in
        let key := "data_" +:+ fmt_u64 key_idx in
        let new_value := u64_saturating_add (get_or 0 state key) delta in
        let state := <[key := new_value]> state in
        Some (state, mkGuestOutcome [key] [key] 2000 true None)
      else if opcode =? 3 then
        Some (state, mkGuestOutcome [] [] 1000 true None)
      else
        Some (state, mkGuestOutcome [] [] 500 false (Some "invalid opcode"))
  end.

(** *** The batch *)

(** One turn of the loop of [execute_batch]. *)
Definition guest_step (acc : gmap string Z * Z * list string) (tx : SerializableTransaction)
    : option (gmap string Z * Z * list string) :=
  let '(state, total_compute, entry_hashes) := acc in
  '(state, out) ← guest_execute_instruction state (st_sender tx) (st_instruction_data tx);
  total_compute ← u64_add prof total_compute (go_compute out);
  let entry_hash := guest_hash_trace_entry (st_tx_id tx) (go_success out) (go_compute out)
                      (go_reads out) (go_writes out) in
  Some (state, total_compute, entry_hashes ++ [entry_hash]).

(** [(state_root_pre, state_root_post, total_compute, entry_hashes)] *)
Definition guest_execute_batch (initial_state : gmap string Z)
    (transactions : list SerializableTransaction)
    : option (string * string * Z * list string) :=
  let state_root_pre := guest_compute_state_root initial_state in
  '(state, total_compute, entry_hashes) ←
    foldlM guest_step (initial_state, 0, []) transactions;
  let state_root_post := guest_compute_state_root state in
  Some (state_root_pre, state_root_post, total_compute, entry_hashes).

(** [main] between its reads and its [commit]. *)
Definition guest_main (trace : ExecutionTraceInput)
    (transactions : list SerializableTransaction) (initial_state : gmap string Z)
    : option PublicInputs :=
  '(recomputed_pre, recomputed_post, recomputed_compute, entry_hashes) ←
    guest_execute_batch initial_state transactions;
  let recomputed_trace_hash := guest_merkle_root entry_hashes in
  guard (recomputed_pre = ti_state_root_pre trace);;
  guard (recomputed_post = ti_state_root_post trace);;
  guard (recomputed_trace_hash = ti_trace_hash trace);;
  guard (recomputed_compute = ti_total_compute trace);;
  guard (Z.of_nat (length transactions) = ti_tx_count trace);;
  Some {|
    pi_batch_id := ti_batch_id trace;
    pi_state_root_pre := recomputed_pre;
    pi_state_root_post := recomputed_post;
    pi_trace_hash := recomputed_trace_hash;
    pi_total_compute := recomputed_compute;
    pi_tx_count := Z.of_nat (length transactions);
  |}.

(** ** The copies agree with the host's functions *)

Lemma guest_next_eq l : guest_next l = next_level l.
Proof. done. Qed.

Lemma guest_merkle_loop_eq n l : guest_merkle_loop n l = merkle_loop n l.
Proof.
  revert l. induction n as [|n IH]; intros l; cbn [guest_merkle_loop merkle_loop];
    destruct (1 <? length l)%nat; auto.
Qed.

Lemma guest_merkle_root_eq l : guest_merkle_root l = merkle_root l.
Proof.
  destruct l as [|a [|b l]]; [done..|]. unfold guest_merkle_root, merkle_root.
  rewrite guest_merkle_loop_eq. by destruct (merkle_loop _ _) as [[|x r]|].
Qed.

Lemma guest_compute_state_root_eq s : guest_compute_state_root s = compute_state_root s.
Proof.
  unfold guest_compute_state_root, compute_state_root. case_decide; [done|].
  by rewrite guest_merkle_root_eq.
Qed.

Lemma guest_hash_trace_entry_eq id ok cu rd wr :
  guest_hash_trace_entry id ok cu rd wr = hash_trace_entry id ok cu rd wr.
Proof. done. Qed.
End guest.
