(* ===== verification/Sp1.v ===== *)
(** * SP1, the prover and the verifier
    ([crates/sp1-prover/src/lib.rs], [crates/sp1-verifier/src/lib.rs])

    The SP1 SDK and bincode are third-party: the operations the two crates call
    are the class [Sp1Sdk], what SP1 documents about them is the class
    [Sp1Laws] (a proof exists only of an execution of the guest that ran to
    completion, proofs verify, verified proofs are proofs of such an
    execution).  The prover and the verifier themselves are modelled in full,
    and the traits [Prover] and [Verifier] they implement are classes the
    pipeline engine is generic in. *)

From Stdlib Require Import ZArith Lia Ascii String Bool Strings.Byte.
From stdpp Require Import base gmap strings list fin_maps.
From S2P Require Import Prelude RustNum RustFmt BTree Merkle Types Guest.

Local Open Scope Z_scope.

(** ** The traits *)

Class Prover (P C : Type) := {
  prove : P -> ExecutionTrace -> list Transaction -> C -> result ProveError BatchProof * C;
}.

(** [None] is a panic while the proof's public values are read. *)
Class Verifier (V C : Type) := {
  verify : V -> BatchProof -> ExecutionTrace -> C ->
    option (result VerifyError VerificationResult * C);
}.

(** ** What the host writes to the guest *)

(** [impl From<&Transaction> for SerializableTransaction] *)
Definition SerializableTransaction_from (tx : Transaction) : SerializableTransaction := {|
  st_tx_id := as_str (tx_id tx);
  st_sender := sender tx;
  st_instruction_data := instruction_data tx;
|}.

(** [impl From<&ExecutionTrace> for ExecutionTraceInput] *)
Definition ExecutionTraceInput_from (trace : ExecutionTrace) : ExecutionTraceInput := {|
  ti_batch_id := et_batch_id trace;
  ti_state_root_pre := et_state_root_pre trace;
  ti_state_root_post := et_state_root_post trace;
  ti_trace_hash := et_trace_hash trace;
  ti_total_compute := et_total_compute trace;
  ti_tx_count := Z.of_nat (length (et_entries trace));
|}.

(** The three [stdin.write] calls. *)
Record Sp1Stdin := mkSp1Stdin {
  in_trace : ExecutionTraceInput;
  in_txs : list SerializableTransaction;
  in_state : gmap string Z;
}.

(** ** The SDK *)

Class Sp1Sdk := {
  Sp1Proof : Type;                                    (* [SP1ProofWithPublicValues] *)
  sdk_setup : result string unit;                     (* [prover.setup(elf)] *)
  sdk_execute : Sp1Stdin -> result string unit;       (* [prover.execute(elf, stdin).run()] *)
  sdk_prove : Sp1Stdin -> result string Sp1Proof;     (* [prover.prove(&pk, stdin).compressed().run()] *)
  sdk_verify : Sp1Proof -> result string unit;        (* [prover.verify(&proof, &vk, None)] *)
  sdk_public_values : Sp1Proof -> option PublicInputs;    (* [public_values.read()] *)
  bincode_serialize : Sp1Proof -> result string (list byte);
  bincode_deserialize : list byte -> result string Sp1Proof;
  prove_elapsed_ms : Sp1Stdin -> Z;                   (* [start.elapsed()] of a proof *)
  verify_elapsed_ms : Sp1Proof -> Z;                  (* the same of a verification *)
}.

(** The guest binary is a release build. *)
Definition guest_run `{HashLib} (i : Sp1Stdin) : option PublicInputs :=
  guest_main Release (in_trace i) (in_txs i) (in_state i).

(** The values of the [BTreeMap<String, u64>] the guest reads are words. *)
Definition stdin_ok (i : Sp1Stdin) : Prop := u64_state (in_state i).

Class Sp1Laws `{HashLib, Sp1Sdk} : Prop := {
  sdk_execute_sound i : sdk_execute i = Ok tt -> is_Some (guest_run i);
  sdk_prove_sound i pf :
    sdk_prove i = Ok pf -> exists pi, guest_run i = Some pi /\ sdk_public_values pf = Some pi;
  sdk_verify_complete i pf : sdk_prove i = Ok pf -> sdk_verify pf = Ok tt;
  sdk_verify_sound pf :
    sdk_verify pf = Ok tt ->
    exists i pi, stdin_ok i /\ guest_run i = Some pi /\ sdk_public_values pf = Some pi;
  bincode_roundtrip pf bs : bincode_serialize pf = Ok bs -> bincode_deserialize bs = Ok pf;
}.

(** ** The prover *)

Section prover.
Context `{HashLib, Sp1Sdk} `{Clock C}.

(** [struct Sp1Prover], whose only field is the SDK's client. *)
Record Sp1Prover := mkSp1Prover {}.

Definition execute_only (self : Sp1Prover) (trace : ExecutionTrace)
    (transactions : list Transaction) (initial_state : gmap string Z)
    : result ProveError unit :=
  let trace_input := ExecutionTraceInput_from trace in
  let serializable_txs := map SerializableTransaction_from transactions in
  let stdin := mkSp1Stdin trace_input serializable_txs initial_state in
  map_err Internal (sdk_execute stdin).

Definition prove_with_transactions (self : Sp1Prover) (trace : ExecutionTrace)
    (transactions : list Transaction) (initial_state : gmap string Z) (clock : C)
    : result ProveError BatchProof * C :=
  match et_entries trace with
  | [] => (Err (InvalidTrace "empty trace"), clock)
  | _ =>
      match sdk_setup with
      | Err e => (Err (Internal e), clock)
      | Ok _ =>
          let trace_input := ExecutionTraceInput_from trace in
          let serializable_txs := map SerializableTransaction_from transactions in
          let stdin := mkSp1Stdin trace_input serializable_txs initial_state in
          match sdk_prove stdin with
          | Err e => (Err (Internal e), clock)
          | Ok sp1_proof =>
              let proving_time_ms := prove_elapsed_ms stdin in
              match bincode_serialize sp1_proof with
              | Err e => (Err (Internal e), clock)
              | Ok proof_bytes =>
                  let proof_hash := hash_bytes proof_bytes in
                  let commitment := {|
                    pc_batch_hash := hash_str (et_batch_id trace);
                    pc_trace_hash := et_trace_hash trace;
                    pc_state_root_pre := et_state_root_pre trace;
                    pc_state_root_post := et_state_root_post trace;
                    pc_total_compute := et_total_compute trace;
                    pc_tx_count := Z.of_nat (length (et_entries trace)) |} in
                  let clock := sleep_ms clock proving_time_ms in
                  (Ok {| pf_batch_id := et_batch_id trace;
                         pf_proof_data := proof_bytes;
                         pf_proof_hash := proof_hash;
                         pf_commitment := commitment;
                         pf_generated_at := now_ms clock;
                         pf_proving_time_ms := proving_time_ms;
                         pf_proof_size_bytes := Z.of_nat (length proof_bytes) |}, clock)
              end
          end
      end
  end.

(** The state the prover rebuilds from the entries of a trace. *)
Definition reconstruct_state (entries : list TraceEntry) : gmap string Z :=
  foldl (fun state e => entry_or_insert ("sender_" +:+ as_str (te_tx_id e)) 1000000 state)
    ∅ entries.

(** The transaction it rebuilds from one entry. *)
Definition reconstruct_tx (e : TraceEntry) : Transaction :=
  let sender := "sender_" +:+ as_str (te_tx_id e) in
  let tx := Transaction_new (te_tx_id e) sender "execute" in
  tx_set_instruction_data [u8_of_Z 3] tx.

(** The state it rebuilds from the senders of the transactions. *)
Definition sender_balances (transactions : list Transaction) : gmap string Z :=
  foldl (fun state tx => entry_or_insert (sender tx) 1000000 state) ∅ transactions.

Definition Sp1Prover_prove (self : Sp1Prover) (trace : ExecutionTrace)
    (transactions : list Transaction) (clock : C) : result ProveError BatchProof * C :=
  match transactions with
  | [] =>
      let initial_state := reconstruct_state (et_entries trace) in
      let reconstructed := map reconstruct_tx (et_entries trace) in
      prove_with_transactions self trace reconstructed initial_state clock
  | _ =>
      let initial_state := sender_balances transactions in
      prove_with_transactions self trace transactions initial_state clock
  end.
End prover.

#[export] Instance Sp1Prover_Prover `{HashLib, Sp1Sdk, Clock C} : Prover Sp1Prover C := {
  prove := Sp1Prover_prove;
}.

(** ** The verifier *)

Section verifier.
Context `{HashLib, Sp1Sdk} `{Clock C}.

Record Sp1Verifier := mkSp1Verifier {}.

Definition Sp1Verifier_verify (self : Sp1Verifier) (proof : BatchProof)
    (trace : ExecutionTrace) (clock : C)
    : option (result VerifyError VerificationResult * C) :=
  match bincode_deserialize (pf_proof_data proof) with
  | Err e => Some (Err (VerificationFailed ("failed to deserialize proof: " +:+ e)), clock)
  | Ok sp1_proof =>
      match sdk_setup with
      | Err e => Some (Err (VerificationFailed ("failed to setup verifier: " +:+ e)), clock)
      | Ok _ =>
          let verification_result := sdk_verify sp1_proof in
          let verification_time_ms := verify_elapsed_ms sp1_proof in
          let clock := sleep_ms clock verification_time_ms in
          let answer is_valid error :=
            Some (Ok {| vr_batch_id := pf_batch_id proof;
                        vr_is_valid := is_valid;
                        vr_verification_time_ms := verification_time_ms;
                        vr_error := error |}, clock) in
          match verification_result with
          | Ok _ =>
              public_inputs ← sdk_public_values sp1_proof;
              if negb (String.eqb (pi_trace_hash public_inputs) (et_trace_hash trace)) then
                answer false (Some ("trace hash mismatch: expected " +:+ et_trace_hash trace +:+
                                    ", got " +:+ pi_trace_hash public_inputs))
              else if negb (String.eqb (pi_state_root_pre public_inputs)
                                       (et_state_root_pre trace)) then
                answer false (Some "pre-state root mismatch")
              else if negb (String.eqb (pi_state_root_post public_inputs)
                                       (et_state_root_post trace)) then
                answer false (Some "post-state root mismatch")
              else if negb (pi_total_compute public_inputs =? et_total_compute trace) then
                answer false (Some "total compute mismatch")
              else answer true None
          | Err e => answer false (Some ("SP1 verification failed: " +:+ e))
          end
      end
  end.
End verifier.

#[export] Instance Sp1Verifier_Verifier `{Sp1Sdk, Clock C} : Verifier Sp1Verifier C := {
  verify := Sp1Verifier_verify;
}.
