(* ===== verification/Agreement.v ===== *)
(** * Host and guest

    The guest accepts a batch only if its re-execution reproduces the host's
    trace.  Both refine the ledger of [Isa] for instructions that succeed, but
    they charge failures differently: the host records a failed instruction
    with no compute units and no reads, while the guest charges 5000 units for
    an unfunded transfer (and reports the sender as read) and 500 units for an
    unknown opcode.  [guest_extra] is that difference; the theorems show that it
    is exactly what decides whether a batch can be proved. *)

From Stdlib Require Import ZArith Lia Ascii String Bool Strings.Byte.
From stdpp Require Import base gmap strings list fin_maps.
From S2P Require Import Prelude RustNum RustFmt BTree Merkle Types TraceBuilder Isa Executor.
From S2P Require Import ExecutorFacts TraceFacts Guest Sp1.

Local Open Scope Z_scope.

(** ** The guest's answers, in terms of the ledger *)

Definition guest_rejection (snd : string) (i : instr) : guest_outcome :=
  match i with
  | ITransfer _ _ => mkGuestOutcome [snd] [] 5000 false (Some "insufficient balance")
  | IShort op =>
      mkGuestOutcome [] [] 0 false
        (Some (if op =? 0 then "invalid transfer data"
               else if op =? 1 then "invalid setdata" else "invalid increment"))
  | IEmpty => mkGuestOutcome [] [] 0 false (Some "empty instruction")
  | _ => mkGuestOutcome [] [] 500 false (Some "invalid opcode")
  end.

Definition guest_exec (snd : string) (i : instr) (s : gmap string Z)
    : gmap string Z * guest_outcome :=
  match ledger_exec snd i s with
  | (s', Some (rd, wr, cu)) => (s', mkGuestOutcome rd wr cu true None)
  | (s', None) => (s', guest_rejection snd i)
  end.

Section spec.
Context (prof : profile).

Lemma guest_execute_instruction_spec s snd bytes :
  u64_state s ->
  guest_execute_instruction prof s snd bytes =
    if decide (credit_fits snd (decode bytes) s)
    then Some (guest_exec snd (decode bytes) s)
    else match prof, decode bytes with
         | Release, ITransfer amount t =>
             Some (wrapped_transfer snd (account_key t) amount s,
                   mkGuestOutcome [snd; account_key t] [snd; account_key t] 5000 true None)
         | _, _ => None
         end.
Proof.
  intros Hs. destruct bytes as [|op data]; [done|].
  cbn [guest_execute_instruction decode]. generalize (u8_to_Z op) as o. intros o.
  split_opcode o; zbool; subst; try done.
  - destruct (length data <? 16)%nat; [done|].
    rewrite le_word_at_0, le_word_at_8. fold (account_key (word1 data)).
    set (tgt := account_key (word1 data)).
    pose proof (get_or_u64 s snd Hs) as [Hb0 Hb1]. pose proof (word0_u64 data) as [Ha0 _].
    unfold guest_exec, ledger_exec. cbn [credit_fits]. fold tgt.
    destruct (get_or 0 s snd <? word0 data) eqn:E; zbool; [by rewrite decide_True by lia|].
    rewrite u64_sub_le by (split; lia || done). cbn [mbind option_bind].
    set (s1 := <[snd:=get_or 0 s snd - word0 data]> s).
    pose proof (get_or_u64 s1 tgt) as [Ht0 Ht1];
      [apply u64_state_insert; [done|split; lia]|].
    unfold u64_add. case_decide as Hfit.
    + rewrite u64_arith_in by (split; [lia|by apply Hfit]). done.
    + unfold u64_arith. rewrite decide_False; [by destruct prof|].
      intros [_ Hlt]. apply Hfit. by intros _.
  - by destruct (length data <? 16)%nat.
  - by destruct (length data <? 16)%nat.
Qed.
End spec.

(** ** The difference in charges *)

(** What the guest charges for the transaction beyond what the host's entry
    records. *)
Definition guest_extra (tx : Transaction) (e : TraceEntry) : Z :=
  if te_success e then 0
  else match decode (instruction_data tx) with
       | ITransfer _ _ => 5000
       | IInvalid _ => 500
       | _ => 0
       end.

(** The transactions of a batch paired with their entries. *)
Definition extras (txs : list Transaction) (es : list TraceEntry) : list Z :=
  zip_with guest_extra txs es.

Lemma guest_extra_nonneg tx e : 0 <= guest_extra tx e.
Proof. unfold guest_extra. destruct (te_success e); [lia|]. by destruct (decode _). Qed.

Lemma guest_extra_bound tx e :
  entry_wf e -> te_compute_used e <= 5000 -> te_compute_used e + guest_extra tx e <= 5000.
Proof.
  unfold entry_wf, guest_extra. destruct (te_success e); [lia|].
  intros (-> & _). by destruct (decode _).
Qed.

(** Together a host charge and its extra stay within 5000 units. *)
Lemma charges_bound txs es :
  length txs = length es -> Forall entry_wf es ->
  Forall (fun e => 0 <= te_compute_used e <= 5000) es ->
  0 <= total_cost es + Zsum (extras txs es) <= 5000 * Z.of_nat (length txs).
Proof.
  intros Hl Hwf. revert txs Hl. induction Hwf as [|e es He Hwf IH]; intros [|tx txs] Hl Hc;
    try discriminate; [done|].
  inversion_clear Hc as [|? ? Hce Hc']. injection Hl as Hl.
  specialize (IH txs Hl Hc'). pose proof (guest_extra_nonneg tx e).
  pose proof (guest_extra_bound tx e He).
  unfold extras, total_cost in *. cbn [zip_with map length]. rewrite !Zsum_cons. lia.
Qed.

(** The entry of a transaction says whether the ledger applied it. *)
Definition applied (snd : string) (i : instr) (s : gmap string Z) : bool :=
  match (ledger_exec snd i s).2 with Some _ => true | None => false end.

Section step.
Context `{HashLib} (prof : profile).

(** The configuration [FullExecutor::new] gives an executor, with a cap that
    cuts no instruction. *)
Definition uncapped (self : FullExecutor) : Prop :=
  fail_on_invalid (inner self) = true /\ 5000 <= max_cu_per_tx (inner self).

(** Both sides of a replayed step known, compare the entry's hash and
    charge with the guest's. *)
Local Ltac compare_entry Hd :=
  eexists _, _; split; [eassumption|]; split; [reflexivity|];
  unfold guest_extra, entry_hash; cbn; rewrite ?Hd; rewrite ?Z.min_l by lia;
  split; [lia|]; split; [first [done | intros Hx; exfalso; discriminate Hx]|].

(** One turn of the host loop, in either build, replayed by the guest, which
    is a release build. *)
Lemma guest_replays_step (self : FullExecutor) s b idx tx s' b' :
  uncapped self -> u64_state s ->
  full_step prof self (s, b) (idx, tx) = Some (s', b') ->
  exists e out,
    tb_entries b' = tb_entries b ++ [e] /\
    guest_execute_instruction Release s (sender tx) (instruction_data tx) = Some (s', out) /\
    go_compute out = te_compute_used e + guest_extra tx e /\
    (guest_extra tx e = 0 ->
     guest_hash_trace_entry (as_str (tx_id tx)) (go_success out) (go_compute out)
       (go_reads out) (go_writes out) = entry_hash e) /\
    te_success e = applied (sender tx) (decode (instruction_data tx)) s.
Proof.
  intros [Hfail Hcap] Hs. unfold full_step.
  rewrite execute_instruction_spec, guest_execute_instruction_spec by done. rewrite Hfail.
  unfold applied.
  case_decide as Hfit; [unfold host_exec, guest_exec|destruct prof; [done|]];
    destruct (decode (instruction_data tx)) as [a t|k v|k d| |op|op|] eqn:Hd; try done;
    cbn [ledger_exec credit_fits] in *;
    try destruct (get_or 0 s (sender tx) <? a) eqn:Ha; cbn [mbind option_bind];
    intros (b1 & Hadd & [= <- <-])%bind_Some;
    apply add_entry_entries in Hadd as (Hes & _); compare_entry Hd; try done.
  zbool. exfalso. apply Hfit. lia.
Qed.

(** The whole loop.  The guest's total exceeds the host's by the extra
    charges, and its entry hashes are the host's when there are none. *)
Lemma guest_replays_run (self : FullExecutor) batch_id pre txs s b :
  uncapped self -> u64_state pre -> 5000 * Z.of_nat (length txs) < u64_bound ->
  foldlM (full_step prof self) (pre, TraceBuilder_new batch_id pre) (enumerate txs)
    = Some (s, b) ->
  exists hs,
    foldlM (guest_step Release) (pre, 0, []) (map SerializableTransaction_from txs) =
      Some (s, total_cost (tb_entries b) + Zsum (extras txs (tb_entries b)), hs) /\
    (Forall (fun x => x = 0) (extras txs (tb_entries b)) ->
     hs = map entry_hash (tb_entries b)).
Proof.
  intros Hun Hpre. assert (0 <= max_cu_per_tx (inner self)) as Hmax by (destruct Hun; lia).
  revert s b. induction txs as [|tx txs IH] using rev_ind; intros s b Hlen.
  - intros [= <- <-]. by exists [].
  - rewrite length_app in Hlen. simpl in Hlen.
    rewrite enumerate_app, foldlM_app. intros ([s1 b1] & Hrun & Hlast)%bind_Some.
    cbn [foldlM] in Hlast. apply bind_Some in Hlast as (acc & Hlast & [= ->]).
    destruct (IH s1 b1) as (hs & Hguest & Hhs); [lia|done|].
    assert (recorded tx_id (max_cu_per_tx (inner self)) batch_id pre txs (s1, b1)) as Hrec.
    { eapply recorded_run; [done..|apply full_step_records|exact Hrun]. }
    pose proof (rd_state _ _ _ _ _ _ Hrec) as Hs1. simpl in Hs1.
    destruct (full_step_records prof self _ _ _ _ Hs1 Hlast) as [e' Hstep].
    destruct (guest_replays_step self s1 b1 _ tx s b Hun Hs1 Hlast)
      as (e & out & Hes & Hout & Hcost & Hhash & _).
    assert (length txs = length (tb_entries b1)) as Hl.
    { pose proof (f_equal length (rd_ids _ _ _ _ _ _ Hrec)) as Hids.
      rewrite !length_map in Hids. done. }
    assert (e' = e) as ->.
    { pose proof (rec_entries _ _ _ _ _ _ Hstep) as He'. simpl in He'.
      rewrite Hes in He'. apply app_inj_2 in He' as [_ He']; [by injection He'|done]. }
    exists (hs ++ [guest_hash_trace_entry (as_str (tx_id tx)) (go_success out)
                     (go_compute out) (go_reads out) (go_writes out)]).
    rewrite Hes. unfold extras. rewrite zip_with_app by done. fold (extras txs (tb_entries b1)).
    cbn [zip_with]. rewrite total_cost_snoc, Zsum_app, Zsum_cons, Zsum_nil. split.
    + rewrite map_app, foldlM_app, Hguest. cbn [mbind option_bind foldlM map guest_step].
      cbn [st_sender st_instruction_data st_tx_id SerializableTransaction_from].
      rewrite Hout. cbn [mbind option_bind]. unfold u64_add. rewrite u64_arith_in.
      * cbn [mbind option_bind]. rewrite Hcost.
        match goal with |- Some (_, ?a, _) = Some (_, ?b, _) => by replace a with b by lia end.
      * pose proof (charges_bound txs (tb_entries b1) Hl (rd_wf _ _ _ _ _ _ Hrec)
                      (rd_cost _ _ _ _ _ _ Hrec)).
        pose proof (guest_extra_nonneg tx e). pose proof (rec_nonneg _ _ _ _ _ _ Hstep Hmax).
        assert (te_compute_used e <= 5000) as Hle
          by (destruct (rec_cost _ _ _ _ _ _ Hstep); lia).
        pose proof (guest_extra_bound tx e (rec_wf _ _ _ _ _ _ Hstep) Hle).
        rewrite Hcost. split; lia.
    + intros [Hx1 Hx2]%Forall_app. rewrite map_app, (Hhs Hx1). cbn [map].
      inversion_clear Hx2. by rewrite Hhash.
Qed.
End step.

(** ** Which batches can be proved *)

(** The charges of host and guest agree on an instruction: it is neither an
    unfunded transfer nor an unknown opcode. *)
Definition same_charge (snd : string) (i : instr) (s : gmap string Z) : bool :=
  match i with
  | ITransfer _ _ => applied snd i s
  | IInvalid _ => false
  | _ => true
  end.

(** They agree on every instruction of a batch, along the ledger's run. *)
Fixpoint replayable (txs : list (string * instr)) (s : gmap string Z) : bool :=
  match txs with
  | [] => true
  | (snd, i) :: txs => same_charge snd i s && replayable txs (ledger_exec snd i s).1
  end.

Lemma replayable_snoc txs snd i s :
  replayable (txs ++ [(snd, i)]) s = replayable txs s && same_charge snd i (ledger_run txs s).
Proof.
  revert s. induction txs as [|[snd' i'] txs IH]; intros s; simpl.
  - by rewrite andb_true_r.
  - rewrite IH. by rewrite andb_assoc.
Qed.

Lemma guest_extra_same_charge tx e s :
  te_success e = applied (sender tx) (decode (instruction_data tx)) s ->
  guest_extra tx e = 0 <-> same_charge (sender tx) (decode (instruction_data tx)) s = true.
Proof.
  unfold guest_extra, same_charge, applied. intros ->.
  destruct (decode (instruction_data tx)) as [a t| | | | | |]; cbn [ledger_exec]; try done.
  by destruct (get_or 0 s (sender tx) <? a).
Qed.

Lemma Zsum_zero l : Forall (fun x => 0 <= x) l -> Zsum l = 0 -> Forall (fun x => x = 0) l.
Proof.
  induction 1 as [|x l Hx Hl IH]; [done|]. rewrite Zsum_cons. intros Hs.
  pose proof (Zsum_nonneg l Hl). constructor; [lia|]. apply IH. lia.
Qed.

Lemma Zsum_zeros l : Forall (fun x => x = 0) l -> Zsum l = 0.
Proof. induction 1 as [|x l -> Hl IH]; [done|]. by rewrite Zsum_cons, IH. Qed.

Lemma extras_nonneg txs es : Forall (fun x => 0 <= x) (extras txs es).
Proof.
  revert es. induction txs as [|tx txs IH]; intros [|e es]; try constructor;
    [apply guest_extra_nonneg|apply IH].
Qed.

Section run.
Context `{HashLib} (prof : profile).

(** What a step adds to the entries, without the guest. *)
Lemma full_step_applied (self : FullExecutor) s b idx tx s' b' :
  uncapped self -> u64_state s -> full_step prof self (s, b) (idx, tx) = Some (s', b') ->
  exists e, tb_entries b' = tb_entries b ++ [e] /\
    te_success e = applied (sender tx) (decode (instruction_data tx)) s.
Proof.
  intros Hun Hs Hst. destruct (guest_replays_step prof self s b idx tx s' b' Hun Hs Hst)
    as (e & out & He & _ & _ & _ & Hap). by exists e.
Qed.

(** Each entry was made from some machine state. *)
Lemma run_applied (self : FullExecutor) batch_id pre txs s b :
  uncapped self -> u64_state pre ->
  foldlM (full_step prof self) (pre, TraceBuilder_new batch_id pre) (enumerate txs)
    = Some (s, b) ->
  Forall2 (fun tx e => exists s0,
    te_success e = applied (sender tx) (decode (instruction_data tx)) s0)
    txs (tb_entries b).
Proof.
  intros Hun Hpre. assert (0 <= max_cu_per_tx (inner self)) as Hmax by (destruct Hun; lia).
  revert s b. induction txs as [|tx txs IH] using rev_ind; intros s b; [by intros [= <- <-]|].
  rewrite enumerate_app, foldlM_app. intros ([s1 b1] & Hrun & Hlast)%bind_Some.
  cbn [foldlM] in Hlast. apply bind_Some in Hlast as (acc & Hlast & [= ->]).
  assert (u64_state s1) as Hs1.
  { eapply (rd_state tx_id (max_cu_per_tx (inner self)) batch_id pre txs (s1, b1)),
      recorded_run; [done..|apply full_step_records|exact Hrun]. }
  destruct (full_step_applied self s1 b1 _ tx s b Hun Hs1 Hlast) as (e & -> & Hap).
  apply Forall2_app; [by eapply IH|]. constructor; [by exists s1|constructor].
Qed.

(** Along a run without overflow, the extra charges vanish exactly on
    replayable batches. *)
Lemma extras_replayable (self : FullExecutor) batch_id pre txs s b :
  uncapped self -> u64_state pre -> run_fits (ledger_txs txs) pre ->
  foldlM (full_step prof self) (pre, TraceBuilder_new batch_id pre) (enumerate txs)
    = Some (s, b) ->
  Forall (fun x => x = 0) (extras txs (tb_entries b)) <->
  replayable (ledger_txs txs) pre = true.
Proof.
  intros Hun Hpre. assert (0 <= max_cu_per_tx (inner self)) as Hmax by (destruct Hun; lia).
  revert s b. induction txs as [|tx txs IH] using rev_ind; intros s b; [by intros _ [= <- <-]|].
  rewrite ledger_txs_app, run_fits_app. intros [Hfits _].
  rewrite enumerate_app, foldlM_app. intros ([s1 b1] & Hrun & Hlast)%bind_Some.
  cbn [foldlM] in Hlast. apply bind_Some in Hlast as (acc & Hlast & [= ->]).
  pose proof (full_run_state prof self _ _ _ _ Hmax Hpre Hrun Hfits) as Hst. simpl in Hst.
  assert (recorded tx_id (max_cu_per_tx (inner self)) batch_id pre txs (s1, b1)) as Hrec.
  { eapply recorded_run; [done..|apply full_step_records|exact Hrun]. }
  destruct (full_step_applied self s1 b1 _ tx s b Hun (rd_state _ _ _ _ _ _ Hrec) Hlast)
    as (e & -> & Hap).
  pose proof (Forall2_length _ _ _ (run_applied self _ _ _ _ _ Hun Hpre Hrun)) as Hl.
  unfold extras. rewrite zip_with_app by done.
  change (ledger_txs [tx]) with [(sender tx, decode (instruction_data tx))].
  rewrite Forall_app, replayable_snoc, andb_true_iff, (IH s1 b1 Hfits Hrun), <-Hst.
  cbn [zip_with]. rewrite Forall_singleton. by rewrite guest_extra_same_charge.
Qed.

(** The guest's answer on a host trace. *)
Lemma guest_main_on_trace (self : FullExecutor) batch txs t :
  uncapped self -> 5000 * Z.of_nat (length txs) < u64_bound ->
  execute_with_transactions prof self batch txs = Some (Ok t) ->
  guest_main Release (ExecutionTraceInput_from t) (map SerializableTransaction_from txs)
    (init_balances txs) =
  if decide (Forall (fun x => x = 0) (extras txs (et_entries t)))
  then Some {| pi_batch_id := b_batch_id batch;
               pi_state_root_pre := et_state_root_pre t;
               pi_state_root_post := et_state_root_post t;
               pi_trace_hash := et_trace_hash t;
               pi_total_compute := et_total_compute t;
               pi_tx_count := Z.of_nat (length txs) |}
  else None.
Proof.
  intros Hun Hlen ([s b] & Hrun & [= <-])%bind_Some.
  assert (0 <= max_cu_per_tx (inner self)) as Hmax by (destruct Hun; lia).
  pose proof (recorded_run tx_id _ _ _ _ _ _ Hmax (init_balances_u64 txs)
    (full_step_records prof self) Hrun) as Hrec.
  pose proof (recorded_trace _ _ _ _ _ _ _ Hlen Hrec) as Htr.
  destruct (guest_replays_run prof self _ _ _ _ _ Hun (init_balances_u64 txs) Hlen Hrun)
    as (hs & Hg & Hhs).
  pose proof (tr_batch _ _ _ _ _ Htr) as Hb. pose proof (tr_pre _ _ _ _ _ Htr) as Hpre.
  pose proof (tr_counters _ _ _ _ _ Htr) as (Hcost & _).
  pose proof (f_equal length (tr_ids _ _ _ _ _ Htr)) as Hn. rewrite !length_map in Hn.
  simpl in Hb, Hpre, Hcost, Hn.
  unfold guest_main, guest_execute_batch. rewrite Hg. cbn [mbind option_bind].
  rewrite !guest_compute_state_root_eq, !guest_merkle_root_eq, length_map.
  cbn [ExecutionTraceInput_from ti_state_root_pre ti_state_root_post ti_trace_hash
    ti_total_compute ti_tx_count ti_batch_id et_batch_id et_entries et_state_root_pre
    et_state_root_post et_trace_hash et_total_compute build].
  rewrite Hb, Hpre, Hcost, Hn. case_decide as Hx.
  - rewrite (Hhs Hx), (Zsum_zeros _ Hx), Z.add_0_r. by repeat case_guard.
  - repeat case_guard; try done. exfalso. apply Hx, Zsum_zero; [apply extras_nonneg|]. lia.
Qed.
End run.

(** ** The release ledger *)

(** A release build's step on the state, wrapped credits included. *)
Definition machine_step (snd : string) (i : instr) (s : gmap string Z) : gmap string Z :=
  if decide (credit_fits snd i s) then (ledger_exec snd i s).1
  else match i with
       | ITransfer amount t => wrapped_transfer snd (account_key t) amount s
       | _ => s
       end.

Definition machine_run (txs : list (string * instr)) (s : gmap string Z) : gmap string Z :=
  foldl (fun s tx => machine_step tx.1 tx.2 s) s txs.

Lemma machine_run_fits txs s : run_fits txs s -> machine_run txs s = ledger_run txs s.
Proof.
  revert s. induction txs as [|[snd i] txs IH]; intros s; [done|].
  intros [Hfit Hfits]. unfold machine_run, ledger_run. simpl.
  unfold machine_step at 2. rewrite decide_True by done. by apply IH.
Qed.

(** The guest's view of its transactions. *)
Definition guest_txs (txs : list SerializableTransaction) : list (string * instr) :=
  map (fun tx => (st_sender tx, decode (st_instruction_data tx))) txs.

Lemma guest_txs_from txs : guest_txs (map SerializableTransaction_from txs) = ledger_txs txs.
Proof. unfold guest_txs, ledger_txs. by rewrite map_map. Qed.

(** What the guest records of each transaction. *)
Definition machine_outcome (snd : string) (i : instr) (s : gmap string Z) : guest_outcome :=
  if decide (credit_fits snd i s) then (guest_exec snd i s).2
  else match i with
       | ITransfer _ t =>
           mkGuestOutcome [snd; account_key t] [snd; account_key t] 5000 true None
       | _ => guest_rejection snd i
       end.

Fixpoint machine_outcomes (txs : list (string * instr)) (s : gmap string Z)
    : list guest_outcome :=
  match txs with
  | [] => []
  | (snd, i) :: txs => machine_outcome snd i s :: machine_outcomes txs (machine_step snd i s)
  end.

(** What it hashes for the trace hash. *)
Definition outcome_hash `{HashLib} (tx : SerializableTransaction) (out : guest_outcome) : string :=
  hash_trace_entry (st_tx_id tx) (go_success out) (go_compute out) (go_reads out) (go_writes out).

Lemma guest_execute_instruction_machine s snd bytes :
  u64_state s ->
  guest_execute_instruction Release s snd bytes =
    Some (machine_step snd (decode bytes) s, machine_outcome snd (decode bytes) s).
Proof.
  intros Hs. rewrite guest_execute_instruction_spec by done.
  unfold machine_step, machine_outcome, guest_exec. case_decide as Hfit.
  - by destruct (ledger_exec _ _ _) as [s' [[[rd wr] cu]|]].
  - destruct (decode bytes); try (exfalso; by apply Hfit). done.
Qed.

(** A machine state stays one: the host's step takes the same states. *)
Lemma machine_step_u64 snd bytes s :
  u64_state s -> u64_state (machine_step snd (decode bytes) s).
Proof.
  intros Hs.
  assert (exists r, execute_instruction Release (DeterministicExecutor_new 0) s snd bytes =
    Some (machine_step snd (decode bytes) s, r)) as [r Hex].
  { rewrite execute_instruction_spec by done. unfold machine_step. case_decide as Hfit.
    - rewrite <-(host_exec_state true). destruct (host_exec _ _ _ _) as [s' r]. by exists r.
    - destruct (decode bytes); try (exfalso; by apply Hfit). by eexists. }
  by eapply execute_instruction_u64.
Qed.

Lemma u64_add_release c k : u64_add Release c k = Some ((c + k) mod u64_bound).
Proof. apply u64_arith_release. Qed.

(** The guest's loop: the machine's run, what it records of each transaction,
    and the sum of the charges, which wraps. *)
Lemma guest_run_machine `{HashLib} s c hs txs s' c' hs' :
  u64_state s -> is_u64 c ->
  foldlM (guest_step Release) (s, c, hs) txs = Some (s', c', hs') ->
  let outs := machine_outcomes (guest_txs txs) s in
  s' = machine_run (guest_txs txs) s /\ u64_state s' /\
  c' = (c + Zsum (map go_compute outs)) mod u64_bound /\ hs' = hs ++ zip_with outcome_hash txs outs.
Proof.
  revert s c hs. induction txs as [|tx txs IH]; intros s c hs Hs Hc; cbn [foldlM].
  - intros [= <- <- <-]. simpl. rewrite Zsum_nil, Z.add_0_r, app_nil_r, Z.mod_small by done. done.
  - intros ([[s1 c1] hs1] & Hst & Hrun)%bind_Some. unfold guest_step in Hst.
    rewrite guest_execute_instruction_machine in Hst by done.
    cbn [mbind option_bind] in Hst. rewrite u64_add_release in Hst.
    cbn [mbind option_bind] in Hst. injection Hst as <- <- <-.
    apply IH in Hrun as (-> & Hs' & -> & ->); [|by apply machine_step_u64|apply Z.mod_pos_bound, u64_bound_pos].
    cbn [guest_txs map machine_outcomes zip_with]. fold (guest_txs txs).
    rewrite Zsum_cons, Z.add_mod_idemp_l, Z.add_assoc, <-app_assoc by (pose proof u64_bound_pos; lia).
    done.
Qed.

(** ** Batches known only by their ids *)

(** [Executor::execute] runs the no-op for every id: the entry it records from
    a state with root [root]. *)
Definition noop_entry (root : string) (it : Z * TransactionId) : TraceEntry :=
  mkTraceEntry it.1 it.2 root "execute" [] [] root 1000 true None.

Section noop.
Context `{HashLib} (prof : profile).

Lemma noop_entries_fit root (its : list (Z * TransactionId)) :
  5000 * Z.of_nat (length its) < u64_bound -> fits (map (noop_entry root) its).
Proof.
  intros Hlen.
  assert (total_cost (map (noop_entry root) its) = 1000 * Z.of_nat (length its)) as Hc.
  { clear Hlen. unfold total_cost. induction its as [|it its IH]; [done|].
    cbn [map length]. rewrite Zsum_cons, IH. simpl te_compute_used. lia. }
  unfold fits. rewrite Hc, length_map. split; [|lia].
  apply Forall_map, Forall_true. simpl. lia.
Qed.

(** The host's loop over ids. *)
Lemma noop_host_run (self : DeterministicExecutor) batch_id s ids :
  1000 <= max_cu_per_tx self -> 5000 * Z.of_nat (length ids) < u64_bound ->
  exists b,
    foldlM (execute_step prof self) (s, TraceBuilder_new batch_id s) (enumerate ids)
      = Some (s, b) /\
    builder_ok b /\ tb_batch_id b = batch_id /\
    tb_pre_state_root b = compute_state_root s /\
    tb_entries b = map (noop_entry (compute_state_root s)) (enumerate ids).
Proof.
  intros Hcap. induction ids as [|id ids IH] using rev_ind; intros Hlen.
  - by exists (TraceBuilder_new batch_id s).
  - rewrite length_app in Hlen. simpl in Hlen. destruct IH as (b & Hrun & Hok & Hb & Hr & He); [lia|].
    rewrite enumerate_app, foldlM_app, Hrun. cbn [mbind option_bind foldlM execute_step].
    simpl execute_instruction. cbn [mbind option_bind]. rewrite Z.min_l by done.
    set (it := (Z.of_nat (length ids), id)).
    destruct (add_entry_total prof b it.1 it.2 (compute_state_root s) "execute" [] []
      (compute_state_root s) 1000 true None Hok) as [b' Hadd].
    { rewrite He. change (mkTraceEntry _ _ _ _ _ _ _ _ _ _)
        with (noop_entry (compute_state_root s) it).
      change [noop_entry (compute_state_root s) it]
        with (map (noop_entry (compute_state_root s)) [it]).
      rewrite <-map_app. apply noop_entries_fit.
      rewrite length_app, length_enumerate. simpl. lia. }
    pose proof (add_entry_entries _ _ _ _ _ _ _ _ _ _ _ _ _ Hadd) as (He' & Hb' & Hr').
    simpl in Hadd. rewrite Hadd. exists b'. split; [done|].
    split; [by eapply add_entry_ok|]. rewrite He', Hb', Hr', Hb, Hr, map_app, He. done.
Qed.

(** The guest's loop over the transactions rebuilt from the entries. *)
Lemma noop_guest_run s c hs root its :
  0 <= c -> c + 1000 * Z.of_nat (length its) < u64_bound ->
  foldlM (guest_step Release) (s, c, hs)
    (map SerializableTransaction_from (map reconstruct_tx (map (noop_entry root) its))) =
  Some (s, c + total_cost (map (noop_entry root) its),
        hs ++ map entry_hash (map (noop_entry root) its)).
Proof.
  revert c hs. induction its as [|it its IH]; intros c hs Hc Hlen.
  - simpl. unfold total_cost. simpl. by rewrite Zsum_nil, Z.add_0_r, app_nil_r.
  - cbn [length] in Hlen. cbn [map foldlM guest_step]. simpl guest_execute_instruction.
    cbn [mbind option_bind go_compute]. unfold u64_add. rewrite u64_arith_in by (split; lia).
    cbn [mbind option_bind]. rewrite IH by lia.
    unfold total_cost. cbn [map]. rewrite Zsum_cons. simpl te_compute_used.
    rewrite <-app_assoc, Z.add_assoc. done.
Qed.

Lemma reconstruct_state_entries root ids :
  reconstruct_state (map (noop_entry root) (enumerate ids)) = init_sender_balances ids.
Proof.
  unfold reconstruct_state, init_sender_balances.
  induction ids as [|id ids IH] using rev_ind; [done|].
  by rewrite enumerate_app, map_app, !foldl_app, IH.
Qed.
End noop.
