(* ===== verification/Soundness.v ===== *)
(** * What an accepted proof means

    The theorems about host, guest, prover and verifier together: which batches
    can be proved, what a guest run establishes about arbitrary inputs, that an
    honest proof is accepted for its trace, and that an accepted proof
    establishes a state transition between the committed roots. *)

From Stdlib Require Import ZArith Lia Ascii String Bool Strings.Byte.
From stdpp Require Import base gmap strings list fin_maps.
From S2P Require Import Prelude RustNum RustFmt BTree Merkle Types TraceBuilder Isa Executor.
From S2P Require Import ExecutorFacts TraceFacts Guest Sp1 Agreement.

Local Open Scope Z_scope.

(** ** Inside the guest *)

Section guest.
Context `{HashLib}.

(** The public inputs of the run of [txs] from [s], under a batch id. *)
Definition run_inputs (id : string) (txs : list SerializableTransaction) (s : gmap string Z)
    : PublicInputs :=
  let outs := machine_outcomes (guest_txs txs) s in {|
    pi_batch_id := id;
    pi_state_root_pre := state_root s;
    pi_state_root_post := state_root (machine_run (guest_txs txs) s);
    pi_trace_hash := merkle_root (zip_with outcome_hash txs outs);
    pi_total_compute := Zsum (map go_compute outs) mod u64_bound;
    pi_tx_count := Z.of_nat (length txs) |}.

(** The ones a trace claims. *)
Definition claimed_inputs (tr : ExecutionTraceInput) : PublicInputs :=
  mkPublicInputs (ti_batch_id tr) (ti_state_root_pre tr) (ti_state_root_post tr)
    (ti_trace_hash tr) (ti_total_compute tr) (ti_tx_count tr).

(** What the five assertions and the re-execution leave. *)
Lemma guest_main_inputs tr txs s pi :
  u64_state s -> guest_main Release tr txs s = Some pi ->
  pi = run_inputs (ti_batch_id tr) txs s /\ pi = claimed_inputs tr /\
  u64_state (machine_run (guest_txs txs) s).
Proof.
  intros Hs. unfold guest_main, guest_execute_batch.
  intros ([[[pre post] c] hs] & Hex & Hg)%bind_Some.
  apply bind_Some in Hex as ([[s' c'] hs'] & Hrun & [= <- <- <- <-]).
  apply guest_run_machine in Hrun as (-> & Hs' & -> & ->); [|done|by split].
  apply bind_Some in Hg as (E1 & _ & (E2 & _ & (E3 & _ & (E4 & _ & (E5 & _ & Hg)%bind_Some)
    %bind_Some)%bind_Some)%bind_Some).
  rewrite guest_merkle_root_eq, !guest_compute_state_root_eq, !compute_state_root_eq in *.
  injection Hg as <-. unfold run_inputs, claimed_inputs. split; [done|]. split; [|done].
  by f_equal.
Qed.

Lemma guest_main_inv tr txs s pi :
  u64_state s -> guest_main Release tr txs s = Some pi ->
  pi_state_root_pre pi = state_root s /\
  pi_state_root_post pi = state_root (machine_run (guest_txs txs) s) /\
  u64_state (machine_run (guest_txs txs) s) /\
  (pi_state_root_pre pi = ti_state_root_pre tr /\
   pi_state_root_post pi = ti_state_root_post tr /\
   pi_trace_hash pi = ti_trace_hash tr /\
   pi_total_compute pi = ti_total_compute tr) /\
  pi_batch_id pi = ti_batch_id tr /\
  pi_tx_count pi = Z.of_nat (length txs) /\ pi_tx_count pi = ti_tx_count tr.
Proof.
  intros Hs (Hrun & Hcl & Hu)%guest_main_inputs; [|done].
  split_and!; try done; (by rewrite Hrun) || by rewrite Hcl.
Qed.

(** The instruction-level reason of a rejection. *)
Lemma extras_invalid prof (self : FullExecutor) batch txs t tx op :
  uncapped self ->
  execute_with_transactions prof self batch txs = Some (Ok t) ->
  tx ∈ txs -> decode (instruction_data tx) = IInvalid op ->
  ~ Forall (fun x => x = 0) (extras txs (et_entries t)).
Proof.
  intros Hun ([s b] & Hrun & [= <-])%bind_Some Hin Hd Hall. simpl in Hall.
  pose proof (run_applied prof self _ _ _ _ _ Hun (init_balances_u64 txs) Hrun) as Hap.
  apply list_elem_of_lookup in Hin as [i Hi].
  destruct (Forall2_lookup_l _ _ _ _ _ Hap Hi) as (e & He & s0 & Hok).
  assert (extras txs (tb_entries b) !! i = Some (guest_extra tx e)) as Hx
    by by apply lookup_zip_with_Some; exists tx, e.
  apply (Forall_lookup_1 _ _ _ _ Hall) in Hx. unfold guest_extra in Hx.
  unfold applied in Hok. rewrite Hd in *. by rewrite Hok in Hx.
Qed.
End guest.

(** ** Around the SDK *)

Section sdk.
Context `{Sp1Laws} `{Clock C}.

(** A proof comes from a guest run on exactly the inputs written. *)
Lemma prove_with_transactions_ok self t txs s clk pf clk' :
  prove_with_transactions self t txs s clk = (Ok pf, clk') ->
  let i := mkSp1Stdin (ExecutionTraceInput_from t) (map SerializableTransaction_from txs) s in
  exists p pi, sdk_setup = Ok tt /\ sdk_prove i = Ok p /\ guest_run i = Some pi /\
    sdk_public_values p = Some pi /\ bincode_deserialize (pf_proof_data pf) = Ok p /\
    pf_batch_id pf = et_batch_id t /\ et_entries t <> [] /\
    pc_state_root_pre (pf_commitment pf) = et_state_root_pre t /\
    pc_state_root_post (pf_commitment pf) = et_state_root_post t /\
    pc_tx_count (pf_commitment pf) = Z.of_nat (length (et_entries t)).
Proof.
  intros Hp i. unfold prove_with_transactions in Hp.
  destruct (et_entries t) as [|e es] eqn:Hes; [done|].
  destruct sdk_setup as [[]|]; [|done]. fold i in Hp.
  destruct (sdk_prove i) as [p|] eqn:Hpr; [|done].
  destruct (bincode_serialize p) as [bs|] eqn:Hbs; [|done].
  injection Hp as <- _. destruct (sdk_prove_sound i p Hpr) as (pi & Hrun & Hpv).
  exists p, pi. repeat split; try done. simpl. by apply bincode_roundtrip.
Qed.

(** Every answer of the verifier that says [is_valid]. *)
Lemma Sp1Verifier_verify_valid self pf t clk r clk' :
  Sp1Verifier_verify self pf t clk = Some (Ok r, clk') -> vr_is_valid r = true ->
  exists p pi, bincode_deserialize (pf_proof_data pf) = Ok p /\ sdk_verify p = Ok tt /\
    sdk_public_values p = Some pi /\
    pi_trace_hash pi = et_trace_hash t /\ pi_state_root_pre pi = et_state_root_pre t /\
    pi_state_root_post pi = et_state_root_post t /\
    pi_total_compute pi = et_total_compute t.
Proof.
  unfold Sp1Verifier_verify.
  destruct (bincode_deserialize _) as [p|] eqn:Hd; [|done].
  destruct sdk_setup; [|done]. destruct (sdk_verify p) as [[]|] eqn:Hv.
  - intros (pi & Hpi & Hans)%bind_Some Hval. exists p, pi.
    repeat match type of Hans with
    | context [if negb ?b then _ else _] =>
        destruct b eqn:?; cbn [negb] in Hans; [|by simplify_eq]
    end. zbool. by rewrite !String.eqb_eq in *.
  - intros [= <- <-] Hval. done.
Qed.
End sdk.

(** The prover's inputs are machine states. *)
Lemma sender_balances_u64 txs : u64_state (sender_balances txs).
Proof. apply init_balances_u64. Qed.

Lemma reconstruct_state_u64 es : u64_state (reconstruct_state es).
Proof.
  unfold reconstruct_state. assert (u64_state ∅) as H0 by apply map_Forall_empty.
  revert H0. generalize (∅ : gmap string Z). induction es as [|e es IH]; intros s Hs; [done|].
  simpl. apply IH. apply map_Forall_entry_or_insert; [by split|done].
Qed.

Section contract.
Context `{Sp1Laws} `{Clock C}.

(** Whatever transactions it is given, the prover proves some transactions
    from some state of words. *)
Lemma prove_inputs prover t txs (clk : C) :
  exists txs' s, u64_state s /\
    Sp1Prover_prove prover t txs clk = prove_with_transactions prover t txs' s clk.
Proof.
  destruct txs as [|tx txs]; eexists _, _; (split; [|reflexivity]);
    [apply reconstruct_state_u64|apply (sender_balances_u64 (tx :: txs))].
Qed.

(** The prover only proves traces that name the root of a state. *)
Lemma proved_pre_root prover t txs (clk clk' : C) pf :
  Sp1Prover_prove prover t txs clk = (Ok pf, clk') -> exists s, et_state_root_pre t = state_root s.
Proof.
  intros Hp. destruct (prove_inputs prover t txs clk) as (txs' & s & Hs & Heq). rewrite Heq in Hp.
  apply prove_with_transactions_ok in Hp as (p & pi & _ & _ & Hrun & _).
  apply guest_main_inv in Hrun as (E1 & _ & _ & (E2 & _) & _); [|done].
  exists s. cbn in E1, E2. congruence.
Qed.

(** A proof of a trace passes the verifier. *)
Lemma prove_verify_lemma prover verifier t txs (clk clk1 clk2 : C) pf :
  Sp1Prover_prove prover t txs clk = (Ok pf, clk1) ->
  exists r clk3, Sp1Verifier_verify verifier pf t clk2 = Some (Ok r, clk3) /\
    vr_is_valid r = true /\ vr_batch_id r = et_batch_id t /\ vr_error r = None.
Proof.
  intros Hp. destruct (prove_inputs prover t txs clk) as (txs' & s & Hs & Heq). rewrite Heq in Hp.
  apply prove_with_transactions_ok in Hp as (p & pi & Hset & Hpr & Hrun & Hpv & Hd & Hb & _).
  apply guest_main_inv in Hrun as (_ & _ & _ & (E1 & E2 & E3 & E4) & _); [|done].
  unfold Sp1Verifier_verify. rewrite Hd, Hset, (sdk_verify_complete _ _ Hpr), Hpv.
  simpl in *. rewrite E1, E2, E3, E4, !String.eqb_refl, Z.eqb_refl. simpl.
  by eexists _, _.
Qed.

(** An unknown opcode in the batch makes the prover fail. *)
Lemma invalid_opcode_lemma prof (self : FullExecutor) batch txs t tx op prover (clk : C) :
  uncapped self -> 5000 * Z.of_nat (length txs) < u64_bound ->
  execute_with_transactions prof self batch txs = Some (Ok t) ->
  tx ∈ txs -> decode (instruction_data tx) = IInvalid op ->
  exists e clk', Sp1Prover_prove prover t txs clk = (Err e, clk').
Proof.
  intros Hun Hlen Hex Hin Hd.
  destruct (Sp1Prover_prove prover t txs clk) as [[pf|e] clk'] eqn:Hp; [exfalso|by exists e, clk'].
  assert (prove_with_transactions prover t txs (init_balances txs) clk = (Ok pf, clk')) as Hp'.
  { destruct txs as [|tx0 txs0]; [by apply elem_of_nil in Hin|]. exact Hp. }
  apply prove_with_transactions_ok in Hp' as (p & pi & _ & _ & Hrun & _).
  unfold guest_run in Hrun. cbn [in_trace in_txs in_state] in Hrun.
  rewrite (guest_main_on_trace prof self batch txs t Hun Hlen Hex) in Hrun.
  case_decide as Hall; [|done]. by eapply extras_invalid.
Qed.
End contract.

(** ** The properties *)

(** C1: On the trace of any batch executed by [FullExecutor] without an
    overflowing credit, the guest accepts exactly when no transfer of the
    batch is unfunded and no instruction has an unknown opcode; it then commits
    the trace's own roots, hash, compute units and count. *)
Theorem guest_accepts_iff `{HashLib} prof (self : FullExecutor) batch txs t :
  uncapped self -> 5000 * Z.of_nat (length txs) < u64_bound ->
  run_fits (ledger_txs txs) (init_balances txs) ->
  execute_with_transactions prof self batch txs = Some (Ok t) ->
  guest_main Release (ExecutionTraceInput_from t) (map SerializableTransaction_from txs)
    (init_balances txs) =
  if replayable (ledger_txs txs) (init_balances txs)
  then Some {| pi_batch_id := b_batch_id batch;
               pi_state_root_pre := et_state_root_pre t;
               pi_state_root_post := et_state_root_post t;
               pi_trace_hash := et_trace_hash t;
               pi_total_compute := et_total_compute t;
               pi_tx_count := Z.of_nat (length txs) |}
  else None.
Proof.
  intros Hun Hlen Hfits Hex.
  rewrite (guest_main_on_trace prof self batch txs t Hun Hlen Hex).
  apply bind_Some in Hex as ([s b] & Hrun & [= <-]). simpl.
  pose proof (extras_replayable prof self _ _ _ _ _ Hun (init_balances_u64 txs) Hfits Hrun) as Hiff.
  case_decide as Hx; destruct (replayable _ _) eqn:Hr; try done; exfalso; naive_solver.
Qed.

(** C4: A batch containing one transaction with an unknown opcode is never
    proved: the prover answers with an error for the trace the executor
    produced. *)
Theorem invalid_opcode_unprovable `{Sp1Laws} `{Clock C} prof (self : FullExecutor) batch txs t
    tx op prover (clk : C) :
  uncapped self -> 5000 * Z.of_nat (length txs) < u64_bound ->
  execute_with_transactions prof self batch txs = Some (Ok t) ->
  tx ∈ txs -> decode (instruction_data tx) = IInvalid op ->
  exists e clk', Sp1Prover_prove prover t txs clk = (Err e, clk').
Proof. apply invalid_opcode_lemma. Qed.

(** C5: The guest is sound on arbitrary inputs, honest or not: what it commits
    is what running the transactions from the state it was given yields - the
    roots before and after, the Merkle root of the recorded outcomes, the sum of
    the charges and the number of transactions - and is also what the trace
    claims. *)
Theorem guest_sound `{HashLib} tr txs s pi :
  u64_state s -> guest_main Release tr txs s = Some pi ->
  pi = run_inputs (ti_batch_id tr) txs s /\ pi = claimed_inputs tr.
Proof. intros Hs Hg. by destruct (guest_main_inputs _ _ _ _ Hs Hg) as (? & ? & _). Qed.

(** C2: A proof the verifier calls valid for a trace establishes a state
    transition: there are a state and transactions whose run has the trace's two
    roots, its trace hash and its compute units.  Any state with the trace's pre
    root is that state, and any state with the post root is where the run ends,
    unless two of the texts hashed for the two roots compared are different and
    have the same SHA-256 digest. *)
Theorem verified_transition `{Sp1Laws} `{!HashLaws} `{Clock C} verifier pf t (clk : C) r clk' :
  Sp1Verifier_verify verifier pf t clk = Some (Ok r, clk') -> vr_is_valid r = true ->
  exists id s txs, u64_state s /\
    run_inputs id txs s =
      mkPublicInputs id (et_state_root_pre t) (et_state_root_post t) (et_trace_hash t)
        (et_total_compute t) (Z.of_nat (length txs)) /\
    (forall s0, u64_state s0 -> state_root s0 = et_state_root_pre t ->
       s0 = s \/ collides_in (state_inputs s0 ++ state_inputs s)) /\
    (forall s1, u64_state s1 -> state_root s1 = et_state_root_post t ->
       let s' := machine_run (guest_txs txs) s in
       s1 = s' \/ collides_in (state_inputs s1 ++ state_inputs s')).
Proof.
  intros Hv Hval. destruct (Sp1Verifier_verify_valid _ _ _ _ _ _ Hv Hval)
    as (p & pi & _ & Hsdk & Hpv & <- & <- & <- & <-).
  destruct (sdk_verify_sound p Hsdk) as (i & pi' & Hok & Hrun & Hpv').
  assert (pi' = pi) as -> by congruence.
  destruct (guest_main_inputs _ _ _ _ Hok Hrun) as (-> & _ & Hu).
  exists (ti_batch_id (in_trace i)), (in_state i), (in_txs i).
  split; [done|]. split; [done|]. split; intros s0 Hs0 Hroot; by apply state_root_inj.
Qed.

(** C3: Whatever proof the prover returns for a trace, the verifier accepts it
    for that trace, under the trace's batch id. *)
Theorem prove_then_verify `{Sp1Laws} `{Clock C} prover verifier t txs (clk clk1 clk2 : C) pf :
  Sp1Prover_prove prover t txs clk = (Ok pf, clk1) ->
  exists r clk3, Sp1Verifier_verify verifier pf t clk2 = Some (Ok r, clk3) /\
    vr_is_valid r = true /\ vr_batch_id r = et_batch_id t /\ vr_error r = None.
Proof. apply prove_verify_lemma. Qed.

(** A batch executed by ids alone always yields a trace, and the inputs the
    prover rebuilds from that trace's entries make the guest accept it with
    the trace's own commitments. *)
Theorem noop_batch_accepted `{HashLib} prof (self : DeterministicExecutor) batch :
  1000 <= max_cu_per_tx self -> 5000 * Z.of_nat (length (b_tx_ids batch)) < u64_bound ->
  exists t, execute prof self batch = Some (Ok t) /\
    length (et_entries t) = length (b_tx_ids batch) /\
    guest_main Release (ExecutionTraceInput_from t)
      (map SerializableTransaction_from (map reconstruct_tx (et_entries t)))
      (reconstruct_state (et_entries t)) =
    Some {| pi_batch_id := b_batch_id batch;
            pi_state_root_pre := et_state_root_pre t;
            pi_state_root_post := et_state_root_post t;
            pi_trace_hash := et_trace_hash t;
            pi_total_compute := et_total_compute t;
            pi_tx_count := Z.of_nat (length (b_tx_ids batch)) |}.
Proof.
  intros Hcap Hlen. unfold execute. set (s := init_sender_balances _).
  destruct (noop_host_run prof self (b_batch_id batch) s _ Hcap Hlen)
    as (b & -> & Hok & Hb & Hr & He).
  eexists. split; [done|]. simpl. rewrite He, length_map, length_enumerate. split; [done|].
  rewrite reconstruct_state_entries. fold s.
  unfold guest_main, guest_execute_batch. rewrite noop_guest_run
    by (rewrite ?length_enumerate; lia).
  assert (tb_total_compute b = total_cost (tb_entries b)) as Hc.
  { apply Hok. rewrite He. apply noop_entries_fit. by rewrite length_enumerate. }
  cbn [mbind option_bind]. rewrite !guest_compute_state_root_eq, guest_merkle_root_eq, !length_map.
  cbn [ExecutionTraceInput_from ti_state_root_pre ti_state_root_post ti_trace_hash
    ti_total_compute ti_tx_count ti_batch_id et_batch_id et_entries et_state_root_pre
    et_state_root_post et_trace_hash et_total_compute build].
  rewrite Hb, Hr, Hc, He, length_map, length_enumerate, Z.add_0_l, app_nil_l.
  by repeat case_guard.
Qed.
