(* ===== verification/TraceTypes.v ===== *)
(** * The types of traces and proofs

    What the executor and the prover emit keeps to the types the other side
    reads: numbers are words, hashes and roots are 64 hexadecimal digits, and an
    entry is a success without an error or a failure that touched nothing. *)

From Stdlib Require Import ZArith Lia Ascii String Bool Strings.Byte.
From stdpp Require Import base gmap strings list.
From S2P Require Import Prelude RustNum RustFmt BTree Merkle Types TraceBuilder Isa Executor.
From S2P Require Import ExecutorFacts TraceFacts Guest Sp1 Agreement Soundness.

Local Open Scope Z_scope.

Definition entry_typed `{HashLib} (e : TraceEntry) : Prop :=
  is_u64 (te_tx_idx e) /\ is_u64 (te_compute_used e) /\
  digest (te_pre_state_hash e) /\ digest (te_post_state_hash e) /\ entry_wf e.

Record trace_typed `{HashLib} (t : ExecutionTrace) : Prop := {
  tt_entries : Forall entry_typed (et_entries t);
  tt_roots : digest (et_state_root_pre t) /\ digest (et_state_root_post t);
  tt_hash : digest (et_trace_hash t);
  tt_counters :
    is_u64 (et_total_compute t) /\ is_u64 (et_success_count t) /\ is_u64 (et_failure_count t);
}.

Definition commitment_typed (c : ProofCommitment) : Prop :=
  digest (pc_batch_hash c) /\ digest (pc_trace_hash c) /\
  digest (pc_state_root_pre c) /\ digest (pc_state_root_post c) /\
  is_u64 (pc_total_compute c) /\ is_u64 (pc_tx_count c).

(** ** Roots are digests *)

Section roots.
Context `{HashLaws}.

Lemma hash_bytes_digest d : digest (hash_bytes d).
Proof. rewrite <-(list_byte_of_string_of_list_byte d). apply hash_str_digest. Qed.

Lemma next_level_digests l : Forall digest (next_level l).
Proof. apply Forall_map, Forall_true. intros c. apply hash_str_digest. Qed.

Lemma merkle_loop_digests n l r : Forall digest l -> merkle_loop n l = Some r -> Forall digest r.
Proof.
  revert l. induction n as [|n IH]; intros l Hl; cbn [merkle_loop].
  - destruct (1 <? length l)%nat; [done|]. by intros [= <-].
  - destruct (1 <? length l)%nat; [apply IH, next_level_digests|]. by intros [= <-].
Qed.

Lemma merkle_root_digest l : Forall digest l -> digest (merkle_root l).
Proof.
  intros Hl. destruct l as [|a [|b l]]; [apply hash_bytes_digest|by inversion Hl|].
  unfold merkle_root. destruct (merkle_loop_fuel (length (a :: b :: l)) (a :: b :: l)) as [r Hr];
    [simpl; lia|].
  rewrite Hr. apply merkle_loop_digests in Hr; [|done]. by inversion Hr.
Qed.

Lemma compute_state_root_digest s : digest (compute_state_root s).
Proof.
  unfold compute_state_root. case_decide; [apply hash_str_digest|].
  apply merkle_root_digest, Forall_map, Forall_true. intros kv. apply hash_str_digest.
Qed.
End roots.

(** ** The loop of the executor *)

Section loop.
Context `{HashLaws} (prof : profile).

Record builder_typed (acc : gmap string Z * TraceBuilder) : Prop := {
  bt_state : u64_state acc.1;
  bt_entries : Forall entry_typed (tb_entries acc.2);
  bt_root : digest (tb_pre_state_root acc.2);
  bt_counters : is_u64 (tb_total_compute acc.2) /\ is_u64 (tb_success_count acc.2) /\
    is_u64 (tb_failure_count acc.2);
}.

Lemma add_entry_counters b i id pre ins rd wr post cu ok err b' :
  is_u64 (tb_success_count b) -> is_u64 (tb_failure_count b) ->
  add_entry prof b i id pre ins rd wr post cu ok err = Some b' ->
  is_u64 (tb_total_compute b') /\ is_u64 (tb_success_count b') /\ is_u64 (tb_failure_count b').
Proof.
  intros Hs Hf (c & Hc & (n & Hn & (m & Hm & [= <-])%bind_Some)%bind_Some)%bind_Some.
  apply u64_add_range in Hc. cbn. split; [done|].
  destruct ok; simplify_eq; split; try done; by eapply u64_add_range.
Qed.

Lemma full_step_counters (self : FullExecutor) s b it s' b' :
  is_u64 (tb_success_count b) -> is_u64 (tb_failure_count b) ->
  full_step prof self (s, b) it = Some (s', b') ->
  is_u64 (tb_total_compute b') /\ is_u64 (tb_success_count b') /\ is_u64 (tb_failure_count b').
Proof.
  intros Hs Hf. destruct it as [i tx]. unfold full_step.
  intros ([s1 r] & _ & (b1 & Hadd & [= <- <-])%bind_Some)%bind_Some.
  destruct r as [[[rd wr] cu]|e]; by eapply add_entry_counters.
Qed.

Lemma builder_typed_step (self : FullExecutor) acc it acc' :
  0 <= max_cu_per_tx (inner self) -> is_u64 it.1 ->
  builder_typed acc -> full_step prof self acc it = Some acc' -> builder_typed acc'.
Proof.
  destruct acc as [s b], acc' as [s' b']. intros Hmax Hi [Hst Hes Hroot (Ht & Hs & Hf)] Hstep.
  cbn in *. destruct (full_step_records _ _ _ _ _ _ Hst Hstep) as [e []]. cbn in *.
  split; cbn; [done| |by rewrite rec_root|by eapply full_step_counters].
  rewrite rec_entries. apply Forall_app. split; [done|]. constructor; [|constructor].
  specialize (rec_nonneg Hmax). unfold entry_typed. rewrite rec_idx, rec_pre, rec_post.
  split_and!; try done; try apply compute_state_root_digest; unfold is_u64, u64_bound; lia.
Qed.

Lemma enumerate_index {A} (l : list A) it : it ∈ enumerate l -> 0 <= it.1 < Z.of_nat (length l).
Proof.
  unfold enumerate. intros (i & x & -> & Hl)%elem_of_lookup_imap. apply lookup_lt_Some in Hl.
  cbn. lia.
Qed.

Lemma full_run_typed (self : FullExecutor) batch txs t :
  0 <= max_cu_per_tx (inner self) -> Z.of_nat (length txs) < u64_bound ->
  execute_with_transactions prof self batch txs = Some (Ok t) -> trace_typed t.
Proof.
  intros Hmax Hlen ([s b] & Hrun & [= <-])%bind_Some.
  apply (foldlM_invariant _ builder_typed) in Hrun as [Hst Hes Hroot Hc]; cbn in *.
  - split; cbn; try done; [|apply merkle_root_digest, Forall_map, Forall_true; intros e;
      apply hash_str_digest]. split; [done|apply compute_state_root_digest].
  - intros acc it acc' Hin Hacc Hstep. eapply builder_typed_step; [done| |done|done].
    apply enumerate_index in Hin. split; [lia|]. lia.
  - split; cbn; [apply init_balances_u64|constructor|apply compute_state_root_digest|].
    by repeat split.
Qed.
End loop.

(** C8: A trace of a batch is well typed, whatever the instructions in it: its
    numbers are words, its hashes and roots are digests and each entry is a clean
    success or a clean failure.  So is the commitment of any proof of it, which
    carries the batch's id. *)
Theorem trace_well_typed `{Sp1Laws} `{!HashLaws} `{Clock C} prof (self : FullExecutor) batch txs t :
  0 <= max_cu_per_tx (inner self) -> Z.of_nat (length txs) < u64_bound ->
  execute_with_transactions prof self batch txs = Some (Ok t) ->
  trace_typed t /\
  forall prover (clk clk' : C) pf, Sp1Prover_prove prover t txs clk = (Ok pf, clk') ->
    commitment_typed (pf_commitment pf) /\ digest (pf_proof_hash pf) /\
    pf_batch_id pf = b_batch_id batch.
Proof.
  intros Hmax Hlen Hex. assert (trace_typed t) as Ht by by eapply full_run_typed.
  split; [done|]. intros prover clk clk' pf Hp.
  assert (Z.of_nat (length (et_entries t)) < u64_bound /\ et_batch_id t = b_batch_id batch)
    as [Hn Hid].
  { apply bind_Some in Hex as ([s b] & Hrun & [= <-]).
    apply (recorded_run tx_id (max_cu_per_tx (inner self)) (b_batch_id batch)) in Hrun as [];
      [|done|apply init_balances_u64|apply full_step_records].
    cbn in *. split; [|done]. apply (f_equal length) in rd_ids. rewrite !length_map in rd_ids. lia. }
  assert (exists txs' s, prove_with_transactions prover t txs' s clk = (Ok pf, clk'))
    as (txs' & s & Hp') by (destruct txs; by eexists _, _).
  unfold prove_with_transactions in Hp'. destruct Ht as [Hes [Hr1 Hr2] Hh (Hc & _)].
  destruct (et_entries t) as [|e es]; [done|]. destruct sdk_setup; [|done].
  destruct (sdk_prove _) as [p|]; [|done]. destruct (bincode_serialize p); [|done].
  injection Hp' as <- _. unfold commitment_typed. cbn [pf_commitment pc_batch_hash pc_trace_hash
    pc_state_root_pre pc_state_root_post pc_total_compute pc_tx_count pf_proof_hash pf_batch_id].
  split_and!; try done; try apply hash_str_digest; try apply hash_bytes_digest.
Qed.
