(* ===== verification/Onchain.v ===== *)
(** * The on-chain program
    ([onchain/catalyst_batcher/programs/catalyst_batcher/src/lib.rs])

    The Anchor program that keeps the global configuration and one receipt per
    submitted batch.  An instruction is its handler together with the account
    constraints of its [#[derive(Accounts)]] struct, which Anchor checks first:
    [init] fails on an existing account, a typed account must exist, [has_one]
    compares the stored key with the account passed.  A failed instruction
    leaves the accounts as they were (the runtime discards its writes), so an
    instruction returns the new accounts only on success.  The derivation of
    program addresses is Solana's: it is the class [AddressLib].  Lamports,
    rent and the compute budget of the runtime are not modelled. *)

From Stdlib Require Import ZArith Lia Ascii String Bool Strings.Byte.
From stdpp Require Import base gmap strings list fin_maps fin_map_dom.
From S2P Require Import Prelude RustNum.

Local Open Scope Z_scope.

(** ** Keys and accounts *)

Definition Pubkey : Type := list byte.
Definition bytes32 : Type := list byte.

(** [[0u8; 32]] *)
Definition zero32 : bytes32 := replicate 32 x00.

Record GlobalConfig := mkGlobalConfig {
  authority : Pubkey;
  paused : bool;
  batch_count : Z;
  policy_name : bytes32;
}.

Record BatchReceipt := mkBatchReceipt {
  r_batch_id : bytes32;
  r_batch_hash : bytes32;
  r_proof_hash : bytes32;
  r_tx_count : Z;
  r_total_compute : Z;
  r_verified : bool;
  r_submitter : Pubkey;
  r_submit_slot : Z;
  r_verify_slot : Z;
}.

(** The program's accounts: the configuration at its one address, the receipts
    by address. *)
Record accounts := mkAccounts {
  a_config : option GlobalConfig;
  a_receipts : gmap Pubkey BatchReceipt;
}.

Definition no_accounts : accounts := mkAccounts None ∅.

(** [CatalystError], and the failures of the constraints, of the runtime and of
    checked arithmetic (the crate is built with [overflow-checks = true]). *)
Inductive program_error :=
| Paused
| AlreadyVerified
| NoProof
| AccountInUse
| AccountNotInitialized
| ConstraintHasOne
| SysvarError
| Panicked.

#[export] Instance program_error_eq_dec : EqDecision program_error.
Proof. solve_decision. Defined.

(** The address of the receipt of a batch id: the program address of the seeds
    [b"batch_receipt"] and the id.  Nothing is assumed of it. *)
Class AddressLib := { receipt_address : bytes32 -> Pubkey }.

(** [require!(cond, error)] *)
Definition require (cond : bool) (e : program_error) : result program_error unit :=
  if cond then Ok tt else Err e.

(** An account that must exist. *)
Definition account {A} (o : option A) : result program_error A :=
  match o with Some a => Ok a | None => Err AccountNotInitialized end.

(** [init]: the account must not exist. *)
Definition init_account {A} (o : option A) : result program_error unit :=
  match o with Some _ => Err AccountInUse | None => Ok tt end.

(** [has_one = authority] *)
Definition has_one (config : GlobalConfig) (signer : Pubkey) : result program_error unit :=
  require (bool_decide (authority config = signer)) ConstraintHasOne.

(** Checked arithmetic. *)
Definition checked {A} (o : option A) : result program_error A :=
  match o with Some a => Ok a | None => Err Panicked end.

Definition set_config (s : accounts) (c : GlobalConfig) : accounts :=
  mkAccounts (Some c) (a_receipts s).
Definition set_receipt (s : accounts) (a : Pubkey) (r : BatchReceipt) : accounts :=
  mkAccounts (a_config s) (<[a := r]> (a_receipts s)).

Definition set_paused (c : GlobalConfig) (b : bool) : GlobalConfig :=
  mkGlobalConfig (authority c) b (batch_count c) (policy_name c).
Definition set_policy_name (c : GlobalConfig) (n : bytes32) : GlobalConfig :=
  mkGlobalConfig (authority c) (paused c) (batch_count c) n.
Definition set_batch_count (c : GlobalConfig) (n : Z) : GlobalConfig :=
  mkGlobalConfig (authority c) (paused c) n (policy_name c).

(** ** The instructions *)

Section program.
Context `{AddressLib}.

Definition initialize_config (auth : Pubkey) (s : accounts) : result program_error accounts :=
  init_account (a_config s) ≫= fun _ =>
  let config := mkGlobalConfig auth false 0 zero32 in
  Ok (set_config s config).

Definition update_policy (signer : Pubkey) (name : bytes32) (s : accounts)
    : result program_error accounts :=
  account (a_config s) ≫= fun config =>
  has_one config signer ≫= fun _ =>
  require (negb (paused config)) Paused ≫= fun _ =>
  Ok (set_config s (set_policy_name config name)).

(** [clock] is the answer of [Clock::get()]. *)
Definition submit_batch (submitter : Pubkey) (clock : result program_error Z)
    (batch_id batch_hash : bytes32) (tx_count total_compute : Z) (s : accounts)
    : result program_error accounts :=
  let addr := receipt_address batch_id in
  account (a_config s) ≫= fun config =>
  init_account (a_receipts s !! addr) ≫= fun _ =>
  require (negb (paused config)) Paused ≫= fun _ =>
  clock ≫= fun slot =>
  let receipt := {|
    r_batch_id := batch_id;
    r_batch_hash := batch_hash;
    r_tx_count := tx_count;
    r_total_compute := total_compute;
    r_proof_hash := zero32;
    r_verified := false;
    r_submitter := submitter;
    r_submit_slot := slot;
    r_verify_slot := 0 |} in
  checked (u64_add Debug (batch_count config) 1) ≫= fun count =>
  Ok (set_receipt (set_config s (set_batch_count config count)) addr receipt).

Definition submit_proof (receipt_addr : Pubkey) (proof_hash : bytes32) (s : accounts)
    : result program_error accounts :=
  account (a_receipts s !! receipt_addr) ≫= fun r =>
  require (negb (r_verified r)) AlreadyVerified ≫= fun _ =>
  Ok (set_receipt s receipt_addr
        (mkBatchReceipt (r_batch_id r) (r_batch_hash r) proof_hash (r_tx_count r)
           (r_total_compute r) (r_verified r) (r_submitter r) (r_submit_slot r)
           (r_verify_slot r))).

Definition verify_proof (receipt_addr : Pubkey) (clock : result program_error Z) (s : accounts)
    : result program_error accounts :=
  account (a_receipts s !! receipt_addr) ≫= fun r =>
  require (negb (r_verified r)) AlreadyVerified ≫= fun _ =>
  require (bool_decide (r_proof_hash r <> zero32)) NoProof ≫= fun _ =>
  clock ≫= fun slot =>
  Ok (set_receipt s receipt_addr
        (mkBatchReceipt (r_batch_id r) (r_batch_hash r) (r_proof_hash r) (r_tx_count r)
           (r_total_compute r) true (r_submitter r) (r_submit_slot r) slot)).

Definition pause (signer : Pubkey) (s : accounts) : result program_error accounts :=
  account (a_config s) ≫= fun config =>
  has_one config signer ≫= fun _ =>
  Ok (set_config s (set_paused config true)).

Definition resume (signer : Pubkey) (s : accounts) : result program_error accounts :=
  account (a_config s) ≫= fun config =>
  has_one config signer ≫= fun _ =>
  Ok (set_config s (set_paused config false)).

(** An instruction as it reaches the program: [SubmitProof] and [VerifyProof]
    name the receipt by its address. *)
Inductive instruction :=
| InitializeConfig (auth : Pubkey)
| UpdatePolicy (name : bytes32)
| SubmitBatch (batch_id batch_hash : bytes32) (tx_count total_compute : Z)
| SubmitProof (receipt_addr : Pubkey) (proof_hash : bytes32)
| VerifyProof (receipt_addr : Pubkey)
| Pause
| Resume.

(** The dispatch of [#[program]], with the transaction's signer and the
    runtime's clock. *)
Definition process (signer : Pubkey) (clock : result program_error Z) (ix : instruction)
    (s : accounts) : result program_error accounts :=
  match ix with
  | InitializeConfig auth => initialize_config auth s
  | UpdatePolicy name => update_policy signer name s
  | SubmitBatch id hash txs cu => submit_batch signer clock id hash txs cu s
  | SubmitProof addr hash => submit_proof addr hash s
  | VerifyProof addr => verify_proof addr clock s
  | Pause => pause signer s
  | Resume => resume signer s
  end.

(** *** Executions *)

(** One successful instruction. *)
Inductive step : Pubkey -> instruction -> accounts -> accounts -> Prop :=
| step_ok signer clock ix s s' : process signer clock ix s = Ok s' -> step signer ix s s'.

(** Any number of them, by any signers. *)
Inductive steps : accounts -> accounts -> Prop :=
| steps_refl s : steps s s
| steps_step s signer ix s1 s' : steps s s1 -> step signer ix s1 s' -> steps s s'.

Lemma steps_invariant (I : accounts -> Prop) s s' :
  (forall signer ix s s', I s -> step signer ix s s' -> I s') ->
  I s -> steps s s' -> I s'.
Proof. intros Hstep Hs. induction 1; eauto. Qed.

(** What the constraint helpers say when they pass. *)
Lemma require_Ok b e u : require b e = Ok u -> b = true.
Proof. by destruct b. Qed.
Lemma account_Ok {A} (o : option A) a : account o = Ok a -> o = Some a.
Proof. destruct o; naive_solver. Qed.
Lemma init_account_Ok {A} (o : option A) u : init_account o = Ok u -> o = None.
Proof. by destruct o. Qed.
Lemma has_one_Ok c k u : has_one c k = Ok u -> authority c = k.
Proof. intros Hr%require_Ok. by apply bool_decide_eq_true in Hr. Qed.
Lemma checked_Ok {A} (o : option A) a : checked o = Ok a -> o = Some a.
Proof. destruct o; naive_solver. Qed.
End program.

(** Invert a chain of binds of a successful instruction; the facts the
    constraints leave are named [E], [E0], and so on. *)
Ltac invert_ok :=
  repeat match goal with
  | H : _ ≫= _ = Ok _ |- _ =>
      let E := fresh "E" in let H' := fresh in
      apply result_bind_Ok in H as (? & E & H');
      lazymatch type of E with
      | require (negb _) _ = _ => apply require_Ok in E; apply negb_true_iff in E
      | require (bool_decide _) _ = _ => apply require_Ok in E; apply bool_decide_eq_true in E
      | account _ = _ => apply account_Ok in E
      | init_account _ = _ => apply init_account_Ok in E
      | has_one _ _ = _ => apply has_one_Ok in E
      | checked _ = _ => apply checked_Ok in E
      | _ => idtac
      end;
      rename H' into H
  | H : Ok _ = Ok _ |- _ => injection H as <-
  end.

Ltac invert_step H :=
  inversion H; subst; clear H;
  match goal with
  | Hp : process _ _ ?ix _ = Ok _ |- _ =>
      destruct ix; cbn [process] in Hp;
      unfold initialize_config, update_policy, submit_batch, submit_proof, verify_proof, pause,
        resume in Hp
  end; invert_ok.

(** ** Invariants *)

Section facts.
Context `{AddressLib}.

(** What holds of every receipt an execution can leave. *)
Definition receipt_ok (addr : Pubkey) (r : BatchReceipt) : Prop :=
  addr = receipt_address (r_batch_id r) /\
  (r_verified r = true -> r_proof_hash r <> zero32) /\
  (r_verified r = false -> r_verify_slot r = 0).

(** The accounts of an execution: no receipt before the configuration exists,
    and then as many as the counter says. *)
Definition accounts_ok (s : accounts) : Prop :=
  map_Forall receipt_ok (a_receipts s) /\
  match a_config s with
  | None => a_receipts s = ∅
  | Some c => batch_count c = Z.of_nat (size (a_receipts s)) /\ batch_count c < u64_bound
  end.

Lemma accounts_ok_start : accounts_ok no_accounts.
Proof. split; [apply map_Forall_empty|done]. Qed.

(** Replacing a receipt by one of the same batch keeps the invariant. *)
Lemma accounts_ok_update s addr r r' :
  accounts_ok s -> a_receipts s !! addr = Some r -> receipt_ok addr r' ->
  accounts_ok (set_receipt s addr r').
Proof.
  intros [Hr Hc] Ha Hr'. split; [by apply map_Forall_insert_2|]. simpl.
  destruct (a_config s) as [c|]; [by rewrite map_size_insert_Some by by eexists|].
  by rewrite Hc, lookup_empty in Ha.
Qed.

Lemma accounts_ok_step signer ix s s' : accounts_ok s -> step signer ix s s' -> accounts_ok s'.
Proof.
  intros Hok Hst. pose proof Hok as [Hr Hc]. invert_step Hst; try (rewrite E in Hc; by split).
  - rewrite E in Hc. split; simpl; [done|]. by rewrite Hc, map_size_empty.
  - rewrite E in Hc. destruct Hc as [Hn Hb]. apply u64_arith_debug in E3 as [[_ Hlt] ->].
    split; simpl; [apply map_Forall_insert_2; [by repeat split|done]|].
    rewrite map_size_insert_None by done. lia.
  - eapply accounts_ok_update; [done..|]. destruct (Hr _ _ E) as (Ha & Hp & Hv).
    split; [done|]. simpl. split; [congruence|auto].
  - eapply accounts_ok_update; [done..|]. destruct (Hr _ _ E) as (Ha & Hp & Hv). by repeat split.
Qed.

(** *** The life of a receipt *)

(** What never changes once a batch is submitted. *)
Definition same_batch (r r' : BatchReceipt) : Prop :=
  r_batch_id r' = r_batch_id r /\ r_batch_hash r' = r_batch_hash r /\
  r_tx_count r' = r_tx_count r /\ r_total_compute r' = r_total_compute r /\
  r_submitter r' = r_submitter r /\ r_submit_slot r' = r_submit_slot r.

(** A receipt moves on: its batch stays, and once verified all of it does. *)
Definition receipt_le (r r' : BatchReceipt) : Prop :=
  same_batch r r' /\ (r_verified r = true -> r' = r).

#[export] Instance receipt_le_preorder : PreOrder receipt_le.
Proof.
  split.
  - intros r. by repeat split.
  - intros r1 r2 r3 [H1 E1] [H2 E2]. split.
    + unfold same_batch in *. naive_solver congruence.
    + intros Hv. specialize (E1 Hv). subst r2. auto.
Qed.

Lemma replace_receipt (m : gmap Pubkey BatchReceipt) a addr r r1 r2 :
  m !! addr = Some r -> m !! a = Some r1 -> receipt_le r1 r2 ->
  exists r', <[a := r2]> m !! addr = Some r' /\ receipt_le r r'.
Proof.
  intros Ha H1 Hle. destruct (decide (a = addr)) as [->|].
  - rewrite Ha in H1. injection H1 as <-. rewrite lookup_insert_eq. by exists r2.
  - rewrite lookup_insert_ne by done. by exists r.
Qed.

(** No account is closed, and every receipt only moves on. *)
Lemma step_receipt signer ix s s' addr r :
  step signer ix s s' -> a_receipts s !! addr = Some r ->
  exists r', a_receipts s' !! addr = Some r' /\ receipt_le r r'.
Proof.
  intros Hst Ha. invert_step Hst; simpl; try by (exists r).
  - exists r. split; [|done]. rewrite lookup_insert_ne; [done|]. intros <-. congruence.
  - eapply replace_receipt; [done..|]. split; [done|]. by rewrite E0.
  - eapply replace_receipt; [done..|]. split; [done|]. by rewrite E0.
Qed.

Lemma steps_receipt s s' addr r :
  steps s s' -> a_receipts s !! addr = Some r ->
  exists r', a_receipts s' !! addr = Some r' /\ receipt_le r r'.
Proof.
  induction 1 as [s|s signer ix s1 s' _ IH Hst]; intros Ha; [by exists r|].
  destruct (IH Ha) as (r1 & Ha1 & Hle). destruct (step_receipt _ _ _ _ _ _ Hst Ha1)
    as (r2 & Ha2 & Hle2). exists r2. split; [done|]. by transitivity r1.
Qed.

(** The authority never changes, and only it changes the flag and the policy. *)
Lemma step_config signer ix s s' c :
  step signer ix s s' -> a_config s = Some c ->
  exists c', a_config s' = Some c' /\ authority c' = authority c /\
    (signer <> authority c -> paused c' = paused c /\ policy_name c' = policy_name c) /\
    batch_count c <= batch_count c'.
Proof.
  intros Hst Hc. invert_step Hst; simpl in *; rewrite Hc in *; simplify_eq;
    eexists; (split; [done|]); (split; [done|]); (split; [done || by intros []|]); simpl; try lia.
  apply u64_arith_debug in E3 as [_ ->]. lia.
Qed.

Lemma steps_authority s s' c :
  steps s s' -> a_config s = Some c ->
  exists c', a_config s' = Some c' /\ authority c' = authority c /\ batch_count c <= batch_count c'.
Proof.
  induction 1 as [s|s signer ix s1 s' _ IH Hst]; intros Hc; [by exists c|].
  destruct (IH Hc) as (c1 & Hc1 & Ha1 & Hb1).
  destruct (step_config _ _ _ _ _ Hst Hc1) as (c2 & Hc2 & Ha2 & _ & Hb2).
  exists c2. split; [done|]. split; [congruence|lia].
Qed.
End facts.

(** ** The properties *)

(** C20: In every execution of the program, the configuration's counter is the
    number of receipts, each receipt sits at the address of its own batch id,
    a verified receipt carries a nonzero proof hash, and no receipt exists
    before the configuration does. *)
Theorem onchain_invariant `{AddressLib} s : steps no_accounts s -> accounts_ok s.
Proof.
  apply steps_invariant; [|apply accounts_ok_start]. intros. by eapply accounts_ok_step.
Qed.

(** C27: Whatever instructions anyone runs later, a submitted receipt keeps its
    batch id, hash, counts, submitter and slot, and once it is verified nothing
    of it ever changes. *)
Theorem receipt_history `{AddressLib} s s' addr r :
  steps s s' -> a_receipts s !! addr = Some r ->
  exists r', a_receipts s' !! addr = Some r' /\
    r_batch_id r' = r_batch_id r /\ r_batch_hash r' = r_batch_hash r /\
    r_tx_count r' = r_tx_count r /\ r_total_compute r' = r_total_compute r /\
    r_submitter r' = r_submitter r /\ r_submit_slot r' = r_submit_slot r /\
    (r_verified r = true -> r' = r).
Proof.
  intros Hs Ha. destruct (steps_receipt s s' addr r Hs Ha) as (r' & Ha' & Hsame & Hv).
  exists r'. split; [done|]. destruct Hsame as (? & ? & ? & ? & ? & ?). by repeat split.
Qed.

(** C28: In a reachable state a batch can be submitted exactly when the
    configuration exists and is not paused, the counter is not at its last value,
    and no receipt is of a batch whose id has the same address - its own id to
    begin with; the submission then counts one more batch and adds at that
    address a receipt that is unverified, without a proof, and has the batch's
    data, its submitter and the slot, and nothing else changes. *)
Theorem submit_batch_succeeds_iff `{AddressLib} s signer slot id hash txs cu s' :
  steps no_accounts s ->
  process signer (Ok slot) (SubmitBatch id hash txs cu) s = Ok s' <->
  exists c, a_config s = Some c /\ paused c = false /\ batch_count c < U64_MAX /\
    (forall addr r, a_receipts s !! addr = Some r ->
       receipt_address (r_batch_id r) <> receipt_address id) /\
    s' = mkAccounts (Some (set_batch_count c (batch_count c + 1)))
           (<[receipt_address id := mkBatchReceipt id hash zero32 txs cu false signer slot 0]>
              (a_receipts s)).
Proof.
  intros Hs. assert (accounts_ok s) as [Hr Hc].
  { eapply steps_invariant; [|apply accounts_ok_start|exact Hs].
    intros. by eapply accounts_ok_step. }
  split.
  - intros Hp. cbn [process] in Hp. unfold submit_batch in Hp. invert_ok.
    apply u64_arith_debug in E3 as [[_ Hlt] ->].
    eexists. split; [exact E|]. split; [done|]. split; [unfold U64_MAX; lia|]. split; [|done].
    intros addr r Ha Heq. destruct (Hr _ _ Ha) as (-> & _). rewrite Heq in Ha. congruence.
  - intros (c & Hcfg & Hpa & Hlt & Hno & ->). rewrite Hcfg in Hc. destruct Hc as [Hn _].
    assert (a_receipts s !! receipt_address id = None) as Hfree.
    { destruct (a_receipts s !! receipt_address id) as [r|] eqn:Ha; [|done].
      destruct (Hno _ _ Ha). by destruct (Hr _ _ Ha) as (<- & _). }
    cbn [process]. unfold submit_batch. rewrite Hcfg. cbn. rewrite Hfree, Hpa. cbn.
    unfold u64_add. by rewrite u64_arith_in by (unfold U64_MAX in Hlt; split; lia).
Qed.

(** C29: The authority fixed at initialisation never changes, the counter never
    decreases, and an instruction signed by anyone else leaves the pause flag
    and the policy name alone. *)
Theorem config_controlled `{AddressLib} s s1 s2 signer ix c c1 :
  steps s s1 -> a_config s = Some c -> a_config s1 = Some c1 -> step signer ix s1 s2 ->
  authority c1 = authority c /\ batch_count c <= batch_count c1 /\
  exists c2, a_config s2 = Some c2 /\ authority c2 = authority c /\
    (signer <> authority c -> paused c2 = paused c1 /\ policy_name c2 = policy_name c1).
Proof.
  intros Hs Hc Hc1 Hst. destruct (steps_authority _ _ _ Hs Hc) as (c1' & Hc1' & Ha & Hb).
  assert (c1' = c1) as -> by congruence.
  destruct (step_config _ _ _ _ _ Hst Hc1) as (c2 & Hc2 & Ha2 & Hoth & _).
  split; [done|]. split; [done|]. exists c2. split; [done|]. split; [congruence|].
  intros Hne. apply Hoth. congruence.
Qed.

(** Verification is open to everyone: on any receipt that is not verified,
    paused or not, any signer can store a nonzero proof hash of its choice and
    then mark the batch verified. *)
Theorem anyone_can_verify `{AddressLib} s addr r signer clock slot hash :
  a_receipts s !! addr = Some r -> r_verified r = false -> hash <> zero32 ->
  exists s1 s2,
    process signer clock (SubmitProof addr hash) s = Ok s1 /\
    process signer (Ok slot) (VerifyProof addr) s1 = Ok s2 /\
    exists r2, a_receipts s2 !! addr = Some r2 /\ r_verified r2 = true /\
      r_proof_hash r2 = hash /\ r_verify_slot r2 = slot /\ same_batch r r2.
Proof.
  intros Ha Hv Hh. cbn [process]. unfold submit_proof. rewrite Ha. simpl. rewrite Hv. simpl.
  eexists _, _. split; [done|]. unfold verify_proof. simpl.
  rewrite lookup_insert_eq. simpl. rewrite bool_decide_true by done. simpl. split; [done|].
  simpl. rewrite lookup_insert_eq. eexists. by repeat split.
Qed.
