(* ===== verification/Float64.v ===== *)
(** * [f64]

    The policies and the metrics compute with [f64].  Binary64 is the
    Standard Library's [SpecFloat] at precision 53 and exponent bound 1024,
    which is executable; this file adds what Rust's standard library has on top
    (conversions, [ceil], [round], [max]) and the exactness of integers below
    [2^53]. *)

From Stdlib Require Import ZArith Lia Bool SpecFloat.
From stdpp Require Import base list.
From S2P Require Import Prelude RustNum.

Local Open Scope Z_scope.

Definition f64 : Type := spec_float.

Definition f64_add : f64 -> f64 -> f64 := SFadd 53 1024.
Definition f64_sub : f64 -> f64 -> f64 := SFsub 53 1024.
Definition f64_mul : f64 -> f64 -> f64 := SFmul 53 1024.
Definition f64_div : f64 -> f64 -> f64 := SFdiv 53 1024.
Definition f64_sqrt : f64 -> f64 := SFsqrt 53 1024.
Definition f64_gt (x y : f64) : bool := SFltb y x.
Definition f64_lt (x y : f64) : bool := SFltb x y.
Definition f64_le (x y : f64) : bool := SFleb x y.

(** [z as f64] *)
Definition f64_of_Z (z : Z) : f64 := binary_normalize 53 1024 z 0 false.

(** The literal [p/q]: a decimal literal is the nearest double, and so is the
    quotient of two integers that are doubles. *)
Definition f64_lit (p q : Z) : f64 := f64_div (f64_of_Z p) (f64_of_Z q).

Definition f64_zero : f64 := S754_zero false.
Definition f64_one : f64 := f64_of_Z 1.

(** Quotient and remainder of a mantissa by [2^-e]. *)
Definition f64_split (m : positive) (e : Z) : Z * Z := Z.div_eucl (Zpos m) (2 ^ (- e)).

(** [f64::ceil] *)
Definition f64_ceil (x : f64) : f64 :=
  match x with
  | S754_finite s m e =>
      if 0 <=? e then x
      else
        let '(q, r) := f64_split m e in
        if s then SFopp (f64_of_Z q) else f64_of_Z (if r =? 0 then q else q + 1)
  | _ => x
  end.

(** [f64::round]: half away from zero. *)
Definition f64_round (x : f64) : f64 :=
  match x with
  | S754_finite s m e =>
      if 0 <=? e then x
      else
        let '(q, r) := f64_split m e in
        let n := f64_of_Z (if 2 * r <? 2 ^ (- e) then q else q + 1) in
        if s then SFopp n else n
  | _ => x
  end.

(** [x as u64] and [x as usize]: truncation that saturates, NaN to 0. *)
Definition f64_as_u64 (x : f64) : Z :=
  match x with
  | S754_finite false m e =>
      Z.min (if 0 <=? e then Zpos m * 2 ^ e else (f64_split m e).1) U64_MAX
  | S754_infinity false => U64_MAX
  | _ => 0
  end.

(** [f64::max]: a NaN loses. *)
Definition f64_max (x y : f64) : f64 :=
  match x, y with
  | S754_nan, _ => y
  | _, S754_nan => x
  | _, _ => if SFltb x y then y else x
  end.

(** [Iterator::sum::<f64>] *)
Definition f64_sum (l : list f64) : f64 := foldl f64_add f64_zero l.

(** ** Range *)

Lemma f64_split_spec m e : e < 0 ->
  Zpos m = 2 ^ (- e) * (f64_split m e).1 + (f64_split m e).2 /\
  0 <= (f64_split m e).2 < 2 ^ (- e) /\ 0 <= (f64_split m e).1.
Proof.
  intros He. unfold f64_split. assert (0 < 2 ^ (- e)) as Hp by (apply Z.pow_pos_nonneg; lia).
  pose proof (Z_div_mod (Zpos m) (2 ^ (- e)) ltac:(lia)) as Hdm.
  destruct (Z.div_eucl (Z.pos m) (2 ^ (- e))) as [q r]. simpl. destruct Hdm as [Heq Hr].
  split; [lia|]. split; [done|]. destruct (Z_lt_le_dec q 0) as [Hq|]; [exfalso|done].
  pose proof (Z.mul_le_mono_nonneg_l q (-1) (2 ^ (- e))). lia.
Qed.

Lemma f64_as_u64_range x : is_u64 (f64_as_u64 x).
Proof.
  unfold is_u64, U64_MAX. destruct x as [s|[]| |[] m e]; simpl; try by split.
  assert (0 <= if 0 <=? e then Z.pos m * 2 ^ e else (f64_split m e).1) as Hnn.
  { destruct (0 <=? e) eqn:He; zbool; [|by apply f64_split_spec].
    pose proof (Z.pow_nonneg 2 e). nia. }
  unfold U64_MAX, u64_bound in *. lia.
Qed.

#[export] Hint Resolve f64_as_u64_range : rust.

(** ** Integers below [2^53] are exact *)

Lemma digits2_pos_bounds p : 2 ^ (Zpos (digits2_pos p) - 1) <= Zpos p < 2 ^ Zpos (digits2_pos p).
Proof.
  induction p as [p IH|p IH|]; cbn [digits2_pos]; rewrite ?Pos2Z.inj_succ; [| |done].
  - replace (Z.succ (Z.pos (digits2_pos p)) - 1) with (Z.succ (Z.pos (digits2_pos p) - 1)) by lia.
    rewrite !Z.pow_succ_r by lia. lia.
  - replace (Z.succ (Z.pos (digits2_pos p)) - 1) with (Z.succ (Z.pos (digits2_pos p) - 1)) by lia.
    rewrite !Z.pow_succ_r by lia. lia.
Qed.

Lemma digits2_small p : Zpos p < 2 ^ 53 -> Zpos (digits2_pos p) <= 53.
Proof.
  intros Hp. pose proof (digits2_pos_bounds p) as [Hlo _].
  destruct (Z_le_gt_dec (Z.pos (digits2_pos p)) 53) as [|Hgt]; [done|exfalso].
  pose proof (Z.pow_le_mono_r 2 53 (Z.pos (digits2_pos p) - 1)). lia.
Qed.

Lemma digits2_iter_xO p k : digits2_pos (Pos.iter xO p k) = (digits2_pos p + k)%positive.
Proof.
  induction k as [|k IH] using Pos.peano_ind; [simpl; lia|].
  rewrite Pos.iter_succ. cbn [digits2_pos]. rewrite IH. lia.
Qed.

Lemma iter_xO_mul p k : Zpos (Pos.iter xO p k) = Zpos p * 2 ^ Zpos k.
Proof.
  induction k as [|k IH] using Pos.peano_ind; [simpl; lia|].
  rewrite Pos.iter_succ, Pos2Z.inj_succ, Z.pow_succ_r, Pos2Z.inj_xO, IH by lia. lia.
Qed.

(** A mantissa of 53 digits is left alone. *)
Lemma binary_round_aux_53 m e :
  Zpos (digits2_pos m) = 53 -> -1074 <= e <= 971 ->
  binary_round_aux 53 1024 false (Zpos m) e loc_Exact = S754_finite false m e.
Proof.
  intros Hd He. unfold binary_round_aux, shr_fexp. cbn [Zdigits2 shr_record_of_loc]. rewrite Hd.
  unfold fexp, emin. rewrite Z.max_l by lia. replace (53 + e - 53 - e) with 0 by lia.
  cbn [shr shr_m loc_of_shr_record round_nearest_even Zdigits2 shr_record_of_loc]. rewrite Hd.
  rewrite Z.max_l by lia. replace (53 + e - 53 - e) with 0 by lia. cbn [shr shr_m].
  rewrite (proj2 (Z.leb_le e (1024 - 53))) by lia. done.
Qed.

(** The representation of a small positive integer. *)
Lemma f64_of_pos p : Zpos p < 2 ^ 53 ->
  exists m, f64_of_Z (Zpos p) = S754_finite false m (Zpos (digits2_pos p) - 53) /\
    Zpos m = Zpos p * 2 ^ (53 - Zpos (digits2_pos p)) /\ Zpos (digits2_pos p) <= 53.
Proof.
  intros Hp. apply digits2_small in Hp as Hd. set (d := Zpos (digits2_pos p)) in *.
  unfold f64_of_Z, binary_normalize, binary_round. fold d.
  unfold fexp, emin, shl_align. rewrite Z.add_0_r, Z.sub_0_r, Z.max_l by lia.
  destruct (d - 53) as [|k|k] eqn:Hk; [|lia|].
  - exists p. replace (53 - d) with 0 by lia. rewrite binary_round_aux_53 by (unfold d in *; lia).
    split; [done|]. split; [lia|done].
  - exists (Pos.iter xO p k). rewrite binary_round_aux_53 by (rewrite ?digits2_iter_xO; lia).
    split; [done|]. split; [|done]. rewrite iter_xO_mul. do 2 f_equal. lia.
Qed.

Lemma split_exact p m d :
  d - 53 < 0 -> Zpos m = Zpos p * 2 ^ (53 - d) -> f64_split m (d - 53) = (Zpos p, 0).
Proof.
  intros He Hm. set (e := d - 53) in *. replace (53 - d) with (- e) in Hm by lia. pose proof (f64_split_spec m e He) as (Heq & Hr & _).
  assert (0 < 2 ^ (- e)) by (apply Z.pow_pos_nonneg; lia).
  destruct (f64_split m e) as [q r]. simpl in *.
  assert (q = Zpos p) by nia. subst q. f_equal. lia.
Qed.

(** Rounding up and converting back give the integer. *)
Lemma f64_as_of_Z z : 0 <= z < 2 ^ 53 -> f64_as_u64 (f64_of_Z z) = z.
Proof.
  intros [H0 Hz]. destruct z as [|p|p]; [done| |lia].
  destruct (f64_of_pos p Hz) as (m & -> & Hm & Hd). cbn [f64_as_u64].
  set (d := Zpos (digits2_pos p)) in *. destruct (0 <=? d - 53) eqn:He; zbool.
  - clearbody d. assert (d = 53) as -> by lia. simpl in Hm.
    unfold U64_MAX, u64_bound. lia.
  - rewrite (split_exact p m d He Hm).
    simpl. unfold U64_MAX, u64_bound. lia.
Qed.

Lemma f64_ceil_of_Z z : 0 <= z < 2 ^ 53 -> f64_ceil (f64_of_Z z) = f64_of_Z z.
Proof.
  intros [H0 Hz]. destruct z as [|p|p]; [done| |lia].
  destruct (f64_of_pos p Hz) as (m & Heq & Hm & Hd). rewrite Heq at 1. cbn [f64_ceil].
  set (d := Zpos (digits2_pos p)) in *. destruct (0 <=? d - 53) eqn:He; zbool; [by rewrite Heq|].
  by rewrite (split_exact p m d He Hm).
Qed.

(** ** At least one *)

(** A double that is not below 1 truncates to at least 1. *)
Lemma f64_as_u64_ge_1 x :
  valid_binary 53 1024 x = true -> x <> S754_nan -> f64_lt x f64_one = false -> 1 <= f64_as_u64 x.
Proof.
  intros Hv Hn Hlt. change f64_one with (S754_finite false (2 ^ 52) (-52)) in Hlt.
  destruct x as [s|[]| |[] m e]; try done. cbn [f64_as_u64].
  enough (1 <= if 0 <=? e then Z.pos m * 2 ^ e else (f64_split m e).1)
    by (unfold U64_MAX, u64_bound; lia).
  unfold f64_lt, SFltb in Hlt. cbn [SFcompare] in Hlt.
  assert (-52 <= e /\ 2 ^ 52 <= Zpos m) as [He Hm].
  { unfold valid_binary, bounded, canonical_mantissa, fexp, emin in Hv. zbool.
    pose proof (digits2_pos_bounds m) as [Hlo _].
    assert (-52 <= e) as He by (destruct (Z.compare_spec e (-52)); try done; lia).
    split; [done|]. replace (Z.pos (digits2_pos m) - 1) with 52 in Hlo by lia. done. }
  destruct (0 <=? e) eqn:Hsign; zbool.
  - pose proof (Z.pow_pos_nonneg 2 e). nia.
  - pose proof (f64_split_spec m e Hsign) as (Heq & Hr & Hq).
    pose proof (Z.pow_le_mono_r 2 (- e) 52). nia.
Qed.

Lemma f64_max_one x : valid_binary 53 1024 x = true -> 1 <= f64_as_u64 (f64_max x f64_one).
Proof.
  intros Hv. assert (1 <= f64_as_u64 f64_one) as H1 by (vm_compute; discriminate).
  unfold f64_max. destruct x as [s|s| |s m e]; try exact H1;
    (change (f64_one) with (S754_finite false (2 ^ 52) (-52)) at 1; cbn beta iota;
     match goal with |- context [SFltb ?a ?b] => destruct (SFltb a b) eqn:Hlt end;
     [exact H1|by apply f64_as_u64_ge_1]).
Qed.
