(* ===== verification/FloatFmt.v ===== *)
(** * Printing floats

    [format!("{:.N}", x)] on [f64]: the exact value is rounded to [N] decimals,
    a tie to the even digit. *)

From Stdlib Require Import ZArith Lia Ascii String Bool SpecFloat.
From stdpp Require Import base list strings.
From S2P Require Import Prelude RustNum RustFmt Float64.

Local Open Scope Z_scope.

(** The nearest integer to [p / q], a tie to the even one. *)
Definition div_half_even (p q : Z) : Z :=
  let '(n, r) := Z.div_eucl p q in
  match 2 * r ?= q with
  | Lt => n
  | Eq => if Z.even n then n else n + 1
  | Gt => n + 1
  end.

(** [n / 10^prec] with [prec] decimals. *)
Definition fixed_digits (prec : nat) (n : Z) : string :=
  match prec with
  | O => fmt_u64 n
  | _ =>
      fmt_u64 (n / 10 ^ Z.of_nat prec) +:+ "." +:+ fmt_pad prec (n mod 10 ^ Z.of_nat prec)
  end.

Definition sign_text (negative : bool) : string := if negative then "-" else "".

Definition fmt_fixed (prec : nat) (x : f64) : string :=
  match x with
  | S754_nan => "NaN"
  | S754_infinity s => sign_text s +:+ "inf"
  | S754_zero s => sign_text s +:+ fixed_digits prec 0
  | S754_finite s m e =>
      let scaled := Zpos m * 10 ^ Z.of_nat prec in
      sign_text s +:+ fixed_digits prec
        (if 0 <=? e then scaled * 2 ^ e else div_half_even scaled (2 ^ (- e)))
  end.

(** The printed number is within half a unit of the last place. *)
Lemma div_half_even_near p q : 0 < q -> 2 * Z.abs (q * div_half_even p q - p) <= q.
Proof.
  intros Hq. unfold div_half_even. pose proof (Z_div_mod p q ltac:(lia)) as Hdm.
  destruct (Z.div_eucl p q) as [n r]. destruct Hdm as [-> Hr].
  destruct (Z.compare_spec (2 * r) q); [destruct (Z.even n)|..]; nia.
Qed.

Example fmt_fixed_tie : fmt_fixed 2 (f64_lit 1 8) = "0.12".
Proof. reflexivity. Qed.
Example fmt_fixed_sum : fmt_fixed 2 (f64_lit 31415 10000) = "3.14".
Proof. reflexivity. Qed.
Example fmt_fixed_small : fmt_fixed 1 (f64_lit 1 1000) = "0.0".
Proof. reflexivity. Qed.

Lemma div_half_even_exact n q : 0 < q -> div_half_even (n * q) q = n.
Proof.
  intros Hq. unfold div_half_even. pose proof (Z_div_mod (n * q) q ltac:(lia)) as Hdm.
  destruct (Z.div_eucl (n * q) q) as [k r]. destruct Hdm as [Heq Hr].
  assert (k = n) as ->.
  { assert (q * (n - k) = r) as Hk by lia. assert (n - k < 1 /\ -1 < n - k) by nia. lia. }
  assert (r = 0) as -> by nia. by destruct (Z.compare_spec (2 * 0) q); try lia.
Qed.

(** Integers below [2^53] print exactly. *)
Lemma fmt_fixed_of_Z prec z : 0 <= z < 2 ^ 53 ->
  fmt_fixed prec (f64_of_Z z) = fixed_digits prec (z * 10 ^ Z.of_nat prec).
Proof.
  intros [H0 Hz]. destruct z as [|p|p]; [done| |lia].
  destruct (f64_of_pos p Hz) as (m & -> & Hm & Hd). cbn [fmt_fixed].
  set (d := Zpos (digits2_pos p)) in *. clearbody d. set (t := 10 ^ Z.of_nat prec). rewrite Hm.
  assert (forall x, sign_text false +:+ x = x) as -> by done. f_equal.
  destruct (0 <=? d - 53) eqn:He; zbool.
  - assert (d = 53) as -> by lia. simpl. lia.
  - replace (- (d - 53)) with (53 - d) by lia.
    replace (Zpos p * 2 ^ (53 - d) * t) with (Zpos p * t * 2 ^ (53 - d)) by lia.
    apply div_half_even_exact, Z.pow_pos_nonneg; lia.
Qed.
