(* ===== verification/Policy.v ===== *)
(** * Batch sealing policies ([crates/batch-policy/src/lib.rs])

    The trait [PolicyEngine] of [crates/common/src/lib.rs] as a class, the six
    policies as its instances, and the factory.  A method that takes
    [&mut self] returns the new policy, under [option] where its arithmetic or
    indexing can panic. *)

From Stdlib Require Import ZArith Lia Ascii String Bool SpecFloat.
From stdpp Require Import base strings list.
From S2P Require Import Prelude RustNum RustFmt Float64.

Local Open Scope Z_scope.

(** [trait PolicyEngine] *)
Class PolicyEngine (P : Type) := {
  should_seal : P -> Z -> Z -> f64 -> bool;
  name : P -> string;
  observe_latency : profile -> P -> Z -> option P;
  observe_queue_growth : profile -> P -> f64 -> option P;
}.

(** The trait's default methods do nothing. *)
Definition observe_nothing {P A : Type} (prof : profile) (self : P) (_ : A) : option P := Some self.

(** ** The static policies *)

Record FixedCountPolicy := mkFixedCount { fc_threshold : Z }.
Definition FixedCountPolicy_new (threshold : Z) : FixedCountPolicy := mkFixedCount threshold.

Definition fixed_count_should_seal (self : FixedCountPolicy) (queue_len oldest_wait_ms : Z)
    (avg_arrival_rate : f64) : bool := fc_threshold self <=? queue_len.

#[export] Instance FixedCountPolicy_engine : PolicyEngine FixedCountPolicy := {
  should_seal := fixed_count_should_seal;
  name := fun _ => "FixedCount";
  observe_latency := observe_nothing;
  observe_queue_growth := observe_nothing;
}.

Record FixedTimePolicy := mkFixedTime { ft_interval_ms : Z }.
Definition FixedTimePolicy_new (interval_ms : Z) : FixedTimePolicy := mkFixedTime interval_ms.

Definition fixed_time_should_seal (self : FixedTimePolicy) (queue_len oldest_wait_ms : Z)
    (avg_arrival_rate : f64) : bool :=
  (0 <? queue_len) && (ft_interval_ms self <=? oldest_wait_ms).

#[export] Instance FixedTimePolicy_engine : PolicyEngine FixedTimePolicy := {
  should_seal := fixed_time_should_seal;
  name := fun _ => "FixedTime";
  observe_latency := observe_nothing;
  observe_queue_growth := observe_nothing;
}.

Record HybridPolicy := mkHybrid { hy_count_threshold : Z; hy_time_threshold_ms : Z }.
Definition HybridPolicy_new (count_threshold time_threshold_ms : Z) : HybridPolicy :=
  mkHybrid count_threshold time_threshold_ms.

Definition hybrid_should_seal (self : HybridPolicy) (queue_len oldest_wait_ms : Z)
    (avg_arrival_rate : f64) : bool :=
  (hy_count_threshold self <=? queue_len) ||
  ((0 <? queue_len) && (hy_time_threshold_ms self <=? oldest_wait_ms)).

#[export] Instance HybridPolicy_engine : PolicyEngine HybridPolicy := {
  should_seal := hybrid_should_seal;
  name := fun _ => "Hybrid";
  observe_latency := observe_nothing;
  observe_queue_growth := observe_nothing;
}.

(** ** The adaptive policy *)

Record AdaptivePolicy := mkAdaptive {
  ad_base_count : Z;
  ad_max_count : Z;
  ad_min_count : Z;
  ad_time_threshold_ms : Z;
  ad_latency_budget_ms : Z;
  ad_observed_latency_ms : Z;
  ad_queue_growth_rate : f64;
}.

Definition AdaptivePolicy_new (base_count max_count time_threshold_ms latency_budget_ms : Z)
    : AdaptivePolicy := {|
  ad_base_count := base_count;
  ad_max_count := max_count;
  ad_min_count := 1;
  ad_time_threshold_ms := time_threshold_ms;
  ad_latency_budget_ms := latency_budget_ms;
  ad_observed_latency_ms := 0;
  ad_queue_growth_rate := f64_one;
|}.

(** [min] and [max] of the final clamp are [Ord]'s, on [usize]. *)
Definition compute_threshold (self : AdaptivePolicy) : Z :=
  let threshold := f64_of_Z (ad_base_count self) in
  let threshold :=
    if f64_gt (ad_queue_growth_rate self) (f64_lit 15 10) then
      f64_mul threshold
        (f64_add f64_one
           (f64_mul (f64_sub (ad_queue_growth_rate self) f64_one) (f64_lit 3 10)))
    else threshold in
  let threshold :=
    if 0 <? ad_observed_latency_ms self then
      let latency_ratio :=
        f64_div (f64_of_Z (ad_observed_latency_ms self)) (f64_of_Z (ad_latency_budget_ms self)) in
      if f64_gt latency_ratio (f64_lit 7 10) then
        let shrink_factor :=
          f64_sub f64_one (f64_mul (f64_sub latency_ratio (f64_lit 7 10)) (f64_of_Z 2)) in
        f64_mul threshold (f64_max shrink_factor (f64_lit 3 10))
      else threshold
    else threshold in
  Z.min (Z.max (f64_as_u64 (f64_ceil threshold)) (ad_min_count self)) (ad_max_count self).

Definition adaptive_should_seal (self : AdaptivePolicy) (queue_len oldest_wait_ms : Z)
    (avg_arrival_rate : f64) : bool :=
  if queue_len =? 0 then false
  else if compute_threshold self <=? queue_len then true
  else if ad_time_threshold_ms self <=? oldest_wait_ms then true
  else if ad_latency_budget_ms self <=? oldest_wait_ms then true
  else if f64_gt avg_arrival_rate (f64_of_Z 100) && (ad_min_count self <=? queue_len) then true
  else false.

Definition adaptive_observe_latency (prof : profile) (self : AdaptivePolicy) (latency_ms : Z)
    : option AdaptivePolicy :=
  seven ← u64_mul prof (ad_observed_latency_ms self) 7;
  three ← u64_mul prof latency_ms 3;
  total ← u64_add prof seven three;
  Some {|
    ad_base_count := ad_base_count self;
    ad_max_count := ad_max_count self;
    ad_min_count := ad_min_count self;
    ad_time_threshold_ms := ad_time_threshold_ms self;
    ad_latency_budget_ms := ad_latency_budget_ms self;
    ad_observed_latency_ms := total / 10;
    ad_queue_growth_rate := ad_queue_growth_rate self |}.

Definition adaptive_observe_queue_growth (prof : profile) (self : AdaptivePolicy) (rate : f64)
    : option AdaptivePolicy :=
  Some {|
    ad_base_count := ad_base_count self;
    ad_max_count := ad_max_count self;
    ad_min_count := ad_min_count self;
    ad_time_threshold_ms := ad_time_threshold_ms self;
    ad_latency_budget_ms := ad_latency_budget_ms self;
    ad_observed_latency_ms := ad_observed_latency_ms self;
    ad_queue_growth_rate :=
      f64_add (f64_mul (ad_queue_growth_rate self) (f64_lit 8 10))
              (f64_mul rate (f64_lit 2 10)) |}.

#[export] Instance AdaptivePolicy_engine : PolicyEngine AdaptivePolicy := {
  should_seal := adaptive_should_seal;
  name := fun _ => "Adaptive";
  observe_latency := adaptive_observe_latency;
  observe_queue_growth := adaptive_observe_queue_growth;
}.

(** ** The priority-aware policy *)

Record PriorityAwarePolicy := mkPriorityAware {
  pa_base_policy : HybridPolicy;
  pa_critical_count_threshold : Z;
}.

Definition PriorityAwarePolicy_new
    (count_threshold time_threshold_ms critical_count_threshold : Z) : PriorityAwarePolicy := {|
  pa_base_policy := HybridPolicy_new count_threshold time_threshold_ms;
  pa_critical_count_threshold := critical_count_threshold;
|}.

Definition should_seal_for_critical (self : PriorityAwarePolicy) (critical_count : Z) : bool :=
  pa_critical_count_threshold self <=? critical_count.

Definition priority_should_seal (self : PriorityAwarePolicy) (queue_len oldest_wait_ms : Z)
    (avg_arrival_rate : f64) : bool :=
  should_seal (pa_base_policy self) queue_len oldest_wait_ms avg_arrival_rate.

#[export] Instance PriorityAwarePolicy_engine : PolicyEngine PriorityAwarePolicy := {
  should_seal := priority_should_seal;
  name := fun _ => "PriorityAware";
  observe_latency := observe_nothing;
  observe_queue_growth := observe_nothing;
}.

(** ** The automatic policy *)

Inductive TrafficPattern := Idle | Steady | Bursty | HighLoad.

#[export] Instance TrafficPattern_eq_dec : EqDecision TrafficPattern.
Proof. solve_decision. Defined.

Record AutoPolicy := mkAuto {
  au_min_batch : Z;
  au_max_batch : Z;
  au_max_latency_ms : Z;
  au_arrival_times : list Z;
  au_arrival_idx : Z;
  au_last_arrival_ms : Z;
  au_observed_pattern : TrafficPattern;
  au_current_threshold : Z;
  au_current_time_limit_ms : Z;
}.

Definition AutoPolicy_new (min_batch max_batch max_latency_ms : Z) : AutoPolicy := {|
  au_min_batch := min_batch;
  au_max_batch := max_batch;
  au_max_latency_ms := max_latency_ms;
  au_arrival_times := replicate 100 0;
  au_arrival_idx := 0;
  au_last_arrival_ms := 0;
  au_observed_pattern := Idle;
  au_current_threshold := min_batch;
  au_current_time_limit_ms := max_latency_ms;
|}.

(** Assignments to the mutable fields. *)
Definition auto_set_limits (threshold limit : Z) (self : AutoPolicy) : AutoPolicy :=
  let 'mkAuto mn mx lat times idx last pat _ _ := self in
  mkAuto mn mx lat times idx last pat threshold limit.
Definition auto_set_pattern (pat : TrafficPattern) (self : AutoPolicy) : AutoPolicy :=
  let 'mkAuto mn mx lat times idx last _ th lim := self in
  mkAuto mn mx lat times idx last pat th lim.
Definition auto_set_arrivals (times : list Z) (idx last : Z) (self : AutoPolicy) : AutoPolicy :=
  let 'mkAuto mn mx lat _ _ _ pat th lim := self in
  mkAuto mn mx lat times idx last pat th lim.

Definition adapt_to_pattern (prof : profile) (self : AutoPolicy) : option AutoPolicy :=
  match au_observed_pattern self with
  | Idle => Some (auto_set_limits (au_min_batch self) 500 self)
  | Steady =>
      total ← u64_add prof (au_min_batch self) (au_max_batch self);
      Some (auto_set_limits (total / 2) (au_max_latency_ms self / 2) self)
  | Bursty => Some (auto_set_limits (au_min_batch self) 200 self)
  | HighLoad => Some (auto_set_limits (au_max_batch self) (au_max_latency_ms self) self)
  end.

(** The arrivals of the window [(since, now]], in buffer order. *)
Definition arrivals_within (times : list Z) (since now_ms : Z) : list Z :=
  filter (fun t => since < t /\ t <= now_ms) times.

(** [windows(2)] mapped to saturating differences. *)
Definition intervals_of (l : list Z) : list Z :=
  zip_with (fun x y => u64_saturating_sub y x) l (tail l).

(** Standard deviation of the intervals, 0 for at most one. *)
Definition interval_deviation (prof : profile) (intervals : list Z) : option f64 :=
  if (1 <? length intervals)%nat then
    total ← u64_sum prof intervals;
    let n := f64_of_Z (Z.of_nat (length intervals)) in
    let mean := f64_div (f64_of_Z total) n in
    let var :=
      f64_div
        (f64_sum (map (fun i => let d := f64_sub (f64_of_Z i) mean in f64_mul d d) intervals)) n in
    Some (f64_sqrt var)
  else Some f64_zero.

Definition classify (recent_count : Z) (variance : f64) : TrafficPattern :=
  if recent_count <? 1 then Idle
  else if 100 <? recent_count then HighLoad
  else if f64_gt variance (f64_of_Z 200) then Bursty
  else Steady.

Definition update_pattern (prof : profile) (self : AutoPolicy) (now_ms : Z) : option AutoPolicy :=
  let one_sec_ago := u64_saturating_sub now_ms 1000 in
  let recent_count :=
    Z.of_nat (length (arrivals_within (au_arrival_times self) one_sec_ago now_ms)) in
  let five_sec_ago := u64_saturating_sub now_ms 5000 in
  let intervals := intervals_of (arrivals_within (au_arrival_times self) five_sec_ago now_ms) in
  variance ← interval_deviation prof intervals;
  let new_pattern := classify recent_count variance in
  if decide (new_pattern <> au_observed_pattern self)
  then adapt_to_pattern prof (auto_set_pattern new_pattern self)
  else Some self.

(** The index and the remainder panic on an empty or too short buffer. *)
Definition record_arrival (prof : profile) (self : AutoPolicy) (now_ms : Z)
    : option AutoPolicy :=
  let times := au_arrival_times self in
  let idx := au_arrival_idx self in
  guard (0 <= idx < Z.of_nat (length times));;
  let times := <[Z.to_nat idx := now_ms]> times in
  next ← u64_add prof idx 1;
  guard (length times <> 0%nat);;
  let next := next mod Z.of_nat (length times) in
  update_pattern prof (auto_set_arrivals times next now_ms self) now_ms.

Definition current_pattern (self : AutoPolicy) : TrafficPattern := au_observed_pattern self.

Definition auto_should_seal (self : AutoPolicy) (queue_len oldest_wait_ms : Z)
    (avg_arrival_rate : f64) : bool :=
  if queue_len =? 0 then false
  else if au_current_threshold self <=? queue_len then true
  else if au_current_time_limit_ms self <=? oldest_wait_ms then true
  else if au_max_latency_ms self <=? oldest_wait_ms then true
  else if f64_gt avg_arrival_rate (f64_of_Z 50) && (au_min_batch self <=? queue_len) then true
  else false.

Definition auto_observe_queue_growth (prof : profile) (self : AutoPolicy) (rate : f64)
    : option AutoPolicy :=
  if f64_gt rate (f64_of_Z 2) && bool_decide (au_observed_pattern self <> HighLoad)
  then adapt_to_pattern prof (auto_set_pattern Bursty self)
  else Some self.

#[export] Instance AutoPolicy_engine : PolicyEngine AutoPolicy := {
  should_seal := auto_should_seal;
  name := fun _ => "Auto";
  observe_latency := observe_nothing;
  observe_queue_growth := auto_observe_queue_growth;
}.

(** ** The factory *)

(** [Box<dyn PolicyEngine>], over the types the factory boxes. *)
Inductive BoxPolicy :=
| BoxFixedCount (p : FixedCountPolicy)
| BoxFixedTime (p : FixedTimePolicy)
| BoxHybrid (p : HybridPolicy)
| BoxAdaptive (p : AdaptivePolicy)
| BoxPriority (p : PriorityAwarePolicy).

Definition box_should_seal (self : BoxPolicy) : Z -> Z -> f64 -> bool :=
  match self with
  | BoxFixedCount p => should_seal p
  | BoxFixedTime p => should_seal p
  | BoxHybrid p => should_seal p
  | BoxAdaptive p => should_seal p
  | BoxPriority p => should_seal p
  end.

Definition box_name (self : BoxPolicy) : string :=
  match self with
  | BoxFixedCount p => name p
  | BoxFixedTime p => name p
  | BoxHybrid p => name p
  | BoxAdaptive p => name p
  | BoxPriority p => name p
  end.

Definition box_observe_latency (prof : profile) (self : BoxPolicy) (ms : Z) : option BoxPolicy :=
  match self with
  | BoxFixedCount p => BoxFixedCount <$> observe_latency prof p ms
  | BoxFixedTime p => BoxFixedTime <$> observe_latency prof p ms
  | BoxHybrid p => BoxHybrid <$> observe_latency prof p ms
  | BoxAdaptive p => BoxAdaptive <$> observe_latency prof p ms
  | BoxPriority p => BoxPriority <$> observe_latency prof p ms
  end.

Definition box_observe_queue_growth (prof : profile) (self : BoxPolicy) (rate : f64)
    : option BoxPolicy :=
  match self with
  | BoxFixedCount p => BoxFixedCount <$> observe_queue_growth prof p rate
  | BoxFixedTime p => BoxFixedTime <$> observe_queue_growth prof p rate
  | BoxHybrid p => BoxHybrid <$> observe_queue_growth prof p rate
  | BoxAdaptive p => BoxAdaptive <$> observe_queue_growth prof p rate
  | BoxPriority p => BoxPriority <$> observe_queue_growth prof p rate
  end.

#[export] Instance BoxPolicy_engine : PolicyEngine BoxPolicy := {
  should_seal := box_should_seal;
  name := box_name;
  observe_latency := box_observe_latency;
  observe_queue_growth := box_observe_queue_growth;
}.

Record PolicyConfig := mkPolicyConfig {
  count_threshold : Z;
  time_threshold_ms : Z;
  latency_budget_ms : Z;
  max_batch_size : Z;
  critical_threshold : Z;
}.

Definition PolicyConfig_default : PolicyConfig := mkPolicyConfig 100 500 1000 500 5.

Definition create_policy (policy : string) (config : PolicyConfig) : BoxPolicy :=
  let hybrid := BoxHybrid (HybridPolicy_new (count_threshold config) (time_threshold_ms config)) in
  let s := to_lowercase policy in
  if one_of s ["fixedcount"; "fixed_count"] then
    BoxFixedCount (FixedCountPolicy_new (count_threshold config))
  else if one_of s ["fixedtime"; "fixed_time"] then
    BoxFixedTime (FixedTimePolicy_new (time_threshold_ms config))
  else if one_of s ["hybrid"] then hybrid
  else if one_of s ["adaptive"] then
    BoxAdaptive (AdaptivePolicy_new (count_threshold config) (max_batch_size config)
      (time_threshold_ms config) (latency_budget_ms config))
  else if one_of s ["priority"; "priorityaware"] then
    BoxPriority (PriorityAwarePolicy_new (count_threshold config) (time_threshold_ms config)
      (critical_threshold config))
  else hybrid.
