(* ===== verification/PolicyFacts.v ===== *)
(** * What the sealing policies guarantee

    Bounds of the adaptive threshold and of its latency average, the promise of
    every policy of the factory about an old queue, the invariant of the
    automatic policy, and the pattern it can never observe. *)

From Stdlib Require Import ZArith Lia Ascii String Bool SpecFloat.
From stdpp Require Import base strings list.
From S2P Require Import Prelude RustNum Float64 Policy.

Local Open Scope Z_scope.

(** ** Runs of the repository's tests *)

Example adaptive_basic :
  map (fun '(q, w) => should_seal (AdaptivePolicy_new 10 50 100 500) q w f64_one)
    [(0, 0); (10, 0); (5, 500); (5, 50)] = [false; true; true; false].
Proof. vm_compute. reflexivity. Qed.

(** Ten observations of 450 ms against a budget of 500 ms shrink the threshold
    of 10. *)
Example adaptive_pressure :
  (compute_threshold <$>
     foldlM (fun p _ => observe_latency Debug p 450) (AdaptivePolicy_new 10 50 100 500)
       (seq 0 10)) = Some 7.
Proof. vm_compute. reflexivity. Qed.

Example auto_pattern :
  (current_pattern <$>
     foldlM (fun p t => record_arrival Debug p t) (AutoPolicy_new 5 50 1000)
       [10; 20; 30; 900; 950; 1800]) = Some Bursty.
Proof. vm_compute. reflexivity. Qed.

(** ** The latency average *)

Lemma observe_latency_value prof self l :
  0 <= ad_observed_latency_ms self -> 0 <= l ->
  7 * ad_observed_latency_ms self + 3 * l < u64_bound ->
  exists self', observe_latency prof self l = Some self' /\
    ad_observed_latency_ms self' = (7 * ad_observed_latency_ms self + 3 * l) / 10 /\
    ad_latency_budget_ms self' = ad_latency_budget_ms self /\
    ad_max_count self' = ad_max_count self.
Proof.
  intros Ho Hl Hfit. simpl. unfold adaptive_observe_latency, u64_mul, u64_add.
  rewrite u64_arith_in by (split; lia). simpl.
  rewrite u64_arith_in by (split; lia). simpl.
  rewrite u64_arith_in by (split; lia). simpl. eexists. split; [done|]. simpl.
  split; [f_equal; lia|done].
Qed.

Lemma ema_between o l : 0 <= o <= l -> o <= (7 * o + 3 * l) / 10 <= l.
Proof. intros. Z.to_euclidean_division_equations. lia. Qed.

Lemma ema_progress o l : 0 <= o < l - 3 -> o < (7 * o + 3 * l) / 10.
Proof. intros. Z.to_euclidean_division_equations. lia. Qed.

(** [n] observations of the same latency. *)
Definition observe_n (prof : profile) (self : AdaptivePolicy) (l : Z) (n : nat)
    : option AdaptivePolicy :=
  foldlM (fun p _ => observe_latency prof p l) self (seq 0 n).

Lemma observe_n_S prof self l n :
  observe_n prof self l (S n) = observe_n prof self l n ≫= fun p => observe_latency prof p l.
Proof.
  unfold observe_n. rewrite seq_S, foldlM_app. cbn [foldlM].
  destruct (foldlM _ self (seq 0 n)) as [p|]; [|done]. cbn [mbind option_bind].
  by destruct (observe_latency prof p l).
Qed.

(** ** The threshold *)

(** With nothing observed the threshold is the base count, clamped. *)
Lemma compute_threshold_unobserved base max time budget :
  0 <= base < 2 ^ 53 ->
  compute_threshold (AdaptivePolicy_new base max time budget) = Z.min (Z.max base 1) max.
Proof.
  intros Hb. unfold compute_threshold. cbn [AdaptivePolicy_new ad_queue_growth_rate ad_base_count
    ad_observed_latency_ms ad_min_count ad_max_count].
  change (f64_gt f64_one (f64_lit 15 10)) with false. change (0 <? 0) with false. cbn match.
  by rewrite f64_ceil_of_Z, f64_as_of_Z.
Qed.

(** ** The automatic policy *)

(** The ring buffer keeps its size, its index stays inside, the pattern is one
    of three, and the threshold stays between its bounds. *)
Definition auto_ok (self : AutoPolicy) : Prop :=
  length (au_arrival_times self) = 100%nat /\ 0 <= au_arrival_idx self < 100 /\
  au_observed_pattern self <> HighLoad /\
  au_min_batch self <= au_current_threshold self <= au_max_batch self.

(** What the two inputs of the policy leave alone. *)
Definition same_limits (p q : AutoPolicy) : Prop :=
  au_min_batch q = au_min_batch p /\ au_max_batch q = au_max_batch p /\
  au_max_latency_ms q = au_max_latency_ms p.

Lemma classify_HighLoad n v : n <= 100 -> classify n v <> HighLoad.
Proof. unfold classify. intros Hn. repeat case_match; zbool; try done. lia. Qed.

Lemma arrivals_bound times since now_ms :
  (length (arrivals_within times since now_ms) <= length times)%nat.
Proof. apply length_filter. Qed.

(** A buffer of 100 arrivals never shows more than 100. *)
Lemma classify_buffer times since now_ms v :
  length times = 100%nat ->
  classify (Z.of_nat (length (arrivals_within times since now_ms))) v <> HighLoad.
Proof.
  intros Hl. apply classify_HighLoad. pose proof (arrivals_bound times since now_ms). lia.
Qed.

(** Adapting to anything but a high load respects the bounds. *)
Lemma adapt_to_pattern_ok prof self :
  length (au_arrival_times self) = 100%nat -> 0 <= au_arrival_idx self < 100 ->
  au_observed_pattern self <> HighLoad ->
  0 <= au_min_batch self <= au_max_batch self ->
  au_min_batch self + au_max_batch self < u64_bound ->
  exists self', adapt_to_pattern prof self = Some self' /\ auto_ok self' /\ same_limits self self'.
Proof.
  intros Hl Hi Hp Hb Hfit. unfold adapt_to_pattern. destruct self as [mn mx lat ts i la pat th lim].
  simpl in *. destruct pat; try done.
  - eexists. split; [done|]. by repeat split; simpl; try lia.
  - unfold u64_add. rewrite u64_arith_in by (split; lia). simpl. eexists. split; [done|].
    repeat split; simpl; try lia; try done; Z.to_euclidean_division_equations; lia.
  - eexists. split; [done|]. by repeat split; simpl; try lia.
Qed.

Lemma auto_set_pattern_same pat self : same_limits self (auto_set_pattern pat self).
Proof. by destruct self. Qed.

(** The sum of the intervals fits, so no input stops the policy. *)
Lemma interval_deviation_release l : is_Some (interval_deviation Release l).
Proof.
  unfold interval_deviation. destruct (1 <? length l)%nat; [|by eexists].
  assert (forall a, is_Some (foldlM (u64_add Release) a l)) as Hs.
  { intros a. apply foldlM_total. intros. unfold u64_add. rewrite u64_arith_release. by eexists. }
  destruct (Hs 0) as [t Ht]. unfold u64_sum. rewrite Ht. by eexists.
Qed.

Lemma update_pattern_ok prof self now_ms self' :
  auto_ok self -> 0 <= au_min_batch self ->
  au_min_batch self + au_max_batch self < u64_bound ->
  update_pattern prof self now_ms = Some self' -> auto_ok self' /\ same_limits self self'.
Proof.
  intros Hok Hmin Hfit. unfold update_pattern. intros (v & _ & Hup)%bind_Some.
  destruct Hok as (Hl & Hi & Hp & Hb). case_decide as Hch; [|by injection Hup as <-].
  set (pat := classify _ v) in *.
  assert (pat <> HighLoad) as Hpat.
  { by apply classify_buffer. }
  destruct (adapt_to_pattern_ok prof (auto_set_pattern pat self)) as (s & Hs & Hok & Hsame);
    [by destruct self; simpl in *; try lia..|].
  rewrite Hs in Hup. injection Hup as <-. split; [done|]. by destruct self.
Qed.

Lemma update_pattern_release self now_ms :
  auto_ok self -> 0 <= au_min_batch self ->
  au_min_batch self + au_max_batch self < u64_bound ->
  is_Some (update_pattern Release self now_ms).
Proof.
  intros (Hl & Hi & Hp & Hb) Hmin Hfit. unfold update_pattern.
  destruct (interval_deviation_release (intervals_of (arrivals_within (au_arrival_times self)
    (u64_saturating_sub now_ms 5000) now_ms))) as [v ->]. cbn [mbind option_bind].
  case_decide; [|by eexists].
  edestruct (adapt_to_pattern_ok Release) as (s & Hs & _); [..|rewrite Hs; by eexists];
    destruct self; simpl in *; try done; try lia.
  by apply classify_buffer.
Qed.

(** One arrival in a release build. *)
Lemma record_arrival_ok self t :
  auto_ok self -> 0 <= au_min_batch self ->
  au_min_batch self + au_max_batch self < u64_bound ->
  exists self', record_arrival Release self t = Some self' /\
    auto_ok self' /\ same_limits self self'.
Proof.
  intros Hok Hmin Hfit. pose proof Hok as (Hl & Hi & Hp & Hb). unfold record_arrival.
  rewrite option_guard_True by lia.
  unfold u64_add. rewrite u64_arith_in by (split; unfold u64_bound; lia). cbn [mbind option_bind].
  rewrite option_guard_True by (rewrite length_insert, Hl; lia).
  set (p := auto_set_arrivals _ _ _ self).
  assert (auto_ok p /\ same_limits self p) as [Hokp (E1 & E2 & E3)].
  { pose proof (Z.mod_pos_bound (au_arrival_idx self + 1) (Z.of_nat 100)).
    destruct self. simpl in *. repeat split; simpl; try done; rewrite ?length_insert, ?Hl; lia. }
  destruct (update_pattern_release p t) as [q Hq]; [done|lia..|].
  destruct (update_pattern_ok Release p t q) as [Hokq (F1 & F2 & F3)]; [done|lia..|done|].
  exists q. split; [done|]. split; [done|]. unfold same_limits. by rewrite F1, F2, F3.
Qed.

(** ** The properties *)

(** C39: Whatever was observed, the adaptive threshold never exceeds the maximum
    batch size and, where the bounds are in order, never falls below the
    minimum; so a queue at the maximum is always sealed. *)
Theorem adaptive_threshold_bounds self queue_len wait rate :
  compute_threshold self <= ad_max_count self /\
  (ad_min_count self <= ad_max_count self -> ad_min_count self <= compute_threshold self) /\
  (ad_max_count self <= queue_len -> 0 < queue_len ->
   should_seal self queue_len wait rate = true).
Proof.
  assert (compute_threshold self <= ad_max_count self) as Hmax
    by (unfold compute_threshold; apply Z.le_min_r).
  split; [done|]. split; [unfold compute_threshold; lia|]. intros Hq Hpos.
  cbn [should_seal AdaptivePolicy_engine]. unfold adaptive_should_seal.
  rewrite (proj2 (Z.eqb_neq queue_len 0)) by lia.
  by rewrite (proj2 (Z.leb_le (compute_threshold self) queue_len)) by lia.
Qed.

(** Under a steady latency the integer average moves monotonically towards
    it without overflow and within as many observations as the latency has
    milliseconds is at most 3 ms below it. *)
Theorem adaptive_average_converges prof self l :
  0 <= ad_observed_latency_ms self <= l -> 10 * l < u64_bound ->
  exists self', observe_n prof self l (Z.to_nat l) = Some self' /\
    Z.max (ad_observed_latency_ms self) (l - 3) <= ad_observed_latency_ms self' <= l.
Proof.
  intros Ho Hfit.
  assert (forall n, exists p, observe_n prof self l n = Some p /\
    ad_observed_latency_ms self <= ad_observed_latency_ms p <= l /\
    Z.min (l - 3) (ad_observed_latency_ms self + Z.of_nat n) <= ad_observed_latency_ms p)
    as Hn.
  { induction n as [|n (p & Hp & Hr & Hlo)]; [exists self; split; [done|]; lia|].
    rewrite observe_n_S, Hp. cbn [mbind option_bind].
    destruct (observe_latency_value prof p l) as (q & Hq & Hv & _); [lia..|].
    exists q. split; [done|]. rewrite Hv.
    pose proof (ema_between (ad_observed_latency_ms p) l).
    pose proof (ema_progress (ad_observed_latency_ms p) l). lia. }
  destruct (Hn (Z.to_nat l)) as (p & Hp & Hr & Hlo). exists p. split; [done|]. lia.
Qed.

(** C37: Every policy the factory makes, whatever its name and configuration,
    except the count-only one, seals a nonempty queue whose oldest
    transaction has waited for the configured time. *)
Theorem factory_seals_old_queue policy config queue_len wait rate :
  (forall p, create_policy policy config <> BoxFixedCount p) ->
  0 < queue_len -> time_threshold_ms config <= wait ->
  should_seal (create_policy policy config) queue_len wait rate = true.
Proof.
  intros Hnot Hq Hw. unfold create_policy in *.
  assert (hybrid_should_seal (HybridPolicy_new (count_threshold config)
    (time_threshold_ms config)) queue_len wait rate = true) as Hhy.
  { unfold hybrid_should_seal. simpl. rewrite (proj2 (Z.ltb_lt 0 queue_len)) by lia.
    rewrite (proj2 (Z.leb_le (time_threshold_ms config) wait)) by lia. apply orb_true_r. }
  repeat case_match; try (exfalso; by eapply Hnot); try exact Hhy.
  - simpl. unfold fixed_time_should_seal. simpl.
    by rewrite (proj2 (Z.ltb_lt 0 queue_len)), (proj2 (Z.leb_le (time_threshold_ms config) wait))
      by lia.
  - simpl. unfold adaptive_should_seal. simpl ad_time_threshold_ms.
    rewrite (proj2 (Z.eqb_neq queue_len 0)) by lia.
    rewrite (proj2 (Z.leb_le (time_threshold_ms config) wait)) by lia. by case_match.
Qed.

(** C38: The automatic policy never stops a release build and keeps its
    invariant through every arrival: its buffer index stays in range, its
    threshold between the two batch sizes, and, as its buffer holds only 100
    arrivals, it never reports the high-load pattern. *)
Theorem auto_arrivals_safe self times :
  auto_ok self -> 0 <= au_min_batch self ->
  au_min_batch self + au_max_batch self < u64_bound ->
  exists self', foldlM (record_arrival Release) self times = Some self' /\
    auto_ok self' /\ current_pattern self' <> HighLoad.
Proof.
  revert self. induction times as [|t times IH]; intros self Hok Hmin Hfit.
  { exists self. split; [done|]. split; [done|]. apply Hok. }
  destruct (record_arrival_ok self t Hok Hmin Hfit) as (q & Hq & Hokq & F1 & F2 & _).
  cbn [foldlM]. rewrite Hq. apply IH; [done|lia..].
Qed.
