(* ===== verification/Metrics.v ===== *)
(** * Metrics ([crates/common/src/metrics.rs], the metrics of [types.rs])

    Aggregation of the per-batch records the pipeline makes.  The integer sums
    panic or wrap with the build profile; everything else is [f64]. *)

From Stdlib Require Import ZArith Lia Bool String SpecFloat.
From stdpp Require Import base strings list sorting.
From S2P Require Import Prelude RustNum Float64.

Local Open Scope Z_scope.

Record BatchMetrics := mkBatchMetrics {
  bm_batch_id : string;
  bm_policy_name : string;
  bm_batch_size : Z;
  bm_total_compute_used : Z;
  bm_execution_time_ms : Z;
  bm_proving_time_ms : Z;
  bm_verification_time_ms : Z;
  bm_end_to_end_latency_ms : Z;
  bm_proof_size_bytes : Z;
  bm_throughput_tps : f64;
  bm_avg_tx_latency_ms : f64;
  bm_verification_passed : bool;
}.

Record SystemMetrics := mkSystemMetrics {
  sm_policy_name : string;
  sm_scenario_name : string;
  sm_total_transactions : Z;
  sm_total_batches : Z;
  sm_avg_batch_size : f64;
  sm_avg_latency_ms : f64;
  sm_p50_latency_ms : f64;
  sm_p95_latency_ms : f64;
  sm_p99_latency_ms : f64;
  sm_avg_throughput_tps : f64;
  sm_total_proof_size_bytes : Z;
  sm_avg_proof_size_bytes : f64;
  sm_verification_success_rate : f64;
  sm_total_compute_used : Z;
  sm_amortized_cost_per_tx : f64;
  sm_batch_efficiency : f64;
  sm_sla_violations : Z;
}.

Definition SystemMetrics_default : SystemMetrics := {|
  sm_policy_name := "";
  sm_scenario_name := "";
  sm_total_transactions := 0;
  sm_total_batches := 0;
  sm_avg_batch_size := f64_zero;
  sm_avg_latency_ms := f64_zero;
  sm_p50_latency_ms := f64_zero;
  sm_p95_latency_ms := f64_zero;
  sm_p99_latency_ms := f64_zero;
  sm_avg_throughput_tps := f64_zero;
  sm_total_proof_size_bytes := 0;
  sm_avg_proof_size_bytes := f64_zero;
  sm_verification_success_rate := f64_zero;
  sm_total_compute_used := 0;
  sm_amortized_cost_per_tx := f64_zero;
  sm_batch_efficiency := f64_zero;
  sm_sla_violations := 0;
|}.

(** The comparator of [sort_by] does not answer [Greater]; incomparable values
    count as equal. *)
Definition not_greater (a b : f64) : Prop := f64_lt b a = false.

#[export] Instance not_greater_dec : RelDecision not_greater.
Proof. intros a b. unfold not_greater. apply _. Defined.

Definition percentile (sorted : list f64) (p : f64) : f64 :=
  match sorted with
  | [] => f64_zero
  | _ =>
      let last := Z.of_nat (length sorted - 1) in
      let idx :=
        f64_as_u64 (f64_round (f64_mul (f64_div p (f64_of_Z 100)) (f64_of_Z last))) in
      nth (Z.to_nat (Z.min idx last)) sorted f64_zero
  end.

Section metrics.
Context (prof : profile).

Definition compute_batch_efficiency (metrics : list BatchMetrics) : option f64 :=
  match metrics with
  | [] => Some f64_zero
  | _ =>
      total_execution ← u64_sum prof (map bm_execution_time_ms metrics);
      overheads ← mapM (fun m => u64_add prof (bm_proving_time_ms m) (bm_verification_time_ms m))
        metrics;
      total_overhead ← u64_sum prof overheads;
      if total_overhead =? 0 then Some f64_one
      else
        total ← u64_add prof total_execution total_overhead;
        Some (f64_div (f64_of_Z total_execution) (f64_of_Z total))
  end.

Definition aggregate_metrics (batch_metrics : list BatchMetrics)
    (policy_name scenario_name : string) (sla_latency_ms : Z) : option SystemMetrics :=
  match batch_metrics with
  | [] => Some (let 'mkSystemMetrics _ _ a b c d e f g h i j k l m n o := SystemMetrics_default in
                mkSystemMetrics policy_name scenario_name a b c d e f g h i j k l m n o)
  | _ =>
      let total_batches := Z.of_nat (length batch_metrics) in
      let n := f64_of_Z total_batches in
      total_transactions ← u64_sum prof (map bm_batch_size batch_metrics);
      let latencies :=
        merge_sort not_greater
          (map (fun m => f64_of_Z (bm_end_to_end_latency_ms m)) batch_metrics) in
      let avg_latency_ms :=
        f64_div (f64_sum latencies) (f64_of_Z (Z.of_nat (length latencies))) in
      total_proof_size_bytes ← u64_sum prof (map bm_proof_size_bytes batch_metrics);
      let throughputs := map bm_throughput_tps batch_metrics in
      let successes := length (List.filter bm_verification_passed batch_metrics) in
      total_compute_used ← u64_sum prof (map bm_total_compute_used batch_metrics);
      let sla_violations :=
        length (List.filter (fun m => sla_latency_ms <? bm_end_to_end_latency_ms m)
          batch_metrics) in
      batch_efficiency ← compute_batch_efficiency batch_metrics;
      Some {|
        sm_policy_name := policy_name;
        sm_scenario_name := scenario_name;
        sm_total_transactions := total_transactions;
        sm_total_batches := total_batches;
        sm_avg_batch_size := f64_div (f64_of_Z total_transactions) n;
        sm_avg_latency_ms := avg_latency_ms;
        sm_p50_latency_ms := percentile latencies (f64_of_Z 50);
        sm_p95_latency_ms := percentile latencies (f64_of_Z 95);
        sm_p99_latency_ms := percentile latencies (f64_of_Z 99);
        sm_avg_throughput_tps :=
          f64_div (f64_sum throughputs) (f64_of_Z (Z.of_nat (length throughputs)));
        sm_total_proof_size_bytes := total_proof_size_bytes;
        sm_avg_proof_size_bytes := f64_div (f64_of_Z total_proof_size_bytes) n;
        sm_verification_success_rate := f64_div (f64_of_Z (Z.of_nat successes)) n;
        sm_total_compute_used := total_compute_used;
        sm_amortized_cost_per_tx :=
          if 0 <? total_transactions
          then f64_div (f64_of_Z total_proof_size_bytes) (f64_of_Z total_transactions)
          else f64_zero;
        sm_batch_efficiency := batch_efficiency;
        sm_sla_violations := Z.of_nat sla_violations |}
  end.

(** *** The accumulator *)

Record MetricsAggregator := mkMetricsAggregator { ma_batch_metrics : list BatchMetrics }.

Definition MetricsAggregator_new : MetricsAggregator := mkMetricsAggregator [].

Definition record_metrics (self : MetricsAggregator) (m : BatchMetrics) : MetricsAggregator :=
  mkMetricsAggregator (ma_batch_metrics self ++ [m]).

Definition batch_count (self : MetricsAggregator) : Z := Z.of_nat (length (ma_batch_metrics self)).

Definition transaction_count (self : MetricsAggregator) : option Z :=
  u64_sum prof (map bm_batch_size (ma_batch_metrics self)).

Definition finalize (self : MetricsAggregator) (policy_name scenario_name : string)
    (sla_latency_ms : Z) : option SystemMetrics :=
  aggregate_metrics (ma_batch_metrics self) policy_name scenario_name sla_latency_ms.

(** ** Facts *)

(** A percentile of recorded values is one of them: the index never leaves the
    list, whatever the percentage. *)
Lemma percentile_elem (l : list f64) (p : f64) : l <> [] -> percentile l p ∈ l.
Proof.
  intros Hl. destruct l as [|x l]; [done|]. unfold percentile. set (m := x :: l) in *.
  pose proof (f64_as_u64_range
    (f64_round (f64_mul (f64_div p (f64_of_Z 100)) (f64_of_Z (Z.of_nat (length m - 1)))))) as [Hr _].
  set (i := f64_as_u64 _) in *. apply list_elem_of_In, nth_In.
  unfold m in *. simpl length in *. lia.
Qed.

(** Every integer of a record fits its type and the sums do. *)
Definition sums_fit (ms : list BatchMetrics) : Prop :=
  Forall (fun m =>
    0 <= bm_batch_size m /\ 0 <= bm_proof_size_bytes m /\ 0 <= bm_total_compute_used m /\
    0 <= bm_execution_time_ms m /\ 0 <= bm_proving_time_ms m /\
    0 <= bm_verification_time_ms m) ms /\
  Zsum (map bm_batch_size ms) < u64_bound /\
  Zsum (map bm_proof_size_bytes ms) < u64_bound /\
  Zsum (map bm_total_compute_used ms) < u64_bound /\
  Zsum (map bm_execution_time_ms ms) +
    Zsum (map (fun m => bm_proving_time_ms m + bm_verification_time_ms m) ms) < u64_bound.

Lemma sum_of_fits (f : BatchMetrics -> Z) ms :
  Forall (fun m => 0 <= f m) ms -> Zsum (map f ms) < u64_bound ->
  u64_sum prof (map f ms) = Some (Zsum (map f ms)).
Proof. intros Hf. apply u64_sum_exact. by apply Forall_map. Qed.

(** An element of a list of nonnegative numbers is at most the sum. *)
Lemma elem_le_Zsum l x : Forall (fun y => 0 <= y) l -> x ∈ l -> x <= Zsum l.
Proof.
  intros Hl. induction Hl as [|y l Hy Hl IH]; [by intros ?%elem_of_nil|].
  rewrite Zsum_cons. pose proof (Zsum_nonneg l Hl). intros [->|Hx]%elem_of_cons; [lia|].
  specialize (IH Hx). lia.
Qed.

Lemma length_over_limit sla ms :
  length (List.filter (fun m => sla <? bm_end_to_end_latency_ms m) ms) =
  length (filter (fun m => sla < bm_end_to_end_latency_ms m) ms).
Proof.
  induction ms as [|m ms IH]; [done|]. cbn [List.filter]. rewrite filter_cons.
  destruct (sla <? bm_end_to_end_latency_ms m) eqn:E; zbool; case_decide; simpl; lia.
Qed.

Lemma overheads_exact ms :
  Forall (fun m => 0 <= bm_proving_time_ms m + bm_verification_time_ms m) ms ->
  Zsum (map (fun m => bm_proving_time_ms m + bm_verification_time_ms m) ms) < u64_bound ->
  mapM (fun m => u64_add prof (bm_proving_time_ms m) (bm_verification_time_ms m)) ms =
  Some (map (fun m => bm_proving_time_ms m + bm_verification_time_ms m) ms).
Proof.
  intros Hf Hs. apply mapM_Some. apply Forall2_fmap_r, Forall_Forall2_diag, Forall_forall.
  intros m Hm. unfold u64_add. apply u64_arith_in. split; [by eapply Forall_forall in Hf|].
  eapply Z.le_lt_trans; [|exact Hs]. apply elem_le_Zsum; [by apply Forall_map|].
  apply (list_elem_of_fmap_2 (fun m => bm_proving_time_ms m + bm_verification_time_ms m)), Hm.
Qed.

(** Whatever the report, its totals are those of the records. *)
Lemma aggregate_totals ms policy scenario sla r :
  Forall (fun m => 0 <= bm_batch_size m) ms -> Zsum (map bm_batch_size ms) < u64_bound ->
  aggregate_metrics ms policy scenario sla = Some r ->
  sm_policy_name r = policy /\ sm_scenario_name r = scenario /\
  sm_total_transactions r = Zsum (map bm_batch_size ms) /\
  sm_total_batches r = Z.of_nat (length ms).
Proof.
  intros Hf Hs. destruct ms as [|m0 ms0]; [by intros [= <-]|].
  unfold aggregate_metrics. set (ms := m0 :: ms0) in *.
  rewrite (sum_of_fits bm_batch_size ms Hf Hs). cbn [mbind option_bind].
  intros (? & _ & (? & _ & (? & _ & [= <-])%bind_Some)%bind_Some)%bind_Some. done.
Qed.

(** A release build always reports. *)
Lemma u64_sum_release l : is_Some (u64_sum Release l).
Proof.
  unfold u64_sum. generalize 0. induction l as [|x l IH]; intros a; [by eexists|].
  cbn [foldlM]. assert (u64_add Release a x = Some ((a + x) mod u64_bound)) as ->
    by apply u64_arith_release.
  apply IH.
Qed.

Lemma compute_batch_efficiency_total ms : sums_fit ms -> is_Some (compute_batch_efficiency ms).
Proof.
  intros (Hf & _ & _ & _ & Hs). destruct ms as [|m0 ms0]; [by eexists|].
  unfold compute_batch_efficiency. set (ms := m0 :: ms0) in *.
  assert (Forall (fun m => 0 <= bm_execution_time_ms m) ms) as He
    by (eapply Forall_impl; [exact Hf|]; simpl; lia).
  assert (Forall (fun m => 0 <= bm_proving_time_ms m + bm_verification_time_ms m) ms) as Ho
    by (eapply Forall_impl; [exact Hf|]; simpl; lia).
  pose proof (Zsum_nonneg _ (proj2 (Forall_map _ _ _) He)).
  pose proof (Zsum_nonneg _ (proj2 (Forall_map _ _ _) Ho)).
  rewrite sum_of_fits by (done || lia). rewrite overheads_exact by (done || lia).
  cbn [mbind option_bind]. rewrite sum_of_fits by (done || lia). cbn [mbind option_bind].
  case_match; [by eexists|]. unfold u64_add. rewrite u64_arith_in by (split; lia). by eexists.
Qed.

End metrics.

Lemma aggregate_release ms policy scenario sla :
  is_Some (aggregate_metrics Release ms policy scenario sla).
Proof.
  destruct ms as [|m0 ms0]; [by eexists|].
  unfold aggregate_metrics. set (ms := m0 :: ms0).
  repeat match goal with |- context [u64_sum Release ?l] =>
    let n := fresh "n" in destruct (u64_sum_release l) as [n ->]; cbn [mbind option_bind] end.
  assert (is_Some (compute_batch_efficiency Release ms)) as [f ->]; [|by eexists].
  unfold compute_batch_efficiency. subst ms. cbv beta iota.
  match goal with |- context [u64_sum Release ?l] =>
    destruct (u64_sum_release l) as [n' ->]; cbn [mbind option_bind] end.
  assert (is_Some (mapM (fun m => u64_add Release (bm_proving_time_ms m)
    (bm_verification_time_ms m)) (m0 :: ms0))) as [ov ->].
  { apply mapM_is_Some, Forall_true. intros m. eexists. apply u64_arith_release. }
  cbn [mbind option_bind]. destruct (u64_sum_release ov) as [n'' ->]. cbn [mbind option_bind].
  case_match; [by eexists|]. unfold u64_add. rewrite u64_arith_release. by eexists.
Qed.

(** ** The properties *)

(** C34: While the sums of the recorded integers fit in 64 bits, aggregation
    succeeds in every build and reports the number of batches, the exact sums,
    the number of batches over the latency limit, and percentiles that are
    latencies of recorded batches. *)
Theorem aggregate_reports prof ms policy scenario sla :
  ms <> [] -> sums_fit ms ->
  exists r, aggregate_metrics prof ms policy scenario sla = Some r /\
    sm_total_batches r = Z.of_nat (length ms) /\
    sm_total_transactions r = Zsum (map bm_batch_size ms) /\
    sm_total_proof_size_bytes r = Zsum (map bm_proof_size_bytes ms) /\
    sm_total_compute_used r = Zsum (map bm_total_compute_used ms) /\
    sm_sla_violations r =
      Z.of_nat (length (filter (fun m => sla < bm_end_to_end_latency_ms m) ms)) /\
    forall x, x ∈ [sm_p50_latency_ms r; sm_p95_latency_ms r; sm_p99_latency_ms r] ->
      exists m, m ∈ ms /\ x = f64_of_Z (bm_end_to_end_latency_ms m).
Proof.
  intros Hne Hfit. pose proof Hfit as (Hf & H1 & H2 & H3 & _).
  destruct (compute_batch_efficiency_total prof ms Hfit) as [eff Heff].
  unfold aggregate_metrics. destruct ms as [|m0 ms0]; [done|]. set (ms := m0 :: ms0) in *.
  rewrite !sum_of_fits by (done || (eapply Forall_impl; [exact Hf|]; simpl; lia)).
  cbn [mbind option_bind]. rewrite Heff. eexists. split; [reflexivity|].
  split; [done|]. split; [done|]. split; [done|]. split; [done|]. split.
  - exact (f_equal Z.of_nat (length_over_limit sla ms)).
  - cbn [sm_p50_latency_ms sm_p95_latency_ms sm_p99_latency_ms]. intros x Hx. set (ls := merge_sort _ _) in Hx.
    assert (x ∈ ls) as Hin.
    { assert (ls <> []) as Hl.
      { intros Hnil. pose proof (merge_sort_Permutation not_greater
          (map (fun m => f64_of_Z (bm_end_to_end_latency_ms m)) ms)) as Hperm.
        fold ls in Hperm. rewrite Hnil in Hperm. by apply Permutation_nil_cons in Hperm. }
      repeat (apply elem_of_cons in Hx as [->|Hx]; [by apply percentile_elem|]).
      by apply elem_of_nil in Hx. }
    unfold ls in Hin. rewrite merge_sort_Permutation in Hin.
    apply list_elem_of_fmap_1 in Hin as (m & -> & Hm). by exists m.
Qed.
