(* ===== verification/Ingress.v ===== *)
(** * Ingress ([crates/ingress/src/lib.rs])

    Validation of transactions and the seeded workload generator.  The random
    generator is the [rand] crate's: the class [RngLib] has the four sampling
    calls, [RngLaws] that a sample is a value of its type, in the range asked
    for.  Every call threads the generator's state. *)

From Stdlib Require Import ZArith Lia Ascii String Bool Strings.Byte SpecFloat.
From stdpp Require Import base strings list list_numbers sorting.
From S2P Require Import Prelude RustNum RustFmt Float64 Types Isa.

Local Open Scope Z_scope.

(** ** Validation *)

Definition MAX_COMPUTE_BUDGET : Z := 1400000.

Definition validate (tx : Transaction) : result IngressError unit :=
  if String.eqb (sender tx) "" then Err (InvalidSender "empty sender")
  else if String.eqb (program_id tx) "" then Err (InvalidProgram "empty program_id")
  else match instruction_data tx with
       | [] => Err EmptyInstruction
       | _ =>
           if MAX_COMPUTE_BUDGET <? estimated_cu tx then
             Err (IngressComputeBudgetExceeded (estimated_cu tx) MAX_COMPUTE_BUDGET)
           else Ok tt
       end.

(** ** Scenarios *)

Inductive Scenario := Steady | Bursty | Poisson | MixedPriority | IdleThenSpike.

#[export] Instance Scenario_eq_dec : EqDecision Scenario.
Proof. solve_decision. Defined.

Definition Scenario_name (s : Scenario) : string :=
  match s with
  | Steady => "steady"
  | Bursty => "bursty"
  | Poisson => "poisson"
  | MixedPriority => "mixed_priority"
  | IdleThenSpike => "idle_then_spike"
  end.

Definition Scenario_all : list Scenario := [Steady; Bursty; Poisson; MixedPriority; IdleThenSpike].

Definition Scenario_from_str (s : string) : result string Scenario :=
  let l := to_lowercase s in
  if one_of l ["steady"] then Ok Steady
  else if one_of l ["bursty"] then Ok Bursty
  else if one_of l ["poisson"] then Ok Poisson
  else if one_of l ["mixed_priority"; "mixedpriority"] then Ok MixedPriority
  else if one_of l ["idle_then_spike"; "idlethenspike"] then Ok IdleThenSpike
  else Err ("unknown scenario: " +:+ s).

(** ** The random generator *)

(** The integer types sampled from. *)
Inductive int_ty := TyI32 | TyU8 | TyU64.

Class RngLib := {
  Rng : Type;                                       (* [StdRng] *)
  ExpDist : Type;                                   (* [rand_distr::Exp<f64>] *)
  seed_from_u64 : Z -> Rng;
  gen_range : int_ty -> Rng -> Z -> Z -> Z * Rng;   (* [gen_range(lo..hi)] *)
  gen_bool : Rng -> f64 -> bool * Rng;
  gen_u64 : Rng -> Z * Rng;                         (* [gen::<u64>()] *)
  Exp_new : f64 -> option ExpDist;
  sample_exp : Rng -> ExpDist -> f64 * Rng;
}.

Class RngLaws `{RngLib} : Prop := {
  gen_range_in ty r lo hi : lo < hi -> lo <= (gen_range ty r lo hi).1 < hi;
  gen_u64_in r : is_u64 (gen_u64 r).1;
  sample_exp_valid r d : valid_binary 53 1024 (sample_exp r d).1 = true;
  Exp_new_default : is_Some (Exp_new (f64_lit 1 100));
}.

(** [x as i64] and the arithmetic on [i64]. *)
Definition i64_bound : Z := 2 ^ 63.
Definition i64_of_u64 (z : Z) : Z := if z <? i64_bound then z else z - u64_bound.

Definition i64_add (p : profile) (x y : Z) : option Z :=
  if decide (- i64_bound <= x + y < i64_bound) then Some (x + y)
  else match p with
       | Debug => None
       | Release => Some (i64_of_u64 ((x + y) mod u64_bound))
       end.

(** ** The workload generator *)

Section generator.
Context `{RngLib} (prof : profile).

Record WorkloadGenerator := mkWorkloadGenerator {
  rng : Rng;
  scenario : Scenario;
  tx_count : Z;
  base_interval_ms : Z;
  current_time_ms : Z;
  generated : Z;
}.

Definition WorkloadGenerator_new (sc : Scenario) (count seed interval : Z) : WorkloadGenerator := {|
  rng := seed_from_u64 seed;
  scenario := sc;
  tx_count := count;
  base_interval_ms := interval;
  current_time_ms := 0;
  generated := 0;
|}.

(** The delay before the next arrival and its priority. *)
Definition compute_arrival (self : WorkloadGenerator) (r : Rng)
    : option (Z * TransactionPriority * Rng) :=
  match scenario self with
  | Steady =>
      let '(roll, r) := gen_range TyI32 r 0 10 in
      let jitter := roll - 5 in
      sum ← i64_add prof (i64_of_u64 (base_interval_ms self)) jitter;
      let delta := Z.max sum 1 in
      Some (delta, Normal, r)
  | Bursty =>
      let '(is_burst, r) := gen_bool r (f64_lit 2 10) in
      let '(delta, r) :=
        if is_burst then gen_range TyU64 r 1 5 else gen_range TyU64 r 50 200 in
      Some (delta, Normal, r)
  | Poisson =>
      let lambda := f64_div f64_one (f64_of_Z (base_interval_ms self)) in
      exp ← (match Exp_new lambda with
             | Some exp => Some exp
             | None => Exp_new (f64_lit 1 100)
             end);
      let '(x, r) := sample_exp r exp in
      let delta := f64_as_u64 (f64_max x f64_one) in
      Some (delta, Normal, r)
  | MixedPriority =>
      let '(delta, r) := gen_range TyU64 r 5 50 in
      let '(roll, r) := gen_range TyI32 r 0 100 in
      let priority :=
        if (0 <=? roll) && (roll <=? 5) then Critical
        else if (6 <=? roll) && (roll <=? 20) then High
        else if (21 <=? roll) && (roll <=? 70) then Normal
        else Low in
      Some (delta, priority, r)
  | IdleThenSpike =>
      let progress := f64_div (f64_of_Z (generated self)) (f64_of_Z (tx_count self)) in
      if f64_lt progress (f64_lit 3 10) then
        let '(delta, r) := gen_range TyU64 r 100 500 in Some (delta, Low, r)
      else if f64_lt progress (f64_lit 7 10) then
        let '(delta, r) := gen_range TyU64 r 1 5 in Some (delta, High, r)
      else
        let '(delta, r) := gen_range TyU64 r 20 100 in Some (delta, Normal, r)
  end.

Definition generate_instruction (r : Rng) : list byte * Rng :=
  let '(opcode, r) := gen_range TyU8 r 0 5 in
  let data := [u8_of_Z opcode] in
  if opcode =? 0 then
    let '(amount, r) := gen_range TyU64 r 1 1000 in
    let '(target, r) := gen_range TyU64 r 0 100 in
    (data ++ u64_to_le_bytes amount ++ u64_to_le_bytes target, r)
  else if opcode =? 1 then
    let '(key, r) := gen_range TyU64 r 0 50 in
    let '(value, r) := gen_u64 r in
    (data ++ u64_to_le_bytes key ++ u64_to_le_bytes value, r)
  else if opcode =? 2 then
    let '(key, r) := gen_range TyU64 r 0 50 in
    let '(delta, r) := gen_range TyU64 r 1 100 in
    (data ++ u64_to_le_bytes key ++ u64_to_le_bytes delta, r)
  else if opcode =? 3 then (data, r)
  else (data ++ replicate 8 xff, r).

(** The range of [estimated_cu] for a priority. *)
Definition cu_range (p : TransactionPriority) : Z * Z :=
  match p with
  | Critical => (100000, 200000)
  | High => (50000, 150000)
  | Normal => (10000, 100000)
  | Low => (5000, 50000)
  end.

(** [next]: the transaction, if one is left, and the generator after it. *)
Definition next (self : WorkloadGenerator) : option (option Transaction * WorkloadGenerator) :=
  if tx_count self <=? generated self then Some (None, self)
  else
    '(delta_ms, prio, r) ← compute_arrival self (rng self);
    now ← u64_add prof (current_time_ms self) delta_ms;
    let id := mkTransactionId ("tx_" +:+ fmt_pad 6 (generated self)) in
    let '(sender_idx, r) := gen_range TyI32 r 0 100 in
    let snd := "sender_" +:+ fmt_u64 sender_idx in
    let '(program_idx, r) := gen_range TyI32 r 0 5 in
    let prog := "program_" +:+ fmt_u64 program_idx in
    let '(cu, r) := let '(lo, hi) := cu_range prio in gen_range TyU64 r lo hi in
    let '(data, r) := generate_instruction r in
    count ← u64_add prof (generated self) 1;
    let tx := Transaction_new id snd prog in
    let tx := tx_set_arrival_ts now tx in
    let tx := tx_set_instruction_data data tx in
    let tx := tx_set_estimated_cu cu tx in
    let tx := tx_set_priority prio tx in
    Some (Some tx, {|
      rng := r;
      scenario := scenario self;
      tx_count := tx_count self;
      base_interval_ms := base_interval_ms self;
      current_time_ms := now;
      generated := count |}).

Definition remaining (self : WorkloadGenerator) : Z :=
  u64_saturating_sub (tx_count self) (generated self).

(** Draining the iterator, as [collect] and [for] do: until [next] is [None].
    [fuel] bounds the number of calls. *)
Fixpoint collect (fuel : nat) (self : WorkloadGenerator) : option (list Transaction) :=
  match fuel with
  | O => None
  | S fuel =>
      '(tx, self) ← next self;
      match tx with
      | None => Some []
      | Some tx => cons tx <$> collect fuel self
      end
  end.
End generator.

(** ** Facts *)

Lemma validate_ok tx :
  validate tx = Ok tt <->
  sender tx <> "" /\ program_id tx <> "" /\ instruction_data tx <> [] /\
  estimated_cu tx <= MAX_COMPUTE_BUDGET.
Proof.
  unfold validate. destruct (String.eqb_spec (sender tx) ""); [naive_solver|].
  destruct (String.eqb_spec (program_id tx) ""); [naive_solver|].
  destruct (instruction_data tx); [naive_solver|].
  destruct (MAX_COMPUTE_BUDGET <? estimated_cu tx) eqn:E; zbool; split; try done.
  intros (_ & _ & _ & Hle). lia.
Qed.

Section facts.
Context `{RngLaws} (prof : profile).

Lemma gen_range_bounds ty r lo hi x r' :
  gen_range ty r lo hi = (x, r') -> lo < hi -> lo <= x < hi.
Proof. intros Heq Hlt. pose proof (gen_range_in ty r lo hi Hlt). by rewrite Heq in *. Qed.

(** Name the samples of a run and their ranges. *)
Local Ltac samples :=
  repeat match goal with
  | H : context [let '(_, _) := gen_range ?ty ?r ?lo ?hi in _] |- _ =>
      let x := fresh "x" in let r' := fresh "r" in let E := fresh "E" in
      destruct (gen_range ty r lo hi) as [x r'] eqn:E; apply gen_range_bounds in E; [|lia]
  | H : context [let '(_, _) := gen_u64 ?r in _] |- _ =>
      let v := fresh "v" in let r' := fresh "r" in let E := fresh "E" in
      pose proof (gen_u64_in r) as E; destruct (gen_u64 r) as [v r']; cbn [fst] in E
  end.

(** Time moves by at least a millisecond before every arrival. *)
Lemma compute_arrival_delta self r delta prio r' :
  compute_arrival prof self r = Some (delta, prio, r') -> 1 <= delta.
Proof.
  unfold compute_arrival. destruct (scenario self).
  - destruct (gen_range _ _ _ _) as [x r1]. intros (s & _ & [= <- _ _])%bind_Some. lia.
  - destruct (gen_bool _ _) as [[] r1]; intros Hc; samples; injection Hc as <- _ _; lia.
  - intros (d & _ & Hs)%bind_Some. pose proof (sample_exp_valid r d) as Hv.
    destruct (sample_exp r d) as [x r1]. injection Hs as <- _ _. by apply f64_max_one.
  - intros Hc. samples. injection Hc as <- _ _. lia.
  - destruct (f64_lt _ _); [|destruct (f64_lt _ _)]; intros Hc; samples;
      injection Hc as <- _ _; lia.
Qed.

(** The instructions it makes: the four valid ones with operands in range, and
    the invalid opcode 4. *)
Definition generated_instr (i : instr) : Prop :=
  match i with
  | ITransfer amount target => 1 <= amount < 1000 /\ 0 <= target < 100
  | ISetData key value => 0 <= key < 50 /\ is_u64 value
  | IIncrement key delta => 0 <= key < 50 /\ 1 <= delta < 100
  | INoop => True
  | IInvalid op => op = 4
  | IShort _ | IEmpty => False
  end.

Lemma small_u64 z : 0 <= z < 1000 -> is_u64 z.
Proof. unfold is_u64, u64_bound. lia. Qed.

Lemma generate_instruction_decode r data r' :
  generate_instruction r = (data, r') -> data <> [] /\ generated_instr (decode data).
Proof.
  unfold generate_instruction. intros Hg. samples.
  assert (x = 0 \/ x = 1 \/ x = 2 \/ x = 3 \/ x = 4) as Hx by lia.
  destruct Hx as [->|[->|[->|[->| ->]]]]; cbn [Z.eqb Pos.eqb] in Hg; samples;
    injection Hg as <- _; (split; [done|]).
  - match goal with Ha : 1 <= ?a < 1000, Hb : 0 <= ?b < 100 |- _ =>
      change (generated_instr (decode (encode (ITransfer a b)))) end.
    rewrite decode_encode by (split; apply small_u64; lia). done.
  - match goal with Ha : 0 <= ?a < 50, Hb : is_u64 ?b |- _ =>
      change (generated_instr (decode (encode (ISetData a b)))) end.
    rewrite decode_encode by (split; [apply small_u64; lia|done]). done.
  - match goal with Ha : 0 <= ?a < 50, Hb : 1 <= ?b < 100 |- _ =>
      change (generated_instr (decode (encode (IIncrement a b)))) end.
    rewrite decode_encode by (split; apply small_u64; lia). done.
  - done.
  - done.
Qed.

(** One call of [next]. *)
Record next_facts (self : WorkloadGenerator) (tx : Transaction) (self' : WorkloadGenerator)
    : Prop := {
  nf_left : generated self < tx_count self;
  nf_id : tx_id tx = mkTransactionId ("tx_" +:+ fmt_pad 6 (generated self));
  nf_valid : validate tx = Ok tt;
  nf_instr : generated_instr (decode (instruction_data tx));
  nf_count : tx_count self' = tx_count self;
  nf_generated : u64_add prof (generated self) 1 = Some (generated self');
  nf_time : exists delta, 1 <= delta /\
    u64_add prof (current_time_ms self) delta = Some (current_time_ms self') /\
    arrival_ts tx = current_time_ms self';
}.

Lemma next_inv self tx self' : next prof self = Some (Some tx, self') -> next_facts self tx self'.
Proof.
  unfold next. destruct (tx_count self <=? generated self) eqn:Hleft; [done|]. zbool.
  intros ([[delta prio] r] & Harr & (now & Hnow & Hnext)%bind_Some)%bind_Some.
  apply compute_arrival_delta in Harr.
  destruct (gen_range TyI32 r 0 100) as [si r1]. destruct (gen_range TyI32 r1 0 5) as [pi r2].
  assert (exists cu r3, (let '(lo, hi) := cu_range prio in gen_range TyU64 r2 lo hi) = (cu, r3) /\
    cu < MAX_COMPUTE_BUDGET) as (cu & r3 & Hcu & Hmax).
  { destruct prio; cbn [cu_range];
      match goal with |- context [gen_range ?t ?r ?a ?b] =>
        destruct (gen_range t r a b) as [cu r3] eqn:E; apply gen_range_bounds in E; [|lia] end;
      exists cu, r3; unfold MAX_COMPUTE_BUDGET; split; (done || lia). }
  rewrite Hcu in Hnext. destruct (generate_instruction r3) as [data r4] eqn:Hdata.
  apply generate_instruction_decode in Hdata as [Hne Hins].
  apply bind_Some in Hnext as (count & Hcount & [= <- <-]).
  split; simpl; try done.
  - apply validate_ok. simpl. split; [done|]. split; [done|]. split; [done|]. lia.
  - by exists delta.
Qed.

Definition generated_id (i : Z) : TransactionId := mkTransactionId ("tx_" +:+ fmt_pad 6 i).

Lemma generated_id_inj i j : 0 <= i -> 0 <= j -> generated_id i = generated_id j -> i = j.
Proof. intros Hi Hj [= Heq%append_inj_r]. by eapply fmt_pad_inj. Qed.

(** A successor within the count does not wrap. *)
Lemma u64_add_count n m x :
  0 <= n < m -> m < u64_bound -> u64_add prof n 1 = Some x -> x = n + 1.
Proof. intros ??. unfold u64_add. rewrite u64_arith_in by (split; lia). congruence. Qed.

(** Ids, validity and instructions of everything still to come. *)
Lemma collect_output fuel self txs :
  0 <= generated self <= tx_count self -> tx_count self < u64_bound ->
  collect prof fuel self = Some txs ->
  map tx_id txs = map generated_id (seqZ (generated self) (tx_count self - generated self)) /\
  Forall (fun tx => validate tx = Ok tt /\ generated_instr (decode (instruction_data tx))) txs.
Proof.
  revert self txs. induction fuel as [|fuel IH]; intros self txs Hg Hc; [done|].
  cbn [collect]. intros ([[tx|] self'] & Hn & Hrest)%bind_Some.
  - apply next_inv in Hn as [Hleft Hid Hval Hins Hcount Hgen _].
    apply fmap_Some in Hrest as (txs' & Hrest & ->).
    apply u64_add_count with (m := tx_count self) in Hgen; [|lia..].
    apply IH in Hrest as [Hids Hall]; [|lia..]. rewrite Hcount, Hgen in Hids.
    rewrite seqZ_cons by lia. split; [|by constructor].
    cbn [map]. rewrite Hid, Hids. do 3 f_equal; lia.
  - injection Hrest as <-. unfold next in Hn.
    destruct (tx_count self <=? generated self) eqn:Hleft; zbool.
    + by replace (tx_count self - generated self) with 0 by lia.
    + apply bind_Some in Hn as ([[delta prio] r] & _ & (now & _ & Hn)%bind_Some).
      repeat case_match. apply bind_Some in Hn as (c & _ & Hn). discriminate Hn.
Qed.
End facts.

Section arrivals.
Context `{RngLaws}.

(** Arrival times, while the clock of the generator does not overflow. *)
Lemma collect_arrivals fuel self txs :
  collect Debug fuel self = Some txs ->
  StronglySorted Z.lt (map arrival_ts txs) /\
  Forall (fun t => current_time_ms self < t < u64_bound) (map arrival_ts txs).
Proof.
  revert self txs. induction fuel as [|fuel IH]; intros self txs; [done|].
  cbn [collect]. intros ([[tx|] self'] & Hn & Hrest)%bind_Some;
    [|injection Hrest as <-; split; constructor].
  apply next_inv in Hn as [_ _ _ _ _ _ (delta & Hd & Hadd & Ht)].
  apply u64_arith_debug in Hadd as [[_ Hlt] Hnow].
  apply fmap_Some in Hrest as (txs' & Hrest & ->). apply IH in Hrest as [Hs Hall].
  cbn [map]. rewrite Ht. split.
  - constructor; [done|]. eapply Forall_impl; [exact Hall|]. simpl. lia.
  - constructor; [lia|]. eapply Forall_impl; [exact Hall|]. simpl. lia.
Qed.

(** A release build always gets an answer from the generator. *)
Lemma compute_arrival_release self r : is_Some (compute_arrival Release self r).
Proof.
  unfold compute_arrival. destruct (scenario self).
  - destruct (gen_range _ _ _ _) as [x r1]. unfold i64_add. case_decide; by eexists.
  - destruct (gen_bool _ _) as [[] r1]; destruct (gen_range _ _ _ _); by eexists.
  - destruct Exp_new_default as [d Hd]. destruct (Exp_new (f64_div _ _)) as [e|];
      rewrite ?Hd; cbn [mbind option_bind]; destruct (sample_exp _ _); by eexists.
  - destruct (gen_range _ _ _ _) as [x r1]. destruct (gen_range _ r1 _ _). by eexists.
  - destruct (f64_lt _ _); [|destruct (f64_lt _ _)]; destruct (gen_range _ _ _ _); by eexists.
Qed.

Lemma next_release self : is_Some (next Release self).
Proof.
  unfold next. case_match; [by eexists|].
  destruct (compute_arrival_release self (rng self)) as [[[delta prio] r] ->].
  cbn [mbind option_bind]. unfold u64_add. rewrite u64_arith_release. cbn [mbind option_bind].
  destruct (gen_range TyI32 r 0 100) as [si r1]. destruct (gen_range TyI32 r1 0 5) as [pi r2].
  destruct (let '(lo, hi) := cu_range prio in gen_range TyU64 r2 lo hi) as [cu r3].
  destruct (generate_instruction r3) as [data r4]. rewrite u64_arith_release. by eexists.
Qed.
End arrivals.

(** ** The properties *)

(** C35: A seeded workload of any scenario is a list of as many transactions as
    asked for, under distinct ids in order, each of which passes validation
    and carries an instruction of the five kinds the generator makes. *)
Theorem workload_valid `{RngLaws} prof sc count seed interval fuel txs :
  is_u64 count ->
  collect prof fuel (WorkloadGenerator_new sc count seed interval) = Some txs ->
  Z.of_nat (length txs) = count /\ NoDup (map tx_id txs) /\
  map tx_id txs = map generated_id (seqZ 0 count) /\
  Forall (fun tx => validate tx = Ok tt /\ generated_instr (decode (instruction_data tx))) txs.
Proof.
  intros [Hc0 Hc1] Hcol. apply collect_output in Hcol as [Hids Hall]; [|simpl; lia..].
  simpl in Hids. rewrite Z.sub_0_r in Hids. split_and!; [| |done..].
  - pose proof (f_equal length Hids) as Hl. rewrite !length_map, length_seqZ in Hl. lia.
  - rewrite Hids. apply NoDup_fmap_2_strong; [|apply NoDup_seqZ].
    intros i j Hi%elem_of_seqZ Hj%elem_of_seqZ. apply generated_id_inj; lia.
Qed.

(** Draining the generator terminates: in a release build one more call
    than there are transactions ends the iteration, for every scenario, seed
    and interval. *)
Theorem workload_terminates `{RngLaws} sc count seed interval :
  is_u64 count ->
  exists txs, collect Release (S (Z.to_nat count)) (WorkloadGenerator_new sc count seed interval)
    = Some txs.
Proof.
  intros Hc.
  assert (forall n self, 0 <= generated self -> tx_count self < u64_bound ->
    tx_count self <= generated self + Z.of_nat n ->
    is_Some (collect Release (S n) self)) as Hrun.
  { induction n as [|n IH]; intros self Hg Hb Hn; cbn [collect].
    - unfold next. rewrite (proj2 (Z.leb_le (tx_count self) (generated self))) by lia. by eexists.
    - destruct (next_release self) as [[[tx|] self'] Hnext]; rewrite Hnext; cbn [mbind option_bind];
        [|by eexists].
      apply next_inv in Hnext as [Hleft _ _ _ Hcount Hgen _].
      apply u64_add_count with (m := tx_count self) in Hgen; [|lia..].
      destruct (IH self') as [txs Htxs]; [lia..|]. cbn [collect] in Htxs. rewrite Htxs.
      by eexists. }
  apply Hrun; simpl; destruct Hc; lia.
Qed.

(** While the generator's clock does not overflow, arrival times strictly
    increase. *)
Theorem workload_arrivals_increase `{RngLaws} fuel sc count seed interval txs :
  collect Debug fuel (WorkloadGenerator_new sc count seed interval) = Some txs ->
  StronglySorted Z.lt (map arrival_ts txs) /\
  Forall (fun tx => 1 <= arrival_ts tx < u64_bound) txs.
Proof.
  intros Hcol%collect_arrivals. destruct Hcol as [Hs Hall]. split; [done|].
  apply Forall_map in Hall. eapply Forall_impl; [exact Hall|]. simpl. lia.
Qed.
