(* ===== verification/Engine.v ===== *)
(** * The pipeline engine ([crates/benchmark-cli/src/engine.rs])

    [PipelineEngine] takes transactions, asks the policy when to seal, and runs
    each batch through execution, proving and verification.  It is generic in
    the prover and the verifier: here, in any instances of the classes [Prover]
    and [Verifier].  What it needs of them is the class [ProofSystem], which
    the SP1 pair implements.  The clock the engine borrows is part of its state,
    as every call that moves it goes through the engine.  A method returns its
    [Result] with the engine as the method leaves it, also on an error; [None]
    is a panic. *)

From Stdlib Require Import ZArith Lia Ascii String Bool Strings.Byte.
From stdpp Require Import base gmap strings list.
From S2P Require Import Prelude RustNum RustFmt Float64 Merkle Types TraceBuilder Isa Executor.
From S2P Require Import ExecutorFacts TraceFacts Guest Sp1 Agreement Soundness Policy Metrics.

Local Open Scope Z_scope.

(** ** The interface of a proof system *)

(** A proof made for a trace passes verification against that trace, under the
    trace's batch id. *)
Class ProofSystem (P V C : Type) `{Prover P C, Verifier V C} : Prop := {
  proofs_verify prover verifier t txs (clk clk1 clk2 : C) pf :
    prove prover t txs clk = (Ok pf, clk1) ->
    exists r clk3, verify verifier pf t clk2 = Some (Ok r, clk3) /\ vr_is_valid r = true;
}.

#[export] Instance Sp1_ProofSystem `{Sp1Laws} `{Clock C} : ProofSystem Sp1Prover Sp1Verifier C.
Proof.
  split. intros prover verifier t txs clk clk1 clk2 pf Hp.
  destruct (prove_verify_lemma prover verifier t txs clk clk1 clk2 pf Hp) as (r & clk3 & Hv & Hr & _).
  by exists r, clk3.
Qed.

(** ** The engine *)

Record PipelineConfig := mkPipelineConfig {
  batch_interval_ms : Z;
  sla_latency_ms : Z;
}.

Section engine.
Context `{HashLib} (prof : profile) {P V C : Type} `{Clock C, Prover P C, Verifier V C}.

Record PipelineEngine := mkPipelineEngine {
  policy : BoxPolicy;
  executor : FullExecutor;
  prover : P;
  verifier : V;
  clock : C;
  config : PipelineConfig;
  queue : list Transaction;
  priority_lane : list Transaction;
  batch_counter : Z;
  oldest_arrival : Z;
  last_seal_time : Z;
  metrics : MetricsAggregator;
}.

Definition PipelineEngine_new (pol : BoxPolicy) (ex : FullExecutor) (pr : P) (ve : V) (clk : C)
    (cfg : PipelineConfig) : PipelineEngine := {|
  policy := pol;
  executor := ex;
  prover := pr;
  verifier := ve;
  clock := clk;
  config := cfg;
  queue := [];
  priority_lane := [];
  batch_counter := 0;
  oldest_arrival := 0;
  last_seal_time := 0;
  metrics := MetricsAggregator_new;
|}.

(** Assignments to the mutable fields. *)
Definition set_clock (self : PipelineEngine) (clk : C) : PipelineEngine :=
  let 'mkPipelineEngine po ex pr ve _ cf q l n o s m := self in
  mkPipelineEngine po ex pr ve clk cf q l n o s m.
Definition set_queues (self : PipelineEngine) (q l : list Transaction) : PipelineEngine :=
  let 'mkPipelineEngine po ex pr ve ck cf _ _ n o s m := self in
  mkPipelineEngine po ex pr ve ck cf q l n o s m.
Definition set_batch_counter (self : PipelineEngine) (n : Z) : PipelineEngine :=
  let 'mkPipelineEngine po ex pr ve ck cf q l _ o s m := self in
  mkPipelineEngine po ex pr ve ck cf q l n o s m.
Definition set_oldest_arrival (self : PipelineEngine) (o : Z) : PipelineEngine :=
  let 'mkPipelineEngine po ex pr ve ck cf q l n _ s m := self in
  mkPipelineEngine po ex pr ve ck cf q l n o s m.
Definition set_recorded (self : PipelineEngine) (m : MetricsAggregator) (s : Z)
    : PipelineEngine :=
  let 'mkPipelineEngine po ex pr ve ck cf q l n o _ _ := self in
  mkPipelineEngine po ex pr ve ck cf q l n o s m.

(** [Result<(), ExecError>] with the engine after the call. *)
Definition outcome : Type := result ExecError unit * PipelineEngine.

(** The sealed batch. *)
Definition sealed_batch (batch_id : string) (now : Z) (transactions : list Transaction) : Batch :=
  let 'mkBatch id _ ts _ _ h th ph st cu := Batch_new batch_id now in
  mkBatch id (map tx_id transactions) ts now Adaptive h th ph st cu.

(** [batch_size as f64 / (ms as f64 / 1000.0)], guarded against 0. *)
Definition throughput_of (batch_size end_to_end : Z) : f64 :=
  if 0 <? end_to_end
  then f64_div (f64_of_Z batch_size) (f64_div (f64_of_Z end_to_end) (f64_of_Z 1000))
  else f64_mul (f64_of_Z batch_size) (f64_of_Z 1000).

(** The front of the queue, or else of the lane, restarts [oldest_arrival]. *)
Definition reset_oldest (self : PipelineEngine) : PipelineEngine :=
  match head (queue self) with
  | Some tx => set_oldest_arrival self (arrival_ts tx)
  | None => match head (priority_lane self) with
            | Some tx => set_oldest_arrival self (arrival_ts tx)
            | None => self
            end
  end.

Definition seal_and_process (self : PipelineEngine) : option outcome :=
  let now := now_ms (clock self) in
  let transactions := priority_lane self ++ queue self in
  let self := set_queues self [] [] in
  match transactions with
  | [] => Some (Ok tt, self)
  | _ =>
      counter ← u64_add prof (batch_counter self) 1;
      let self := set_batch_counter self counter in
      let batch_id := "batch_" +:+ fmt_pad 6 counter in
      let batch_size := Z.of_nat (length transactions) in
      let batch_start := now in
      let batch := sealed_batch batch_id batch_start transactions in
      executed ← execute_with_transactions prof (executor self) batch transactions;
      match executed with
      | Err e => Some (Err e, self)
      | Ok trace =>
          let exec_time := et_total_compute trace / 1000 in
          let '(proved, clk) := prove (prover self) trace transactions (clock self) in
          let self := set_clock self clk in
          match proved with
          | Err e => Some (Err (BatchFailed ("prove failed: " +:+ ProveError_display e)), self)
          | Ok proof =>
              '(verified, clk) ← verify (verifier self) proof trace (clock self);
              let self := set_clock self clk in
              match verified with
              | Err e => Some (Err (BatchFailed ("verify failed: " +:+ VerifyError_display e)), self)
              | Ok verification =>
                  let batch_end := now_ms (clock self) in
                  let end_to_end := u64_saturating_sub batch_end batch_start in
                  let batch_metrics := {|
                    bm_batch_id := batch_id;
                    bm_policy_name := name (policy self);
                    bm_batch_size := batch_size;
                    bm_total_compute_used := et_total_compute trace;
                    bm_execution_time_ms := exec_time;
                    bm_proving_time_ms := pf_proving_time_ms proof;
                    bm_verification_time_ms := vr_verification_time_ms verification;
                    bm_end_to_end_latency_ms := end_to_end;
                    bm_proof_size_bytes := pf_proof_size_bytes proof;
                    bm_throughput_tps := throughput_of batch_size end_to_end;
                    bm_avg_tx_latency_ms :=
                      f64_div (f64_of_Z end_to_end) (f64_of_Z batch_size);
                    bm_verification_passed := vr_is_valid verification |} in
                  let self :=
                    set_recorded self (record_metrics (metrics self) batch_metrics) batch_end in
                  Some (Ok tt, reset_oldest self)
              end
          end
      end
  end.

Definition try_seal (self : PipelineEngine) : option outcome :=
  total_queue_len ← u64_add prof (Z.of_nat (length (queue self)))
                      (Z.of_nat (length (priority_lane self)));
  if total_queue_len =? 0 then Some (Ok tt, self)
  else
    let now := now_ms (clock self) in
    let oldest_wait := u64_saturating_sub now (oldest_arrival self) in
    let time_since_last := Z.max (u64_saturating_sub now (last_seal_time self)) 1 in
    let avg_arrival_rate :=
      f64_div (f64_of_Z total_queue_len) (f64_div (f64_of_Z time_since_last) (f64_of_Z 1000)) in
    if should_seal (policy self) total_queue_len oldest_wait avg_arrival_rate
    then seal_and_process self
    else Some (Ok tt, self).

(** The part of [ingest] before [try_seal]: the arrival moves the clock and the
    transaction joins a queue. *)
Definition enqueue (self : PipelineEngine) (tx : Transaction) : option PipelineEngine :=
  let arrival := arrival_ts tx in
  let self :=
    match queue self, priority_lane self with
    | [], [] => set_oldest_arrival self arrival
    | _, _ => self
    end in
  let current := now_ms (clock self) in
  self ← (if current <? arrival
          then delta ← u64_sub prof arrival current;
               Some (set_clock self (advance (clock self) delta))
          else Some self);
  Some (if priority_ge (priority tx) High
        then set_queues self (queue self) (priority_lane self ++ [tx])
        else set_queues self (queue self ++ [tx]) (priority_lane self)).

Definition ingest (self : PipelineEngine) (tx : Transaction) : option outcome :=
  self ← enqueue self tx;
  try_seal self.

(** The loop of [flush]; [fuel] bounds its turns. *)
Fixpoint flush (fuel : nat) (self : PipelineEngine) : option outcome :=
  match queue self, priority_lane self with
  | [], [] => Some (Ok tt, self)
  | _, _ =>
      match fuel with
      | O => None
      | S fuel =>
          '(r, self) ← seal_and_process self;
          match r with
          | Err e => Some (Err e, self)
          | Ok _ => flush fuel self
          end
      end
  end.

Definition engine_finalize (self : PipelineEngine) (policy_name scenario_name : string)
    (sla : Z) : option SystemMetrics :=
  finalize prof (metrics self) policy_name scenario_name sla.

(** [for tx in workload { engine.ingest(tx)?; } engine.flush()?] of
    [run_simulation]: the first error ends the run. *)
Fixpoint run_workload (self : PipelineEngine) (txs : list Transaction) : option outcome :=
  match txs with
  | [] => flush 1 self
  | tx :: txs =>
      '(r, self) ← ingest self tx;
      match r with
      | Err e => Some (Err e, self)
      | Ok _ => run_workload self txs
      end
  end.
End engine.
