(* ===== verification/EngineFacts.v ===== *)
(** * What the pipeline guarantees

    Conservation of transactions and verification of every recorded batch
    through a whole run, the fate of a batch that fails, the order of a batch, and
    that release builds never stop, for any proof system that keeps its
    interface; and what the SP1 pair makes of a batch with an unknown opcode. *)

From Stdlib Require Import ZArith Lia Ascii String Bool Strings.Byte.
From stdpp Require Import base gmap strings list list_numbers.
From S2P Require Import Prelude RustNum RustFmt Float64 Merkle Types TraceBuilder Isa Executor.
From S2P Require Import ExecutorFacts TraceFacts Guest Sp1 Agreement Soundness Policy Metrics.
From S2P Require Import Engine.

Local Open Scope Z_scope.

Definition batch_name (i : Z) : string := "batch_" +:+ fmt_pad 6 i.

Lemma batch_name_inj i j : 0 <= i -> 0 <= j -> batch_name i = batch_name j -> i = j.
Proof. intros Hi Hj Heq%append_inj_r. by eapply fmt_pad_inj. Qed.

Section facts.
Context `{HashLib} (prof : profile) {P V C : Type}.
Context `{HC : Clock C, HP : !Prover P C, HV : !Verifier V C}.

Implicit Types self : PipelineEngine (P := P) (V := V) (C := C).

(** The recorded batches, and the transactions waiting in sealing order. *)
Definition batches self : list BatchMetrics := ma_batch_metrics (metrics self).
Definition pending self : list Transaction := priority_lane self ++ queue self.

Definition drained self : Prop := queue self = [] /\ priority_lane self = [].

Lemma pending_nil self : pending self = [] <-> drained self.
Proof. unfold pending, drained. split; [by intros [-> ->]%app_nil|by intros [-> ->]]. Qed.

Lemma reset_oldest_drained self : drained self -> reset_oldest self = self.
Proof. unfold reset_oldest. by intros [-> ->]. Qed.

(** Transactions that arrived between two sealings are sealed in this order. *)
Definition is_high (tx : Transaction) : bool := priority_ge (priority tx) High.

Definition sealing_order (txs : list Transaction) : list Transaction :=
  List.filter is_high txs ++ List.filter (fun tx => negb (is_high tx)) txs.

Lemma sealing_order_perm txs : sealing_order txs ≡ₚ txs.
Proof.
  induction txs as [|tx txs IH]; [done|]. unfold sealing_order in *. cbn [List.filter].
  destruct (is_high tx); cbn [negb app]; [by rewrite IH|]. by rewrite <-Permutation_middle, IH.
Qed.

Lemma length_sealing_order txs : length (sealing_order txs) = length txs.
Proof. apply Permutation_length, sealing_order_perm. Qed.

(** The record of a batch of [txs]: it was executed by [ex] under its name, the
    trace was proved by [pr] with these transactions, the proof was verified by
    [ve] against that trace, and the record has what the three reported. *)
Definition sealed_as (ex : FullExecutor) (pr : P) (ve : V) (txs : list Transaction)
    (m : BatchMetrics) : Prop :=
  exists t pf vr (clk clk' clk'' : C),
    execute_with_transactions prof ex (sealed_batch (bm_batch_id m) (now_ms clk) txs) txs =
      Some (Ok t) /\
    prove pr t txs clk = (Ok pf, clk') /\
    verify ve pf t clk' = Some (Ok vr, clk'') /\
    bm_batch_size m = Z.of_nat (length txs) /\
    bm_total_compute_used m = et_total_compute t /\
    bm_proving_time_ms m = pf_proving_time_ms pf /\
    bm_proof_size_bytes m = pf_proof_size_bytes pf /\
    bm_verification_time_ms m = vr_verification_time_ms vr /\
    bm_end_to_end_latency_ms m = u64_saturating_sub (now_ms clk'') (now_ms clk) /\
    bm_verification_passed m = vr_is_valid vr.

(** The parts that never change. *)
Definition same_parts self self' : Prop :=
  executor self' = executor self /\ prover self' = prover self /\ verifier self' = verifier self.

(** Every way out of [seal_and_process]. *)
Lemma seal_and_process_cases self r self' :
  seal_and_process prof self = Some (r, self') ->
  drained self' /\ same_parts self self' /\
  ((pending self = [] /\ r = Ok tt /\ self' = set_queues self [] []) \/
   (pending self <> [] /\
    u64_add prof (batch_counter self) 1 = Some (batch_counter self') /\
    match r with
    | Err _ => batches self' = batches self
    | Ok _ => exists m,
        batches self' = batches self ++ [m] /\
        bm_batch_id m = batch_name (batch_counter self') /\
        sealed_as (executor self) (prover self) (verifier self) (pending self) m
    end)).
Proof.
  unfold seal_and_process. destruct self as [po ex pr ve ck cf q l n o s ms].
  cbn [clock priority_lane queue set_queues batch_counter executor]. unfold pending.
  cbn [priority_lane queue]. destruct (l ++ q) as [|tx txs] eqn:Hpend.
  { intros [= <- <-]. split; [done|]. split; [done|]. by left. }
  intros (n' & Hn & (res & Hex & Hrest)%bind_Some)%bind_Some.
  destruct res as [t|e]; [|injection Hrest as <- <-; repeat split; right; by split].
  cbn [set_batch_counter clock prover set_clock verifier] in Hrest.
  destruct (prove pr t (tx :: txs) ck) as [[pf|e] clk] eqn:Hp;
    [|injection Hrest as <- <-; repeat split; right; by split].
  apply bind_Some in Hrest as ([v clk3] & Hv & Hrest).
  destruct v as [vr|e]; [|injection Hrest as <- <-; repeat split; right; by split].
  injection Hrest as <- <-.
  rewrite reset_oldest_drained by done. split; [done|]. split; [done|]. right. split; [done|].
  split; [done|]. eexists. split; [reflexivity|]. split; [done|].
  by exists t, pf, vr, ck, clk, clk3.
Qed.

(** *** Enqueueing *)

Lemma enqueue_cases self tx self' :
  enqueue prof self tx = Some self' ->
  batches self' = batches self /\ batch_counter self' = batch_counter self /\
  policy self' = policy self /\ executor self' = executor self /\
  prover self' = prover self /\ verifier self' = verifier self /\
  if priority_ge (priority tx) High
  then priority_lane self' = priority_lane self ++ [tx] /\ queue self' = queue self
  else priority_lane self' = priority_lane self /\ queue self' = queue self ++ [tx].
Proof.
  destruct self as [po ex pr ve ck cf q l n o s ms].
  unfold enqueue. cbn [queue priority_lane].
  set (self0 := match q with [] => _ | _ => _ end).
  assert (self0 = mkPipelineEngine po ex pr ve ck cf q l n (oldest_arrival self0) s ms) as Hs0
    by (subst self0; by destruct q, l).
  clearbody self0. revert Hs0. generalize (oldest_arrival self0) as o'. intros o' ->.
  intros (self1 & Hadv & [= <-])%bind_Some.
  assert (exists ck', self1 = mkPipelineEngine po ex pr ve ck' cf q l n o' s ms) as [ck' ->].
  { cbn [clock set_clock] in Hadv. destruct (_ <? _).
    - apply bind_Some in Hadv as (d & _ & [= <-]). by eexists.
    - injection Hadv as <-. by eexists. }
  by destruct (priority_ge (priority tx) High).
Qed.

Lemma enqueue_pending self tx self' :
  enqueue prof self tx = Some self' -> pending self' ≡ₚ tx :: pending self.
Proof.
  intros (_ & _ & _ & _ & _ & _ & Hq)%enqueue_cases. unfold pending.
  destruct (priority_ge _ _); destruct Hq as [-> ->]; solve_Permutation.
Qed.

Lemma enqueue_length self tx self' :
  enqueue prof self tx = Some self' -> length (pending self') = S (length (pending self)).
Proof. by intros ->%enqueue_pending%Permutation_length. Qed.

(** *** The invariant of a run without errors *)

Section run.
Variables (ex : FullExecutor) (pr : P) (ve : V).

(** After the transactions [arrived]: they are cut into consecutive segments, one
    for each recorded batch and the last for what waits in the two queues; each
    batch is of its segment, numbered from 1, and verified. *)
Record engine_inv (arrived : list Transaction) self : Prop := {
  ei_executor : executor self = ex;
  ei_prover : prover self = pr;
  ei_verifier : verifier self = ve;
  ei_segments : exists segs waiting,
    mjoin segs ++ waiting = arrived /\
    Forall (fun seg => seg <> []) segs /\
    Forall2 (fun seg => sealed_as ex pr ve (sealing_order seg)) segs (batches self) /\
    priority_lane self = List.filter is_high waiting /\
    queue self = List.filter (fun tx => negb (is_high tx)) waiting;
  ei_counter : batch_counter self = Z.of_nat (length (batches self));
  ei_ids : map bm_batch_id (batches self) = map batch_name (seqZ 1 (batch_counter self));
  ei_verified : Forall (fun m => bm_verification_passed m = true) (batches self);
}.

Lemma engine_inv_start pol (clk : C) cfg :
  engine_inv [] (PipelineEngine_new pol ex pr ve clk cfg).
Proof. split; try done. exists [], []. by repeat constructor. Qed.

(** A recorded batch has as many transactions as its segment. *)
Lemma segment_sizes segs ms :
  Forall2 (fun seg => sealed_as ex pr ve (sealing_order seg)) segs ms ->
  Zsum (map bm_batch_size ms) = Z.of_nat (length (mjoin segs)) /\
  (Forall (fun seg => seg <> []) segs -> Forall (fun m => 1 <= bm_batch_size m) ms).
Proof.
  induction 1 as [|seg m segs ms Hm _ [IH1 IH2]]; [done|].
  destruct Hm as (t & pf & vr & clk & clk' & clk'' & _ & _ & _ & Hsz & _).
  rewrite length_sealing_order in Hsz. cbn [map]. simpl mjoin.
  rewrite Zsum_cons, length_app, IH1, Hsz. split; [lia|].
  intros [Hne Hall]%Forall_cons. constructor; [|auto]. destruct seg; [done|]. simpl in Hsz. lia.
Qed.

(** Each transaction is pending or counted in a recorded batch. *)
Lemma engine_inv_totals arrived self :
  engine_inv arrived self ->
  Zsum (map bm_batch_size (batches self)) + Z.of_nat (length (pending self)) =
    Z.of_nat (length arrived) /\
  Forall (fun m => 1 <= bm_batch_size m) (batches self).
Proof.
  intros [_ _ _ (segs & waiting & <- & Hne & Hall & Hl & Hq) _ _ _].
  destruct (segment_sizes _ _ Hall) as [-> Hsizes]. split; [|auto].
  unfold pending. rewrite Hl, Hq. fold (sealing_order waiting).
  rewrite length_sealing_order, length_app. lia.
Qed.

Lemma length_le_Zsum l : Forall (fun x => 1 <= x) l -> Z.of_nat (length l) <= Zsum l.
Proof.
  induction 1 as [|x l Hx Hl IH]; [done|]. rewrite Zsum_cons. cbn [length]. lia.
Qed.

Lemma engine_inv_enqueue arrived self tx self' :
  engine_inv arrived self -> enqueue prof self tx = Some self' -> engine_inv (arrived ++ [tx]) self'.
Proof.
  intros [Hex Hpr Hve (segs & waiting & <- & Hne & Hall & Hl & Hq) Hc Hids Hver] Henq.
  apply enqueue_cases in Henq as (Eb & Ec & _ & Ee & Ep & Ev & Equeues).
  split; rewrite ?Eb, ?Ec, ?Ee, ?Ep, ?Ev; try done.
  exists segs, (waiting ++ [tx]). split; [by rewrite app_assoc|]. split; [done|]. split; [done|].
  fold (is_high tx) in Equeues. rewrite !List.filter_app, <-Hl, <-Hq. cbn [List.filter].
  destruct (is_high tx); cbn [negb]; by rewrite ?app_nil_r.
Qed.

Lemma engine_inv_seal `{!ProofSystem P V C} arrived self self' :
  Z.of_nat (length arrived) < u64_bound -> engine_inv arrived self ->
  seal_and_process prof self = Some (Ok tt, self') -> engine_inv arrived self' /\ drained self'.
Proof.
  intros Hn Hinv Hseal. pose proof (engine_inv_totals _ _ Hinv) as [Htot Hsizes].
  destruct Hinv as [Hex Hpr Hve (segs & waiting & Hjoin & Hne & Hall & Hl & Hq) Hc Hids Hver].
  apply seal_and_process_cases in Hseal
    as (Hdr & (Ee & Ep & Ev) & [(Hnil & _ & ->)|(Hpend & Hadd & m & Hb & Hid & Hm)]).
  - split; [|done]. apply pending_nil in Hnil as [Hq0 Hl0]. destruct self. simpl in *.
    split; try done. exists segs, waiting. split_and!; cbn; (done || congruence).
  - split; [|done]. pose proof Hdr as [Hq' Hl'].
    pose proof (length_le_Zsum _ (proj2 (Forall_map _ _ _) Hsizes)) as Hle.
    rewrite length_map in Hle.
    assert (0 < Z.of_nat (length (pending self))) as Hpos by (destruct (pending self); [done|simpl; lia]).
    assert (batch_counter self' = batch_counter self + 1) as Hc'.
    { unfold u64_add in Hadd. rewrite u64_arith_in in Hadd by (split; lia). congruence. }
    assert (pending self = sealing_order waiting) as Hw by (unfold pending; by rewrite Hl, Hq).
    rewrite Hex, Hpr, Hve, Hw in Hm.
    split; rewrite ?Ee, ?Ep, ?Ev, ?Hb, ?Hc'; try done.
    + exists (segs ++ [waiting]), []. rewrite join_app, Hq', Hl'. simpl mjoin.
      split; [by rewrite !app_nil_r|]. split; [|split; [|done]].
      * apply Forall_app. split; [done|]. constructor; [|constructor]. intros ->. by rewrite Hw in Hpend.
      * apply Forall2_app; [done|]. by constructor.
    + rewrite length_app. simpl. lia.
    + rewrite map_app, Hids, seqZ_app, map_app by lia. f_equal. cbn [map].
      rewrite Hid, Hc', seqZ_cons, seqZ_nil by lia. cbn [map]. do 2 f_equal. lia.
    + apply Forall_app. split; [done|]. constructor; [|constructor].
      destruct Hm as (t & pf & vr & clk & clk' & clk'' & _ & Hp & Hv & _ & _ & _ & _ & _ & _ & ->).
      destruct (proofs_verify pr ve t _ clk clk' clk' pf Hp) as (r2 & c2 & Hv2 & Hval).
      rewrite Hv in Hv2. by injection Hv2 as <- <-.
Qed.
End run.

(** *** Sealing from [ingest] and [flush] *)

Lemma try_seal_cases self r self' :
  try_seal prof self = Some (r, self') ->
  (r = Ok tt /\ self' = self) \/ seal_and_process prof self = Some (r, self').
Proof.
  unfold try_seal. intros (n & _ & Hs)%bind_Some.
  destruct (n =? 0); [injection Hs as <- <-; by left|].
  destruct (should_seal _ _ _ _); [by right|injection Hs as <- <-; by left].
Qed.

Lemma engine_inv_ingest `{!ProofSystem P V C} ex pr ve arrived self tx self' :
  Z.of_nat (length (arrived ++ [tx])) < u64_bound -> engine_inv ex pr ve arrived self ->
  ingest prof self tx = Some (Ok tt, self') -> engine_inv ex pr ve (arrived ++ [tx]) self'.
Proof.
  intros Hn Hinv (self1 & Henq & Hseal)%bind_Some.
  pose proof (engine_inv_enqueue ex pr ve arrived self tx self1 Hinv Henq) as Hinv1.
  apply try_seal_cases in Hseal as [[_ ->]|Hseal]; [done|].
  by destruct (engine_inv_seal ex pr ve _ self1 self' Hn Hinv1 Hseal).
Qed.

(** One turn drains the queues, so [flush] ends after at most one. *)
Lemma flush_cases fuel self r self' :
  flush prof fuel self = Some (r, self') ->
  (drained self /\ r = Ok tt /\ self' = self) \/
  (pending self <> [] /\ seal_and_process prof self = Some (r, self')).
Proof.
  intros Hf. destruct (decide (pending self = [])) as [Hnil|Hne].
  { apply pending_nil in Hnil as [Hq Hl]. left. destruct fuel; cbn [flush] in Hf;
      rewrite Hq, Hl in Hf; injection Hf as <- <-; by split. }
  right. split; [done|].
  assert (exists fuel', fuel = S fuel' /\
    (seal_and_process prof self ≫= fun '(r, self) =>
       match r with Err e => Some (Err e, self) | Ok _ => flush prof fuel' self end)
    = Some (r, self')) as (fuel' & -> & Hs).
  { unfold pending in Hne. destruct fuel; cbn [flush] in Hf;
      destruct (queue self), (priority_lane self); try done; by eexists. }
  apply bind_Some in Hs as ([r1 self1] & Hseal & Hrest). rewrite Hseal.
  destruct r1 as [[]|e]; [|by injection Hrest as <- <-].
  apply seal_and_process_cases in Hseal as [[Hq Hl] _].
  destruct fuel'; cbn [flush] in Hrest; rewrite Hq, Hl in Hrest; by injection Hrest as <- <-.
Qed.

Lemma engine_inv_run `{!ProofSystem P V C} ex pr ve arrived self txs self' :
  Z.of_nat (length (arrived ++ txs)) < u64_bound -> engine_inv ex pr ve arrived self ->
  run_workload prof self txs = Some (Ok tt, self') ->
  engine_inv ex pr ve (arrived ++ txs) self' /\ drained self'.
Proof.
  revert arrived self. induction txs as [|tx txs IH]; intros arrived self Hlen Hinv Hrun;
    cbn [run_workload] in Hrun.
  - rewrite app_nil_r in *. apply flush_cases in Hrun as [(Hdr & _ & ->)|[_ Hseal]]; [done|].
    by eapply engine_inv_seal.
  - apply bind_Some in Hrun as ([r self1] & Hing & Hrest). destruct r as [[]|e]; [|done].
    replace (arrived ++ tx :: txs) with ((arrived ++ [tx]) ++ txs) in *
      by by rewrite <-app_assoc.
    eapply IH; [done| |exact Hrest]. eapply engine_inv_ingest; [|done|exact Hing].
    rewrite length_app, Nat2Z.inj_add in Hlen. lia.
Qed.

(** *** The queues without sealing *)

Lemma enqueue_all self txs self' :
  foldlM (enqueue prof) self txs = Some self' ->
  priority_lane self' = priority_lane self ++ List.filter is_high txs /\
  queue self' = queue self ++ List.filter (fun tx => negb (is_high tx)) txs.
Proof.
  revert self. induction txs as [|tx txs IH]; intros self.
  - intros [= <-]. by rewrite !app_nil_r.
  - cbn [foldlM]. intros (self1 & Henq & Hrest)%bind_Some.
    apply IH in Hrest as [-> ->]. apply enqueue_cases in Henq as (_ & _ & _ & _ & _ & _ & Hq).
    unfold is_high in *. cbn [List.filter].
    destruct (priority_ge (priority tx) High); destruct Hq as [-> ->];
      cbn [negb]; by rewrite <-?app_assoc.
Qed.
End facts.

(** ** The SP1 pair and unknown opcodes *)

Section invalid.
Context `{Sp1Laws} (prof : profile) `{HC : Clock C}.

(** Sealing a batch that holds an unknown opcode fails in the prover. *)
Lemma invalid_opcode_seal (self self' : PipelineEngine (P := Sp1Prover) (V := Sp1Verifier) (C := C))
    r tx op :
  uncapped (executor self) -> 5000 * Z.of_nat (length (pending self)) < u64_bound ->
  tx ∈ pending self -> decode (instruction_data tx) = IInvalid op ->
  seal_and_process prof self = Some (r, self') ->
  exists e, r = Err (BatchFailed ("prove failed: " +:+ e)).
Proof.
  intros Hun Hlen Hin Hd Hseal.
  unfold seal_and_process in Hseal. fold (pending self) in Hseal.
  destruct self as [po ex pr ve ck cf q l n o s ms].
  cbn [set_queues batch_counter executor set_batch_counter prover clock] in *.
  set (txs := pending _) in *. clearbody txs. destruct txs as [|tx0 txs0] eqn:Htxs;
    [by apply elem_of_nil in Hin|]. rewrite <-Htxs in *.
  apply bind_Some in Hseal as (n' & _ & (res & Hex & Hrest)%bind_Some).
  destruct res as [t|e]; [|by apply bind_Some in Hex as ([? ?] & _ & ?)].
  destruct (invalid_opcode_lemma prof ex _ txs t tx op pr ck Hun Hlen Hex Hin Hd)
    as (e & clk' & Hp).
  cbn [prove Sp1Prover_Prover] in Hrest. rewrite Hp in Hrest. injection Hrest as <- _.
  by eexists.
Qed.
End invalid.

(** ** Release builds *)

Section release.
Context `{HashLib} {P V C : Type} `{HC : Clock C, HP : !Prover P C, HV : !Verifier V C}.
Context `{!ProofSystem P V C}.

Implicit Types self : PipelineEngine (P := P) (V := V) (C := C).

Lemma execute_release (ex : FullExecutor) batch txs :
  exists t, execute_with_transactions Release ex batch txs = Some (Ok t).
Proof.
  unfold execute_with_transactions.
  destruct (full_run_release ex (enumerate txs) (init_balances txs)
    (TraceBuilder_new (b_batch_id batch) (init_balances txs)) (init_balances_u64 txs))
    as [[s b] ->].
  by eexists.
Qed.

Lemma seal_release self : is_Some (seal_and_process Release self).
Proof.
  unfold seal_and_process. destruct (priority_lane self ++ queue self) as [|tx txs]; [by eexists|].
  destruct self as [po ex pr ve ck cf q l n o s ms]. cbn [set_queues batch_counter].
  unfold u64_add. rewrite u64_arith_release. cbn [mbind option_bind executor set_batch_counter].
  match goal with |- context [execute_with_transactions Release ?a ?b ?c] =>
    destruct (execute_release a b c) as [t ->] end.
  cbn [mbind option_bind prover clock set_clock verifier].
  destruct (prove pr t (tx :: txs) ck) as [[pf|e] clk] eqn:Hp; [|by eexists].
  destruct (proofs_verify pr ve t (tx :: txs) ck clk clk pf Hp) as (r & clk3 & Hv & _).
  rewrite Hv. by eexists.
Qed.

Lemma try_seal_release self : is_Some (try_seal Release self).
Proof.
  unfold try_seal, u64_add. rewrite u64_arith_release. cbn [mbind option_bind].
  destruct (_ =? 0); [by eexists|]. destruct (should_seal _ _ _ _); [|by eexists].
  apply seal_release.
Qed.

Lemma ingest_release self tx : is_Some (ingest Release self tx).
Proof.
  unfold ingest, enqueue.
  set (self0 := match queue self with [] => _ | _ => _ end). clearbody self0.
  destruct (_ <? _); cbn [mbind option_bind]; [|apply try_seal_release].
  unfold u64_sub. rewrite u64_arith_release. cbn [mbind option_bind]. apply try_seal_release.
Qed.

Lemma flush_release self : is_Some (flush Release 1 self).
Proof.
  cbn [flush]. destruct (seal_release self) as [[r self'] Hs].
  assert (drained self') as [Hq Hl] by by eapply seal_and_process_cases.
  destruct (queue self), (priority_lane self); try (by eexists); rewrite Hs;
    cbn [mbind option_bind]; destruct r; try (by eexists);
    cbn [flush]; rewrite Hq, Hl; by eexists.
Qed.

(** A run of the engine over any list of transactions comes to its end. *)
Lemma run_release self txs : is_Some (run_workload Release self txs).
Proof.
  revert self. induction txs as [|tx txs IH]; intros self; cbn [run_workload].
  - apply flush_release.
  - destruct (ingest_release self tx) as [[[[]|e] self'] ->]; [apply IH|by eexists].
Qed.
End release.

(** ** The properties *)

(** C21: If a simulation ends without an error then every transaction it was
    given was sealed in exactly one batch: the workload is cut into consecutive
    nonempty segments, one for each recorded batch, in order; the batch of a
    segment is its high-priority transactions and then the others, and its record
    is that of executing, proving and verifying exactly these, which succeeded.
    Nothing is left in the queues, batches are numbered consecutively, and the
    recorded sizes add up to the workload. *)
Theorem run_accounts_for_all `{HashLib} prof {P V C} `{Clock C, !Prover P C, !Verifier V C,
    !ProofSystem P V C} pol ex (pr : P) (ve : V) (clk : C) cfg txs self' :
  Z.of_nat (length txs) < u64_bound ->
  run_workload prof (PipelineEngine_new pol ex pr ve clk cfg) txs = Some (Ok tt, self') ->
  (exists segs, mjoin segs = txs /\ Forall (fun seg => seg <> []) segs /\
     Forall2 (fun seg => sealed_as (C := C) prof ex pr ve (sealing_order seg)) segs (batches self')) /\
  pending self' = [] /\
  map bm_batch_id (batches self') = map batch_name (seqZ 1 (Z.of_nat (length (batches self')))) /\
  Forall (fun m => bm_verification_passed m = true) (batches self') /\
  Zsum (map bm_batch_size (batches self')) = Z.of_nat (length txs).
Proof.
  intros Hlen Hrun. apply (engine_inv_run prof ex pr ve []) in Hrun as [Hinv Hdr];
    [|done|apply engine_inv_start].
  apply engine_inv_totals in Hinv as Htot. destruct Htot as [Htot _].
  destruct Hinv as [_ _ _ (segs & waiting & Hjoin & Hne & Hall & Hl & Hq) Hc Hids Hver].
  rewrite Hc in Hids. pose proof (proj2 (pending_nil _) Hdr) as Hp. rewrite Hp in Htot.
  assert (waiting = []) as ->.
  { apply Permutation_nil. rewrite <-(sealing_order_perm waiting). unfold sealing_order.
    rewrite <-Hl, <-Hq. fold (pending self'). by rewrite Hp. }
  split; [exists segs; by rewrite app_nil_r in Hjoin|]. simpl in Htot. split_and!; [done..|lia].
Qed.

(** C32: A batch that fails is lost: after an error both queues are empty, no
    batch is recorded for the transactions they held, and the batch number is
    used up. *)
Theorem failed_batch_is_lost `{HashLib} prof {P V C} `{Clock C, !Prover P C, !Verifier V C}
    (self self' : PipelineEngine (P := P) (V := V) (C := C)) e :
  seal_and_process prof self = Some (Err e, self') ->
  pending self <> [] /\ pending self' = [] /\ batches self' = batches self /\
  u64_add prof (batch_counter self) 1 = Some (batch_counter self').
Proof.
  intros (Hdr & _ & [(_ & [=] & _)|(Hne & Hadd & Hb)])%seal_and_process_cases.
  by rewrite (proj2 (pending_nil _) Hdr).
Qed.

(** The two queues keep the order of arrival, and the high and critical
    transactions go before all others of the batch. *)
Theorem batch_order `{HashLib} prof {P V C} `{Clock C, !Prover P C, !Verifier V C}
    (self self' : PipelineEngine (P := P) (V := V) (C := C)) txs :
  drained self -> foldlM (enqueue prof) self txs = Some self' ->
  pending self' = sealing_order txs.
Proof.
  intros [Hq Hl] Henq. apply enqueue_all in Henq as [H1 H2]. unfold pending.
  by rewrite H1, H2, Hq, Hl.
Qed.
