(* ===== verification/Simulation.v ===== *)
(** * The simulations of the benchmark ([crates/benchmark-cli/src/main.rs])

    [run_simulation] wires the workload generator, a policy of the factory, the
    executor, the SP1 pair and the virtual clock into one engine and feeds it
    the workload; [run_comparison] runs the grid of four policies and five
    scenarios.  [None] is a panic; the error of [anyhow::Result] is the
    [ExecError] it wraps.  The generator and the loop of [flush] have fuel, one
    more turn than there are transactions and one turn; [comparison_terminates]
    shows that it is enough. *)

From Stdlib Require Import ZArith Lia Ascii String Bool Strings.Byte.
From stdpp Require Import base gmap strings list list_numbers.
From S2P Require Import Prelude RustNum RustFmt Float64 Merkle Types TraceBuilder Isa Executor.
From S2P Require Import ExecutorFacts TraceFacts Guest Sp1 Agreement Soundness Policy Metrics.
From S2P Require Import Ingress Engine EngineFacts.

Local Open Scope Z_scope.

Section simulation.
Context `{HashLib, Sp1Sdk, RngLib} (prof : profile).

(** The engine of a simulation. *)
Definition SimEngine : Type :=
  PipelineEngine (P := Sp1Prover) (V := Sp1Verifier) (C := VirtualClock).

(** [for tx in workload { engine.ingest(tx)?; }]: the generator is asked for
    the next transaction after the engine has taken the last. *)
Fixpoint feed (fuel : nat) (workload : WorkloadGenerator) (engine : SimEngine)
    : option (result ExecError unit * SimEngine) :=
  match fuel with
  | O => None
  | S fuel =>
      '(tx, workload) ← next prof workload;
      match tx with
      | None => Some (Ok tt, engine)
      | Some tx =>
          '(r, engine) ← ingest prof engine tx;
          match r with
          | Err e => Some (Err e, engine)
          | Ok _ => feed fuel workload engine
          end
      end
  end.

Definition run_simulation (policy_name : string) (scenario : Scenario) (seed tx_count : Z)
    (config : PolicyConfig) (sla_latency_ms : Z) : option (result ExecError SystemMetrics) :=
  let clock := VirtualClock_new 0 in
  let policy := create_policy policy_name config in
  let executor := FullExecutor_new 200000 in
  let prover := mkSp1Prover in
  let verifier := mkSp1Verifier in
  let pipeline_config := mkPipelineConfig (time_threshold_ms config) sla_latency_ms in
  let engine := PipelineEngine_new policy executor prover verifier clock pipeline_config in
  let workload := WorkloadGenerator_new scenario tx_count seed 50 in
  '(r, engine) ← feed (S (Z.to_nat tx_count)) workload engine;
  match r with
  | Err e => Some (Err e)
  | Ok _ =>
      '(r, engine) ← flush prof 1 engine;
      match r with
      | Err e => Some (Err e)
      | Ok _ =>
          metrics ← engine_finalize prof engine policy_name (Scenario_name scenario) sla_latency_ms;
          Some (Ok metrics)
      end
  end.

Definition compared_policies : list string := ["fixedcount"; "fixedtime"; "hybrid"; "adaptive"].

(** The two nested loops, with the results so far. *)
Fixpoint run_grid (seed tx_count : Z) (config : PolicyConfig) (sla_latency_ms : Z)
    (grid : list (string * Scenario)) (results : list SystemMetrics)
    : option (result ExecError (list SystemMetrics)) :=
  match grid with
  | [] => Some (Ok results)
  | (policy, scenario) :: grid =>
      r ← run_simulation policy scenario seed tx_count config sla_latency_ms;
      match r with
      | Err e => Some (Err e)
      | Ok result => run_grid seed tx_count config sla_latency_ms grid (results ++ [result])
      end
  end.

Definition comparison_grid : list (string * Scenario) :=
  policy ← compared_policies; scenario ← Scenario_all; [(policy, scenario)].

Definition run_comparison (seed tx_count : Z) (config : PolicyConfig) (sla_latency_ms : Z)
    : option (result ExecError (list SystemMetrics)) :=
  run_grid seed tx_count config sla_latency_ms comparison_grid [].
End simulation.

(** ** Facts *)

Section facts.
Context `{Sp1Laws, RngLaws} (prof : profile).

Implicit Types engine : SimEngine.

(** Feeding the engine to the end is running the list of the workload. *)
Lemma feed_collect fuel workload engine engine' :
  feed prof fuel workload engine = Some (Ok tt, engine') ->
  exists txs, collect prof fuel workload = Some txs /\
    run_workload prof engine txs = flush prof 1 engine'.
Proof.
  revert workload engine. induction fuel as [|fuel IH]; intros workload engine; [done|].
  cbn [feed collect]. intros ([[tx|] workload'] & -> & Hrest)%bind_Some.
  - apply bind_Some in Hrest as ([[[]|e] engine1] & Hing & Hrest); [|done].
    apply IH in Hrest as (txs & Hcol & Hrun). exists (tx :: txs). cbn [mbind option_bind].
    rewrite Hcol. split; [done|]. cbn [run_workload]. by rewrite Hing.
  - injection Hrest as <-. by exists [].
Qed.

Lemma run_simulation_inv policy_name sc seed count config sla m :
  run_simulation prof policy_name sc seed count config sla = Some (Ok m) ->
  exists txs engine',
    collect prof (S (Z.to_nat count)) (WorkloadGenerator_new sc count seed 50) = Some txs /\
    run_workload prof
      (PipelineEngine_new (create_policy policy_name config) (FullExecutor_new 200000)
         mkSp1Prover mkSp1Verifier (VirtualClock_new 0)
         (mkPipelineConfig (time_threshold_ms config) sla)) txs = Some (Ok tt, engine') /\
    aggregate_metrics prof (batches engine') policy_name (Scenario_name sc) sla = Some m.
Proof.
  unfold run_simulation. intros ([[[]|e] engine1] & Hfeed & Hrest)%bind_Some; [|done].
  apply bind_Some in Hrest as ([[[]|e] engine2] & Hflush & Hrest); [|done].
  apply bind_Some in Hrest as (m' & Hm & [= <-]).
  apply feed_collect in Hfeed as (txs & Hcol & Hrun).
  exists txs, engine2. split; [exact Hcol|]. split; [by rewrite Hrun|exact Hm].
Qed.

(** A simulation that ends in a report accounts for the whole workload. *)
Lemma simulation_accounts policy_name sc seed count config sla m :
  is_u64 count -> run_simulation prof policy_name sc seed count config sla = Some (Ok m) ->
  sm_policy_name m = policy_name /\ sm_scenario_name m = Scenario_name sc /\
  sm_total_transactions m = count /\ 0 <= sm_total_batches m <= count /\
  (0 < count -> 0 < sm_total_batches m).
Proof.
  intros [Hc0 Hc1] (txs & engine' & Hcol & Hrun & Hm)%run_simulation_inv.
  apply collect_output in Hcol as [Hids _]; [|simpl; lia..].
  assert (Z.of_nat (length txs) = count) as Hlen.
  { apply (f_equal length) in Hids. rewrite !length_map, length_seqZ in Hids. simpl in Hids. lia. }
  edestruct (engine_inv_run prof) as [Hinv Hdr]; [|apply engine_inv_start|exact Hrun|];
    [rewrite app_nil_l; lia|].
  destruct (engine_inv_totals _ _ _ _ _ _ Hinv) as [ei_count ei_sizes].
  rewrite app_nil_l in ei_count.
  apply pending_nil in Hdr. rewrite Hdr in ei_count. simpl (length []) in ei_count.
  pose proof (length_le_Zsum _ (proj2 (Forall_map _ _ _) ei_sizes)) as Hle.
  rewrite length_map in Hle.
  apply aggregate_totals in Hm as (-> & -> & -> & ->); [|eapply Forall_impl; [exact ei_sizes|]; simpl; lia|lia].
  split_and!; try done; try lia.
  intros Hpos. destruct (batches engine'); [|simpl; lia].
  cbn [map] in ei_count. rewrite Zsum_nil in ei_count. lia.
Qed.

(** A grid that succeeds adds a report for each of its cells. *)
Lemma run_grid_reports grid seed count config sla acc rs :
  is_u64 count -> run_grid prof seed count config sla grid acc = Some (Ok rs) ->
  exists rs', rs = acc ++ rs' /\
    map (fun m => (sm_policy_name m, sm_scenario_name m)) rs' =
      map (fun c => (c.1, Scenario_name c.2)) grid /\
    Forall (fun m => sm_total_transactions m = count /\ 0 <= sm_total_batches m <= count /\
      (0 < count -> 0 < sm_total_batches m)) rs'.
Proof.
  intros Hc. revert acc. induction grid as [|[policy sc] grid IH]; intros acc; cbn [run_grid].
  - intros [= ->]. exists []. by rewrite app_nil_r.
  - intros ([m|e] & Hsim & Hrest)%bind_Some; [|done].
    apply simulation_accounts in Hsim as (Hp & Hs & Hacc); [|done].
    apply IH in Hrest as (rs' & -> & Hnames & Hall). exists (m :: rs').
    rewrite <-app_assoc. split; [done|]. cbn [map]. rewrite Hnames, Hp, Hs. auto.
Qed.

(** *** An unknown opcode *)

Lemma seal_executor engine r engine' :
  seal_and_process prof engine = Some (r, engine') -> executor engine' = executor engine.
Proof. by intros (_ & (? & _) & _)%seal_and_process_cases. Qed.

(** What an engine that never fails has not been given. *)
Definition no_invalid (txs : list Transaction) : Prop :=
  Forall (fun tx => forall op, decode (instruction_data tx) <> IInvalid op) txs.

Lemma seal_no_invalid engine engine' :
  uncapped (executor engine) -> 5000 * Z.of_nat (length (pending engine)) < u64_bound ->
  seal_and_process prof engine = Some (Ok tt, engine') -> no_invalid (pending engine).
Proof.
  intros Hun Hlen Hseal. apply Forall_forall. intros tx Hin op Hop.
  by destruct (invalid_opcode_seal prof engine engine' (Ok tt) tx op Hun Hlen Hin Hop Hseal)
    as [e [=]].
Qed.

(** A run that ends well was given no unknown opcode. *)
Lemma run_no_invalid engine txs engine' :
  uncapped (executor engine) ->
  5000 * (Z.of_nat (length (pending engine)) + Z.of_nat (length txs)) < u64_bound ->
  run_workload prof engine txs = Some (Ok tt, engine') -> no_invalid (pending engine ++ txs).
Proof.
  revert engine. induction txs as [|tx txs IH]; intros engine Hun Hlen Hrun;
    cbn [run_workload length] in *.
  - rewrite app_nil_r. apply flush_cases in Hrun as [(Hdr & _)|[_ Hseal]].
    + apply pending_nil in Hdr. rewrite Hdr. constructor.
    + eapply seal_no_invalid; [done|lia|exact Hseal].
  - apply bind_Some in Hrun as ([r engine2] & Hing & Hrest). destruct r as [[]|e]; [|done].
    apply bind_Some in Hing as (engine1 & Henq & Hseal).
    pose proof (enqueue_pending _ _ _ _ Henq) as Hperm.
    pose proof (Permutation_length Hperm) as Hl. cbn [length] in Hl.
    apply enqueue_cases in Henq as (_ & _ & _ & Hex & _).
    cut (no_invalid (pending engine1 ++ txs)).
    { unfold no_invalid. rewrite Hperm. rewrite !Forall_app, !Forall_cons. tauto. }
    rewrite <-Hex in Hun. apply try_seal_cases in Hseal as [[_ ->]|Hseal].
    + apply IH; [done|lia|done].
    + apply Forall_app. split; [eapply seal_no_invalid; [done|lia|exact Hseal]|].
      pose proof (seal_and_process_cases _ _ _ _ Hseal) as [Hdr _].
      apply pending_nil in Hdr.
      apply IH in Hrest; rewrite ?Hdr in *; [done| |simpl; lia].
      by rewrite (seal_executor _ _ _ Hseal).
Qed.
End facts.

Section release.
Context `{Sp1Laws, RngLaws}.

(** One turn per transaction and one for the end. *)
Lemma feed_release n workload (engine : SimEngine) :
  0 <= generated workload -> tx_count workload < u64_bound ->
  tx_count workload <= generated workload + Z.of_nat n ->
  is_Some (feed Release (S n) workload engine).
Proof.
  revert workload engine. induction n as [|n IH]; intros workload engine Hg Hb Hn;
    cbn [feed]; destruct (next_release workload) as [[[tx|] workload'] Hnext]; rewrite Hnext;
    cbn [mbind option_bind]; try (by eexists).
  - apply next_inv in Hnext as [Hleft _ _ _ _ _ _]. lia.
  - destruct (ingest_release engine tx) as [[[[]|e] engine'] ->]; [|by eexists].
    apply next_inv in Hnext as [Hleft _ _ _ Hcount Hgen _].
    apply u64_add_count with (m := tx_count workload) in Hgen; [|lia..].
    apply IH; rewrite ?Hcount; lia.
Qed.

Lemma run_simulation_release policy_name sc seed count config sla :
  is_u64 count -> is_Some (run_simulation Release policy_name sc seed count config sla).
Proof.
  intros [Hc0 Hc1]. unfold run_simulation.
  set (engine := PipelineEngine_new _ _ _ _ _ _).
  destruct (feed_release (Z.to_nat count) (WorkloadGenerator_new sc count seed 50) engine)
    as [[[[]|e] engine1] ->]; [simpl; lia..| |by eexists].
  cbn [mbind option_bind].
  destruct (flush_release engine1) as [[[[]|e] engine2] ->]; cbn [mbind option_bind];
    [|by eexists].
  unfold engine_finalize, finalize.
  match goal with |- context [aggregate_metrics Release ?a ?b ?c ?d] =>
    destruct (aggregate_release a b c d) as [m ->] end.
  by eexists.
Qed.
End release.

(** ** The properties *)

(** A comparison that succeeds reports on every policy and every scenario,
    in order, and each report accounts for all the transactions of its
    workload, in at most as many batches. *)
Theorem comparison_reports `{Sp1Laws, RngLaws} prof seed count config sla rs :
  is_u64 count -> run_comparison prof seed count config sla = Some (Ok rs) ->
  map (fun m => (sm_policy_name m, sm_scenario_name m)) rs =
    map (fun c => (c.1, Scenario_name c.2)) comparison_grid /\
  Forall (fun m => sm_total_transactions m = count /\ 0 <= sm_total_batches m <= count /\
    (0 < count -> 0 < sm_total_batches m)) rs.
Proof.
  intros Hc Hrun. apply run_grid_reports in Hrun as (rs' & -> & Hall); [exact Hall|exact Hc].
Qed.

(** C33: In a release build every comparison runs to its end, with its reports or
    with the error of the first batch that fails: one call of the generator
    more than there are transactions and one turn of [flush] are enough. *)
Theorem comparison_terminates `{Sp1Laws, RngLaws} seed count config sla :
  is_u64 count -> is_Some (run_comparison Release seed count config sla).
Proof.
  intros Hc. unfold run_comparison. generalize comparison_grid ([] : list SystemMetrics).
  induction l as [|[policy sc] grid IH]; intros acc; cbn [run_grid]; [by eexists|].
  destruct (run_simulation_release policy sc seed count config sla Hc) as [[m|e] ->];
    [apply IH|by eexists].
Qed.

(** C22: A simulation whose workload contains the unknown opcode its generator
    makes never succeeds, whatever the policy, the scenario and the seed. *)
Theorem simulation_aborts `{Sp1Laws, RngLaws} prof policy_name sc seed count config sla txs tx op :
  5000 * count < u64_bound -> is_u64 count ->
  collect prof (S (Z.to_nat count)) (WorkloadGenerator_new sc count seed 50) = Some txs ->
  tx ∈ txs -> decode (instruction_data tx) = IInvalid op ->
  ~ exists m, run_simulation prof policy_name sc seed count config sla = Some (Ok m).
Proof.
  intros Hb [Hc0 Hc1] Hcol Hin Hop [m Hsim]. apply run_simulation_inv in Hsim as (txs' & engine' & Hcol' & Hrun & _).
  rewrite Hcol in Hcol'. injection Hcol' as <-.
  apply collect_output in Hcol as [Hids _]; [|simpl; lia..].
  apply (f_equal length) in Hids. rewrite !length_map, length_seqZ in Hids. simpl in Hids.
  apply run_no_invalid in Hrun; [|by split|simpl; lia].
  by eapply (proj1 (Forall_forall _ _) Hrun).
Qed.
