(* ===== verification/Wire.v ===== *)
(** * JSON on the wire

    The nodes and the client talk in lines of JSON, through [serde_json] and
    the code its derive macros generate.  Both are third-party: this file is the
    interface the rest of the development uses.  A [#[derive(Serialize)]]
    record is the list of its named fields, a [#[derive(Deserialize)]] record a
    list of names with their types, as the record declares them; [JsonLib] has
    the operations on JSON values and texts, and [JsonLaws] what [serde_json]
    documents about them. *)

From Stdlib Require Import ZArith Lia Ascii String Bool Strings.Byte.
From stdpp Require Import base gmap strings list.
From S2P Require Import Prelude RustNum.

Local Open Scope Z_scope.

(** The line feed that ends a message. *)
Definition newline : ascii := "010"%char.
Definition nl : string := String newline EmptyString.

(** ** Records *)

(** The type of a field: [String], [u64] or [usize], [Vec<u8>],
    [Option<String>], [serde_json::Value], and a nested record. *)
Inductive field_ty :=
| TString
| TU64
| TBytes
| TOptString
| TValue
| TRecord (fs : list (string * field_ty)).

(** A field's value, over the type [V] of JSON values. *)
Inductive field (V : Type) :=
| FString (s : string)
| FU64 (z : Z)
| FBytes (l : list byte)
| FOptString (o : option string)
| FValue (v : V)
| FRecord (fs : list (string * field V)).
Arguments FString {V}.
Arguments FU64 {V}.
Arguments FBytes {V}.
Arguments FOptString {V}.
Arguments FValue {V}.
Arguments FRecord {V}.

(** What a parser of type [t] can return. *)
Fixpoint field_of {V} (f : field V) (t : field_ty) {struct f} : Prop :=
  match f, t with
  | FString _, TString | FBytes _, TBytes | FOptString _, TOptString | FValue _, TValue => True
  | FU64 z, TU64 => is_u64 z
  | FRecord fs, TRecord ts =>
      (fix go fs ts : Prop :=
         match fs, ts with
         | [], [] => True
         | (n, f) :: fs, (m, t) :: ts => n = m /\ field_of f t /\ go fs ts
         | _, _ => False
         end) fs ts
  | _, _ => False
  end.

(** ** The library *)

Class JsonLib := {
  Value : Type;
  JNull : Value;
  JString : string -> Value;
  JNumber : Z -> Value;                                   (* an unsigned integer *)
  JArray : list Value -> Value;
  JObject : list (string * Value) -> Value;               (* [json!({ .. })] *)
  value_get : Value -> string -> option Value;            (* [Value::get] *)
  value_as_str : Value -> option string;
  value_as_u64 : Value -> option Z;
  value_as_array : Value -> option (list Value);
  json_text : Value -> string;                            (* [to_vec], and [Display] *)
  json_pretty : Value -> string;                          (* [to_string_pretty] *)
  from_text : list (string * field_ty) -> string -> result string (list (field Value));
                                                          (* [from_str] of a derived record *)
  from_value : list (string * field_ty) -> Value -> result string (list (field Value));
  plain : nat -> Value -> Prop;    (* no floating-point number, at most so deep *)
}.

(** [serde_json] gives up on texts nested deeper than 127; what goes over the
    wire is far from it. *)
Definition max_depth : nat := 100.

Section library.
Context `{JsonLib}.

(** What the derived [Serialize] makes of a field. *)
Fixpoint ser (f : field Value) : Value :=
  match f with
  | FString s => JString s
  | FU64 z => JNumber z
  | FBytes l => JArray (map (fun b => JNumber (u8_to_Z b)) l)
  | FOptString (Some s) => JString s
  | FOptString None => JNull
  | FValue v => v
  | FRecord fs => JObject (map (fun kv => (kv.1, ser kv.2)) fs)
  end.

Definition record_text (fs : list (string * field Value)) : string := json_text (ser (FRecord fs)).

(** The first entry of a key. *)
Definition assoc (k : string) (kvs : list (string * Value)) : option Value :=
  snd <$> List.find (fun kv => String.eqb kv.1 k) kvs.

(** A value of a field's type; a record's fields in their order, with different
    names.  A JSON
    value that is only passed along must be [plain]. *)
Fixpoint has_ty (f : field Value) (t : field_ty) {struct f} : Prop :=
  match f, t with
  | FString _, TString | FBytes _, TBytes | FOptString _, TOptString => True
  | FU64 z, TU64 => is_u64 z
  | FValue v, TValue => plain max_depth v
  | FRecord fs, TRecord ts =>
      NoDup (map fst ts) /\
      (fix go fs ts : Prop :=
         match fs, ts with
         | [], [] => True
         | (n, f) :: fs, (m, t) :: ts => n = m /\ has_ty f t /\ go fs ts
         | _, _ => False
         end) fs ts
  | _, _ => False
  end.
End library.

(** A record survives its trip through a value or a line, whatever whitespace
    ends the line; a missing field is an error unless it is optional; access to
    what a constructor made; and compact text is one line. *)
Class JsonLaws `{JsonLib} : Prop := {
  plain_null n : plain n JNull;
  plain_string n s : plain n (JString s);
  plain_number n z : is_u64 z -> plain n (JNumber z);
  plain_array n l : Forall (plain n) l -> plain (S n) (JArray l);
  plain_object n kvs : Forall (plain n) (map snd kvs) -> plain (S n) (JObject kvs);
  from_value_record sh fs :
    has_ty (FRecord fs) (TRecord sh) ->
    from_value sh (ser (FRecord fs)) = Ok (map snd fs);
  from_text_record sh fs tail :
    has_ty (FRecord fs) (TRecord sh) -> tail = "" \/ tail = nl ->
    from_text sh (record_text fs +:+ tail) = Ok (map snd fs);
  from_text_missing sh fs tail n t :
    (n, t) ∈ sh -> t <> TOptString -> n ∉ map fst fs -> tail = "" \/ tail = nl ->
    exists e, from_text sh (record_text fs +:+ tail) = Err e;
  from_text_typed sh text l : from_text sh text = Ok l -> Forall2 field_of l (map snd sh);
  from_value_typed sh v l : from_value sh v = Ok l -> Forall2 field_of l (map snd sh);
  value_get_object kvs k : NoDup (map fst kvs) -> value_get (JObject kvs) k = assoc k kvs;
  as_str_string s : value_as_str (JString s) = Some s;
  as_u64_number z : is_u64 z -> value_as_u64 (JNumber z) = Some z;
  as_array_array l : value_as_array (JArray l) = Some l;
  json_text_line v : free_of newline (json_text v) = true;
}.

(** ** Requests and responses

    The three programs declare the same two records. *)

Section rpc.
Context `{JsonLib}.

Record RpcCall := mkRpcCall { rc_method : string; rc_params : Value; rc_id : Z }.

Record RpcReply := mkRpcReply { ry_result : Value; ry_id : Z; ry_error : option string }.

Definition call_shape : list (string * field_ty) :=
  [("method", TString); ("params", TValue); ("id", TU64)].
Definition reply_shape : list (string * field_ty) :=
  [("result", TValue); ("id", TU64); ("error", TOptString)].

Definition call_fields (r : RpcCall) : list (string * field Value) :=
  [("method", FString (rc_method r)); ("params", FValue (rc_params r)); ("id", FU64 (rc_id r))].
Definition reply_fields (r : RpcReply) : list (string * field Value) :=
  [("result", FValue (ry_result r)); ("id", FU64 (ry_id r)); ("error", FOptString (ry_error r))].

(** [serde_json::to_vec] and the line feed. *)
Definition call_line (r : RpcCall) : string := record_text (call_fields r) +:+ nl.
Definition reply_line (r : RpcReply) : string := record_text (reply_fields r) +:+ nl.

(** [serde_json::from_str]; the last case never occurs. *)
Definition parse_call (line : string) : result string RpcCall :=
  from_text call_shape line ≫= fun fs =>
  match fs with
  | [FString m; FValue p; FU64 i] => Ok (mkRpcCall m p i)
  | _ => Err ""
  end.
Definition parse_reply (line : string) : result string RpcReply :=
  from_text reply_shape line ≫= fun fs =>
  match fs with
  | [FValue v; FU64 i; FOptString e] => Ok (mkRpcReply v i e)
  | _ => Err ""
  end.
End rpc.

Section rpc_facts.
Context `{JsonLaws}.

(** An object of typed fields is a plain value. *)
Lemma plain_flat n kvs :
  Forall (fun kv => plain n kv.2) kvs -> plain (S n) (JObject kvs).
Proof. intros Hk. apply plain_object, Forall_map, Hk. Qed.

Lemma plain_bytes n (l : list byte) : plain (S n) (ser (FBytes l)).
Proof.
  cbn [ser]. apply plain_array, Forall_map, Forall_true. intros b. apply plain_number.
  pose proof (u8_to_Z_range b). unfold is_u64, u64_bound. lia.
Qed.

Lemma parse_call_line r tail :
  plain max_depth (rc_params r) -> is_u64 (rc_id r) -> tail = "" \/ tail = nl ->
  parse_call (record_text (call_fields r) +:+ tail) = Ok r.
Proof.
  intros Hp Hi Ht. unfold parse_call. rewrite from_text_record; [by destruct r| |done].
  split; [|done]. apply (bool_decide_unpack _). by vm_compute.
Qed.

Lemma parse_reply_line r :
  plain max_depth (ry_result r) -> is_u64 (ry_id r) -> parse_reply (reply_line r) = Ok r.
Proof.
  intros Hp Hi. unfold parse_reply, reply_line.
  rewrite from_text_record; [by destruct r| |by right].
  split; [|done]. apply (bool_decide_unpack _). by vm_compute.
Qed.

(** A line without a method is no request. *)
Lemma parse_call_missing fs tail :
  "method" ∉ map fst fs -> tail = "" \/ tail = nl ->
  exists e, parse_call (record_text fs +:+ tail) = Err e.
Proof.
  intros Hn Ht. destruct (from_text_missing call_shape fs tail "method" TString) as [e He];
    [left|done..|]. exists e. unfold parse_call. by rewrite He.
Qed.

(** The ids of requests and replies are words. *)
Lemma parse_call_id line r : parse_call line = Ok r -> is_u64 (rc_id r).
Proof.
  intros (fs & Hfs & Hr)%result_bind_Ok. apply from_text_typed in Hfs.
  destruct fs as [|[] [|[] [|[] [|]]]]; try done. injection Hr as <-.
  by inversion_clear Hfs as [|? ? ? ? _ H2]; inversion_clear H2 as [|? ? ? ? _ H3];
    inversion_clear H3.
Qed.
End rpc_facts.
