(* ===== verification/Files.v ===== *)
(** * The proof directory

    Paths and files as the nodes use them.  A file system is a finite map from
    paths to bytes; [std::path] is written out on the names that occur; a write
    that fails or is observed before it ends leaves a prefix of the bytes.  The
    formats of the two files, bincode of the derived [Proof] and the JSON text
    of the derived [ExecutionTrace], are the class [FileCodec]. *)

From Stdlib Require Import ZArith Lia Ascii String Bool Strings.Byte.
From stdpp Require Import base gmap strings list.
From S2P Require Import Prelude RustNum Types.

Local Open Scope Z_scope.

(** ** Formats *)

Class FileCodec := {
  bincode_proof : BatchProof -> result string (list byte);
  unbincode_proof : list byte -> result string BatchProof;
  trace_json : ExecutionTrace -> result string (list byte);
  trace_from_json : list byte -> result string ExecutionTrace;
}.

(** Reading back what was written, and nothing from a truncated file. *)
Class FileLaws `{FileCodec} : Prop := {
  proof_file_roundtrip pf bs : bincode_proof pf = Ok bs -> unbincode_proof bs = Ok pf;
  proof_file_truncated pf bs k :
    bincode_proof pf = Ok bs -> (k < length bs)%nat -> is_ok (unbincode_proof (take k bs)) = false;
  trace_file_roundtrip t bs : trace_json t = Ok bs -> trace_from_json bs = Ok t;
  trace_file_truncated t bs k :
    trace_json t = Ok bs -> (k < length bs)%nat -> is_ok (trace_from_json (take k bs)) = false;
}.

(** ** Paths *)

(** The last character of a non-empty string. *)
Fixpoint last_char (s : string) : option ascii :=
  match s with
  | EmptyString => None
  | String a EmptyString => Some a
  | String _ s => last_char s
  end.

(** [Path::join] (on Unix): an absolute name replaces the directory. *)
Definition path_join (dir name : string) : string :=
  match name with
  | String "/" _ => name
  | _ =>
      match last_char dir with
      | None => name
      | Some "/"%char => dir +:+ name
      | Some _ => dir +:+ "/" +:+ name
      end
  end.

(** The text before and after the last dot. *)
Fixpoint rsplit_dot (s : string) : option (string * string) :=
  match s with
  | EmptyString => None
  | String a s =>
      match rsplit_dot s with
      | Some (before, after) => Some (String a before, after)
      | None => if Ascii.eqb a "." then Some (EmptyString, s) else None
      end
  end.

(** [Path::extension] and [Path::file_stem] of a directory entry: a name whose
    only dot is the first character has no extension. *)
Definition extension (name : string) : option string :=
  match rsplit_dot name with
  | Some (EmptyString, _) | None => None
  | Some (_, after) => Some after
  end.
Definition file_stem (name : string) : string :=
  match rsplit_dot name with
  | Some (EmptyString, _) | None => name
  | Some (before, _) => before
  end.

Definition proof_path (dir batch_id : string) : string := path_join dir (batch_id +:+ ".proof").
Definition trace_path (dir batch_id : string) : string := path_join dir (batch_id +:+ ".trace").

(** ** Files *)

Abbreviation files := (gmap string (list byte)).

(** [tokio::fs::write]: it creates and truncates the file first, so a failure
    leaves a prefix of the bytes, or what was there if the file could not be
    opened. *)
Inductive write_outcome :=
| Written
| NotOpened (e : string)
| Torn (e : string) (k : nat).

Definition write_file (path : string) (bytes : list byte) (w : write_outcome) (fs : files)
    : result string unit * files :=
  match w with
  | Written => (Ok tt, <[path := bytes]> fs)
  | NotOpened e => (Err e, fs)
  | Torn e k => (Err e, <[path := take k bytes]> fs)
  end.

(** [tokio::fs::read]; the text of the error is the operating system's. *)
Definition read_file (missing : string) (fs : files) (path : string) : result string (list byte) :=
  match fs !! path with
  | Some bytes => Ok bytes
  | None => Err missing
  end.

(** ** Facts about paths *)

Lemma string_app_assoc s t u : (s +:+ t) +:+ u = s +:+ t +:+ u.
Proof.
  induction s as [|a s IH]; [done|].
  change (String a ((s +:+ t) +:+ u) = String a (s +:+ t +:+ u)). by rewrite IH.
Qed.

(** A path is the name after something that depends only on the directory. *)
Lemma path_join_relative dir name c rest :
  name = String c rest -> c <> "/"%char ->
  path_join dir name =
    match last_char dir with
    | None => ""
    | Some "/"%char => dir
    | Some _ => dir +:+ "/"
    end +:+ name.
Proof.
  intros -> Hc. assert (forall a b d : string,
    match String c rest with String "/" _ => a | _ => b end = b) as Hm.
  { intros a b _. destruct c as [[] [] [] [] [] [] [] []]; done. }
  unfold path_join. rewrite Hm by exact "". destruct (last_char dir) as [l|]; [|done].
  assert (forall x, (dir +:+ "/") +:+ x = dir +:+ "/" +:+ x) as Ha
    by (intros x; apply string_app_assoc).
  destruct l as [[] [] [] [] [] [] [] []]; try rewrite Ha; done.
Qed.

Lemma last_char_app s t : t <> "" -> last_char (s +:+ t) = last_char t.
Proof.
  intros Ht. induction s as [|a s IH]; [done|]. simpl.
  destruct (s +:+ t) as [|b u] eqn:E; [|exact IH].
  destruct s; simpl in E; [by subst|done].
Qed.

Lemma last_char_join dir name : name <> "" -> last_char (path_join dir name) = last_char name.
Proof.
  intros Hn. unfold path_join.
  assert (forall x, last_char (match last_char dir with None => name | Some "/"%char => dir +:+ name
    | Some _ => dir +:+ "/" +:+ name end) = x -> last_char name = x) as H.
  { intros x <-. destruct (last_char dir) as [l|]; [|done].
    destruct l as [[] [] [] [] [] [] [] []]; rewrite ?last_char_app by done; done. }
  symmetry. destruct name as [|[[] [] [] [] [] [] [] []] rest]; try done; by apply H.
Qed.

Lemma proof_path_ne_trace_path dir1 id1 dir2 id2 : proof_path dir1 id1 <> trace_path dir2 id2.
Proof.
  intros Heq. apply (f_equal last_char) in Heq. unfold proof_path, trace_path in Heq.
  rewrite !last_char_join, !last_char_app in Heq; try done; by destruct id1, id2.
Qed.

(** The stem of a proof file is the batch id it was saved under. *)
Lemma rsplit_dot_free s : free_of "." s = true -> rsplit_dot s = None.
Proof.
  induction s as [|a s IH]; [done|]. unfold free_of. simpl. intros [Ha Hs]%andb_true_iff.
  rewrite IH by done. by destruct (Ascii.eqb a ".").
Qed.

Lemma rsplit_dot_app s t : free_of "." t = true -> rsplit_dot (s +:+ String "." t) = Some (s, t).
Proof.
  intros Ht. induction s as [|a s IH]; simpl; [by rewrite rsplit_dot_free|]. by rewrite IH.
Qed.

Lemma extension_proof id : id <> "" -> extension (id +:+ ".proof") = Some "proof".
Proof. intros Hid. unfold extension. rewrite rsplit_dot_app by done. by destruct id. Qed.

Lemma file_stem_proof id : id <> "" -> file_stem (id +:+ ".proof") = id.
Proof. intros Hid. unfold file_stem. rewrite rsplit_dot_app by done. by destruct id. Qed.
