(* ===== verification/ValidatorNode.v ===== *)
(** * The validator node ([examples/validator/src/main.rs])

    The state behind the node's [RwLock], the operations that take the lock, and
    the processing of a sealed batch that runs between two of them.  Lines of
    JSON, connections and files are in [ValidatorNet]: here a request arrives as
    its method and its already parsed parameters, and what the environment
    decides during a call (the readings of the system clock, the outcome of
    writing the proof files) is the record [Env].  [None] is a panic. *)

From Stdlib Require Import ZArith Lia Ascii String Bool Strings.Byte.
From stdpp Require Import base gmap strings list list_numbers.
From S2P Require Import Prelude RustNum RustFmt Float64 Merkle Types TraceBuilder Isa Executor.
From S2P Require Import ExecutorFacts TraceFacts Guest Sp1 Agreement Soundness Policy.

Local Open Scope Z_scope.

Record SubmitTxParams := mkSubmitTxParams {
  sp_sender : string;
  sp_program_id : string;
  sp_instruction_data : list byte;
  sp_priority : option string;
}.

Record ProofRecord := mkProofRecord {
  pr_batch_id : string;
  pr_proof_hash : string;
  pr_state_root_pre : string;
  pr_state_root_post : string;
  pr_tx_count : Z;
  pr_proving_time_ms : Z;
  pr_proof_size_bytes : Z;
  pr_timestamp : Z;
}.

Record ValidatorState := mkValidatorState {
  pending_txs : list Transaction;
  vs_batches : list Batch;
  proofs : list ProofRecord;
  vs_state : gmap string Z;
  tx_counter : Z;
  vs_batch_counter : Z;
}.

Definition ValidatorState_default : ValidatorState := {|
  pending_txs := [];
  vs_batches := [];
  proofs := [];
  vs_state :=
    foldl (fun state i => <["account_" +:+ fmt_u64 i := 1000000]> state) ∅ (seqZ 0 100);
  tx_counter := 0;
  vs_batch_counter := 0;
|}.

Inductive PolicyType := PtFixed | PtTime | PtHybrid | PtAdaptive.

Record Args := mkArgs {
  arg_rpc_port : Z;
  arg_proof_dir : string;
  arg_policy : PolicyType;
  arg_batch_size : Z;
  arg_batch_timeout_ms : Z;
  arg_broadcast_addr : option string;
}.

(** The defaults of the command line. *)
Definition Args_default : Args := mkArgs 8899 "./proofs" PtHybrid 10 5000 None.

(** The fields of [Validator] other than the state behind the lock. *)
Record Validator := mkValidator {
  v_policy : BoxPolicy;
  v_executor : FullExecutor;
  v_prover : Sp1Prover;
  v_proof_dir : string;
  v_batch_size : Z;
  v_broadcast_addr : option string;
}.

Definition Validator_new (args : Args) : Validator := {|
  v_policy :=
    match arg_policy args with
    | PtFixed => BoxFixedCount (FixedCountPolicy_new (arg_batch_size args))
    | PtTime => BoxFixedTime (FixedTimePolicy_new (arg_batch_timeout_ms args))
    | PtHybrid =>
        BoxHybrid (HybridPolicy_new (arg_batch_size args) (arg_batch_timeout_ms args))
    | PtAdaptive =>
        BoxAdaptive (AdaptivePolicy_new (arg_batch_size args) 200 (arg_batch_timeout_ms args) 100)
    end;
  v_executor := FullExecutor_new 200000;
  v_prover := mkSp1Prover;
  v_proof_dir := arg_proof_dir args;
  v_batch_size := arg_batch_size args;
  v_broadcast_addr := arg_broadcast_addr args;
|}.

(** What a call learns from outside: the successive readings of the system
    clock, the clock the prover is handed, and whether the files were
    written. *)
Record Env (C : Type) := mkEnv {
  e_now : nat -> Z;
  e_clock : C;
  e_save : result string unit;
}.
Arguments mkEnv {C}.
Arguments e_now {C}.
Arguments e_clock {C}.
Arguments e_save {C}.

(** Replies of the RPC interface. *)
Inductive rpc_result :=
| RNull
| RTxId (tx_id : string)
| RStatus (pending_txs total_batches total_proofs : Z) (policy : string)
| RProofs (l : list ProofRecord)
| RBatchId (batch_id : string).

Record RpcRequest := mkRpcRequest {
  rq_method : string;
  rq_params : result string SubmitTxParams;   (* [serde_json::from_value(req.params)] *)
  rq_id : Z;
}.

Record RpcResponse := mkRpcResponse {
  rs_result : rpc_result;
  rs_id : Z;
  rs_error : option string;
}.

Section validator.
Context `{HashLib, Sp1Sdk} (prof : profile) `{Clock C}.

Definition parse_priority (p : option string) : TransactionPriority :=
  match p with
  | Some s =>
      if String.eqb s "low" then Low
      else if String.eqb s "high" then High
      else if String.eqb s "critical" then Critical
      else Normal
  | None => Normal
  end.

Definition submit_transaction (env : Env C) (params : SubmitTxParams) (s : ValidatorState)
    : option (result string string * ValidatorState) :=
  counter ← u64_add prof (tx_counter s) 1;
  let id := "tx_" +:+ fmt_hex_pad 8 counter in
  let prio := parse_priority (sp_priority params) in
  let tx := Transaction_new (mkTransactionId id) (sp_sender params) (sp_program_id params) in
  let tx := tx_set_instruction_data (sp_instruction_data params) tx in
  let tx := tx_set_priority prio tx in
  let tx := tx_set_arrival_ts (e_now env 0) tx in
  Some (Ok id, {|
    pending_txs := pending_txs s ++ [tx];
    vs_batches := vs_batches s;
    proofs := proofs s;
    vs_state := vs_state s;
    tx_counter := counter;
    vs_batch_counter := vs_batch_counter s |}).

(** The part of [check_and_seal_batch] under the lock: the batch id and the
    transactions drained, if the policy seals.  The [Batch] it also fills in
    (readings 1 and 2 of the clock) is dropped unused. *)
Definition seal_batch (self : Validator) (env : Env C) (s : ValidatorState)
    : option (option (string * list Transaction) * ValidatorState) :=
  match pending_txs s with
  | [] => Some (None, s)
  | oldest :: _ =>
      let queue_len := Z.of_nat (length (pending_txs s)) in
      let oldest_wait_ms := u64_saturating_sub (e_now env 0) (arrival_ts oldest) in
      if negb (should_seal (v_policy self) queue_len oldest_wait_ms f64_zero) then Some (None, s)
      else
        counter ← u64_add prof (vs_batch_counter s) 1;
        let batch_id := "batch_" +:+ fmt_pad 6 counter in
        let n := Z.to_nat (Z.min queue_len (v_batch_size self)) in
        Some (Some (batch_id, take n (pending_txs s)), {|
          pending_txs := drop n (pending_txs s);
          vs_batches := vs_batches s;
          proofs := proofs s;
          vs_state := vs_state s;
          tx_counter := tx_counter s;
          vs_batch_counter := counter |})
  end.

(** The batch [process_batch] builds for the executor. *)
Definition processed_batch (env : Env C) (batch_id : string) (transactions : list Transaction)
    : Batch :=
  let 'mkBatch id _ ts _ r h th ph _ cu := Batch_new batch_id (e_now env 3) in
  mkBatch id (map tx_id transactions) ts (e_now env 4) r h th ph Sealed cu.

(** The part of [process_batch] without the lock: execution and proof. *)
Definition produce_proof (self : Validator) (env : Env C) (batch_id : string)
    (transactions : list Transaction) : option (result string (BatchProof * ExecutionTrace)) :=
  let batch := processed_batch env batch_id transactions in
  executed ← execute_with_transactions prof (v_executor self) batch transactions;
  Some (
    map_err (fun e => "Execution failed: " +:+ ExecError_display e) executed ≫= fun trace =>
    map_err (fun e => "Proving failed: " +:+ ProveError_display e)
      (prove (v_prover self) trace transactions (e_clock env)).1 ≫= fun proof =>
    Ok (proof, trace)).

(** The record of a proof. *)
Definition proof_record (env : Env C) (batch_id : string) (proof : BatchProof) : ProofRecord := {|
  pr_batch_id := batch_id;
  pr_proof_hash := pf_proof_hash proof;
  pr_state_root_pre := pc_state_root_pre (pf_commitment proof);
  pr_state_root_post := pc_state_root_post (pf_commitment proof);
  pr_tx_count := pc_tx_count (pf_commitment proof);
  pr_proving_time_ms := pf_proving_time_ms proof;
  pr_proof_size_bytes := pf_proof_size_bytes proof;
  pr_timestamp := e_now env 5 |}.

(** The same with the files written. *)
Definition prove_batch (self : Validator) (env : Env C) (batch_id : string)
    (transactions : list Transaction) : option (result string ProofRecord) :=
  produced ← produce_proof self env batch_id transactions;
  Some (produced ≫= fun pt =>
        e_save env ≫= fun _ => Ok (proof_record env batch_id pt.1)).

(** The lock taken again to record the proof. *)
Definition push_proof (record : ProofRecord) (s : ValidatorState) : ValidatorState := {|
  pending_txs := pending_txs s;
  vs_batches := vs_batches s;
  proofs := proofs s ++ [record];
  vs_state := vs_state s;
  tx_counter := tx_counter s;
  vs_batch_counter := vs_batch_counter s;
|}.

Definition process_batch (self : Validator) (env : Env C) (batch_id : string)
    (transactions : list Transaction) (s : ValidatorState)
    : option (result string unit * ValidatorState) :=
  proved ← prove_batch self env batch_id transactions;
  Some (match proved with
        | Err e => (Err e, s)
        | Ok record => (Ok tt, push_proof record s)
        end).

(** [check_and_seal_batch] run without interference from other tasks; the
    interleavings are the step relation below. *)
Definition check_and_seal_batch (self : Validator) (env : Env C) (s : ValidatorState)
    : option (option string * ValidatorState) :=
  '(sealed, s) ← seal_batch self env s;
  match sealed with
  | None => Some (None, s)
  | Some (batch_id, transactions) =>
      '(r, s) ← process_batch self env batch_id transactions s;
      Some (match r with Err _ => None | Ok _ => Some batch_id end, s)
  end.

Definition handle_rpc (self : Validator) (env : Env C) (req : RpcRequest) (s : ValidatorState)
    : option (RpcResponse * ValidatorState) :=
  let reply r e := mkRpcResponse r (rq_id req) e in
  let method := rq_method req in
  if String.eqb method "submitTransaction" then
    match rq_params req with
    | Ok p =>
        '(r, s) ← submit_transaction env p s;
        Some (match r with
              | Ok tx_id => reply (RTxId tx_id) None
              | Err e => reply RNull (Some e)
              end, s)
    | Err e => Some (reply RNull (Some ("Invalid params: " +:+ e)), s)
    end
  else if String.eqb method "getStatus" then
    Some (reply (RStatus (Z.of_nat (length (pending_txs s))) (Z.of_nat (length (vs_batches s)))
                   (Z.of_nat (length (proofs s))) (name (v_policy self))) None, s)
  else if String.eqb method "getProofs" then Some (reply (RProofs (proofs s)) None, s)
  else if String.eqb method "forceSeal" then
    '(r, s) ← check_and_seal_batch self env s;
    Some (match r with
          | Some batch_id => reply (RBatchId batch_id) None
          | None => reply RNull (Some "No transactions to seal")
          end, s)
  else Some (reply RNull (Some ("Unknown method: " +:+ method)), s).

(** ** Interleavings

    Connections and the sealing timer run as concurrent tasks.  What they share
    is the state; a batch between its sealing and its proof is in flight.  An
    error ends the processing of a batch, and a panic ends the task it runs in:
    either way the batch is gone. *)

Record Node := mkNode {
  n_state : ValidatorState;
  n_flight : list (string * list Transaction);
  n_submitted : list Transaction;                   (* ghost: the submissions answered, in order *)
  n_sealed : list (string * list Transaction);      (* ghost: in order of sealing *)
}.

(** What a client asks to be executed by a submission, under the id it is
    answered: its sender, program, data and priority ([Normal] when it names none
    or an unknown one), arriving at the reading of the clock. *)
Definition requested (env : Env C) (params : SubmitTxParams) (id : string) : Transaction := {|
  tx_id := mkTransactionId id;
  arrival_ts := e_now env 0;
  sender := sp_sender params;
  program_id := sp_program_id params;
  accounts := [];
  instruction_data := sp_instruction_data params;
  priority := parse_priority (sp_priority params);
  estimated_cu := 200000;
  deadline_ms := None;
|}.

Definition Node_start : Node := mkNode ValidatorState_default [] [] [].

Inductive node_step (self : Validator) : Node -> Node -> Prop :=
| ns_submit env params s fl sub sl id s' :
    submit_transaction env params s = Some (Ok id, s') ->
    node_step self (mkNode s fl sub sl) (mkNode s' fl (sub ++ [requested env params id]) sl)
| ns_seal env s fl sub sl id txs s' :
    seal_batch self env s = Some (Some (id, txs), s') ->
    node_step self (mkNode s fl sub sl) (mkNode s' (fl ++ [(id, txs)]) sub (sl ++ [(id, txs)]))
| ns_proved env s fl1 fl2 sub sl id txs record :
    prove_batch self env id txs = Some (Ok record) ->
    node_step self (mkNode s (fl1 ++ (id, txs) :: fl2) sub sl)
      (mkNode (push_proof record s) (fl1 ++ fl2) sub sl)
| ns_lost env s fl1 fl2 sub sl id txs :
    (forall record, prove_batch self env id txs <> Some (Ok record)) ->
    node_step self (mkNode s (fl1 ++ (id, txs) :: fl2) sub sl) (mkNode s (fl1 ++ fl2) sub sl).

Inductive node_reach (self : Validator) : Node -> Prop :=
| nr_start : node_reach self Node_start
| nr_step n n' : node_reach self n -> node_step self n n' -> node_reach self n'.
End validator.
