(* ===== verification/ValidatorFacts.v ===== *)
(** * What the validator node guarantees

    Over every interleaving of submissions, sealings and batches in flight:
    transactions are sealed in the order they were submitted, under distinct
    ids, and every proof the node publishes is of the true execution of a batch
    it sealed. *)

From Stdlib Require Import ZArith Lia Ascii String Bool Strings.Byte.
From stdpp Require Import base gmap strings list list_numbers.
From S2P Require Import Prelude RustNum RustFmt Float64 Merkle Types TraceBuilder Isa Executor.
From S2P Require Import ExecutorFacts TraceFacts Guest Sp1 Agreement Soundness Policy.
From S2P Require Import ValidatorNode.

Local Open Scope Z_scope.

Definition node_tx_id (i : Z) : TransactionId := mkTransactionId ("tx_" +:+ fmt_hex_pad 8 i).
Definition node_batch_id (i : Z) : string := "batch_" +:+ fmt_pad 6 i.

Lemma node_tx_id_inj i j : 0 <= i -> 0 <= j -> node_tx_id i = node_tx_id j -> i = j.
Proof. intros Hi Hj [= Heq%append_inj_r]. by eapply fmt_hex_pad_inj. Qed.

Lemma node_batch_id_inj i j : 0 <= i -> 0 <= j -> node_batch_id i = node_batch_id j -> i = j.
Proof. intros Hi Hj Heq%append_inj_r. by eapply fmt_pad_inj. Qed.

(** Numbering with an injective function. *)
Lemma NoDup_numbered {A} (f : Z -> A) n :
  (forall i j, 0 <= i -> 0 <= j -> f i = f j -> i = j) -> NoDup (map f (seqZ 1 n)).
Proof.
  intros Hf. apply NoDup_fmap_2_strong; [|apply NoDup_seqZ].
  intros i j Hi%elem_of_seqZ Hj%elem_of_seqZ. apply Hf; lia.
Qed.

Lemma map_seqZ_snoc {A} (f : Z -> A) n :
  0 <= n -> map f (seqZ 1 (n + 1)) = map f (seqZ 1 n) ++ [f (n + 1)].
Proof.
  intros Hn. rewrite seqZ_app, map_app by lia. f_equal.
  rewrite seqZ_cons, seqZ_nil by lia. cbn [map]. do 2 f_equal. lia.
Qed.

Section facts.
Context `{HashLib, Sp1Sdk} (prof : profile) `{Clock C}.

Lemma submit_inv (env : Env C) params s id s' :
  submit_transaction prof env params s = Some (Ok id, s') ->
  pending_txs s' = pending_txs s ++ [requested env params id] /\
  u64_add prof (tx_counter s) 1 = Some (tx_counter s') /\
  mkTransactionId id = node_tx_id (tx_counter s') /\
  vs_batch_counter s' = vs_batch_counter s /\ proofs s' = proofs s.
Proof. by intros (n & Hn & [= <- <-])%bind_Some. Qed.

(** What sealing takes: a prefix of at most [batch_size] transactions. *)
Lemma seal_inv (self : Validator) (env : Env C) s id txs s' :
  1 <= v_batch_size self -> seal_batch prof self env s = Some (Some (id, txs), s') ->
  pending_txs s = txs ++ pending_txs s' /\ 1 <= Z.of_nat (length txs) <= v_batch_size self /\
  u64_add prof (vs_batch_counter s) 1 = Some (vs_batch_counter s') /\
  id = node_batch_id (vs_batch_counter s') /\
  tx_counter s' = tx_counter s /\ proofs s' = proofs s.
Proof.
  intros Hsz. unfold seal_batch. destruct (pending_txs s) as [|tx l] eqn:Hp; [done|].
  destruct (negb _); [done|]. intros (n & Hn & Heq)%bind_Some.
  set (k := Z.to_nat _) in Heq. injection Heq as <- <- <-.
  cbn [pending_txs vs_batch_counter tx_counter proofs].
  assert (k = Nat.min (length (tx :: l)) (Z.to_nat (v_batch_size self))) as Hk by lia.
  clearbody k. split; [by rewrite take_drop|]. split; [|done].
  rewrite length_take. simpl length in *. lia.
Qed.

Lemma seal_none (self : Validator) (env : Env C) s s' :
  seal_batch prof self env s = Some (None, s') -> s' = s.
Proof.
  unfold seal_batch. destruct (pending_txs s) as [|tx l]; [congruence|].
  destruct (negb _); [congruence|]. by intros (n & Hn & [=])%bind_Some.
Qed.

(** *** The invariant of the node *)

Definition batch_ids (l : list (string * list Transaction)) : list string := map fst l.

Record node_inv (self : Validator) (n : Node) : Prop := {
  ni_fifo : mjoin (map snd (n_sealed n)) ++ pending_txs (n_state n) = n_submitted n;
  ni_count : tx_counter (n_state n) = Z.of_nat (length (n_submitted n));
  ni_ids : map tx_id (n_submitted n) = map node_tx_id (seqZ 1 (tx_counter (n_state n)));
  ni_sealed : vs_batch_counter (n_state n) = Z.of_nat (length (n_sealed n));
  ni_names : batch_ids (n_sealed n) = map node_batch_id (seqZ 1 (vs_batch_counter (n_state n)));
  ni_sizes :
    Forall (fun b => 1 <= Z.of_nat (length b.2) <= v_batch_size self) (n_sealed n);
  ni_flight : n_flight n ⊆+ n_sealed n;
  ni_proofs :
    map pr_batch_id (proofs (n_state n)) ++ batch_ids (n_flight n) ⊆+ batch_ids (n_sealed n);
}.

Lemma node_inv_start self : node_inv self Node_start.
Proof. split; try done; constructor. Qed.

(** Nonempty batches are no more than the transactions. *)
Lemma length_batches (l : list (string * list Transaction)) n :
  Forall (fun b => 1 <= Z.of_nat (length b.2) <= n) l ->
  (length l <= length (mjoin (map snd l)))%nat.
Proof.
  induction 1 as [|b l Hb Hl IH]; [done|]. cbn [map]. simpl. rewrite length_app. lia.
Qed.

(** A published record is that of a proof that was produced and saved. *)
Lemma prove_batch_inv (self : Validator) (env : Env C) id txs r :
  prove_batch prof self env id txs = Some (Ok r) <->
  exists pf t, produce_proof prof self env id txs = Some (Ok (pf, t)) /\ e_save env = Ok tt /\
    r = proof_record env id pf.
Proof.
  unfold prove_batch. split.
  - intros (pt & -> & [= Hr])%bind_Some. apply result_bind_Ok in Hr as ([pf t] & -> & Hr).
    apply result_bind_Ok in Hr as ([] & -> & [= <-]). by exists pf, t.
  - intros (pf & t & -> & Hs & ->). simpl. by rewrite Hs.
Qed.

Lemma prove_batch_id (self : Validator) (env : Env C) id txs r :
  prove_batch prof self env id txs = Some (Ok r) -> pr_batch_id r = id.
Proof. by intros (pf & t & _ & _ & ->)%prove_batch_inv. Qed.

Lemma node_inv_step self n n' :
  1 <= v_batch_size self -> Z.of_nat (length (n_submitted n')) < u64_bound ->
  node_inv self n -> node_step prof self n n' -> node_inv self n'.
Proof.
  intros Hsz Hlen [] Hstep. destruct Hstep as [env params s fl sub sl id s' Hsub
    |env s fl sub sl id txs s' Hseal|env s fl1 fl2 sub sl id txs r Hpr
    |env s fl1 fl2 sub sl id txs Hpr]; simpl in *.
  - apply submit_inv in Hsub as (Hpend & Hadd & Hid & Hb & Hpf).
    rewrite length_app in Hlen. simpl in Hlen.
    assert (tx_counter s' = tx_counter s + 1) as Hc.
    { unfold u64_add in Hadd. rewrite u64_arith_in in Hadd by (split; lia). congruence. }
    split; simpl; rewrite ?Hb, ?Hpf; try done.
    + rewrite Hpend, <-ni_fifo0. by rewrite app_assoc.
    + rewrite length_app. simpl. lia.
    + rewrite map_app, ni_ids0, Hc, map_seqZ_snoc by lia. cbn [map]. by rewrite <-Hc, <-Hid.
  - apply seal_inv in Hseal as (Hp & Htxs & Hadd & -> & Ht & Hpf); [|done].
    pose proof (length_batches _ _ ni_sizes0) as Hle. rewrite <-ni_fifo0, length_app in Hlen.
    assert (vs_batch_counter s' = vs_batch_counter s + 1) as Hc.
    { rewrite Hp, length_app in Hlen. unfold u64_add in Hadd.
      rewrite u64_arith_in in Hadd by (split; lia). congruence. }
    split; simpl; rewrite ?Ht, ?Hpf; try done.
    + rewrite map_app, join_app, <-app_assoc. cbn [map]. simpl mjoin at 2.
      rewrite app_nil_r. by rewrite <-Hp.
    + rewrite length_app. simpl. lia.
    + unfold batch_ids in *. rewrite map_app, ni_names0, Hc, map_seqZ_snoc by lia.
      done.
    + apply Forall_app. split; [done|]. by constructor.
    + by apply submseteq_skips_r.
    + unfold batch_ids in *. rewrite !map_app, app_assoc. by apply submseteq_skips_r.
  - pose proof (prove_batch_id _ _ _ _ _ Hpr) as Hid.
    split; simpl; try done.
    + etransitivity; [|exact ni_flight0]. apply submseteq_skips_l. apply submseteq_cons; done.
    + etransitivity; [|exact ni_proofs0]. unfold batch_ids. rewrite !map_app. cbn [map fst].
      rewrite Hid. apply Permutation_submseteq. solve_Permutation.
  - split; simpl; try done.
    + etransitivity; [|exact ni_flight0]. apply submseteq_skips_l. apply submseteq_cons; done.
    + etransitivity; [|exact ni_proofs0]. apply submseteq_skips_l. unfold batch_ids.
      rewrite !map_app. apply submseteq_skips_l. by apply submseteq_cons.
Qed.

(** Submissions are never forgotten. *)
Lemma node_step_submitted self n n' :
  node_step prof (C := C) self n n' -> (length (n_submitted n) <= length (n_submitted n'))%nat.
Proof. destruct 1; simpl; rewrite ?length_app; lia. Qed.

Lemma node_reach_inv self n :
  1 <= v_batch_size self -> Z.of_nat (length (n_submitted n)) < u64_bound ->
  node_reach prof (C := C) self n -> node_inv self n.
Proof.
  intros Hsz Hlen. induction 1 as [|n n' Hr IH Hst]; [apply node_inv_start|].
  eapply node_inv_step; [done|done| |exact Hst]. apply IH.
  pose proof (node_step_submitted _ _ _ Hst). lia.
Qed.
End facts.

(** ** Published proofs *)

(** A record of the true execution of [txs] from the initial balances of its
    senders. *)
Definition genuine `{HashLib} (txs : list Transaction) (r : ProofRecord) : Prop :=
  pr_state_root_pre r = state_root (init_balances txs) /\
  pr_state_root_post r = state_root (machine_run (ledger_txs txs) (init_balances txs)) /\
  pr_tx_count r = Z.of_nat (length txs).

Section published.
Context `{Sp1Laws} (prof : profile) `{Clock C}.

(** What the node produces for a batch: the trace of executing it from the
    initial balances of its senders, and the prover's proof of that trace. *)
Lemma produce_proof_inv (self : Validator) (env : Env C) id txs pf t :
  txs <> [] -> produce_proof prof self env id txs = Some (Ok (pf, t)) ->
  execute_with_transactions prof (v_executor self) (processed_batch env id txs) txs =
    Some (Ok t) /\
  exists clk', prove_with_transactions (v_prover self) t txs (init_balances txs) (e_clock env) =
    (Ok pf, clk').
Proof.
  intros Hne (ex & Hex & [= Hr])%bind_Some.
  apply result_bind_Ok in Hr as (t' & Ht & Hr). apply result_bind_Ok in Hr as (pf' & Hp & Hr).
  injection Hr as -> ->. apply map_err_Ok in Ht as ->. apply map_err_Ok in Hp.
  split; [done|]. destruct txs as [|tx txs]; [done|].
  cbn [prove Sp1Prover_Prover Sp1Prover_prove] in Hp.
  change (sender_balances (tx :: txs)) with (init_balances (tx :: txs)) in Hp.
  destruct (prove_with_transactions _ _ _ _ _) as [res clk']. simpl in Hp. subst res.
  by eexists.
Qed.

(** Its commitment is that of the machine run on the batch. *)
Lemma produce_proof_genuine (self : Validator) (env : Env C) id txs pf t :
  txs <> [] -> produce_proof prof self env id txs = Some (Ok (pf, t)) ->
  genuine txs (proof_record env id pf).
Proof.
  intros Hne Hpr. apply produce_proof_inv in Hpr as [_ [clk' Hpw]]; [|done].
  apply prove_with_transactions_ok in Hpw
    as (p & pi & _ & _ & Hrun & _ & _ & _ & _ & Hpre & Hpost & Hn).
  apply guest_main_inv in Hrun as (E1 & E2 & _ & (F1 & F2 & _) & _ & G1 & G2);
    [|apply init_balances_u64].
  cbn [in_trace in_txs in_state ExecutionTraceInput_from ti_state_root_pre ti_state_root_post
    ti_tx_count] in *.
  rewrite guest_txs_from in E2. rewrite length_map in G1.
  unfold genuine, proof_record. cbn [pr_state_root_pre pr_state_root_post pr_tx_count].
  split_and!; congruence.
Qed.

Lemma prove_batch_genuine (self : Validator) (env : Env C) id txs r :
  txs <> [] -> prove_batch prof self env id txs = Some (Ok r) -> genuine txs r.
Proof.
  intros Hne (pf & t & Hpr & _ & ->)%prove_batch_inv. by eapply produce_proof_genuine.
Qed.

Lemma published_step (self : Validator) n n' :
  1 <= v_batch_size self -> Z.of_nat (length (n_submitted n')) < u64_bound ->
  node_inv self n -> node_step prof (C := C) self n n' ->
  Forall (fun r => exists txs, (pr_batch_id r, txs) ∈ n_sealed n /\ genuine txs r)
    (proofs (n_state n)) ->
  Forall (fun r => exists txs, (pr_batch_id r, txs) ∈ n_sealed n' /\ genuine txs r)
    (proofs (n_state n')).
Proof.
  intros Hsz Hlen [] Hstep Hall. destruct Hstep as [env params s fl sub sl id s' Hsub
    |env s fl sub sl id txs s' Hseal|env s fl1 fl2 sub sl id txs r Hpr
    |env s fl1 fl2 sub sl id txs Hpr]; simpl in *; [| | |done].
  - by apply submit_inv in Hsub as (_ & _ & _ & _ & ->).
  - apply seal_inv in Hseal as (_ & _ & _ & _ & _ & ->); [|done].
    eapply Forall_impl; [exact Hall|]. intros r (txs' & Hin & Hg). exists txs'.
    split; [|done]. apply elem_of_app. by left.
  - apply Forall_app. split; [done|]. constructor; [|constructor]. exists txs.
    assert ((id, txs) ∈ sl) as Hin.
    { eapply elem_of_submseteq; [|exact ni_flight0]. apply elem_of_app. right. left. }
    rewrite (prove_batch_id _ _ _ _ _ _ Hpr). split; [done|].
    eapply prove_batch_genuine; [|exact Hpr]. intros ->.
    apply (proj1 (Forall_forall _ _) ni_sizes0) in Hin. simpl in Hin. lia.
Qed.
End published.

(** ** The properties *)

(** C11: Over every interleaving of the node's tasks, the batches in sealing
    order followed by the waiting transactions are what the answered submissions
    asked for, in their order, each under the id it was answered and no two under
    the same; every submission is answered while the counter has room; batches
    have between one and [batch_size] transactions and consecutive names; and no
    batch is both in flight and proved, or proved twice. *)
Theorem node_seals_in_order `{HashLib, Sp1Sdk} prof `{Clock C} (self : Validator) n :
  1 <= v_batch_size self -> Z.of_nat (length (n_submitted n)) < u64_bound ->
  node_reach prof (C := C) self n ->
  mjoin (map snd (n_sealed n)) ++ pending_txs (n_state n) = n_submitted n /\
  NoDup (map tx_id (n_submitted n)) /\
  (forall (env : Env C) params, Z.of_nat (length (n_submitted n)) < U64_MAX ->
     exists id s', submit_transaction prof env params (n_state n) = Some (Ok id, s')) /\
  map fst (n_sealed n) = map node_batch_id (seqZ 1 (Z.of_nat (length (n_sealed n)))) /\
  Forall (fun b => 1 <= Z.of_nat (length b.2) <= v_batch_size self) (n_sealed n) /\
  NoDup (map pr_batch_id (proofs (n_state n)) ++ map fst (n_flight n)).
Proof.
  intros Hsz Hlen Hreach. apply node_reach_inv in Hreach as []; [|done..].
  split; [done|]. split.
  { rewrite ni_ids0. apply NoDup_numbered, node_tx_id_inj. }
  split.
  { intros env params Hroom. rewrite <-ni_count0 in Hroom. unfold submit_transaction, u64_add.
    rewrite u64_arith_in by (unfold U64_MAX in Hroom; split; lia). by eexists _, _. }
  rewrite <-ni_sealed0. split; [done|]. split; [done|].
  destruct (submseteq_Permutation _ _ ni_proofs0) as [k Hk].
  assert (NoDup (batch_ids (n_sealed n))) as Hnd
    by (rewrite ni_names0; apply NoDup_numbered, node_batch_id_inj).
  rewrite Hk in Hnd. by apply NoDup_app in Hnd as [? _].
Qed.

(** C12: Every proof the node publishes is of a batch it sealed, and its state
    roots and count are those of executing exactly that batch from the initial
    balances of its senders. *)
Theorem published_proofs_genuine `{Sp1Laws} prof `{Clock C} (self : Validator) n r :
  1 <= v_batch_size self -> Z.of_nat (length (n_submitted n)) < u64_bound ->
  node_reach prof (C := C) self n -> r ∈ proofs (n_state n) ->
  exists txs, (pr_batch_id r, txs) ∈ n_sealed n /\ genuine txs r.
Proof.
  intros Hsz Hlen Hreach. revert r. apply Forall_forall. revert Hlen.
  induction Hreach as [|n n' Hr IH Hst]; intros Hlen; [constructor|].
  assert (Z.of_nat (length (n_submitted n)) < u64_bound) as Hlen'
    by (pose proof (node_step_submitted prof _ _ _ Hst); lia).
  eapply published_step; [done..| |exact Hst|by apply IH].
  by eapply node_reach_inv.
Qed.

(** ** The timer

    The task that ticks every 100 ms, alone with the node; each tick has its
    own environment. *)

Definition tick `{HashLib, Sp1Sdk} prof `{Clock C} (self : Validator) (s : ValidatorState)
    (env : Env C) : option ValidatorState :=
  '(_, s) ← check_and_seal_batch prof self env s;
  Some s.

Definition ticks `{HashLib, Sp1Sdk} prof `{Clock C} (self : Validator) :
    ValidatorState -> list (Env C) -> option ValidatorState := foldlM (tick prof self).

Section timer.
Context `{HashLib, Sp1Sdk} `{Clock C}.

Lemma process_batch_release (self : Validator) (env : Env C) id txs s :
  exists r s', process_batch Release self env id txs s = Some (r, s') /\
    pending_txs s' = pending_txs s.
Proof.
  unfold process_batch, prove_batch, produce_proof.
  destruct (release_execution_total (v_executor self) (processed_batch env id txs) txs) as [t ->].
  cbn [mbind option_bind].
  match goal with |- context [Some (match ?p with Ok _ => _ | Err _ => _ end)] => destruct p end;
    by eexists _, _.
Qed.

(** A tick at which the policy seals takes a batch off the queue; one at which
    nothing waits does nothing. *)
Lemma tick_release (self : Validator) (env : Env C) s :
  exists s', tick Release self s env = Some s' /\
    (pending_txs s' = pending_txs s \/
     pending_txs s' = drop (Z.to_nat (v_batch_size self)) (pending_txs s)) /\
    (match pending_txs s with
     | [] => True
     | oldest :: _ => should_seal (v_policy self) (Z.of_nat (length (pending_txs s)))
         (u64_saturating_sub (e_now env 0) (arrival_ts oldest)) f64_zero = true
     end -> pending_txs s' = drop (Z.to_nat (v_batch_size self)) (pending_txs s)).
Proof.
  unfold tick, check_and_seal_batch, seal_batch. destruct (pending_txs s) as [|tx l] eqn:Hp.
  { exists s. split; [done|]. rewrite Hp, drop_nil. auto. }
  destruct (should_seal _ _ _ _) eqn:Hs; cbn [negb]; 
    [|exists s; rewrite Hp; split; [done|]; split; [by left|congruence]].
  unfold u64_add. rewrite u64_arith_release. cbn [mbind option_bind].
  match goal with |- context [process_batch Release self env ?id ?txs ?st] =>
    destruct (process_batch_release self env id txs st) as (r & s' & -> & Hps) end.
  cbn [mbind option_bind]. exists s'. split; [done|]. cbn [pending_txs] in Hps. rewrite Hps.
  assert (drop (Z.to_nat (Z.of_nat (length (tx :: l)) `min` v_batch_size self)) (tx :: l) =
    drop (Z.to_nat (v_batch_size self)) (tx :: l)) as ->; [|auto].
  destruct (Z.le_ge_cases (Z.of_nat (length (tx :: l))) (v_batch_size self)).
  - by rewrite Z.min_l, !drop_ge by lia.
  - by rewrite Z.min_r by lia.
Qed.
End timer.

(** C15: Under any policy of the node but the count-only one, waiting transactions
    are sealed: once all of them have waited for the batch timeout, as many
    ticks of the timer as there are batches of them empty the queue (in a
    release build, whose executor cannot panic). *)
Theorem timer_seals_waiting `{HashLib, Sp1Sdk} `{Clock C} (args : Args) s (envs : list (Env C)) :
  1 <= arg_batch_size args -> arg_policy args <> PtFixed ->
  Z.of_nat (length (pending_txs s)) <= Z.of_nat (length envs) * arg_batch_size args ->
  Forall (fun env => Forall (fun tx => 0 <= arrival_ts tx /\
    arg_batch_timeout_ms args <= e_now env 0 - arrival_ts tx) (pending_txs s)) envs ->
  exists s', ticks Release (Validator_new args) s envs = Some s' /\ pending_txs s' = [].
Proof.
  intros Hsize Hpol Hlen Hwait. revert s Hlen Hwait.
  induction envs as [|env envs IH]; intros s Hlen Hwait.
  { exists s. split; [done|]. destruct (pending_txs s); [done|simpl in Hlen; lia]. }
  inversion_clear Hwait as [|? ? Henv Hrest].
  destruct (tick_release (Validator_new args) env s) as (s1 & Ht & _ & Hdrop).
  unfold ticks. cbn [foldlM]. rewrite Ht. cbn [mbind option_bind].
  assert (pending_txs s1 = drop (Z.to_nat (arg_batch_size args)) (pending_txs s)) as Hs1.
  { apply Hdrop. destruct (pending_txs s) as [|tx l]; [done|].
    inversion_clear Henv as [|? ? [Ha Hw] _]. unfold Validator_new. cbn [v_policy].
    assert (0 < Z.of_nat (length (tx :: l))) as Hq by (simpl; lia).
    assert (arg_batch_timeout_ms args <= u64_saturating_sub (e_now env 0) (arrival_ts tx)) as Hw'
      by (unfold u64_saturating_sub; lia).
    apply Z.ltb_lt in Hq. apply Z.leb_le in Hw'. set (q := Z.of_nat (length (tx :: l))) in *.
    destruct (arg_policy args); [done|..]; cbn -[compute_threshold f64_gt Z.leb Z.eqb];
      unfold fixed_time_should_seal, hybrid_should_seal, adaptive_should_seal;
      cbn [ft_interval_ms hy_time_threshold_ms hy_count_threshold FixedTimePolicy_new
        HybridPolicy_new ad_time_threshold_ms AdaptivePolicy_new]; rewrite ?Hq, ?Hw'.
    - done.
    - by rewrite orb_true_r.
    - destruct (q =? 0) eqn:Hz; [zbool; lia|]. by repeat case_match. }
  apply IH; rewrite Hs1.
  - rewrite length_drop. simpl length in Hlen. lia.
  - eapply Forall_impl; [exact Hrest|]. intros e. apply Forall_drop.
Qed.

(** [forceSeal] forces nothing: while the policy does not seal, it answers
    that there are no transactions, however many are waiting, and changes
    nothing. *)
Lemma force_seal_defers `{HashLib, Sp1Sdk} prof `{Clock C} (self : Validator) (env : Env C)
    id params s oldest rest :
  pending_txs s = oldest :: rest ->
  should_seal (v_policy self) (Z.of_nat (length (pending_txs s)))
    (u64_saturating_sub (e_now env 0) (arrival_ts oldest)) f64_zero = false ->
  handle_rpc prof self env (mkRpcRequest "forceSeal" params id) s =
    Some (mkRpcResponse RNull id (Some "No transactions to seal"), s).
Proof.
  intros Hp Hno. unfold handle_rpc. simpl. unfold check_and_seal_batch, seal_batch.
  rewrite Hp in *. by rewrite Hno.
Qed.
