(* ===== verification/ValidatorNet.v ===== *)
(** * The validator on the network and on disk ([examples/validator/src/main.rs])

    Around the operations of [ValidatorNode]: requests and replies as lines of
    JSON, a connection as the loop over the lines a client sends, the two files
    a proof is saved to, and the message broadcast to a verifier.  Sockets and
    the file system are what they answer: the outcome of each read, connect and
    write is an argument. *)

From Stdlib Require Import ZArith Lia Ascii String Bool Strings.Byte.
From stdpp Require Import base gmap strings list.
From S2P Require Import Prelude RustNum RustFmt Merkle Types TraceBuilder Isa Executor.
From S2P Require Import ExecutorFacts TraceFacts Guest Sp1 Policy.
From S2P Require Import Wire Files ValidatorNode ValidatorFacts.

Local Open Scope Z_scope.

Section net.
Context `{JsonLib} `{FileCodec} `{HashLib, Sp1Sdk} (prof : profile) `{Clock C}.

(** ** Requests *)

Definition submit_shape : list (string * field_ty) :=
  [("sender", TString); ("program_id", TString); ("instruction_data", TBytes);
   ("priority", TOptString)].

(** [serde_json::from_value(req.params)]; the last case never occurs. *)
Definition submit_params (v : Value) : result string SubmitTxParams :=
  from_value submit_shape v ≫= fun fs =>
  match fs with
  | [FString s; FString p; FBytes d; FOptString pr] => Ok (mkSubmitTxParams s p d pr)
  | _ => Err ""
  end.

Definition decode_request (r : RpcCall) : RpcRequest :=
  mkRpcRequest (rc_method r) (submit_params (rc_params r)) (rc_id r).

(** ** Replies *)

Definition record_fields (r : ProofRecord) : list (string * field Value) :=
  [("batch_id", FString (pr_batch_id r)); ("proof_hash", FString (pr_proof_hash r));
   ("state_root_pre", FString (pr_state_root_pre r));
   ("state_root_post", FString (pr_state_root_post r));
   ("tx_count", FU64 (pr_tx_count r)); ("proving_time_ms", FU64 (pr_proving_time_ms r));
   ("proof_size_bytes", FU64 (pr_proof_size_bytes r)); ("timestamp", FU64 (pr_timestamp r))].

Definition result_value (r : rpc_result) : Value :=
  match r with
  | RNull => JNull
  | RTxId tx_id => JObject [("tx_id", JString tx_id)]
  | RStatus pending total_batches total_proofs policy =>
      JObject [("pending_txs", JNumber pending); ("total_batches", JNumber total_batches);
               ("total_proofs", JNumber total_proofs); ("policy", JString policy)]
  | RProofs l => JArray (map (fun r => ser (FRecord (record_fields r))) l)
  | RBatchId batch_id => JObject [("batch_id", JString batch_id)]
  end.

Definition encode_response (r : RpcResponse) : RpcReply :=
  mkRpcReply (result_value (rs_result r)) (rs_id r) (rs_error r).

(** The answer to one line. *)
Definition answer_line (self : Validator) (env : Env C) (line : string) (s : ValidatorState)
    : option (RpcReply * ValidatorState) :=
  match parse_call line with
  | Ok r =>
      '(response, s) ← handle_rpc prof self env (decode_request r) s;
      Some (encode_response response, s)
  | Err e => Some (mkRpcReply JNull 0 (Some ("Parse error: " +:+ e)), s)
  end.

(** ** A connection

    One turn of the loop of [handle_connection]: what other tasks did to the
    state since the last turn, the outcome of [read_line] (an empty line is the
    end of the stream), the environment of the call, and the outcome of the
    write. *)
Record turn := mkTurn {
  t_before : ValidatorState -> ValidatorState;
  t_read : result string string;
  t_env : Env C;
  t_write : result string unit;
}.

(** The lines written.  The replies are pairs of the line that was read and
    the reply. *)
Fixpoint handle_connection (self : Validator) (turns : list turn) (s : ValidatorState)
    : option (list (string * RpcReply) * ValidatorState) :=
  match turns with
  | [] => Some ([], s)
  | t :: turns =>
      let s := t_before t s in
      match t_read t with
      | Err _ => Some ([], s)
      | Ok line =>
          if String.eqb line "" then Some ([], s)
          else
            '(reply, s) ← answer_line self (t_env t) line s;
            match t_write t with
            | Err _ => Some ([], s)
            | Ok _ =>
                '(replies, s) ← handle_connection self turns s;
                Some ((line, reply) :: replies, s)
            end
      end
  end.

(** What a client receives: one line for each reply. *)
Definition written (replies : list (string * RpcReply)) : list string :=
  map (fun lr => reply_line lr.2) replies.

(** ** Files *)

(** The outcomes of the two writes. *)
Definition save_proof (dir : string) (w1 w2 : write_outcome) (proof : BatchProof)
    (trace : ExecutionTrace) (fs : files) : result string unit * files :=
  match bincode_proof proof with
  | Err e => (Err e, fs)
  | Ok proof_bytes =>
      match trace_json trace with
      | Err e => (Err e, fs)
      | Ok trace_bytes =>
          let '(r, fs) := write_file (proof_path dir (pf_batch_id proof)) proof_bytes w1 fs in
          match r with
          | Err e => (Err e, fs)
          | Ok _ => write_file (trace_path dir (pf_batch_id proof)) trace_bytes w2 fs
          end
      end
  end.

(** ** The broadcast *)

Definition commitment_fields (c : ProofCommitment) : list (string * field Value) :=
  [("batch_hash", FString (pc_batch_hash c)); ("trace_hash", FString (pc_trace_hash c));
   ("state_root_pre", FString (pc_state_root_pre c));
   ("state_root_post", FString (pc_state_root_post c));
   ("total_compute", FU64 (pc_total_compute c)); ("tx_count", FU64 (pc_tx_count c))].

(** The [json!] object, whose fields are those of a record. *)
Definition broadcast_fields (proof : BatchProof) : list (string * field Value) :=
  [("type", FString "proof"); ("batch_id", FString (pf_batch_id proof));
   ("proof_hash", FString (pf_proof_hash proof));
   ("commitment", FRecord (commitment_fields (pf_commitment proof)));
   ("proof_size", FU64 (pf_proof_size_bytes proof))].

(** What is sent, without a line feed; failures are only logged. *)
Definition broadcast_proof (connected sent : result string unit) (proof : BatchProof)
    : option string :=
  match connected, sent with
  | Ok _, Ok _ => Some (record_text (broadcast_fields proof))
  | _, _ => None
  end.

(** ** Processing a batch, with its effects *)

(** [process_batch] run alone, with the outcomes of its two writes and of the
    connection to the verifier: the result, the state, the files and the message
    sent. *)
Definition process_batch_io (self : Validator) (env : Env C)
    (w1 w2 : write_outcome) (connected sent : result string unit) (batch_id : string)
    (transactions : list Transaction) (s : ValidatorState) (fs : files)
    : option (result string unit * ValidatorState * files * option string) :=
  produced ← produce_proof prof self env batch_id transactions;
  Some match produced with
       | Err e => (Err e, s, fs, None)
       | Ok (proof, trace) =>
           let proof_record := proof_record env batch_id proof in
           let '(saved, fs) := save_proof (v_proof_dir self) w1 w2 proof trace fs in
           match saved with
           | Err e => (Err e, s, fs, None)
           | Ok _ =>
               let s := push_proof proof_record s in
               match v_broadcast_addr self with
               | Some addr => (Ok tt, s, fs, broadcast_proof connected sent proof)
               | None => (Ok tt, s, fs, None)
               end
           end
       end.
End net.

(** ** Facts *)

Section facts.
Context `{JsonLib} `{FileCodec} `{HashLib, Sp1Sdk} (prof : profile) `{Clock C}.

(** A reply carries the id of its request, and an error comes with no
    result. *)
Lemma handle_rpc_reply (self : Validator) (env : Env C) req s r s' :
  handle_rpc prof self env req s = Some (r, s') ->
  rs_id r = rq_id req /\ (rs_error r <> None -> rs_result r = RNull).
Proof.
  unfold handle_rpc. intros Hrpc. repeat case_match; simplify_eq/=; try done;
    apply bind_Some in Hrpc as ([res s1] & _ & Hr); simpl in Hr; destruct res; by simplify_eq/=.
Qed.

Lemma answer_line_reply (self : Validator) (env : Env C) line s r s' :
  answer_line prof self env line s = Some (r, s') ->
  ry_id r = match parse_call line with Ok c => rc_id c | Err _ => 0 end /\
  (ry_error r <> None -> ry_result r = JNull).
Proof.
  unfold answer_line. destruct (parse_call line) as [c|e]; [|by intros [= <- _]].
  intros ([resp s1] & Hr & [= <- _])%bind_Some. apply handle_rpc_reply in Hr as [Hid Herr].
  split; [exact Hid|]. simpl. intros He. by rewrite Herr.
Qed.

(** With its effects, [process_batch] is the operation of [ValidatorNode] whose
    environment reports the outcome of saving. *)
Definition set_save (r : result string unit) (env : Env C) : Env C :=
  mkEnv (e_now env) (e_clock env) r.

Definition saved_result (dir : string) (w1 w2 : write_outcome) (fs : files)
    (produced : option (result string (BatchProof * ExecutionTrace))) : result string unit :=
  match produced with
  | Some (Ok (pf, t)) => (save_proof dir w1 w2 pf t fs).1
  | _ => Ok tt
  end.

Lemma process_batch_io_refines (self : Validator) (env : Env C) w1 w2 con sent id txs s fs :
  let r := saved_result (v_proof_dir self) w1 w2 fs (produce_proof prof self env id txs) in
  (fun x => (x.1.1.1, x.1.1.2)) <$> process_batch_io prof self env w1 w2 con sent id txs s fs =
    process_batch prof self (set_save r env) id txs s.
Proof.
  cbv zeta. unfold process_batch_io, process_batch, prove_batch.
  change (produce_proof prof self (set_save _ env) id txs)
    with (produce_proof prof self env id txs).
  destruct (produce_proof prof self env id txs) as [[[pf t]|e]|]; [|done..].
  cbn [mbind option_bind saved_result]. destruct (save_proof (v_proof_dir self) w1 w2 pf t fs) as [[[]|e] fs'];
    cbn; [|done]. by destruct (v_broadcast_addr self).
Qed.

(** Saving succeeds only with both files complete. *)
Lemma save_proof_ok dir w1 w2 pf t fs fs' :
  save_proof dir w1 w2 pf t fs = (Ok tt, fs') ->
  exists pb tb, bincode_proof pf = Ok pb /\ trace_json t = Ok tb /\
    fs' = <[trace_path dir (pf_batch_id pf) := tb]> (<[proof_path dir (pf_batch_id pf) := pb]> fs).
Proof.
  unfold save_proof. destruct (bincode_proof pf) as [pb|]; [|done].
  destruct (trace_json t) as [tb|]; [|done]. destruct w1; cbn; [|done..].
  destruct w2; cbn; [|done..]. intros [= <-]. by exists pb, tb.
Qed.
End facts.

(** ** The property *)

(** C18: A connection answers the lines it reads in order, one reply of one line
    for each, with the id of the request, or 0 and a parse error for a line that
    is no request; an error has no result.  It stops only at the end of the
    stream or at a failed read or write. *)
Theorem connection_answers `{JsonLaws} `{HashLib, Sp1Sdk} prof `{Clock C} (self : Validator)
    (turns : list turn) s replies s' :
  handle_connection prof self turns s = Some (replies, s') ->
  Forall2 (fun (t : turn (C := C)) lr => t_read t = Ok lr.1 /\ lr.1 <> "" /\
      ry_id lr.2 = match parse_call lr.1 with Ok c => rc_id c | Err _ => 0 end /\
      (ry_error lr.2 <> None -> ry_result lr.2 = JNull))
    (take (length replies) turns) replies /\
  Forall (fun l => exists body, l = body +:+ nl /\ free_of newline body = true) (written replies) /\
  match turns !! length replies with
  | None => True
  | Some t => t_read t = Ok "" \/ is_ok (t_read t) = false \/ is_ok (t_write t) = false
  end.
Proof.
  intros Hc. split; [|split].
  2: { apply Forall_map, Forall_true. intros lr. eexists. split; [done|]. apply json_text_line. }
  all: revert s replies s' Hc; induction turns as [|t turns IH]; intros s replies s'; simpl.
  1,3: by intros [= <- <-].
  all: destruct (t_read t) as [line|e] eqn:Hread; [|intros [= <- <-]; simpl; rewrite ?Hread; auto].
  all: destruct (String.eqb_spec line "") as [->|Hne]; [intros [= <- <-]; simpl; auto|].
  all: intros ([r s1] & Ha & Hrest)%bind_Some.
  all: destruct (t_write t) as [u|e] eqn:Hw; [|injection Hrest as <- <-; simpl; rewrite ?Hw; auto].
  all: apply bind_Some in Hrest as ([rs s2] & Hh & [= <- <-]); simpl.
  - constructor; [|by eapply IH]. by apply answer_line_reply in Ha as [Hid Herr].
  - by eapply IH.
Qed.
