(* ===== verification/VerifierNode.v ===== *)
(** * The verifier node ([examples/verifier-node/src/main.rs])

    The node reads proof and trace files, verifies them with the SP1 verifier
    and keeps a list of attested batches with a current state root.  The
    directory is the function [ve_read] (reading and parsing both files of a
    batch id, see [read_batch] of [VerifierNet]), the clock and the timer are readings of the environment, and a
    panic of the verifier is caught by the blocking task and becomes an error.
    Handlers run as concurrent tasks and touch the state only while they hold
    the node's lock: [verifier_step] is one such critical section, and each
    handler, run alone, is a sequence of them. *)

From Stdlib Require Import ZArith Lia Ascii String Bool Strings.Byte.
From stdpp Require Import base gmap strings list.
From S2P Require Import Prelude RustNum RustFmt Merkle Types TraceBuilder Isa Executor.
From S2P Require Import ExecutorFacts TraceFacts Guest Sp1 Agreement Soundness.

Local Open Scope Z_scope.

Record VerifiedBatch := mkVerifiedBatch {
  vb_batch_id : string;
  vb_proof_hash : string;
  vb_state_root_pre : string;
  vb_state_root_post : string;
  vb_tx_count : Z;
  vb_verification_time_ms : Z;
  vb_verified_at : Z;
  vb_attestation : string;
}.

Record ProofMessage := mkProofMessage {
  pm_msg_type : string;
  pm_batch_id : string;
  pm_proof_hash : string;
  pm_commitment : ProofCommitment;
  pm_proof_size : Z;
}.

Record VerifierState := mkVerifierState {
  verified_batches : list VerifiedBatch;
  pending_verifications : gmap string ProofMessage;
  current_state_root : string;
  verification_count : Z;
  failed_count : Z;
}.

Definition VerifierState_default : VerifierState := {|
  verified_batches := [];
  pending_verifications := ∅;
  current_state_root := "genesis";
  verification_count := 0;
  failed_count := 0;
|}.

(** The fields of [VerifierNode] other than the state behind the lock. *)
Record VerifierNode := mkVerifierNode {
  vn_verifier : Sp1Verifier;
  vn_proof_dir : string;
  node_id : string;
}.

(** What a call learns from outside. *)
Record VEnv (C : Type) := mkVEnv {
  ve_read : string -> result string (BatchProof * ExecutionTrace);
  ve_now : nat -> Z;
  ve_elapsed_ms : Z;
  ve_clock : C;
  ve_join_error : string;      (* the text of a [JoinError] *)
}.
Arguments mkVEnv {C}.
Arguments ve_read {C}.
Arguments ve_now {C}.
Arguments ve_elapsed_ms {C}.
Arguments ve_clock {C}.
Arguments ve_join_error {C}.

(** Replies of the RPC interface. *)
Inductive verifier_reply :=
| VNull
| VVerified (b : VerifiedBatch)
| VStatus (id : string) (verified_count failed_count pending_count : Z) (root : string)
| VBatches (l : list VerifiedBatch)
| VAttestation (a : string).

(** A request, its two possible parameters already looked up in the JSON. *)
Record VRequest := mkVRequest {
  vq_method : string;
  vq_batch_id : option string;      (* [params.get("batch_id")] as a string *)
  vq_limit : option Z;              (* [params.get("limit")] as a [u64] *)
  vq_id : Z;
}.

Record VResponse := mkVResponse {
  vr_result : verifier_reply;
  vr_id : Z;
  vr_rpc_error : option string;
}.

Section node.
Context `{HashLib, Sp1Sdk} (prof : profile) `{Clock C}.

(** The text that is hashed into an attestation. *)
Definition attestation_text (self : VerifierNode) (proof : BatchProof) (now : Z) : string :=
  "ATTESTED:" +:+ node_id self +:+ ":" +:+ pf_batch_id proof +:+ ":" +:+ pf_proof_hash proof
  +:+ ":" +:+ fmt_u64 now.

Definition record_verified (verified : VerifiedBatch) (s : VerifierState)
    : option VerifierState :=
  count ← u64_add prof (verification_count s) 1;
  Some {|
    verified_batches := verified_batches s ++ [verified];
    pending_verifications := pending_verifications s;
    current_state_root := vb_state_root_post verified;
    verification_count := count;
    failed_count := failed_count s |}.

Definition record_failed (s : VerifierState) : option VerifierState :=
  count ← u64_add prof (failed_count s) 1;
  Some {|
    verified_batches := verified_batches s;
    pending_verifications := pending_verifications s;
    current_state_root := current_state_root s;
    verification_count := verification_count s;
    failed_count := count |}.

(** The entry of an accepted proof. *)
Definition verified_batch (self : VerifierNode) (env : VEnv C) (proof : BatchProof)
    : VerifiedBatch :=
  let attestation := attestation_text self proof (ve_now env 0) in
  let attestation_hash := hash_str attestation in {|
    vb_batch_id := pf_batch_id proof;
    vb_proof_hash := pf_proof_hash proof;
    vb_state_root_pre := pc_state_root_pre (pf_commitment proof);
    vb_state_root_post := pc_state_root_post (pf_commitment proof);
    vb_tx_count := pc_tx_count (pf_commitment proof);
    vb_verification_time_ms := ve_elapsed_ms env;
    vb_verified_at := ve_now env 1;
    vb_attestation := attestation_hash |}.

(** A mismatch between the current root and the batch's is only logged. *)
Definition verify_proof (self : VerifierNode) (env : VEnv C) (proof : BatchProof)
    (trace : ExecutionTrace) (s : VerifierState)
    : option (result string VerifiedBatch * VerifierState) :=
  match verify (vn_verifier self) proof trace (ve_clock env) with
  | None => Some (Err ("Verification task failed: " +:+ ve_join_error env), s)
  | Some (Err e, _) => Some (Err ("Verification error: " +:+ VerifyError_display e), s)
  | Some (Ok result, _) =>
      if negb (vr_is_valid result) then
        s ← record_failed s;
        Some (Err ("Verification failed: " +:+ default "" (vr_error result)), s)
      else
        let verified := verified_batch self env proof in
        s ← record_verified verified s;
        Some (Ok verified, s)
  end.

Definition verify_proof_file (self : VerifierNode) (env : VEnv C) (batch_id : string)
    (s : VerifierState) : option (result string VerifiedBatch * VerifierState) :=
  match ve_read env batch_id with
  | Err e => Some (Err e, s)
  | Ok (proof, trace) => verify_proof self env proof trace s
  end.

Definition set_pending (p : gmap string ProofMessage) (s : VerifierState) : VerifierState := {|
  verified_batches := verified_batches s;
  pending_verifications := p;
  current_state_root := current_state_root s;
  verification_count := verification_count s;
  failed_count := failed_count s;
|}.

Definition handle_proof_broadcast (self : VerifierNode) (env : VEnv C) (msg : ProofMessage)
    (s : VerifierState) : option (result string unit * VerifierState) :=
  let s := set_pending (<[pm_batch_id msg := msg]> (pending_verifications s)) s in
  '(r, s) ← verify_proof_file self env (pm_batch_id msg) s;
  Some (match r with
        | Ok _ => (Ok tt, set_pending (delete (pm_batch_id msg) (pending_verifications s)) s)
        | Err e => (Err e, s)
        end).

Definition handle_rpc (self : VerifierNode) (env : VEnv C) (req : VRequest) (s : VerifierState)
    : option (VResponse * VerifierState) :=
  let reply r e := mkVResponse r (vq_id req) e in
  let method := vq_method req in
  if String.eqb method "verifyBatch" then
    match vq_batch_id req with
    | Some id =>
        '(r, s) ← verify_proof_file self env id s;
        Some (match r with
              | Ok verified => reply (VVerified verified) None
              | Err e => reply VNull (Some e)
              end, s)
    | None => Some (reply VNull (Some "Missing batch_id"), s)
    end
  else if String.eqb method "getStatus" then
    Some (reply (VStatus (node_id self) (verification_count s) (failed_count s)
                   (Z.of_nat (size (pending_verifications s))) (current_state_root s)) None, s)
  else if String.eqb method "getVerifiedBatches" then
    let limit := default 100 (vq_limit req) in
    Some (reply (VBatches (take (Z.to_nat limit) (rev (verified_batches s)))) None, s)
  else if String.eqb method "getAttestation" then
    match vq_batch_id req with
    | Some id =>
        let attestation :=
          vb_attestation <$> List.find (fun b => String.eqb (vb_batch_id b) id)
            (verified_batches s) in
        Some (match attestation with
              | Some a => reply (VAttestation a) None
              | None => reply VNull (Some "Batch not verified")
              end, s)
    | None => Some (reply VNull (Some "Missing batch_id"), s)
    end
  else Some (reply VNull (Some ("Unknown method: " +:+ method)), s).

(** One pass of [poll_proof_directory] over the stems of the [.proof] files
    found, with the set of stems already processed.  A pass verifies an id at
    most once, so the environment of each call is given by the id. *)
Fixpoint poll_pass (self : VerifierNode) (env : string -> VEnv C) (stems : list string)
    (processed : gset string) (s : VerifierState) : option (gset string * VerifierState) :=
  match stems with
  | [] => Some (processed, s)
  | id :: stems =>
      if decide (id ∈ processed) then poll_pass self env stems processed s
      else
        '(_, s) ← verify_proof_file self (env id) id s;
        poll_pass self env stems ({[id]} ∪ processed) s
  end.

(** ** Executions *)

(** One critical section of any handler, with any environment. *)
Inductive verifier_step (self : VerifierNode) : VerifierState -> VerifierState -> Prop :=
| vs_verified env proof trace r clk' s s' :
    verify (vn_verifier self) proof trace (ve_clock env) = Some (Ok r, clk') ->
    vr_is_valid r = true ->
    record_verified (verified_batch self env proof) s = Some s' ->
    verifier_step self s s'
| vs_failed s s' : record_failed s = Some s' -> verifier_step self s s'
| vs_announced msg s :
    verifier_step self s (set_pending (<[pm_batch_id msg := msg]> (pending_verifications s)) s)
| vs_settled id s :
    verifier_step self s (set_pending (delete id (pending_verifications s)) s).

Definition verifier_reach (self : VerifierNode) : VerifierState -> Prop :=
  rtc (verifier_step self) VerifierState_default.

(** *** What a verification adds *)

(** The node attested a proof its verifier accepted for some trace. *)
Definition accepted_proof (self : VerifierNode) (b : VerifiedBatch) : Prop :=
  exists proof trace clk r clk',
    verify (vn_verifier self) proof trace clk = Some (Ok r, clk') /\ vr_is_valid r = true /\
    vb_batch_id b = pf_batch_id proof /\ vb_proof_hash b = pf_proof_hash proof /\
    vb_state_root_pre b = pc_state_root_pre (pf_commitment proof) /\
    vb_state_root_post b = pc_state_root_post (pf_commitment proof) /\
    vb_tx_count b = pc_tx_count (pf_commitment proof).

(** The node's counters and root are those of its list. *)
Record verifier_inv (self : VerifierNode) (s : VerifierState) : Prop := {
  vi_root : current_state_root s =
    match last (verified_batches s) with
    | Some b => vb_state_root_post b
    | None => "genesis"
    end;
  vi_count : Z.of_nat (length (verified_batches s)) mod u64_bound = verification_count s;
  vi_accepted : Forall (accepted_proof self) (verified_batches s);
}.

Lemma verifier_inv_start self : verifier_inv self VerifierState_default.
Proof. by split. Qed.

Lemma verifier_inv_recorded self b s s' :
  verifier_inv self s -> record_verified b s = Some s' -> accepted_proof self b ->
  verifier_inv self s'.
Proof.
  intros [] (n & Hn & [= <-])%bind_Some Hacc. apply u64_arith_range in Hn as Hr.
  apply u64_arith_mod in Hn. split; simpl.
  - by rewrite last_snoc.
  - rewrite length_app, Nat2Z.inj_add. simpl. rewrite <-(Z.mod_small n u64_bound) by exact Hr.
    rewrite Hn, <-vi_count0. by rewrite Zplus_mod_idemp_l.
  - apply Forall_app. by repeat constructor.
Qed.

Lemma verifier_inv_step self s s' :
  verifier_inv self s -> verifier_step self s s' -> verifier_inv self s'.
Proof.
  intros Hinv Hst. destruct Hst as [env pf t r clk' s s' Hv Hval Hrec|s s' Hrec|msg s|id s].
  - eapply verifier_inv_recorded; [done|exact Hrec|]. by exists pf, t, (ve_clock env), r, clk'.
  - apply bind_Some in Hrec as (n & _ & [= <-]). destruct Hinv. by split.
  - destruct Hinv. by split.
  - destruct Hinv. by split.
Qed.

Lemma verifier_reach_inv self s : verifier_reach self s -> verifier_inv self s.
Proof.
  intros Hr. assert (forall s0, rtc (verifier_step self) s0 s -> verifier_inv self s0 ->
    verifier_inv self s) as Hpres by (induction 1; eauto using verifier_inv_step).
  eapply Hpres; [exact Hr|apply verifier_inv_start].
Qed.

(** *** Handlers are sequences of critical sections *)

Lemma verify_proof_file_steps self env id s r s' :
  verify_proof_file self env id s = Some (r, s') -> rtc (verifier_step self) s s'.
Proof.
  unfold verify_proof_file. destruct (ve_read env id) as [[pf t]|e]; [|by intros [= _ <-]].
  unfold verify_proof. destruct (verify _ pf t _) as [[[vr|e] clk']|] eqn:Hv;
    [|by intros [= _ <-]..].
  destruct (vr_is_valid vr) eqn:Hval; simpl; intros (s1 & Hrec & [= _ <-])%bind_Some;
    apply rtc_once; by econstructor.
Qed.

Lemma handle_proof_broadcast_steps self env msg s r s' :
  handle_proof_broadcast self env msg s = Some (r, s') -> rtc (verifier_step self) s s'.
Proof.
  intros ([res s1] & Hf & Hr)%bind_Some. eapply rtc_l; [apply vs_announced|].
  apply verify_proof_file_steps in Hf. destruct res; injection Hr as _ <-; [|exact Hf].
  eapply rtc_r; [exact Hf|apply vs_settled].
Qed.

Lemma handle_rpc_steps self env req s r s' :
  handle_rpc self env req s = Some (r, s') -> rtc (verifier_step self) s s'.
Proof.
  unfold handle_rpc. intros Hrpc. repeat case_match; simplify_eq; try done.
  apply bind_Some in Hrpc as ([res s1] & Hf & [= _ <-]). by eapply verify_proof_file_steps.
Qed.

Lemma poll_pass_steps self env stems processed s processed' s' :
  poll_pass self env stems processed s = Some (processed', s') -> rtc (verifier_step self) s s'.
Proof.
  revert processed s. induction stems as [|id stems IH]; intros processed s; cbn [poll_pass];
    [by intros [= _ <-]|]. case_decide; [apply IH|].
  intros ([res s1] & Hf & Hrest)%bind_Some. etransitivity; [by eapply verify_proof_file_steps|].
  by eapply IH.
Qed.

(** The commitment plays no part in the verifier's answer. *)
Definition set_commitment (c : ProofCommitment) (pf : BatchProof) : BatchProof :=
  let 'mkBatchProof id d h _ at_ms ms sz := pf in mkBatchProof id d h c at_ms ms sz.

Lemma verify_set_commitment v c pf t (clk : C) :
  Sp1Verifier_verify v (set_commitment c pf) t clk = Sp1Verifier_verify v pf t clk.
Proof. by destruct pf. Qed.
End node.

(** ** The properties *)

(** C17: In every interleaving of the verifier node's handlers, its current root
    is the post root of the last batch it attested, its counter is the number of
    attested batches, and each of them was accepted by the verifier for some
    trace; a request, a broadcast or a pass over the directory keeps to such
    states. *)
Theorem verifier_node_invariant `{HashLib, Sp1Sdk} prof `{Clock C} self s :
  verifier_reach prof (C := C) self s ->
  current_state_root s =
    match last (verified_batches s) with Some b => vb_state_root_post b | None => "genesis" end /\
  Z.of_nat (length (verified_batches s)) mod u64_bound = verification_count s /\
  Forall (accepted_proof (C := C) self) (verified_batches s) /\
  (forall env req r s', handle_rpc prof self env req s = Some (r, s') ->
    verifier_reach prof (C := C) self s') /\
  (forall env msg r s', handle_proof_broadcast prof self env msg s = Some (r, s') ->
    verifier_reach prof (C := C) self s') /\
  (forall env stems seen seen' s', poll_pass prof self env stems seen s = Some (seen', s') ->
    verifier_reach prof (C := C) self s').
Proof.
  intros Hr. destruct (verifier_reach_inv _ _ _ Hr) as [Hroot Hcount Hacc].
  split_and!; [done..| | |]; unfold verifier_reach in *; intros; (etransitivity; [exact Hr|]);
    eauto using handle_rpc_steps, handle_proof_broadcast_steps, poll_pass_steps.
Qed.

(** C30: The roots the node attests are not checked: if a proof verifies for a
    trace then the same proof with any other commitment is attested with that
    commitment's roots and count, which become the node's state root. *)
Theorem attested_roots_unchecked `{HashLib, Sp1Sdk} prof `{Clock C} self (env : VEnv C)
    pf t r clk' c s :
  Sp1Verifier_verify (vn_verifier self) pf t (ve_clock env) = Some (Ok r, clk') ->
  vr_is_valid r = true -> verification_count s < U64_MAX -> 0 <= verification_count s ->
  exists b s', verify_proof prof self env (set_commitment c pf) t s = Some (Ok b, s') /\
    vb_state_root_pre b = pc_state_root_pre c /\ vb_state_root_post b = pc_state_root_post c /\
    vb_tx_count b = pc_tx_count c /\ current_state_root s' = pc_state_root_post c /\
    verified_batches s' = verified_batches s ++ [b].
Proof.
  intros Hv Hval Hlt Hnn. unfold verify_proof.
  change (verify (vn_verifier self)) with (Sp1Verifier_verify (C := C) (vn_verifier self)).
  rewrite verify_set_commitment, Hv, Hval. cbn [negb]. unfold record_verified, u64_add.
  rewrite u64_arith_in by (unfold U64_MAX in Hlt; split; lia).
  eexists _, _. split; [reflexivity|]. by destruct pf.
Qed.
