(* ===== verification/VerifierNet.v ===== *)
(** * The verifier on the network and on disk ([examples/verifier-node/src/main.rs])

    Around the operations of [VerifierNode]: the name the node gives itself,
    reading and parsing the files of a batch, the loop that polls the proof
    directory, and a connection, whose lines are either proof broadcasts, which
    are not answered, or requests. *)

From Stdlib Require Import ZArith Lia Ascii String Bool Strings.Byte.
From stdpp Require Import base gmap strings list.
From S2P Require Import Prelude RustNum RustFmt Merkle Types TraceBuilder Isa Executor.
From S2P Require Import ExecutorFacts TraceFacts Guest Sp1.
From S2P Require Import Wire Files VerifierNode.

Local Open Scope Z_scope.

(** ** The node *)

Record Args := mkArgs {
  listen_port : Z;
  proof_dir : string;
  poll_proofs : bool;
  poll_interval_ms : Z;
}.

(** The defaults of the command line. *)
Definition Args_default : Args := mkArgs 8900 "./proofs" false 5000.

(** The bits of a [u32] left after a shift. *)
Definition u32_shl (x k : Z) : Z := Z.land (Z.shiftl x k) (Z.ones 32).

(** The nanoseconds of the current second and the process id. *)
Definition rand_u32 (nanos pid : Z) : Z := Z.lxor nanos (u32_shl pid 16).

Definition VerifierNode_new (args : Args) (nanos pid : Z) : VerifierNode :=
  mkVerifierNode mkSp1Verifier (proof_dir args) ("verifier_" +:+ fmt_hex_pad 8 (rand_u32 nanos pid)).

(** The name is short: the number is a [u32]. *)
Lemma rand_u32_range nanos pid :
  0 <= nanos < 1000000000 -> 0 <= rand_u32 nanos pid < 2 ^ 32.
Proof.
  intros Hn. unfold rand_u32, u32_shl. rewrite Z.land_ones by lia.
  assert (0 <= Z.shiftl pid 16 mod 2 ^ 32 < 2 ^ 32) as Hs by (apply Z.mod_pos_bound; lia).
  set (x := Z.shiftl pid 16 mod 2 ^ 32) in *. clearbody x.
  split; [apply Z.lxor_nonneg; lia|].
  destruct (Z.eq_dec (Z.lxor nanos x) 0) as [->|Hne]; [lia|].
  assert (0 <= Z.lxor nanos x) by (apply Z.lxor_nonneg; lia).
  apply Z.log2_lt_pow2; [lia|]. pose proof (Z.log2_lxor nanos x ltac:(lia) ltac:(lia)).
  assert (Z.log2 nanos < 32) by (destruct (Z.eq_dec nanos 0) as [->|]; [simpl; lia|apply Z.log2_lt_pow2; lia]).
  assert (Z.log2 x < 32) by (destruct (Z.eq_dec x 0) as [->|]; [simpl; lia|apply Z.log2_lt_pow2; lia]).
  lia.
Qed.

Section files.
Context `{FileCodec}.

(** ** Reading the files of a batch

    [read] is what [tokio::fs::read] answers on a path. *)
Definition read_batch (dir : string) (read : string -> result string (list byte))
    (batch_id : string) : result string (BatchProof * ExecutionTrace) :=
  map_err (fun e => "Failed to read proof: " +:+ e) (read (proof_path dir batch_id))
    ≫= fun proof_bytes =>
  map_err (fun e => "Failed to read trace: " +:+ e) (read (trace_path dir batch_id))
    ≫= fun trace_bytes =>
  map_err (fun e => "Invalid proof: " +:+ e) (unbincode_proof proof_bytes) ≫= fun proof =>
  map_err (fun e => "Invalid trace: " +:+ e) (trace_from_json trace_bytes) ≫= fun trace =>
  Ok (proof, trace).

Lemma read_batch_ok dir read id pf t :
  read_batch dir read id = Ok (pf, t) <->
  exists pb tb, read (proof_path dir id) = Ok pb /\ read (trace_path dir id) = Ok tb /\
    unbincode_proof pb = Ok pf /\ trace_from_json tb = Ok t.
Proof.
  unfold read_batch. split.
  - intros (pb & Hpb & Hr)%result_bind_Ok. apply result_bind_Ok in Hr as (tb & Htb & Hr).
    apply result_bind_Ok in Hr as (pf' & Hpf & Hr). apply result_bind_Ok in Hr as (t' & Ht & Hr).
    apply map_err_Ok in Hpb, Htb, Hpf, Ht. injection Hr as -> ->. by exists pb, tb.
  - intros (pb & tb & -> & -> & Hpf & Ht). cbn. by rewrite Hpf; cbn; rewrite Ht.
Qed.
End files.

(** ** Polling *)

(** The batch id of a directory entry. *)
Definition entry_batch_id (name : string) : option string :=
  match extension name with
  | Some e => if String.eqb e "proof" then Some (file_stem name) else None
  | None => None
  end.

Lemma entry_batch_id_proof id : id <> "" -> entry_batch_id (id +:+ ".proof") = Some id.
Proof. intros Hid. unfold entry_batch_id. by rewrite extension_proof, file_stem_proof. Qed.

Section poll.
Context `{HashLib, Sp1Sdk} (prof : profile) `{Clock C}.

(** One turn of the loop: what other tasks did to the state meanwhile, the
    entries [read_dir] delivers before its end or first error, if the directory
    can be opened, and the environments of the calls. *)
Record poll_round := mkPollRound {
  pl_before : VerifierState -> VerifierState;
  pl_entries : result string (list string);
  pl_env : string -> VEnv C;
}.

Definition poll_once (self : VerifierNode) (ps : gset string * VerifierState) (r : poll_round)
    : option (gset string * VerifierState) :=
  let '(processed, s) := ps in
  let s := pl_before r s in
  match pl_entries r with
  | Err _ => Some (processed, s)
  | Ok entries => poll_pass prof self (pl_env r) (omap entry_batch_id entries) processed s
  end.

(** The loop never ends; this is its state after the given turns. *)
Definition poll_proof_directory (self : VerifierNode) (rounds : list poll_round)
    (s : VerifierState) : option (gset string * VerifierState) :=
  foldlM (poll_once self) (∅, s) rounds.

(** The pause after each turn, whatever [--poll-interval-ms] says. *)
Definition poll_sleep_ms (args : Args) : Z := 5000.
End poll.

(** ** Connections *)

Section net.
Context `{JsonLib} `{HashLib, Sp1Sdk} (prof : profile) `{Clock C}.

Definition commitment_shape : list (string * field_ty) :=
  [("batch_hash", TString); ("trace_hash", TString); ("state_root_pre", TString);
   ("state_root_post", TString); ("total_compute", TU64); ("tx_count", TU64)].

(** [msg_type] is renamed on the wire. *)
Definition message_shape : list (string * field_ty) :=
  [("type", TString); ("batch_id", TString); ("proof_hash", TString);
   ("commitment", TRecord commitment_shape); ("proof_size", TU64)].

(** [serde_json::from_str::<ProofMessage>]; the last cases never occur. *)
Definition parse_message (line : string) : result string ProofMessage :=
  from_text message_shape line ≫= fun fs =>
  match fs with
  | [FString ty; FString id; FString h; FRecord c; FU64 size] =>
      match map snd c with
      | [FString bh; FString th; FString pre; FString post; FU64 cu; FU64 n] =>
          Ok (mkProofMessage ty id h (mkProofCommitment bh th pre post cu n) size)
      | _ => Err ""
      end
  | _ => Err ""
  end.

(** The lookups of [handle_rpc] in the parameters. *)
Definition decode_request (r : RpcCall) : VRequest :=
  mkVRequest (rc_method r) (value_get (rc_params r) "batch_id" ≫= value_as_str)
    (value_get (rc_params r) "limit" ≫= value_as_u64) (rc_id r).

Definition verified_fields (b : VerifiedBatch) : list (string * field Value) :=
  [("batch_id", FString (vb_batch_id b)); ("proof_hash", FString (vb_proof_hash b));
   ("state_root_pre", FString (vb_state_root_pre b));
   ("state_root_post", FString (vb_state_root_post b));
   ("tx_count", FU64 (vb_tx_count b));
   ("verification_time_ms", FU64 (vb_verification_time_ms b));
   ("verified_at", FU64 (vb_verified_at b)); ("attestation", FString (vb_attestation b))].

Definition result_value (r : verifier_reply) : Value :=
  match r with
  | VNull => JNull
  | VVerified b => ser (FRecord (verified_fields b))
  | VStatus id verified failed pending root =>
      JObject [("node_id", JString id); ("verified_count", JNumber verified);
               ("failed_count", JNumber failed); ("pending_count", JNumber pending);
               ("current_state_root", JString root)]
  | VBatches l => JArray (map (fun b => ser (FRecord (verified_fields b))) l)
  | VAttestation a => JObject [("attestation", JString a)]
  end.

Definition encode_response (r : VResponse) : RpcReply :=
  mkRpcReply (result_value (vr_result r)) (vr_id r) (vr_rpc_error r).

(** The answer to one line, if it has one. *)
Definition answer_line (self : VerifierNode) (env : VEnv C) (line : string) (s : VerifierState)
    : option (option RpcReply * VerifierState) :=
  let request :=
    match parse_call line with
    | Ok r =>
        '(response, s) ← handle_rpc prof self env (decode_request r) s;
        Some (Some (encode_response response), s)
    | Err e => Some (Some (mkRpcReply JNull 0 (Some ("Parse error: " +:+ e))), s)
    end in
  match parse_message line with
  | Ok msg =>
      if String.eqb (pm_msg_type msg) "proof" then
        '(_, s) ← handle_proof_broadcast prof self env msg s;
        Some (None, s)
      else request
  | Err _ => request
  end.

(** One turn of [handle_connection], as for the validator. *)
Record vturn := mkVTurn {
  vt_before : VerifierState -> VerifierState;
  vt_read : result string string;
  vt_env : VEnv C;
  vt_write : result string unit;
}.

Fixpoint handle_connection (self : VerifierNode) (turns : list vturn) (s : VerifierState)
    : option (list (string * RpcReply) * VerifierState) :=
  match turns with
  | [] => Some ([], s)
  | t :: turns =>
      let s := vt_before t s in
      match vt_read t with
      | Err _ => Some ([], s)
      | Ok line =>
          if String.eqb line "" then Some ([], s)
          else
            '(reply, s) ← answer_line self (vt_env t) line s;
            match reply with
            | None => handle_connection self turns s
            | Some reply =>
                match vt_write t with
                | Err _ => Some ([], s)
                | Ok _ =>
                    '(replies, s) ← handle_connection self turns s;
                    Some ((line, reply) :: replies, s)
                end
            end
      end
  end.
End net.
