(* ===== verification/Client.v ===== *)
(** * The client ([examples/client/src/main.rs])

    A command sends requests to a validator or a verifier node, one connection
    each, and prints what it learns.  A command is a program in the monad
    [client]: it exchanges lines with the network, whose state [N] answers for
    everything outside, prints, and may panic, which ends it and keeps what was
    printed. *)

From Stdlib Require Import ZArith Lia Ascii String Bool Strings.Byte.
From stdpp Require Import base list strings list_numbers.
From S2P Require Import Prelude RustNum RustFmt Float64 FloatFmt Wire.

Local Open Scope Z_scope.

(** ** Parsing the instruction *)

(** [trim_start_matches("0x")] *)
Fixpoint trim_0x (s : string) : string :=
  match s with
  | String "0" (String "x" s) => trim_0x s
  | _ => s
  end.

Definition hex_value (a : ascii) : option Z :=
  let n := Z.of_nat (nat_of_ascii a) in
  if (48 <=? n) && (n <=? 57) then Some (n - 48)
  else if (97 <=? n) && (n <=? 102) then Some (n - 87)
  else if (65 <=? n) && (n <=? 70) then Some (n - 55)
  else None.

(** [u8::from_str_radix(_, 16).ok()] on two bytes: a plus sign may come
    first. *)
Definition u8_from_hex (a b : ascii) : option byte :=
  if Ascii.eqb a "+" then u8_of_Z <$> hex_value b
  else
    x ← hex_value a;
    y ← hex_value b;
    Some (u8_of_Z (16 * x + y)).

(** A byte that is not the first of a UTF-8 character. *)
Definition is_continuation (a : ascii) : bool :=
  (128 <=? Z.of_nat (nat_of_ascii a)) && (Z.of_nat (nat_of_ascii a) <? 192).

(** The slices [&hex[i..i + 2]]: one past the end or inside a character
    panics; a pair that is no number is dropped. *)
Fixpoint hex_pairs (s : string) : option (list byte) :=
  match s with
  | EmptyString => Some []
  | String a EmptyString => None
  | String a (String b rest) =>
      if match rest with String c _ => is_continuation c | EmptyString => false end then None
      else
        bytes ← hex_pairs rest;
        Some match u8_from_hex a b with
             | Some x => x :: bytes
             | None => bytes
             end
  end.

Definition hex_to_bytes (hex : string) : option (list byte) := hex_pairs (trim_0x hex).

(** ** The command line *)

Inductive Command :=
| Submit (sender program data priority : string) (count : Z)
| Status
| Seal
| Proofs (limit : Z)
| Verify (batch_id : string)
| VerifierStatus
| Attestation (batch_id : string)
| Benchmark (tx_count batch_size : Z).

Record Args := mkArgs { validator : string; verifier : string; command : Command }.

(** The defaults of the options. *)
Definition Args_default (c : Command) : Args := mkArgs "127.0.0.1:8899" "127.0.0.1:8900" c.
Definition Submit_default (sender program : string) : Command :=
  Submit sender program "" "normal" 1.
Definition Proofs_default : Command := Proofs 10.
Definition Benchmark_default : Command := Benchmark 100 10.

(** ** Effects *)

(** What is printed on the two streams. *)
Inductive output := Stdout (line : string) | Stderr (line : string).

(** The outcomes of one connection. *)
Record exchange := mkExchange {
  x_connect : result string unit;
  x_write : result string unit;
  x_read : result string string;
}.

Section client.
Context `{JsonLib} {N : Type}.

(** The network: its answer to a connection to an address over which a line is
    sent. *)
Variable talk : string -> string -> N -> exchange * N.

(** [None] is a panic. *)
Definition client (A : Type) : Type := N * list output -> option A * (N * list output).

#[export] Instance client_ret : MRet client := fun _ a st => (Some a, st).
#[export] Instance client_bind : MBind client := fun _ _ f c st =>
  match c st with
  | (Some a, st) => f a st
  | (None, st) => (None, st)
  end.

Definition panic {A} : client A := fun st => (None, st).
Definition println (s : string) : client unit := fun '(n, o) => (Some tt, (n, o ++ [Stdout s])).
Definition eprintln (s : string) : client unit := fun '(n, o) => (Some tt, (n, o ++ [Stderr s])).
Definition unwrap {A} (o : option A) : client A :=
  match o with
  | Some a => mret a
  | None => panic
  end.

(** A [for] loop. *)
Fixpoint for_each (l : list Z) (body : Z -> client unit) : client unit :=
  match l with
  | [] => mret tt
  | i :: l => body i ≫= fun _ => for_each l body
  end.

(** The reply in what came back. *)
Definition reply_of (x : exchange) : result string RpcReply :=
  map_err (fun e => "Connection failed: " +:+ e) (x_connect x) ≫= fun _ =>
  map_err (fun e => "Write failed: " +:+ e) (x_write x) ≫= fun _ =>
  map_err (fun e => "Read failed: " +:+ e) (x_read x) ≫= fun line =>
  map_err (fun e => "Parse failed: " +:+ e) (parse_reply line).

Definition send_rpc (addr method : string) (params : Value) : client (result string RpcReply) :=
  fun '(n, o) =>
    let req := mkRpcCall method params 1 in
    let '(x, n) := talk addr (call_line req) n in
    (Some (reply_of x), (n, o)).

(** ** The commands *)

Definition empty_params : Value := JObject [].
Definition batch_params (batch_id : string) : Value := JObject [("batch_id", JString batch_id)].

(** The parameters of a submission. *)
Definition submission (sender program_id : string) (instruction_data : list byte)
    (priority : string) : Value :=
  JObject [("sender", JString sender); ("program_id", JString program_id);
           ("instruction_data", ser (FBytes instruction_data)); ("priority", JString priority)].

(** The arms every command has: a failed call, an error reply, a result. *)
Definition on_reply (error_prefix : string) (r : result string RpcReply)
    (ok : Value -> client unit) : client unit :=
  match r with
  | Ok resp =>
      match ry_error resp with
      | Some err => eprintln (error_prefix +:+ err)
      | None => ok (ry_result resp)
      end
  | Err e => eprintln ("Failed: " +:+ e)
  end.

Definition print_field (key : string) (text : Value -> string) (v : Value) : client unit :=
  match value_get v key with
  | Some x => println (text x)
  | None => mret tt
  end.

Definition print_titled (title : string) (v : Value) : client unit :=
  println title ≫= fun _ => println (json_pretty v).

Definition run_submit (args : Args) (sender program data priority : string) (count : Z)
    : client unit :=
  unwrap (if String.eqb data "" then Some [u8_of_Z 3] else hex_to_bytes data)
    ≫= fun instruction_data =>
  println ("Submitting " +:+ fmt_u64 count +:+ " transaction(s)...") ≫= fun _ =>
  for_each (seqZ 0 count) (fun i =>
    send_rpc (validator args) "submitTransaction"
      (submission (sender +:+ "_" +:+ fmt_u64 i) program instruction_data priority) ≫= fun r =>
    on_reply "Error: " r (print_field "tx_id" (fun tx_id => "  Submitted: " +:+ json_text tx_id))).

Definition run_status (args : Args) : client unit :=
  send_rpc (validator args) "getStatus" empty_params ≫= fun r =>
  on_reply "Error: " r (print_titled "Validator Status:").

Definition run_seal (args : Args) : client unit :=
  send_rpc (validator args) "forceSeal" empty_params ≫= fun r =>
  on_reply "Error: " r (print_field "batch_id" (fun id => "Sealed batch: " +:+ json_text id)).

(** The line of one proof. *)
Definition proof_line (proof : Value) : string :=
  let field k := json_text (default JNull (value_get proof k)) in
  "  " +:+ field "batch_id" +:+ " - " +:+ field "tx_count" +:+ " txs, "
  +:+ field "proving_time_ms" +:+ "ms proving time, " +:+ field "proof_size_bytes" +:+ " bytes".

Fixpoint print_lines (l : list string) : client unit :=
  match l with
  | [] => mret tt
  | s :: l => println s ≫= fun _ => print_lines l
  end.

Definition run_proofs (args : Args) (limit : Z) : client unit :=
  send_rpc (validator args) "getProofs" empty_params ≫= fun r =>
  on_reply "Error: " r (fun result =>
    let proofs := default [] (value_as_array result) in
    println ("Generated Proofs (" +:+ fmt_u64 (Z.of_nat (length proofs)) +:+ "):") ≫= fun _ =>
    print_lines (map proof_line (take (Z.to_nat limit) proofs))).

Definition run_verify (args : Args) (batch_id : string) : client unit :=
  send_rpc (verifier args) "verifyBatch" (batch_params batch_id) ≫= fun r =>
  on_reply "Verification failed: " r (print_titled "Verification Result:").

Definition run_verifier_status (args : Args) : client unit :=
  send_rpc (verifier args) "getStatus" empty_params ≫= fun r =>
  on_reply "Error: " r (print_titled "Verifier Status:").

Definition run_attestation (args : Args) (batch_id : string) : client unit :=
  send_rpc (verifier args) "getAttestation" (batch_params batch_id) ≫= fun r =>
  on_reply "Error: " r (print_field "attestation"
    (fun att => "Attestation for " +:+ batch_id +:+ ": " +:+ json_text att)).

(** [x % y] on [usize]. *)
Definition usize_rem (x y : Z) : option Z := if y =? 0 then None else Some (x mod y).

(** A failed call is reported, a reply is ignored. *)
Definition report_failure (prefix : string) (r : result string RpcReply) : client unit :=
  match r with
  | Ok _ => mret tt
  | Err e => eprintln (prefix +:+ e)
  end.

Definition benchmark_seal (args : Args) : client unit :=
  send_rpc (validator args) "forceSeal" empty_params ≫= report_failure "Seal failed: ".

Definition benchmark_turn (args : Args) (batch_size i : Z) : client unit :=
  (send_rpc (validator args) "submitTransaction"
     (submission ("bench_user_" +:+ fmt_u64 (i mod 100)) "benchmark_program" [u8_of_Z 3] "normal")
     ≫= report_failure "Submit failed: ") ≫= fun _ =>
  unwrap (usize_rem (i + 1) batch_size) ≫= fun rem =>
  if rem =? 0 then
    println ("  Submitted " +:+ fmt_u64 (i + 1) +:+ " txs, sealing batch...") ≫= fun _ =>
    benchmark_seal args
  else mret tt.

(** [elapsed] is the reading of the stop watch, in seconds. *)
Definition run_benchmark (args : Args) (elapsed : f64) (tx_count batch_size : Z) : client unit :=
  println ("Running benchmark: " +:+ fmt_u64 tx_count +:+ " txs, " +:+ fmt_u64 batch_size
           +:+ " per batch") ≫= fun _ =>
  for_each (seqZ 0 tx_count) (benchmark_turn args batch_size) ≫= fun _ =>
  unwrap (usize_rem tx_count batch_size) ≫= fun rem =>
  (if negb (rem =? 0) then
     println "  Sealing final batch..." ≫= fun _ => benchmark_seal args
   else mret tt) ≫= fun _ =>
  println (nl +:+ "Benchmark complete:") ≫= fun _ =>
  println ("  Total txs: " +:+ fmt_u64 tx_count) ≫= fun _ =>
  println ("  Time: " +:+ fmt_fixed 2 elapsed +:+ "s") ≫= fun _ =>
  println ("  TPS: " +:+ fmt_fixed 2 (f64_div (f64_of_Z tx_count) elapsed)) ≫= fun _ =>
  send_rpc (validator args) "getStatus" empty_params ≫= fun r =>
  match r with
  | Ok resp => print_titled (nl +:+ "Validator status:") (ry_result resp)
  | Err e => eprintln ("Status failed: " +:+ e)
  end.

Definition main (args : Args) (elapsed : f64) : client unit :=
  match command args with
  | Submit sender program data priority count =>
      run_submit args sender program data priority count
  | Status => run_status args
  | Seal => run_seal args
  | Proofs limit => run_proofs args limit
  | Verify batch_id => run_verify args batch_id
  | VerifierStatus => run_verifier_status args
  | Attestation batch_id => run_attestation args batch_id
  | Benchmark tx_count batch_size => run_benchmark args elapsed tx_count batch_size
  end.
End client.

(** ** Facts about the arguments *)

(** Any number of [0x] in front. *)
Fixpoint prefix_0x (k : nat) (s : string) : string :=
  match k with
  | O => s
  | S k => "0x" +:+ prefix_0x k s
  end.

Lemma hex_value_digit z : 0 <= z < 16 -> hex_value (hex_digit z) = Some z.
Proof.
  intros Hz. assert (z ∈ seqZ 0 16) as Hin by (apply elem_of_seqZ; lia).
  clear Hz. revert z Hin. apply Forall_forall. by repeat constructor.
Qed.

(** A digit starts no prefix, no sign and no continuation. *)
Lemma hex_digit_plain z : 0 <= z < 16 ->
  Ascii.eqb (hex_digit z) "+" = false /\ is_continuation (hex_digit z) = false /\
  hex_digit z <> "x"%char.
Proof.
  intros Hz. assert (z ∈ seqZ 0 16) as Hin by (apply elem_of_seqZ; lia).
  clear Hz. revert z Hin. apply Forall_forall. by repeat constructor.
Qed.

Lemma nibbles b : 0 <= u8_to_Z b / 16 < 16 /\ 0 <= u8_to_Z b mod 16 < 16.
Proof. pose proof (u8_to_Z_range b). Z.to_euclidean_division_equations; lia. Qed.

Lemma u8_from_hex_byte b :
  u8_from_hex (hex_digit (u8_to_Z b / 16)) (hex_digit (u8_to_Z b mod 16)) = Some b.
Proof.
  destruct (nibbles b) as [H1 H2]. unfold u8_from_hex.
  rewrite (proj1 (hex_digit_plain _ H1)), !hex_value_digit by done. cbn [mbind option_bind].
  rewrite <-Z.div_mod by done. by rewrite u8_of_to_Z.
Qed.

Lemma hex_pairs_bytes bs : hex_pairs (hex_of_bytes bs) = Some bs.
Proof.
  induction bs as [|b bs IH]; [done|]. cbn [hex_of_bytes hex_pairs].
  assert (match hex_of_bytes bs with String c _ => is_continuation c | EmptyString => false end =
    false) as ->.
  { destruct bs as [|c bs]; [done|]. cbn [hex_of_bytes].
    by destruct (hex_digit_plain _ (proj1 (nibbles c))) as (_ & ? & _). }
  rewrite IH. cbn [mbind option_bind]. by rewrite u8_from_hex_byte.
Qed.

Lemma trim_0x_bytes bs : trim_0x (hex_of_bytes bs) = hex_of_bytes bs.
Proof.
  destruct bs as [|b bs]; [done|]. cbn [hex_of_bytes].
  destruct (hex_digit_plain _ (proj2 (nibbles b))) as (_ & _ & Hx).
  set (d := hex_digit (u8_to_Z b / 16)). set (c := hex_digit (u8_to_Z b mod 16)) in *.
  clearbody c d. destruct d as [[] [] [] [] [] [] [] []]; try done.
  by destruct c as [[] [] [] [] [] [] [] []].
Qed.

Lemma trim_0x_prefix k s : trim_0x (prefix_0x k s) = trim_0x s.
Proof. by induction k as [|k IH]. Qed.

Lemma hex_pairs_length s : forall bs, hex_pairs s = Some bs ->
  Nat.even (String.length s) = true /\ (2 * length bs <= String.length s)%nat.
Proof.
  enough (forall n s bs, (String.length s <= n)%nat -> hex_pairs s = Some bs ->
    Nat.even (String.length s) = true /\ (2 * length bs <= String.length s)%nat) as Hn
    by (intros bs; by apply (Hn (String.length s))).
  clear s. intros n. induction n as [|n IH]; intros [|a [|b s]] bs Hl; simpl in Hl;
    try done; try lia; try (by intros [= <-]).
  cbn [hex_pairs]. destruct (match s with String c _ => _ | _ => _ end); [done|].
  intros (bs' & Hs & [= <-])%bind_Some. apply IH in Hs as [Hev Hle]; [|lia].
  split; [done|]. simpl. destruct (u8_from_hex a b); simpl; lia.
Qed.

(** C36: The client reads back the hexadecimal text of any bytes, whatever
    number of [0x] comes first.  A text of odd length panics, and no text gives
    more than one byte for two characters. *)
Theorem hex_to_bytes_spec k bs s :
  hex_to_bytes (prefix_0x k (hex_of_bytes bs)) = Some bs /\
  (Nat.odd (String.length (trim_0x s)) = true -> hex_to_bytes s = None) /\
  (forall out, hex_to_bytes s = Some out -> (2 * length out <= String.length (trim_0x s))%nat).
Proof.
  unfold hex_to_bytes. rewrite trim_0x_prefix, trim_0x_bytes, hex_pairs_bytes.
  split; [done|]. split.
  - intros Hodd. destruct (hex_pairs (trim_0x s)) as [out|] eqn:E; [|done].
    apply hex_pairs_length in E as [Hev _]. unfold Nat.odd in Hodd. by rewrite Hev in Hodd.
  - intros out Hout. by apply hex_pairs_length in Hout as [_ ?].
Qed.

(** A pair that is no number is dropped without a word. *)
Example hex_bad_pair : hex_to_bytes "0x01zz+203" = Some [x01; x02; x03].
Proof. reflexivity. Qed.

(** ** Running commands *)

Section running.
Context `{JsonLib} {N : Type} (talk : string -> string -> N -> exchange * N).

Lemma bind_run {A B} (c : client (N := N) A) (f : A -> client B) st :
  (c ≫= f) st = match c st with (Some a, st) => f a st | (None, st) => (None, st) end.
Proof. done. Qed.

Lemma println_run s n o : println (N := N) s (n, o) = (Some tt, (n, o ++ [Stdout s])).
Proof. done. Qed.

Lemma send_rpc_run addr method params n o :
  send_rpc talk addr method params (n, o) =
    let '(x, n) := talk addr (call_line (mkRpcCall method params 1)) n in
    (Some (reply_of x), (n, o)).
Proof. done. Qed.

(** A loop is its first turn and the rest. *)
Lemma for_each_run i l (body : Z -> client (N := N) unit) st :
  for_each (i :: l) body st =
    match body i st with (Some _, st) => for_each l body st | (None, st) => (None, st) end.
Proof. done. Qed.

(** [--batch-size 0] panics, after one submission if there is one to make. *)
Lemma benchmark_zero_batch args elapsed n st :
  0 <= n -> (run_benchmark talk args elapsed n 0 st).1 = None.
Proof.
  intros Hn. destruct st as [net o]. unfold run_benchmark. rewrite !bind_run, println_run.
  destruct (Z.eq_dec n 0) as [->|Hpos]; [done|].
  rewrite bind_run, seqZ_cons, for_each_run by lia. unfold benchmark_turn.
  rewrite !bind_run, send_rpc_run. destruct (talk _ _ _) as [x net'].
  by destruct (reply_of x).
Qed.
End running.
