(* ===== verification/Protocol.v ===== *)
(** * The protocol between the programs

    What one program writes is what another reads: the client's submissions as
    the validator's transactions, and the validator's broadcasts as the
    verifier's messages. *)

From Stdlib Require Import ZArith Lia Ascii String Bool Strings.Byte.
From stdpp Require Import base gmap strings list list_numbers.
From S2P Require Import Prelude RustNum RustFmt Float64 Merkle Types TraceBuilder Isa Executor.
From S2P Require Import ExecutorFacts TraceFacts Guest Sp1 Policy.
From S2P Require Import Wire Files VerifierNode VerifierNet ValidatorNode ValidatorFacts.
From S2P Require Import ValidatorNet Client.

Local Open Scope Z_scope.

(** ** Submissions *)

Section submission.
Context `{JsonLaws} `{HashLib, Sp1Sdk} (prof : profile) `{Clock C}.

Definition submission_fields (s p : string) (d : list byte) (pr : string)
    : list (string * field Value) :=
  [("sender", FString s); ("program_id", FString p); ("instruction_data", FBytes d);
   ("priority", FOptString (Some pr))].

Lemma submit_params_submission s p d pr :
  ValidatorNet.submit_params (submission s p d pr) = Ok (mkSubmitTxParams s p d (Some pr)).
Proof.
  unfold ValidatorNet.submit_params. change (submission s p d pr) with
    (ser (FRecord (submission_fields s p d pr))).
  rewrite from_value_record; [done|]. split; [|done]. apply (bool_decide_unpack _).
  by vm_compute.
Qed.

Lemma submission_plain s p d pr : plain max_depth (submission s p d pr).
Proof.
  unfold max_depth. apply plain_object. cbn [map snd].
  repeat constructor; auto using plain_string, plain_bytes.
Qed.

(** The network of a client that knows one validator: the connection carries
    one request and is closed.  The environment of the [k]-th call is
    [envs k]. *)
Definition talk_validator (self : Validator) (envs : nat -> Env C) (here : string)
    (addr line : string) (net : nat * ValidatorState) : exchange * (nat * ValidatorState) :=
  let '(k, s) := net in
  if negb (String.eqb addr here) then (mkExchange (Err "Connection refused") (Ok tt) (Ok ""), net)
  else
    match ValidatorNet.handle_connection prof self
            [ValidatorNet.mkTurn (fun s => s) (Ok line) (envs k) (Ok tt)] s with
    | Some (replies, s) =>
        (mkExchange (Ok tt) (Ok tt) (Ok (String.concat "" (ValidatorNet.written replies))), (S k, s))
    | None => (mkExchange (Ok tt) (Ok tt) (Ok ""), (S k, s))
    end.

(** The transaction a submission becomes. *)
Definition submitted_tx (env : Env C) (n : Z) (s p : string) (d : list byte) (pr : string)
    : Transaction :=
  mkTransaction (node_tx_id n) (e_now env 0) s p [] d (parse_priority (Some pr)) 200000 None.

Definition add_pending (txs : list Transaction) (s : ValidatorState) : ValidatorState :=
  mkValidatorState (pending_txs s ++ txs) (vs_batches s) (proofs s) (vs_state s)
    (tx_counter s + Z.of_nat (length txs)) (vs_batch_counter s).

Lemma talk_submission self envs here s p d pr k st :
  0 <= tx_counter st -> tx_counter st + 1 < u64_bound ->
  exists x, talk_validator self envs here here
      (call_line (mkRpcCall "submitTransaction" (submission s p d pr) 1)) (k, st) =
      (x, (S k, add_pending [submitted_tx (envs k) (tx_counter st + 1) s p d pr] st)) /\
    reply_of x =
      Ok (mkRpcReply (JObject [("tx_id", JString (as_str (node_tx_id (tx_counter st + 1))))])
            1 None).
Proof.
  intros Hnn Hlt. unfold talk_validator. rewrite String.eqb_refl. cbn [negb].
  cbn [ValidatorNet.handle_connection ValidatorNet.t_read ValidatorNet.t_before ValidatorNet.t_env
    ValidatorNet.t_write].
  unfold call_line at 1. unfold ValidatorNet.answer_line, call_line.
  rewrite parse_call_line; [|apply submission_plain|done|by right].
  destruct (String.eqb_spec (record_text (call_fields
    (mkRpcCall "submitTransaction" (submission s p d pr) 1)) +:+ nl) "") as [Heq|_].
  { apply (f_equal String.length) in Heq. rewrite string_length_app in Heq. simpl in Heq. lia. }
  unfold ValidatorNet.decode_request. cbn [rc_method rc_params rc_id].
  rewrite submit_params_submission. unfold handle_rpc. cbn [rq_method rq_params].
  change (String.eqb "submitTransaction" "submitTransaction") with true. cbn match.
  unfold submit_transaction, u64_add. rewrite u64_arith_in by (split; lia).
  cbn [mbind option_bind]. eexists. split; [reflexivity|].
  unfold reply_of. cbn [x_connect x_write x_read map_err mbind result_bind].
  cbn [ValidatorNet.written map snd String.concat]. rewrite parse_reply_line; [done| |done].
  cbn [ry_result ValidatorNet.encode_response ValidatorNet.result_value rs_result].
  unfold max_depth. apply plain_object. repeat constructor. apply plain_string.
Qed.
End submission.

(** ** A whole submission *)

Section delivery.
Context `{JsonLaws} `{HashLib, Sp1Sdk} (prof : profile) `{Clock C}.
Variables (self : Validator) (envs : nat -> Env C).

(** What the [i]-th call, counted from [a], adds and prints. *)
Definition delivered (snd p : string) (d : list byte) (pr : string) (k : nat) (c i : Z)
    : Transaction :=
  submitted_tx (envs (k + Z.to_nat i)) (c + 1 + i) (snd +:+ "_" +:+ fmt_u64 i) p d pr.

Definition submitted_line (c i : Z) : output :=
  Stdout ("  Submitted: " +:+ json_text (JString (as_str (node_tx_id (c + 1 + i))))).

Lemma add_pending_cons tx l s : add_pending (tx :: l) s = add_pending l (add_pending [tx] s).
Proof. unfold add_pending. cbn -[Z.of_nat]. rewrite <-app_assoc. f_equal. lia. Qed.

Lemma run_submissions args snd p d pr k s c a n out :
  let talk := talk_validator prof self envs (validator args) in
  let body i :=
    send_rpc talk (validator args) "submitTransaction"
      (submission (snd +:+ "_" +:+ fmt_u64 i) p d pr) ≫= fun r =>
    on_reply "Error: " r (print_field "tx_id" (fun t => "  Submitted: " +:+ json_text t)) in
  0 <= c -> 0 <= a -> tx_counter s = c + a -> c + a + Z.of_nat n < u64_bound ->
  for_each (seqZ a (Z.of_nat n)) body ((k + Z.to_nat a)%nat, s, out) =
    (Some tt, ((k + Z.to_nat a + n)%nat,
               add_pending (map (delivered snd p d pr k c) (seqZ a (Z.of_nat n))) s,
               out ++ map (submitted_line c) (seqZ a (Z.of_nat n)))).
Proof.
  intros talk body Hc. revert a s out. induction n as [|n IH]; intros a s out Ha Hs Hlt.
  { rewrite seqZ_nil, Nat.add_0_r, app_nil_r by done. unfold add_pending. cbn.
    rewrite app_nil_r, Z.add_0_r. by destruct s. }
  rewrite seqZ_cons, for_each_run by lia. replace (Z.pred (Z.of_nat (S n))) with (Z.of_nat n) by lia.
  unfold body at 1. rewrite bind_run, send_rpc_run. unfold talk at 1.
  destruct (talk_submission prof self envs (validator args) (snd +:+ "_" +:+ fmt_u64 a) p d pr
    (k + Z.to_nat a) s) as (x & -> & ->); [lia..|].
  cbn [on_reply ry_error ry_result]. unfold print_field.
  rewrite value_get_object by (apply (bool_decide_unpack _); by vm_compute).
  match goal with |- context [assoc ?k [(?k, ?v)]] => change (assoc k [(k, v)]) with (Some v) end.
  cbv iota beta. rewrite println_run.
  replace (S (k + Z.to_nat a)) with (k + Z.to_nat (Z.succ a))%nat by lia.
  rewrite IH by (cbn; lia). cbn [map]. f_equal.
  f_equal; [f_equal; [lia|]|].
  - assert (delivered snd p d pr k c a = submitted_tx (envs (k + Z.to_nat a)%nat)
      (tx_counter s + 1) (snd +:+ "_" +:+ fmt_u64 a) p d pr) as Hd.
    { unfold delivered. f_equal. lia. }
    symmetry. by rewrite add_pending_cons, Hd.
  - rewrite <-app_assoc. assert (submitted_line c a = Stdout ("  Submitted: " +:+
      json_text (JString (as_str (node_tx_id (tx_counter s + 1)))))) as ->.
    { unfold submitted_line. replace (c + 1 + a) with (tx_counter s + 1) by lia. done. }
    done.
Qed.
End delivery.

(** C16: A client that submits [count] transactions to a validator leaves them in
    its queue in order, with the sender numbered, the program, the bytes of the
    instruction and the priority of the command line, under the next ids of the
    node; it prints those ids, and nothing else of the node changes. *)
Theorem client_submit_delivers `{JsonLaws} `{HashLib, Sp1Sdk} prof `{Clock C} (self : Validator)
    (envs : nat -> Env C) addr ver elapsed snd p data d pr count k s :
  (if String.eqb data "" then Some [u8_of_Z 3] else hex_to_bytes data) = Some d ->
  0 <= count -> 0 <= tx_counter s -> tx_counter s + count < u64_bound ->
  main (talk_validator prof self envs addr) (mkArgs addr ver (Submit snd p data pr count))
      elapsed ((k, s), []) =
    (Some tt,
     ((k + Z.to_nat count)%nat,
      add_pending (map (delivered envs snd p d pr k (tx_counter s)) (seqZ 0 count)) s,
      Stdout ("Submitting " +:+ fmt_u64 count +:+ " transaction(s)...")
        :: map (submitted_line (tx_counter s)) (seqZ 0 count))).
Proof.
  intros Hd Hcount Hc Hlt. cbn [main command]. unfold run_submit. rewrite Hd.
  rewrite bind_run. cbn [unwrap mret client_ret]. rewrite bind_run, println_run. cbn [validator].
  pose proof (run_submissions prof self envs (mkArgs addr ver (Submit snd p data pr count)) snd p d
    pr k s (tx_counter s) 0 (Z.to_nat count)
    [Stdout ("Submitting " +:+ fmt_u64 count +:+ " transaction(s)...")]) as Hrun.
  cbv zeta in Hrun. rewrite Z2Nat.id, Nat.add_0_r in Hrun by lia. cbn [app] in *.
  apply Hrun; lia.
Qed.

(** ** Broadcasts *)

(** The message a broadcast is received as. *)
Definition message_of (pf : BatchProof) : ProofMessage :=
  mkProofMessage "proof" (pf_batch_id pf) (pf_proof_hash pf) (pf_commitment pf)
    (pf_proof_size_bytes pf).

(** The numbers of a proof that are broadcast fit their types. *)
Definition broadcast_ok (pf : BatchProof) : Prop :=
  is_u64 (pc_total_compute (pf_commitment pf)) /\ is_u64 (pc_tx_count (pf_commitment pf)) /\
  is_u64 (pf_proof_size_bytes pf).

Section broadcast.
Context `{JsonLaws}.

Lemma parse_broadcast pf tail :
  broadcast_ok pf -> tail = "" \/ tail = nl ->
  parse_message (record_text (broadcast_fields pf) +:+ tail) = Ok (message_of pf).
Proof.
  intros (Hcu & Hn & Hsize) Ht. unfold parse_message. rewrite from_text_record; [| |done].
  - unfold message_of. by destruct pf as [id d h [] at_ms ms sz].
  - cbn. repeat split; try apply Hcu; try apply Hn; try apply Hsize;
      apply (bool_decide_unpack _); by vm_compute.
Qed.

(** A request has no [type], so it is no broadcast. *)
Lemma parse_message_call c tail :
  tail = "" \/ tail = nl -> exists e, parse_message (record_text (call_fields c) +:+ tail) = Err e.
Proof.
  intros Ht.
  destruct (from_text_missing message_shape (call_fields c) tail "type" TString) as [e He];
    [left|done| |done|].
  - cbn. rewrite !not_elem_of_cons. split_and!; try done. apply not_elem_of_nil.
  - exists e. unfold parse_message. by rewrite He.
Qed.
End broadcast.

(** C19: The verifier node takes what a validator broadcasts, with or without a
    line feed at its end, for a proof with the validator's batch id, hash and
    commitment, and answers nothing; what a client sends it takes for a request,
    and answers with the reply of its handler. *)
Theorem verifier_dispatch `{JsonLaws} `{HashLib, Sp1Sdk} prof `{Clock C} self (env : VEnv C)
    pf tail c s :
  broadcast_ok pf -> tail = "" \/ tail = nl ->
  plain max_depth (rc_params c) -> is_u64 (rc_id c) ->
  VerifierNet.answer_line prof self env (record_text (broadcast_fields pf) +:+ tail) s =
    (fun rs => (None, rs.2)) <$> handle_proof_broadcast prof self env (message_of pf) s /\
  VerifierNet.answer_line prof self env (call_line c) s =
    (fun rs => (Some (VerifierNet.encode_response rs.1), rs.2)) <$>
      VerifierNode.handle_rpc prof self env (VerifierNet.decode_request c) s.
Proof.
  intros Hpf Ht Hp Hid. unfold VerifierNet.answer_line. split.
  - rewrite parse_broadcast by done. cbn [pm_msg_type message_of].
    change (String.eqb "proof" "proof") with true. cbv iota.
    by destruct (handle_proof_broadcast _ _ _ _ _) as [[]|].
  - unfold call_line. destruct (parse_message_call c nl) as [e ->]; [by right|].
    rewrite parse_call_line by auto. by destruct (VerifierNode.handle_rpc _ _ _ _ _) as [[]|].
Qed.
