(* ===== verification/Network.v ===== *)
(** * A validator and a verifier that share a proof directory

    The validator of [ValidatorNode] writes the two files of a batch while it
    is in flight and publishes its record when both are complete; the verifier
    of [VerifierNode] reads whatever the directory holds at that moment;
    [dir] is the directory both are started with.  [net_step] is one step of either, a write being visible at every prefix. *)

From Stdlib Require Import ZArith Lia Ascii String Bool Strings.Byte.
From stdpp Require Import base gmap strings list.
From S2P Require Import Prelude RustNum RustFmt Merkle Types TraceBuilder Isa Executor.
From S2P Require Import ExecutorFacts TraceFacts Guest Sp1 Agreement Soundness Policy.
From S2P Require Import Wire Files VerifierNode VerifierNet ValidatorNode ValidatorFacts ValidatorNet.

Local Open Scope Z_scope.

Record Net := mkNet {
  nt_node : Node;
  nt_files : files;
  nt_read : list BatchProof;          (* proofs the verifier's handlers have read *)
  nt_verifier : VerifierState;
}.

Definition Net_start : Net := mkNet Node_start ∅ [] VerifierState_default.

Section network.
Context `{FileCodec} `{HashLib, Sp1Sdk} (prof : profile) `{Clock C}.
Variables (self : Validator) (vnode : VerifierNode) (dir : string).

(** The validator produces [pf] and [t] for a batch. *)
Definition produces (env : Env C) (id : string) (txs : list Transaction) (pf : BatchProof)
    (t : ExecutionTrace) : Prop :=
  produce_proof prof self env id txs = Some (Ok (pf, t)).

Inductive net_step : Net -> Net -> Prop :=
(** Submissions, sealings and batches that are given up. *)
| net_node n n' fs rd v :
    node_step prof (C := C) self n n' -> proofs (n_state n') = proofs (n_state n) ->
    net_step (mkNet n fs rd v) (mkNet n' fs rd v)
(** The proof file of a batch in flight holds the first [k] bytes. *)
| net_write_proof env n fs rd v id txs pf t bytes k :
    (id, txs) ∈ n_flight n -> produces env id txs pf t -> bincode_proof pf = Ok bytes ->
    net_step (mkNet n fs rd v)
      (mkNet n (<[proof_path dir (pf_batch_id pf) := take k bytes]> fs) rd v)
(** The same of its trace file. *)
| net_write_trace env n fs rd v id txs pf t bytes k :
    (id, txs) ∈ n_flight n -> produces env id txs pf t -> trace_json t = Ok bytes ->
    net_step (mkNet n fs rd v)
      (mkNet n (<[trace_path dir (pf_batch_id pf) := take k bytes]> fs) rd v)
(** Both are written: the record is published. *)
| net_publish env n fs rd v id txs pf t proof_bytes trace_bytes fl1 fl2 :
    n_flight n = fl1 ++ (id, txs) :: fl2 -> produces env id txs pf t -> e_save env = Ok tt ->
    bincode_proof pf = Ok proof_bytes -> trace_json t = Ok trace_bytes ->
    fs !! proof_path dir (pf_batch_id pf) = Some proof_bytes ->
    fs !! trace_path dir (pf_batch_id pf) = Some trace_bytes ->
    net_step (mkNet n fs rd v)
      (mkNet (mkNode (push_proof (proof_record env id pf) (n_state n)) (fl1 ++ fl2)
                (n_submitted n) (n_sealed n)) fs rd v)
(** A handler of the verifier reads the proof file of any id. *)
| net_read n fs rd v id bytes pf :
    fs !! proof_path dir id = Some bytes -> unbincode_proof bytes = Ok pf ->
    net_step (mkNet n fs rd v) (mkNet n fs (rd ++ [pf]) v)
(** It verifies what it read against some trace. *)
| net_verify env n fs rd v pf t r v' :
    pf ∈ rd -> verify_proof prof vnode env pf t v = Some (r, v') ->
    net_step (mkNet n fs rd v) (mkNet n fs rd v')
(** It changes the set of announced batches. *)
| net_announce n fs rd v p : net_step (mkNet n fs rd v) (mkNet n fs rd (set_pending p v)).

Definition net_reach : Net -> Prop := rtc net_step Net_start.

(** ** The handlers are sequences of steps *)

(** [verify_proof_file] on the current files. *)
Lemma verify_file_steps missing (env : VEnv C) n fs rd v id r v' :
  ve_read env = read_batch dir (read_file missing fs) ->
  verify_proof_file prof vnode env id v = Some (r, v') ->
  exists rd', rtc net_step (mkNet n fs rd v) (mkNet n fs rd' v').
Proof.
  intros Hread. unfold verify_proof_file. rewrite Hread.
  destruct (read_batch _ _ _) as [[pf t]|e] eqn:Hb; [|intros [= _ <-]; by exists rd].
  intros Hv. apply read_batch_ok in Hb as (pb & tb & Hpb & _ & Hpf & _).
  unfold read_file in Hpb. destruct (fs !! proof_path dir id) as [bytes|] eqn:Hf; [|done].
  injection Hpb as ->. exists (rd ++ [pf]).
  eapply rtc_l; [by eapply net_read|]. eapply rtc_once, net_verify; [|exact Hv].
  apply elem_of_app. right. left.
Qed.

(** One write of [save_proof], whatever its outcome. *)
Lemma write_steps path bytes w n fs rd v :
  (forall k, net_step (mkNet n fs rd v) (mkNet n (<[path := take k bytes]> fs) rd v)) ->
  rtc net_step (mkNet n fs rd v) (mkNet n (write_file path bytes w fs).2 rd v).
Proof.
  intros Hw. destruct w; simpl; [|done|apply rtc_once, Hw].
  specialize (Hw (length bytes)). rewrite firstn_all in Hw. by apply rtc_once.
Qed.

Lemma save_steps w1 w2 env n fs rd v id txs pf t :
  (id, txs) ∈ n_flight n -> produces env id txs pf t ->
  rtc net_step (mkNet n fs rd v) (mkNet n (save_proof dir w1 w2 pf t fs).2 rd v).
Proof.
  intros Hin Hpr. unfold save_proof. destruct (bincode_proof pf) as [pb|] eqn:Hpb; [|done].
  destruct (trace_json t) as [tb|] eqn:Htb; [|done].
  pose proof (write_steps (proof_path dir (pf_batch_id pf)) pb w1 n fs rd v) as Hw1.
  destruct (write_file _ pb w1 fs) as [[u|e] fs'] eqn:Hf; simpl in *;
    [etransitivity|]; try (apply Hw1; intros k; by eapply net_write_proof).
  apply write_steps. intros k. by eapply net_write_trace.
Qed.

(** Processing a batch in flight to its end. *)
Lemma process_batch_steps `{JsonLib} w1 w2 con sent env n fl1 fl2 fs rd v id txs s' fs' msg :
  v_proof_dir self = dir -> n_flight n = fl1 ++ (id, txs) :: fl2 -> e_save env = Ok tt ->
  process_batch_io prof self env w1 w2 con sent id txs (n_state n) fs =
    Some (Ok tt, s', fs', msg) ->
  rtc net_step (mkNet n fs rd v)
    (mkNet (mkNode s' (fl1 ++ fl2) (n_submitted n) (n_sealed n)) fs' rd v).
Proof.
  intros Hdir Hfl Hsave. unfold process_batch_io. rewrite Hdir.
  destruct (produce_proof prof self env id txs) as [[[pf t]|e]|] eqn:Hpr; [|done..].
  cbn [mbind option_bind]. destruct (save_proof dir w1 w2 pf t fs) as [[[]|e] fs1] eqn:Hs; [|done].
  intros Hq. assert (s' = push_proof (proof_record env id pf) (n_state n) /\ fs' = fs1) as [-> ->]
    by (destruct (v_broadcast_addr self); injection Hq; auto).
  assert ((id, txs) ∈ n_flight n) as Hin by (rewrite Hfl; apply elem_of_app; right; left).
  pose proof (save_steps w1 w2 env n fs rd v id txs pf t Hin Hpr) as Hsteps.
  rewrite Hs in Hsteps. eapply rtc_r; [exact Hsteps|].
  { apply save_proof_ok in Hs as (pb & tb & Hpb & Htb & ->).
    eapply (net_publish env); [exact Hfl|exact Hpr|done|exact Hpb|exact Htb| |].
    - rewrite lookup_insert_ne by (symmetry; apply proof_path_ne_trace_path). apply lookup_insert_eq.
    - apply lookup_insert_eq. }
Qed.
End network.
