(* ===== verification/NetworkFacts.v ===== *)
(** * What the shared directory guarantees

    Over every interleaving of the validator and the verifier, with torn and
    unfinished writes: whatever the verifier attests is the true execution of a
    batch the validator sealed, and a published batch is attested by the first
    pass over the directory that has not processed it. *)

From Stdlib Require Import ZArith Lia Ascii String Bool Strings.Byte.
From stdpp Require Import base gmap strings list.
From S2P Require Import Prelude RustNum RustFmt Merkle Types TraceBuilder Isa Executor.
From S2P Require Import ExecutorFacts TraceFacts Guest Sp1 Agreement Soundness Policy.
From S2P Require Import Files VerifierNode VerifierNet ValidatorNode ValidatorFacts Network.

Local Open Scope Z_scope.

(** An attested batch with the roots and count of executing [txs]. *)
Definition attests_run `{HashLib} (txs : list Transaction) (b : VerifiedBatch) : Prop :=
  vb_state_root_pre b = state_root (init_balances txs) /\
  vb_state_root_post b = state_root (machine_run (ledger_txs txs) (init_balances txs)) /\
  vb_tx_count b = Z.of_nat (length txs).

(** ** Names and paths *)

Lemma append_inj_l s1 s2 t : s1 +:+ t = s2 +:+ t -> s1 = s2.
Proof.
  intros Heq. assert (String.length s1 = String.length s2) as Hl.
  { apply (f_equal String.length) in Heq. rewrite !string_length_app in Heq. lia. }
  by apply append_inj_length in Heq as [-> _].
Qed.

(** The path of a file of a batch is relative to the directory. *)
Lemma batch_path dir :
  exists pre, forall i ext, path_join dir (node_batch_id i +:+ ext) = pre +:+ node_batch_id i +:+ ext.
Proof.
  eexists. intros i ext.
  exact (path_join_relative dir _ "b"%char (("atch_" +:+ fmt_pad 6 i) +:+ ext) eq_refl ltac:(done)).
Qed.

(** Batches of different names have different files. *)
Lemma batch_path_inj dir ext i j :
  0 <= i -> 0 <= j ->
  path_join dir (node_batch_id i +:+ ext) = path_join dir (node_batch_id j +:+ ext) -> i = j.
Proof.
  intros Hi Hj. destruct (batch_path dir) as [pre Hp]. rewrite !Hp.
  intros Heq%append_inj_r%append_inj_l. by apply node_batch_id_inj.
Qed.

Section facts.
Context `{FileLaws} `{Sp1Laws} (prof : profile) `{Clock C}.
Variables (self : Validator) (vnode : VerifierNode) (dir : string).
Hypothesis Hsize : 1 <= v_batch_size self.
Hypothesis Hcap : 0 <= max_cu_per_tx (inner (v_executor self)).

(** A proof of a batch among those sealed. *)
Definition from_batch (sealed : list (string * list Transaction)) (pf : BatchProof) : Prop :=
  exists env id txs t, (id, txs) ∈ sealed /\ produces (C := C) prof self env id txs pf t.

(** What is produced for a batch carries its id. *)
Lemma produces_id (env : Env C) id txs pf t :
  txs <> [] -> produces prof self env id txs pf t -> pf_batch_id pf = id.
Proof.
  intros Hne Hpr. apply produce_proof_inv in Hpr as [Hex [clk' Hp]]; [|done].
  apply prove_with_transactions_ok in Hp as (p & pi & _ & _ & _ & _ & _ & -> & _).
  apply bind_Some in Hex as ([s b] & Hrun & [= <-]).
  apply (recorded_run tx_id (max_cu_per_tx (inner (v_executor self))) id) in Hrun as [];
    [done|done|apply init_balances_u64|apply full_step_records].
Qed.

(** The published records have complete files of the same proof. *)
Definition on_disk (fs : files) (sealed : list (string * list Transaction)) (r : ProofRecord)
    : Prop :=
  exists env txs pf t pb tb,
    (pr_batch_id r, txs) ∈ sealed /\ produces (C := C) prof self env (pr_batch_id r) txs pf t /\
    r = proof_record env (pr_batch_id r) pf /\
    fs !! proof_path dir (pr_batch_id r) = Some pb /\ unbincode_proof pb = Ok pf /\
    fs !! trace_path dir (pr_batch_id r) = Some tb /\ trace_from_json tb = Ok t.

Record net_inv (n : Net) : Prop := {
  nv_node : node_inv self (nt_node n);
  nv_files id bytes pf :
    nt_files n !! proof_path dir id = Some bytes -> unbincode_proof bytes = Ok pf ->
    from_batch (n_sealed (nt_node n)) pf;
  nv_read : Forall (from_batch (n_sealed (nt_node n))) (nt_read n);
  nv_attested :
    Forall (fun b => exists txs, (vb_batch_id b, txs) ∈ n_sealed (nt_node n) /\ attests_run txs b)
      (verified_batches (nt_verifier n));
  nv_published :
    Forall (on_disk (nt_files n) (n_sealed (nt_node n))) (proofs (n_state (nt_node n)));
}.

Lemma net_inv_start : net_inv Net_start.
Proof. split; [apply node_inv_start| |constructor..]. intros id bytes pf Hf. done. Qed.

(** Sealed batches have transactions. *)
Lemma sealed_nonempty n id txs : node_inv self n -> (id, txs) ∈ n_sealed n -> txs <> [].
Proof.
  intros Hinv Hin ->. apply (proj1 (Forall_forall _ _) (ni_sizes _ _ Hinv)) in Hin. simpl in Hin. lia.
Qed.

(** A batch in flight was sealed, and is not published. *)
Lemma flight_sealed n id txs :
  node_inv self n -> (id, txs) ∈ n_flight n ->
  (id, txs) ∈ n_sealed n /\ id ∉ map pr_batch_id (proofs (n_state n)).
Proof.
  intros Hinv Hin. split; [eapply elem_of_submseteq; [exact Hin|apply (ni_flight _ _ Hinv)]|]. intros Hpub.
  destruct (submseteq_Permutation _ _ (ni_proofs _ _ Hinv)) as [k Hk].
  assert (NoDup (batch_ids (n_sealed n))) as Hnd
    by (rewrite (ni_names _ _ Hinv); apply NoDup_numbered, node_batch_id_inj).
  rewrite Hk in Hnd. apply NoDup_app in Hnd as [Hnd _]. apply NoDup_app in Hnd as (_ & Hnd & _).
  apply (Hnd id Hpub). unfold batch_ids. apply (list_elem_of_fmap_2 fst _ _ Hin).
Qed.

(** The names of sealed batches are numbers of the node. *)
Lemma sealed_named n id txs :
  node_inv self n -> (id, txs) ∈ n_sealed n -> exists i, 0 <= i /\ id = node_batch_id i.
Proof.
  intros Hinv Hin%(list_elem_of_fmap_2 fst). change (id ∈ batch_ids (n_sealed n)) in Hin.
  rewrite (ni_names _ _ Hinv) in Hin. apply list_elem_of_fmap in Hin as (i & -> & Hi).
  apply elem_of_seqZ in Hi. exists i. split; [lia|done].
Qed.

Lemma from_batch_sub l1 l2 pf : l1 ⊆ l2 -> from_batch l1 pf -> from_batch l2 pf.
Proof. intros Hs (env & id & txs & t & Hin & Hp). exists env, id, txs, t. auto. Qed.

Lemma on_disk_sub fs l1 l2 r : l1 ⊆ l2 -> on_disk fs l1 r -> on_disk fs l2 r.
Proof.
  intros Hs (env & txs & pf & t & pb & tb & Hin & Hrest). exists env, txs, pf, t, pb, tb. auto.
Qed.

(** Sealed batches stay. *)
Lemma node_step_sealed n n' : node_step prof (C := C) self n n' -> n_sealed n ⊆ n_sealed n'.
Proof. destruct 1; simpl; set_solver. Qed.

(** A file at any moment of a write decodes to what is written, or not. *)
Lemma written_proof pf bytes k pf' :
  bincode_proof pf = Ok bytes -> unbincode_proof (take k bytes) = Ok pf' -> pf' = pf.
Proof.
  intros Hb Hd. destruct (decide (k < length bytes)%nat) as [Hk|Hk].
  - pose proof (proof_file_truncated _ _ _ Hb Hk) as Hno. by rewrite Hd in Hno.
  - rewrite take_ge in Hd by lia. apply proof_file_roundtrip in Hb. congruence.
Qed.

Lemma flight_from_batch n (env : Env C) id txs pf t :
  node_inv self n -> (id, txs) ∈ n_flight n -> produces prof self env id txs pf t ->
  from_batch (n_sealed n) pf /\ pf_batch_id pf = id.
Proof.
  intros Hinv Hin Hpr. destruct (flight_sealed _ _ _ Hinv Hin) as [Hs _].
  split; [by exists env, id, txs, t|]. eapply produces_id; [|done]. by eapply sealed_nonempty.
Qed.

(** A write for a batch in flight leaves the published files alone. *)
Lemma flight_write n fs ext id txs bytes :
  node_inv self n -> (id, txs) ∈ n_flight n ->
  (ext = ".proof" \/ ext = ".trace") ->
  Forall (on_disk fs (n_sealed n)) (proofs (n_state n)) ->
  Forall (on_disk (<[path_join dir (id +:+ ext) := bytes]> fs) (n_sealed n)) (proofs (n_state n)).
Proof.
  intros Hinv Hin Hext Hall. destruct (flight_sealed _ _ _ Hinv Hin) as [Hs Hnot].
  destruct (sealed_named _ _ _ Hinv Hs) as (i & Hi & ->).
  rewrite !Forall_forall in *. intros r Hr.
  destruct (Hall r Hr) as (env & txs' & pf & t & pb & tb & Hin' & Hpr & Hrec & Hpb & Hpf & Htb & Ht).
  destruct (sealed_named _ _ _ Hinv Hin') as (j & Hj & Hid).
  assert (i <> j) as Hij.
  { intros ->. apply Hnot. rewrite <-Hid. by apply list_elem_of_fmap_2. }
  exists env, txs', pf, t, pb, tb. split_and!; try done; (rewrite lookup_insert_ne; [done|]);
    rewrite Hid; destruct Hext as [->| ->]; intros Heq.
  - by apply Hij, (batch_path_inj dir ".proof").
  - symmetry in Heq. by eapply proof_path_ne_trace_path.
  - by eapply proof_path_ne_trace_path.
  - by apply Hij, (batch_path_inj dir ".trace").
Qed.

(** A verification attests the proof it was given, or nothing. *)
Lemma verify_proof_adds (env : VEnv C) pf t v r v' :
  verify_proof prof vnode env pf t v = Some (r, v') ->
  verified_batches v' = verified_batches v \/
  verified_batches v' = verified_batches v ++ [verified_batch vnode env pf].
Proof.
  unfold verify_proof. destruct (verify _ pf t _) as [[[vr|e] clk]|]; [|intros [= _ <-]; auto..].
  destruct (negb _); intros (s1 & (n & _ & [= <-])%bind_Some & [= _ <-])%bind_Some; auto.
Qed.

Lemma from_batch_attests sealed n (env : VEnv C) pf :
  node_inv self n -> sealed = n_sealed n -> from_batch sealed pf ->
  exists txs, (vb_batch_id (verified_batch vnode env pf), txs) ∈ sealed /\
    attests_run txs (verified_batch vnode env pf).
Proof.
  intros Hinv -> (env' & id & txs & t & Hin & Hpr). exists txs.
  assert (txs <> []) as Hne by by eapply sealed_nonempty.
  assert (pf_batch_id pf = id) as Hid by by eapply produces_id.
  apply (produce_proof_genuine prof) in Hpr; [|done]. rewrite <-Hid in Hin.
  split; [exact Hin|exact Hpr].
Qed.

Lemma net_inv_node n n' fs rd v :
  Z.of_nat (length (n_submitted n')) < u64_bound -> node_step prof (C := C) self n n' ->
  proofs (n_state n') = proofs (n_state n) ->
  net_inv (mkNet n fs rd v) -> net_inv (mkNet n' fs rd v).
Proof.
  intros Hlen Hst Hpub [Hn Hf Hr Ha Hp]. cbn in *.
  pose proof (node_step_sealed _ _ Hst) as Hsub. split; cbn.
  - by eapply node_inv_step.
  - intros. eapply from_batch_sub; eauto.
  - eapply Forall_impl; [exact Hr|]. intros pf. by apply from_batch_sub.
  - eapply Forall_impl; [exact Ha|]. intros b (txs & Hin & Hb). exists txs. auto.
  - rewrite Hpub. eapply Forall_impl; [exact Hp|]. intros r. by apply on_disk_sub.
Qed.

Lemma net_inv_write_proof (env : Env C) n fs rd v id txs pf t bytes k :
  (id, txs) ∈ n_flight n -> produces prof self env id txs pf t -> bincode_proof pf = Ok bytes ->
  net_inv (mkNet n fs rd v) ->
  net_inv (mkNet n (<[proof_path dir (pf_batch_id pf) := take k bytes]> fs) rd v).
Proof.
  intros Hin Hpr Hb [Hn Hf Hr Ha Hp]. cbn in *.
  destruct (flight_from_batch _ _ _ _ _ _ Hn Hin Hpr) as [Hfrom Hid]. split; cbn; [done| |done..|].
  - intros id' bs pf' [[_ <-]|[_ Hl]]%lookup_insert_Some Hd; [|by eapply Hf].
    apply (written_proof _ _ _ _ Hb) in Hd as ->. done.
  - rewrite Hid. by eapply (flight_write _ _ ".proof"); eauto.
Qed.

Lemma net_inv_write_trace (env : Env C) n fs rd v id txs pf t bytes k :
  (id, txs) ∈ n_flight n -> produces prof self env id txs pf t ->
  net_inv (mkNet n fs rd v) ->
  net_inv (mkNet n (<[trace_path dir (pf_batch_id pf) := take k bytes]> fs) rd v).
Proof.
  intros Hin Hpr [Hn Hf Hr Ha Hp]. cbn in *.
  destruct (flight_from_batch _ _ _ _ _ _ Hn Hin Hpr) as [Hfrom Hid]. split; cbn; [done| |done..|].
  - intros id' bs pf' [[Heq _]|[_ Hl]]%lookup_insert_Some Hd; [|by eapply Hf].
    symmetry in Heq. by apply proof_path_ne_trace_path in Heq.
  - rewrite Hid. by eapply (flight_write _ _ ".trace"); eauto.
Qed.

Lemma net_inv_publish (env : Env C) n fs rd v id txs pf t pb tb fl1 fl2 :
  Z.of_nat (length (n_submitted n)) < u64_bound ->
  n_flight n = fl1 ++ (id, txs) :: fl2 -> produces prof self env id txs pf t ->
  e_save env = Ok tt -> bincode_proof pf = Ok pb -> trace_json t = Ok tb ->
  fs !! proof_path dir (pf_batch_id pf) = Some pb ->
  fs !! trace_path dir (pf_batch_id pf) = Some tb ->
  net_inv (mkNet n fs rd v) ->
  net_inv (mkNet (mkNode (push_proof (proof_record env id pf) (n_state n)) (fl1 ++ fl2)
    (n_submitted n) (n_sealed n)) fs rd v).
Proof.
  intros Hlen Hfl Hpr Hs Hpb Htb Hlp Hlt [Hn Hf Hr Ha Hp]. cbn in *.
  assert ((id, txs) ∈ n_flight n) as Hin by (rewrite Hfl; apply elem_of_app; right; left).
  destruct (flight_from_batch _ _ _ _ _ _ Hn Hin Hpr) as [Hfrom Hid]. split; cbn; try done.
  - eapply (node_inv_step prof self n); [done|done|done|].
    destruct n as [s fl sub sl]. cbn in *. subst fl. eapply ns_proved.
    apply prove_batch_inv. by exists pf, t.
  - apply Forall_app. split; [done|]. constructor; [|constructor].
    rewrite Hid in *. exists env, txs, pf, t, pb, tb. split_and!; try done.
    + by eapply flight_sealed.
    + by apply proof_file_roundtrip.
    + by apply trace_file_roundtrip.
Qed.

Lemma net_inv_step n n' :
  Z.of_nat (length (n_submitted (nt_node n'))) < u64_bound ->
  net_inv n -> net_step prof (C := C) self vnode dir n n' -> net_inv n'.
Proof.
  intros Hlen Hinv Hst. destruct Hst as [n n' fs rd v Hn Hpub
    |env n fs rd v id txs pf t bytes k Hin Hpr Hb|env n fs rd v id txs pf t bytes k Hin Hpr Hb
    |env n fs rd v id txs pf t pb tb fl1 fl2 Hfl Hpr Hs Hpb Htb Hlp Hlt
    |n fs rd v id bytes pf Hl Hd|env n fs rd v pf t r v' Hin Hv|n fs rd v p].
  - by eapply net_inv_node.
  - by eapply net_inv_write_proof.
  - by eapply net_inv_write_trace.
  - by eapply net_inv_publish.
  - destruct Hinv as [Hn Hf Hr Ha Hp]. cbn in *. split; cbn; try done.
    apply Forall_app. split; [done|]. constructor; [|constructor]. by eapply Hf.
  - destruct Hinv as [Hn Hf Hr Ha Hp]. cbn in *. split; cbn; try done.
    apply verify_proof_adds in Hv as [->| ->]; [done|]. apply Forall_app. split; [done|].
    constructor; [|constructor]. eapply from_batch_attests; [done|done|].
    by apply (proj1 (Forall_forall _ _) Hr).
  - by destruct Hinv.
Qed.

Lemma net_step_submitted n n' :
  net_step prof (C := C) self vnode dir n n' ->
  (length (n_submitted (nt_node n)) <= length (n_submitted (nt_node n')))%nat.
Proof. destruct 1; cbn; try done. by eapply node_step_submitted. Qed.

Lemma net_reach_inv n :
  Z.of_nat (length (n_submitted (nt_node n))) < u64_bound ->
  net_reach prof (C := C) self vnode dir n -> net_inv n.
Proof.
  intros Hlen Hr. revert Hlen. revert n Hr. unfold net_reach.
  apply (rtc_ind_r (fun n => Z.of_nat (length (n_submitted (nt_node n))) < u64_bound -> net_inv n));
    [intros _; apply net_inv_start|].
  intros n n' Hr Hst IH Hlen. eapply net_inv_step; [done| |exact Hst]. apply IH. apply net_step_submitted in Hst. lia.
Qed.
End facts.

(** A node that has published nothing is reached without the directory. *)
Lemma quiet_reach `{FileCodec} `{HashLib, Sp1Sdk} prof `{Clock C} (self : Validator) vnode dir n :
  node_reach prof (C := C) self n -> proofs (n_state n) = [] ->
  net_reach prof (C := C) self vnode dir (mkNet n ∅ [] VerifierState_default).
Proof.
  intros Hr. induction Hr as [|n n' Hr IH Hst]; intros Hp; [apply rtc_refl|].
  assert (proofs (n_state n) = []) as Hn.
  { destruct Hst as [env params s fl sub sl id s' Hs|env s fl sub sl id txs s' Hs
      |env s fl1 fl2 sub sl id txs r _|]; cbn in *; try done.
    - apply submit_inv in Hs as (_ & _ & _ & _ & Hs). congruence.
    - unfold seal_batch in Hs. destruct (pending_txs s); [done|]. destruct (negb _); [done|].
      apply bind_Some in Hs as (c & _ & Hs). injection Hs as _ _ <-. done.
    - by apply app_eq_nil in Hp as [_ ?]. }
  eapply rtc_r; [by apply IH|]. apply net_node; [exact Hst|congruence].
Qed.

(** ** A pass over the directory *)

Section poll.
Context `{HashLib, Sp1Sdk} (prof : profile) `{Clock C}.
Variable vnode : VerifierNode.

(** The counters have room for [n] more verifications. *)
Definition room (n : nat) (v : VerifierState) : Prop :=
  0 <= verification_count v /\ 0 <= failed_count v /\
  verification_count v + failed_count v + Z.of_nat n < u64_bound.

(** With room, a verification ends and attests the proof exactly if the
    verifier accepts it. *)
Lemma verify_proof_total (env : VEnv C) pf t v n :
  room (S n) v ->
  exists r v', verify_proof prof vnode env pf t v = Some (r, v') /\ room n v' /\
    verified_batches v ⊆ verified_batches v'.
Proof.
  intros (Hv & Hf & Hsum). unfold verify_proof.
  destruct (verify _ pf t _) as [[[vr|e] clk]|]; [|eexists _, _; split; [done|];
    split; [repeat split; lia|done]..].
  destruct (negb _); unfold record_failed, record_verified, u64_add;
    rewrite u64_arith_in by (split; lia); (eexists _, _; split; [reflexivity|]);
    (split; [unfold room; cbn; lia|cbn; set_solver]).
Qed.

Lemma verify_file_total (env : VEnv C) id v n :
  room (S n) v ->
  exists r v', verify_proof_file prof vnode env id v = Some (r, v') /\ room n v' /\
    verified_batches v ⊆ verified_batches v'.
Proof.
  intros Hr. unfold verify_proof_file. destruct (ve_read env id) as [[pf t]|e].
  - by apply verify_proof_total.
  - eexists _, _. split; [done|]. split; [|done]. destruct Hr as (? & ? & ?). repeat split; lia.
Qed.

Lemma room_less n m v : room n v -> (m <= n)%nat -> room m v.
Proof. intros (? & ? & ?) ?. repeat split; lia. Qed.

Lemma poll_pass_total (env : string -> VEnv C) stems seen v :
  room (length stems) v ->
  exists seen' v', poll_pass prof vnode env stems seen v = Some (seen', v') /\
    seen ⊆ seen' /\ verified_batches v ⊆ verified_batches v'.
Proof.
  revert seen v. induction stems as [|id stems IH]; intros seen v Hroom; cbn [poll_pass].
  { by eexists _, _. }
  case_decide as Hin; [apply IH; eapply room_less; [exact Hroom|simpl; lia]|].
  destruct (verify_file_total (env id) id v (length stems) Hroom) as (r & v1 & -> & Hr1 & Hs1).
  cbn [mbind option_bind]. destruct (IH ({[id]} ∪ seen) v1 Hr1) as (seen' & v' & -> & Hs & Hv).
  eexists _, _. split; [done|]. split; [set_solver|by etransitivity].
Qed.

(** An id among the entries that was not processed is verified. *)
Lemma poll_pass_verifies (Q : VerifiedBatch -> Prop) (env : string -> VEnv C) id stems seen v :
  room (length stems) v -> id ∈ stems -> id ∉ seen ->
  (forall v n, room (S n) v -> exists b v', verify_proof_file prof vnode (env id) id v =
    Some (Ok b, v') /\ room n v' /\ b ∈ verified_batches v' /\ Q b) ->
  exists seen' v', poll_pass prof vnode env stems seen v = Some (seen', v') /\ id ∈ seen' /\
    exists b, b ∈ verified_batches v' /\ Q b.
Proof.
  intros Hroom Hin Hseen Hq. revert seen v Hroom Hin Hseen.
  induction stems as [|i stems IH]; intros seen v Hroom Hin Hseen; [by apply not_elem_of_nil in Hin|].
  cbn [poll_pass]. destruct (decide (i = id)) as [->|Hne].
  - rewrite decide_False by done.
    destruct (Hq v (length stems) Hroom) as (b & v1 & -> & Hr1 & Hb & HQ). cbn [mbind option_bind].
    destruct (poll_pass_total env stems ({[id]} ∪ seen) v1 Hr1) as (seen' & v' & -> & Hs & Hv).
    eexists _, _. split; [done|]. split; [set_solver|]. exists b. auto.
  - apply elem_of_cons in Hin as [->|Hin]; [done|]. case_decide as Hi.
    { apply IH; [|done..]. eapply room_less; [exact Hroom|simpl; lia]. }
    destruct (verify_file_total (env i) i v (length stems) Hroom) as (r & v1 & -> & Hr1 & Hs1).
    cbn [mbind option_bind]. apply IH; [done|done|set_solver].
Qed.

(** A batch that cannot be read is passed over, as one processed before. *)
Lemma poll_pass_skips (env : string -> VEnv C) id e stems seen v :
  ve_read (env id) id = Err e -> id ∈ stems ->
  poll_pass prof vnode env stems seen v = poll_pass prof vnode env stems ({[id]} ∪ seen) v.
Proof.
  intros Hread. revert seen v. induction stems as [|i stems IH]; intros seen v Hin;
    [by apply not_elem_of_nil in Hin|]. cbn [poll_pass].
  destruct (decide (i = id)) as [->|Hne].
  - rewrite (decide_True (P := id ∈ {[id]} ∪ seen)) by set_solver. case_decide as Hs.
    + by replace ({[id]} ∪ seen) with seen by set_solver.
    + unfold verify_proof_file. by rewrite Hread.
  - apply elem_of_cons in Hin as [->|Hin]; [done|].
    destruct (decide (i ∈ seen)) as [Hs|Hs].
    + rewrite decide_True by set_solver. by apply IH.
    + rewrite decide_False by set_solver.
      destruct (verify_proof_file _ _ _ _ _) as [[r v1]|]; [|done]. cbn [mbind option_bind].
      rewrite IH by done. f_equal. set_solver.
Qed.

(** The set of processed batches only grows. *)
Lemma poll_pass_seen (env : string -> VEnv C) stems seen v seen' v' :
  poll_pass prof vnode env stems seen v = Some (seen', v') -> seen ⊆ seen'.
Proof.
  revert seen v. induction stems as [|i stems IH]; intros seen v; cbn [poll_pass];
    [by intros [= <- _]|]. case_decide; [apply IH|].
  intros ([r v1] & _ & Hrest)%bind_Some. apply IH in Hrest. set_solver.
Qed.

(** The environment of a processed batch is never used. *)
Lemma poll_pass_env (env env' : string -> VEnv C) id stems seen v :
  id ∈ seen -> (forall i, i <> id -> env i = env' i) ->
  poll_pass prof vnode env stems seen v = poll_pass prof vnode env' stems seen v.
Proof.
  intros Hid Henv. revert seen v Hid. induction stems as [|i stems IH]; intros seen v Hid; [done|].
  cbn [poll_pass]. case_decide as Hs; [by apply IH|]. rewrite Henv by (intros ->; done).
  destruct (verify_proof_file _ _ _ _ _) as [[r v1]|]; [|done]. cbn [mbind option_bind].
  apply IH. set_solver.
Qed.

(** A turn in which the calls for one batch get another environment. *)
Definition with_env (id : string) (env : VEnv C) (round : poll_round (C := C)) : poll_round :=
  mkPollRound (pl_before round) (pl_entries round)
    (fun i => if decide (i = id) then env else pl_env round i).

Lemma poll_once_seen ps round ps' : poll_once prof vnode ps round = Some ps' -> ps.1 ⊆ ps'.1.
Proof.
  destruct ps as [seen v], ps' as [seen' v']. unfold poll_once.
  destruct (pl_entries round); [apply poll_pass_seen|by intros [= <- _]].
Qed.

(** No later turn looks at a processed batch. *)
Lemma poll_ignores id (f : poll_round -> VEnv C) rounds ps :
  id ∈ ps.1 ->
  foldlM (poll_once prof vnode) ps rounds =
  foldlM (poll_once prof vnode) ps (map (fun r => with_env id (f r) r) rounds).
Proof.
  revert ps. induction rounds as [|r rounds IH]; intros [seen v] Hid; [done|]. cbn [map foldlM].
  assert (poll_once prof vnode (seen, v) (with_env id (f r) r) = poll_once prof vnode (seen, v) r)
    as ->.
  { unfold poll_once, with_env. cbn [pl_before pl_entries pl_env].
    destruct (pl_entries r); [|done]. symmetry. apply poll_pass_env with (id := id); [done|].
    intros i Hi. by rewrite decide_False. }
  destruct (poll_once prof vnode (seen, v) r) as [ps'|] eqn:Hp; [|done]. cbn [mbind option_bind].
  apply IH. apply poll_once_seen in Hp. set_solver.
Qed.
End poll.

(** Without a whole trace file there is nothing to verify. *)
Lemma read_batch_no_trace `{FileCodec} dir missing fs id :
  (forall bytes t, fs !! trace_path dir id = Some bytes -> trace_from_json bytes <> Ok t) ->
  exists e, read_batch dir (read_file missing fs) id = Err e.
Proof.
  intros Hno. destruct (read_batch _ _ _) as [[pf t]|e] eqn:Hr; [exfalso|by eexists].
  apply read_batch_ok in Hr as (pb & tb & _ & Htb & _ & Ht). unfold read_file in Htb.
  destruct (fs !! trace_path dir id) as [bytes|] eqn:Hf; [|done]. injection Htb as ->.
  by eapply Hno.
Qed.

(** ** The properties *)

Section attestation.
Context `{FileLaws} `{Sp1Laws} (prof : profile) `{Clock C}.

(** What the validator produced passes the verifier. *)
Lemma produced_verifies (self : Validator) (vnode : VerifierNode) (env : Env C) id txs pf t clk :
  produces prof self env id txs pf t ->
  exists r clk', verify (vn_verifier vnode) pf t clk = Some (Ok r, clk') /\ vr_is_valid r = true.
Proof.
  intros (ex & _ & [= Hr])%bind_Some. apply result_bind_Ok in Hr as (t' & _ & Hr).
  apply result_bind_Ok in Hr as (pf' & Hp & Hr). injection Hr as -> ->. apply map_err_Ok in Hp.
  match type of Hp with (?p).1 = _ => destruct p as [res clk1] eqn:Hpr end.
  simpl in Hp. subst res. destruct (prove_verify_lemma _ (vn_verifier vnode) _ _ _ _ clk _ Hpr) as (r & clk' & Hv & Hok & _).
  by exists r, clk'.
Qed.

(** With the files of a published batch, its verification attests the record. *)
Lemma published_verifies (self : Validator) (vnode : VerifierNode) dir missing fs sealed r
    (env : VEnv C) v n :
  on_disk (C := C) prof self dir fs sealed r ->
  ve_read env = read_batch dir (read_file missing fs) -> room (S n) v ->
  (forall env id txs pf t, (id, txs) ∈ sealed -> produces (C := C) prof self env id txs pf t ->
    pf_batch_id pf = id) ->
  exists b v', verify_proof_file prof vnode env (pr_batch_id r) v = Some (Ok b, v') /\
    room n v' /\ b ∈ verified_batches v' /\
    (vb_batch_id b, vb_proof_hash b, vb_state_root_pre b, vb_state_root_post b, vb_tx_count b) =
    (pr_batch_id r, pr_proof_hash r, pr_state_root_pre r, pr_state_root_post r, pr_tx_count r).
Proof.
  intros (env' & txs & pf & t & pb & tb & Hin & Hpr & Hrec & Hpb & Hpf & Htb & Ht) Hread Hroom Hids.
  unfold verify_proof_file. rewrite Hread.
  assert (read_batch dir (read_file missing fs) (pr_batch_id r) = Ok (pf, t)) as ->.
  { apply read_batch_ok. exists pb, tb. unfold read_file. by rewrite Hpb, Htb. }
  destruct (produced_verifies self vnode env' _ txs pf t (ve_clock env) Hpr)
    as (vr & clk' & Hv & Hval).
  unfold verify_proof. rewrite Hv, Hval. cbn [negb]. destruct Hroom as (Hn1 & Hn2 & Hn3).
  unfold record_verified, u64_add. rewrite u64_arith_in by (split; lia). cbn [mbind option_bind].
  eexists _, _. split; [reflexivity|]. split; [repeat split; cbn; lia|]. split.
  - cbn. apply elem_of_app. right. left.
  - cbn. rewrite (Hids _ _ _ _ _ Hin Hpr). destruct r. unfold proof_record in Hrec. cbn in *.
    congruence.
Qed.
End attestation.

(** C13: Over every interleaving of the validator and the verifier sharing a
    directory, every batch the verifier attests is one the validator sealed, and
    the attested roots and count are those of executing exactly that batch from
    the initial balances of its senders. *)
Theorem attested_batches_genuine `{FileLaws} `{Sp1Laws} prof `{Clock C} (self : Validator)
    (vnode : VerifierNode) dir n b :
  1 <= v_batch_size self -> 0 <= max_cu_per_tx (inner (v_executor self)) ->
  Z.of_nat (length (n_submitted (nt_node n))) < u64_bound ->
  net_reach prof (C := C) self vnode dir n -> b ∈ verified_batches (nt_verifier n) ->
  exists txs, (vb_batch_id b, txs) ∈ n_sealed (nt_node n) /\ attests_run txs b.
Proof.
  intros Hsize Hcap Hlen Hr. apply net_reach_inv in Hr; [|done..].
  revert b. apply Forall_forall, (nv_attested _ _ _ _ Hr).
Qed.

(** C14: A published batch is attested: in every reachable state, the first turn
    of the polling loop that finds its proof file among the entries and has not
    processed it attests its record, whatever else the directory holds, and
    remembers the id; the counters must have room for the turn. *)
Theorem published_batches_attested `{FileLaws} `{Sp1Laws} prof `{Clock C} (self : Validator)
    (vnode : VerifierNode) dir missing n r entries (round : poll_round (C := C)) seen :
  1 <= v_batch_size self -> 0 <= max_cu_per_tx (inner (v_executor self)) ->
  Z.of_nat (length (n_submitted (nt_node n))) < u64_bound ->
  net_reach prof (C := C) self vnode dir n -> r ∈ proofs (n_state (nt_node n)) ->
  pl_entries round = Ok entries -> pr_batch_id r +:+ ".proof" ∈ entries ->
  ve_read (pl_env round (pr_batch_id r)) = read_batch dir (read_file missing (nt_files n)) ->
  pr_batch_id r ∉ seen -> room (length entries) (pl_before round (nt_verifier n)) ->
  exists seen' v', poll_once prof vnode (seen, nt_verifier n) round = Some (seen', v') /\
    pr_batch_id r ∈ seen' /\
    exists b, b ∈ verified_batches v' /\
      (vb_batch_id b, vb_proof_hash b, vb_state_root_pre b, vb_state_root_post b, vb_tx_count b) =
      (pr_batch_id r, pr_proof_hash r, pr_state_root_pre r, pr_state_root_post r, pr_tx_count r).
Proof.
  intros Hsize Hcap Hlen Hreach Hin Hent Hname Hread Hseen Hroom.
  apply net_reach_inv in Hreach as Hinv; [|done..].
  pose proof (proj1 (Forall_forall _ _) (nv_published _ _ _ _ Hinv) r Hin) as Hdisk.
  unfold poll_once. rewrite Hent. apply poll_pass_verifies; [| |done|].
  - eapply room_less; [exact Hroom|]. clear. induction entries as [|e es IH]; [done|].
    cbn. destruct (entry_batch_id e); cbn; lia.
  - apply list_elem_of_omap. eexists. split; [exact Hname|]. apply entry_batch_id_proof.
    destruct Hdisk as (env & txs & pf & t & pb & tb & Hs & _).
    destruct (sealed_named self _ _ _ (nv_node _ _ _ _ Hinv) Hs) as (i & _ & Hid). by rewrite Hid.
  - intros v m Hm. eapply published_verifies; [exact Hdisk|done|done|].
    intros env id txs pf t Hs Hpr. eapply produces_id; [done| |exact Hpr].
    eapply sealed_nonempty; [apply (nv_node _ _ _ _ Hinv)|exact Hs].
Qed.

(** C31: A turn that lists the proof file of a batch while the directory holds no
    whole trace of it, as between the two writes of the validator, loses the
    batch: the turn does what it would do had the batch been processed before,
    marks it as processed, and whatever reading its files answers in any later
    turns makes no difference to them.  The turns may list any other entries, and
    other tasks may change the state between them. *)
Theorem early_poll_loses_batch `{FileCodec} `{HashLib, Sp1Sdk} prof `{Clock C}
    (vnode : VerifierNode) dir missing fs id entries (early : poll_round (C := C)) seen v :
  pl_entries early = Ok entries -> id <> "" -> id +:+ ".proof" ∈ entries ->
  (forall bytes t, fs !! trace_path dir id = Some bytes -> trace_from_json bytes <> Ok t) ->
  ve_read (pl_env early id) = read_batch dir (read_file missing fs) ->
  poll_once prof vnode (seen, v) early = poll_once prof vnode ({[id]} ∪ seen, v) early /\
  forall ps, poll_once prof vnode (seen, v) early = Some ps ->
    id ∈ ps.1 /\
    forall later (f : poll_round -> VEnv C),
      foldlM (poll_once prof vnode) ps later =
      foldlM (poll_once prof vnode) ps (map (fun r => with_env id (f r) r) later).
Proof.
  intros Hent Hid Hin Hno Hread.
  destruct (read_batch_no_trace dir missing fs id Hno) as [e He]. rewrite <-Hread in He.
  assert (poll_once prof vnode (seen, v) early = poll_once prof vnode ({[id]} ∪ seen, v) early)
    as Heq.
  { unfold poll_once. rewrite Hent. eapply poll_pass_skips; [exact He|].
    apply list_elem_of_omap. eexists. split; [exact Hin|]. by apply entry_batch_id_proof. }
  split; [exact Heq|]. intros ps Hps. rewrite Heq in Hps. apply poll_once_seen in Hps.
  assert (id ∈ ps.1) as Hseen by (cbn in Hps; set_solver).
  split; [exact Hseen|]. intros later f. by apply poll_ignores.
Qed.
