(* ===== verification/Report.v ===== *)
(** * The command line of the benchmark ([crates/benchmark-cli/src/main.rs])

    The three commands around [run_simulation] and [run_comparison]: what is
    printed, the rows of the table, the records of the CSV file, the data of the
    charts, and the files.  The renderers, of tables, CSV, JSON and images, are
    third-party: the class [ReportLib]. *)

From Stdlib Require Import ZArith Lia Ascii String Bool Strings.Byte.
From stdpp Require Import base gmap strings list list_numbers.
From S2P Require Import Prelude RustNum RustFmt Float64 FloatFmt Merkle Types TraceBuilder Isa.
From S2P Require Import Executor ExecutorFacts TraceFacts Guest Sp1 Agreement Soundness Policy.
From S2P Require Import Metrics Ingress Engine EngineFacts Simulation Wire Files.

Local Open Scope Z_scope.

(** ** Charts, as data *)

(** Coordinates and the index of a colour. *)
Inductive shape :=
| Circle (x : Z) (y : f64)
| Rectangle (x0 x1 : Z) (y : f64).

Record series := mkSeries { label : option string; colour : Z; shapes : list shape }.

Record chart := mkChart {
  ch_file : string;
  ch_caption : string;
  ch_x_max : Z;
  ch_y_max : f64;
  ch_x_desc : string;
  ch_y_desc : string;
  ch_series : list series;
}.

(** ** Third-party renderers *)

Class ReportLib := {
  table_text : list string -> list (list string) -> string;      (* [comfy_table] *)
  csv_bytes : list (list string) -> list byte;                   (* [csv::Writer] *)
  metrics_json : list SystemMetrics -> result string (list byte);
  metrics_from_json : list byte -> result string (list SystemMetrics);
}.

(** ** The command line *)

Inductive Commands :=
| Simulate (policy scenario : string)
    (seed tx_count batch_threshold time_threshold_ms latency_budget_ms : Z)
| Compare (seed tx_count : Z) (out : option string)
    (batch_threshold time_threshold_ms latency_budget_ms sla_latency_ms : Z)
| Chart (input out : string).

Definition Simulate_default : Commands := Simulate "hybrid" "steady" 42 1000 100 500 1000.
Definition Compare_default : Commands := Compare 42 500 None 100 500 1000 200.

(** [batch_threshold * 5] is an unchecked product. *)
Definition cli_config (prof : profile) (batch_threshold time_threshold_ms latency_budget_ms : Z)
    : option PolicyConfig :=
  max_batch_size ← u64_mul prof batch_threshold 5;
  Some {|
    count_threshold := batch_threshold;
    time_threshold_ms := time_threshold_ms;
    latency_budget_ms := latency_budget_ms;
    max_batch_size := max_batch_size;
    critical_threshold := 5 |}.

(** ** Printing *)

Definition single_result_lines (metrics : SystemMetrics) : list string := [
  nl +:+ "=== Simulation Results ===";
  "Policy: " +:+ sm_policy_name metrics;
  "Scenario: " +:+ sm_scenario_name metrics;
  "Total transactions: " +:+ fmt_u64 (sm_total_transactions metrics);
  "Total batches: " +:+ fmt_u64 (sm_total_batches metrics);
  "Avg batch size: " +:+ fmt_fixed 1 (sm_avg_batch_size metrics);
  "Avg latency: " +:+ fmt_fixed 2 (sm_avg_latency_ms metrics) +:+ " ms";
  "P50 latency: " +:+ fmt_fixed 2 (sm_p50_latency_ms metrics) +:+ " ms";
  "P95 latency: " +:+ fmt_fixed 2 (sm_p95_latency_ms metrics) +:+ " ms";
  "P99 latency: " +:+ fmt_fixed 2 (sm_p99_latency_ms metrics) +:+ " ms";
  "Avg throughput: " +:+ fmt_fixed 2 (sm_avg_throughput_tps metrics) +:+ " TPS";
  "Total proof size: " +:+ fmt_u64 (sm_total_proof_size_bytes metrics) +:+ " bytes";
  "Verification success rate: "
    +:+ fmt_fixed 1 (f64_mul (sm_verification_success_rate metrics) (f64_of_Z 100)) +:+ "%";
  "SLA violations: " +:+ fmt_u64 (sm_sla_violations metrics);
  "Batch efficiency: " +:+ fmt_fixed 2 (sm_batch_efficiency metrics)
].

Definition table_header : list string :=
  ["Policy"; "Scenario"; "Txs"; "Batches"; "Avg Size"; "P50 (ms)"; "P95 (ms)"; "TPS";
   "Proof (KB)"; "SLA Viol"; "Efficiency"].

Definition table_row (m : SystemMetrics) : list string := [
  sm_policy_name m;
  sm_scenario_name m;
  fmt_u64 (sm_total_transactions m);
  fmt_u64 (sm_total_batches m);
  fmt_fixed 1 (sm_avg_batch_size m);
  fmt_fixed 1 (sm_p50_latency_ms m);
  fmt_fixed 1 (sm_p95_latency_ms m);
  fmt_fixed 1 (sm_avg_throughput_tps m);
  fmt_fixed 1 (f64_div (f64_of_Z (sm_total_proof_size_bytes m)) (f64_of_Z 1024));
  fmt_u64 (sm_sla_violations m);
  fmt_fixed 2 (sm_batch_efficiency m)
].

(** ** The CSV file *)

Definition csv_header : list string :=
  ["policy"; "scenario"; "total_transactions"; "total_batches"; "avg_batch_size";
   "avg_latency_ms"; "p50_latency_ms"; "p95_latency_ms"; "p99_latency_ms"; "avg_throughput_tps";
   "total_proof_size_bytes"; "verification_success_rate"; "sla_violations"; "batch_efficiency"].

Definition csv_record (m : SystemMetrics) : list string := [
  sm_policy_name m;
  sm_scenario_name m;
  fmt_u64 (sm_total_transactions m);
  fmt_u64 (sm_total_batches m);
  fmt_fixed 2 (sm_avg_batch_size m);
  fmt_fixed 2 (sm_avg_latency_ms m);
  fmt_fixed 2 (sm_p50_latency_ms m);
  fmt_fixed 2 (sm_p95_latency_ms m);
  fmt_fixed 2 (sm_p99_latency_ms m);
  fmt_fixed 2 (sm_avg_throughput_tps m);
  fmt_u64 (sm_total_proof_size_bytes m);
  fmt_fixed 4 (sm_verification_success_rate m);
  fmt_u64 (sm_sla_violations m);
  fmt_fixed 4 (sm_batch_efficiency m)
].

(** ** The data of the charts

    [policies] and [scenarios] come out of hash sets: the distinct names in some
    order. *)

Definition distinct_names (names : list string) (set : list string) : Prop :=
  NoDup set /\ forall s, s ∈ set <-> s ∈ names.

(** [colors[i % colors.len()]] *)
Definition colour_of (i : Z) : Z := i mod 4.

(** The upper end of the axis. *)
Definition y_max (value : SystemMetrics -> f64) (results : list SystemMetrics) : f64 :=
  f64_mul (foldl f64_max f64_zero (map value results)) (f64_lit 12 10).

Definition policy_results (results : list SystemMetrics) (policy : string) : list SystemMetrics :=
  List.filter (fun r => String.eqb (sm_policy_name r) policy) results.

(** The points of one policy, the [i]-th of [n] scenarios each. *)
Definition policy_points (value : SystemMetrics -> f64) (n i : Z) (results : list SystemMetrics)
    (policy : string) : list (Z * f64) :=
  map (fun jr => (i * n + jr.1, value jr.2)) (enumerate (policy_results results policy)).

Definition point_series (value : SystemMetrics -> f64) (draw : Z * f64 -> shape)
    (policies scenarios : list string) (results : list SystemMetrics) : list series :=
  map (fun ip => mkSeries (Some ip.2) (colour_of ip.1)
         (map draw (policy_points value (Z.of_nat (length scenarios)) ip.1 results ip.2)))
    (enumerate policies).

Definition latency_chart (policies scenarios : list string) (results : list SystemMetrics) : chart := {|
  ch_file := "latency.png";
  ch_caption := "P95 Latency by Policy and Scenario";
  ch_x_max := Z.of_nat (length policies) * Z.of_nat (length scenarios);
  ch_y_max := y_max sm_p95_latency_ms results;
  ch_x_desc := "Policy-Scenario";
  ch_y_desc := "P95 Latency (ms)";
  ch_series := point_series sm_p95_latency_ms (fun xy => Circle xy.1 xy.2) policies scenarios results;
|}.

Definition throughput_chart (policies scenarios : list string) (results : list SystemMetrics)
    : chart := {|
  ch_file := "throughput.png";
  ch_caption := "Throughput by Policy and Scenario";
  ch_x_max := Z.of_nat (length policies) * Z.of_nat (length scenarios);
  ch_y_max := y_max sm_avg_throughput_tps results;
  ch_x_desc := "Policy-Scenario";
  ch_y_desc := "Throughput (TPS)";
  ch_series := point_series sm_avg_throughput_tps (fun xy => Rectangle xy.1 (xy.1 + 1) xy.2)
    policies scenarios results;
|}.

(** The mean over the scenarios, as the code divides. *)
Definition avg_proof_size (scenarios : list string) (results : list SystemMetrics) (policy : string)
    : f64 :=
  f64_div (f64_sum (map sm_avg_proof_size_bytes (policy_results results policy)))
    (f64_of_Z (Z.of_nat (length scenarios))).

Definition proof_size_chart (policies scenarios : list string) (results : list SystemMetrics)
    : chart := {|
  ch_file := "proof_size.png";
  ch_caption := "Avg Proof Size by Policy";
  ch_x_max := Z.of_nat (length policies);
  ch_y_max := y_max sm_avg_proof_size_bytes results;
  ch_x_desc := "Policy";
  ch_y_desc := "Avg Proof Size (bytes)";
  ch_series :=
    map (fun ip => mkSeries None (colour_of ip.1)
           [Rectangle ip.1 (ip.1 + 1) (avg_proof_size scenarios results ip.2)])
      (enumerate policies);
|}.

(** ** The commands *)

(** What a run learns from outside. *)
Record world := mkWorld {
  w_create_dir : string -> result string unit;
  w_write : string -> write_outcome;
  w_read : string -> result string (list byte);
  w_draw : chart -> result string unit;
  w_order : list string -> list string;       (* the iteration order of a hash set *)
}.

Section cli.
Context `{ReportLib} `{HashLib, Sp1Sdk, RngLib} (prof : profile) (w : world).

Definition comparison_table (results : list SystemMetrics) : string :=
  nl +:+ table_text table_header (map table_row results).

Definition save_results (results : list SystemMetrics) (out_dir : string) (fs : files)
    : result string unit * files :=
  match metrics_json results with
  | Err e => (Err e, fs)
  | Ok json =>
      let json_path := path_join out_dir "results.json" in
      let '(r, fs) := write_file json_path json (w_write w json_path) fs in
      match r with
      | Err e => (Err e, fs)
      | Ok _ =>
          let csv_path := path_join out_dir "results.csv" in
          write_file csv_path (csv_bytes (csv_header :: map csv_record results))
            (w_write w csv_path) fs
      end
  end.

(** The three charts in order; the first error ends it. *)
Definition generate_charts (input out_dir : string) : result string (list chart) :=
  w_create_dir w out_dir ≫= fun _ =>
  w_read w input ≫= fun json =>
  metrics_from_json json ≫= fun results =>
  let policies := w_order w (map sm_policy_name results) in
  let scenarios := w_order w (map sm_scenario_name results) in
  let latency := latency_chart policies scenarios results in
  let throughput := throughput_chart policies scenarios results in
  let proof_size := proof_size_chart policies scenarios results in
  w_draw w latency ≫= fun _ =>
  w_draw w throughput ≫= fun _ =>
  w_draw w proof_size ≫= fun _ =>
  Ok [latency; throughput; proof_size].

(** What [Compare] does with its reports: the table, then the files. *)
Definition compare_outcome (results : list SystemMetrics) (out : option string) (fs : files)
    : result string unit * list string * files :=
  let table := comparison_table results in
  match out with
  | None => (Ok tt, [table], fs)
  | Some out_dir =>
      match w_create_dir w out_dir with
      | Err e => (Err e, [table], fs)
      | Ok _ =>
          let '(saved, fs) := save_results results out_dir fs in
          match saved with
          | Err e => (Err e, [table], fs)
          | Ok _ => (Ok tt, [table; nl +:+ "Results saved to " +:+ out_dir], fs)
          end
      end
  end.

(** The exit, what is printed, and the files. *)
Definition main (command : Commands) (fs : files)
    : option (result string unit * list string * files) :=
  match command with
  | Simulate policy scenario seed tx_count batch_threshold time_threshold_ms latency_budget_ms =>
      match Scenario_from_str scenario with
      | Err e => Some (Err e, [], fs)
      | Ok scenario =>
          config ← cli_config prof batch_threshold time_threshold_ms latency_budget_ms;
          result ← run_simulation prof policy scenario seed tx_count config latency_budget_ms;
          Some match result with
               | Err e => (Err (ExecError_display e), [], fs)
               | Ok metrics => (Ok tt, single_result_lines metrics, fs)
               end
      end
  | Compare seed tx_count out batch_threshold time_threshold_ms latency_budget_ms sla_latency_ms =>
      config ← cli_config prof batch_threshold time_threshold_ms latency_budget_ms;
      results ← run_comparison prof seed tx_count config sla_latency_ms;
      Some match results with
           | Err e => (Err (ExecError_display e), [], fs)
           | Ok results => compare_outcome results out fs
           end
  | Chart input out =>
      Some match generate_charts input out with
           | Err e => (Err e, [], fs)
           | Ok _ => (Ok tt, ["Charts saved to " +:+ out], fs)
           end
  end.
End cli.

(** ** The cells of a chart *)

Definition shape_x (s : shape) : Z :=
  match s with Circle x _ => x | Rectangle x _ _ => x end.

Definition chart_xs (c : chart) : list Z := mjoin (map (fun s => map shape_x (shapes s)) (ch_series c)).

Definition cell_name (m : SystemMetrics) : string * string := (sm_policy_name m, sm_scenario_name m).

(** Blocks of at most [n] consecutive numbers, the [i]-th from [i * n]. *)
Definition blocks (n : Z) (sizes : list nat) : list Z :=
  mjoin (map (fun ik => map (fun j => ik.1 * n + j) (seqZ 0 (Z.of_nat ik.2))) (enumerate sizes)).

Lemma blocks_cells n sizes :
  Forall (fun k => Z.of_nat k <= n) sizes ->
  NoDup (blocks n sizes) /\ Forall (fun x => 0 <= x < Z.of_nat (length sizes) * n) (blocks n sizes) /\
  length (blocks n sizes) = sum_list sizes.
Proof.
  intros Hall. induction sizes as [|k sizes IH] using rev_ind; [repeat constructor|].
  apply Forall_app in Hall as [Hall Hk]. inversion_clear Hk as [|? ? Hk' _].
  destruct (IH Hall) as (Hnd & Hin & Hl). unfold blocks in *.
  rewrite enumerate_app, map_app, join_app. cbn [map fst snd]. simpl mjoin at 2 4 6.
  rewrite app_nil_r. set (i := Z.of_nat (length sizes)) in *.
  assert (0 <= i * n) by (subst i; nia).
  assert (Z.of_nat (length (sizes ++ [k])) * n = i * n + n) as Hlen
    by (rewrite length_app; subst i; simpl; lia).
  assert (forall x, x ∈ map (fun j => i * n + j) (seqZ 0 (Z.of_nat k)) <->
    i * n <= x < i * n + Z.of_nat k) as Hx.
  { intros x. rewrite list_elem_of_fmap. split.
    - intros (j & -> & Hj%elem_of_seqZ). lia.
    - intros Hx. exists (x - i * n). rewrite elem_of_seqZ. lia. }
  rewrite Forall_forall in Hin. split_and!.
  - apply NoDup_app. split; [done|]. split.
    + intros x Hx1 Hx2. apply Hin in Hx1. apply Hx in Hx2. lia.
    + apply NoDup_fmap_2_strong; [intros; lia|apply NoDup_seqZ].
  - rewrite Hlen. apply Forall_app. rewrite !Forall_forall. split.
    + intros x Hx1. apply Hin in Hx1. lia.
    + intros x Hx2. apply Hx in Hx2. lia.
  - rewrite length_app, Hl, length_map, length_seqZ, Nat2Z.id.
    clear. induction sizes as [|m sizes IH]; simpl; lia.
Qed.

Lemma enumerate_fst {A} (l : list A) : map fst (enumerate l) = seqZ 0 (Z.of_nat (length l)).
Proof.
  induction l as [|x l IH] using rev_ind; [done|].
  rewrite enumerate_app, map_app, IH, length_app. cbn [map fst length].
  rewrite Nat2Z.inj_add, seqZ_app by lia. by f_equal.
Qed.

Lemma policy_points_xs value n i results p :
  map fst (policy_points value n i results p) =
    map (fun j => i * n + j) (seqZ 0 (Z.of_nat (length (policy_results results p)))).
Proof.
  unfold policy_points. rewrite map_map, <-enumerate_fst, map_map. by apply map_ext.
Qed.

(** The cells of the series are blocks, of the numbers of results of the
    policies. *)
Lemma point_series_xs value draw policies scenarios results :
  (forall xy, shape_x (draw xy) = xy.1) ->
  mjoin (map (fun s => map shape_x (shapes s)) (point_series value draw policies scenarios results)) =
    blocks (Z.of_nat (length scenarios)) (map (fun p => length (policy_results results p)) policies).
Proof.
  intros Hd. unfold point_series, blocks. set (n := Z.of_nat (length scenarios)).
  induction policies as [|p policies IH] using rev_ind; [done|].
  rewrite map_app. cbn [map]. rewrite !enumerate_app, !map_app, !join_app, IH, length_map.
  f_equal. cbn [map fst snd shapes]. do 2 f_equal.
  rewrite <-(policy_points_xs value), map_map. by apply map_ext.
Qed.

(** Every result belongs to one policy. *)
Lemma policies_partition policies results :
  NoDup policies -> Forall (fun r => sm_policy_name r ∈ policies) results ->
  sum_list (map (fun p => length (policy_results results p)) policies) = length results.
Proof.
  intros Hnd Hall. induction Hall as [|r results Hr Hall IH].
  { clear. induction policies as [|p policies IH]; [done|]. exact IH. }
  cbn [length]. rewrite <-IH. clear IH Hall. unfold policy_results. cbn [List.filter].
  induction Hnd as [|p policies Hp Hnd IH]; [by apply not_elem_of_nil in Hr|].
  cbn [map sum_list]. destruct (String.eqb_spec (sm_policy_name r) p) as [<-|Hne].
  - cbn [length]. simpl. f_equal. f_equal. f_equal. apply map_ext_in. intros q Hq%list_elem_of_In.
    by destruct (String.eqb_spec (sm_policy_name r) q) as [<-|].
  - apply elem_of_cons in Hr as [Hr|Hr]; [done|]. simpl. rewrite IH by done. lia.
Qed.

(** A policy has no more results than there are scenarios. *)
Lemma policy_results_few scenarios results p :
  NoDup (map cell_name results) -> Forall (fun r => sm_scenario_name r ∈ scenarios) results ->
  (length (policy_results results p) <= length scenarios)%nat.
Proof.
  intros Hnd Hall. rewrite <-(length_map sm_scenario_name). apply submseteq_length.
  apply NoDup_submseteq.
  - unfold policy_results. induction results as [|r results IH]; [constructor|].
    inversion_clear Hnd as [|? ? Hr Hnd']. inversion_clear Hall as [|? ? _ Hall'].
    cbn [List.filter]. destruct (String.eqb_spec (sm_policy_name r) p) as [<-|]; [|by apply IH].
    cbn [map]. constructor; [|by apply IH]. intros (r' & Hs & Hin)%list_elem_of_fmap.
    apply list_elem_of_In, filter_In in Hin as [Hin Heq]. apply String.eqb_eq in Heq.
    apply Hr. apply list_elem_of_fmap. exists r'. split; [|by apply list_elem_of_In].
    unfold cell_name. congruence.
  - intros s (r & -> & Hin)%list_elem_of_fmap. apply list_elem_of_In, filter_In in Hin as [Hin _].
    by apply (proj1 (Forall_forall _ _) Hall), list_elem_of_In.
Qed.

(** The cells of the two point charts, for results with one report for each
    policy and scenario. *)
Lemma point_chart_cells value draw policies scenarios results :
  (forall xy, shape_x (draw xy) = xy.1) ->
  distinct_names (map sm_policy_name results) policies ->
  distinct_names (map sm_scenario_name results) scenarios ->
  NoDup (map cell_name results) ->
  let xs := mjoin (map (fun s => map shape_x (shapes s))
    (point_series value draw policies scenarios results)) in
  NoDup xs /\
  Forall (fun x => 0 <= x < Z.of_nat (length policies) * Z.of_nat (length scenarios)) xs /\
  length xs = length results.
Proof.
  intros Hd [Hp1 Hp2] [_ Hs] Hnd. cbv zeta. rewrite point_series_xs by done.
  assert (Forall (fun k => Z.of_nat k <= Z.of_nat (length scenarios))
    (map (fun p => length (policy_results results p)) policies)) as Hk.
  { apply Forall_map, Forall_true. intros p.
    assert (length (policy_results results p) <= length scenarios)%nat; [|cbn; lia].
    apply policy_results_few; [done|]. apply Forall_forall. intros r Hr. apply Hs.
    by apply list_elem_of_fmap_2. }
  apply blocks_cells in Hk as (H1 & H2 & H3). rewrite length_map in H2. split; [done|]. split; [done|].
  rewrite H3. apply policies_partition; [done|]. apply Forall_forall. intros r Hr. apply Hp2.
  by apply list_elem_of_fmap_2.
Qed.

Lemma last_char_ne s t : last_char s <> last_char t -> s <> t.
Proof. by intros Hl ->. Qed.

(** ** The properties *)

(** In the latency and throughput charts of results with at most one report
    for each policy and scenario, in whatever order the hash sets deliver the
    names, every report is drawn exactly once, in a cell of its own, and all cells
    lie on the axis. *)
Theorem charts_have_distinct_cells policies scenarios results :
  distinct_names (map sm_policy_name results) policies ->
  distinct_names (map sm_scenario_name results) scenarios ->
  NoDup (map cell_name results) ->
  Forall (fun c => NoDup (chart_xs c) /\ Forall (fun x => 0 <= x < ch_x_max c) (chart_xs c) /\
      length (chart_xs c) = length results)
    [latency_chart policies scenarios results; throughput_chart policies scenarios results].
Proof. intros Hp Hs Hnd. repeat constructor; by apply point_chart_cells. Qed.

Lemma compare_prints `{ReportLib, HashLib, Sp1Sdk, RngLib} prof w seed count out bt tt lb sla fs config rs :
  cli_config prof bt tt lb = Some config ->
  run_comparison prof seed count config sla = Some (Ok rs) ->
  main prof w (Compare seed count out bt tt lb sla) fs = Some (compare_outcome w rs out fs).
Proof. intros Hc Hr. cbn [main]. rewrite Hc. cbn [mbind option_bind]. by rewrite Hr. Qed.

(** C23: A comparison asked for files that exits well has written them: the JSON
    text of its reports, and the CSV with the header and one record of as many
    fields for every policy and scenario, in order and without repetition; and
    each report accounts for all the transactions of its workload, in at most as
    many batches. *)
Theorem compare_saves_reports `{ReportLib} `{Sp1Laws, RngLaws} prof w seed count dir bt tt lb sla
    fs out fs' :
  is_u64 count ->
  main prof w (Compare seed count (Some dir) bt tt lb sla) fs = Some (Ok (), out, fs') ->
  exists results json,
    map cell_name results = map (fun c => (c.1, Scenario_name c.2)) comparison_grid /\
    NoDup (map cell_name results) /\
    Forall (fun m => sm_total_transactions m = count /\ 0 <= sm_total_batches m <= count) results /\
    metrics_json results = Ok json /\ fs' !! path_join dir "results.json" = Some json /\
    fs' !! path_join dir "results.csv" = Some (csv_bytes (csv_header :: map csv_record results)) /\
    Forall (fun record => length record = length csv_header) (map csv_record results) /\
    out = [comparison_table results; nl +:+ "Results saved to " +:+ dir].
Proof.
  intros Hc. cbn [main]. intros (config & _ & ([results|e] & Hrun & Hrest)%bind_Some)%bind_Some;
    [|done].
  unfold compare_outcome in Hrest. destruct (w_create_dir w dir) as [u|e]; [|done].
  destruct (save_results w results dir fs) as [[u'|e] fs1] eqn:Hsave; [|done].
  injection Hrest as <- <-.
  apply run_grid_reports in Hrun as (rs & -> & Hnames & Hall); [|done]. cbn [app] in *.
  unfold save_results in Hsave. destruct (metrics_json rs) as [json|e] eqn:Hjson; [|done].
  destruct (w_write w (path_join dir "results.json")); cbn [write_file] in Hsave; [|done..].
  destruct (w_write w (path_join dir "results.csv")); cbn [write_file] in Hsave; [|done..].
  injection Hsave as <- <-. exists rs, json. split_and!; try done.
  - change (map cell_name rs) with (map (fun m => (sm_policy_name m, sm_scenario_name m)) rs).
    rewrite Hnames. apply (bool_decide_unpack _). by vm_compute.
  - eapply Forall_impl; [exact Hall|]. intros m (? & ? & _). auto.
  - rewrite lookup_insert_ne; [apply lookup_insert_eq|].
    apply (last_char_ne (path_join dir "results.csv") (path_join dir "results.json")).
    by rewrite !last_char_join.
  - apply lookup_insert_eq.
  - by apply Forall_map, Forall_true.
Qed.
