(* ===== verification/Instances.v ===== *)
(** * Concrete instances

    The theorems are stated for any hash library and any SP1 SDK that keep
    their documented laws.  This file gives instances, so that the theorems
    can be applied to concrete runs: a hash library whose digest is the first
    32 bytes of its input, padded (it has collisions, as any digest), with the
    real hexadecimal encoding; an SDK that proves one fixed execution and one that
    proves every execution, by carrying its input; two random generators; and
    program addresses that are the ids themselves.
    None of them stands for the real library. *)

From Stdlib Require Import ZArith Lia Ascii String Bool Strings.Byte.
From stdpp Require Import base gmap strings list fin_maps.
From S2P Require Import Prelude RustNum RustFmt BTree Merkle Types TraceBuilder Isa Executor.
From S2P Require Import ExecutorFacts TraceFacts Guest Sp1 Onchain Float64 Ingress.

Local Open Scope Z_scope.

(** ** Hashing *)

Definition toy_digest (d : list byte) : list byte := take 32 (d ++ replicate 32 x00).

Definition toy_hash : HashLib := {| sha256 := toy_digest; hex_encode := hex_of_bytes |}.

#[export] Instance toy_hash_laws : @HashLaws toy_hash.
Proof.
  split.
  - intros d. simpl. unfold toy_digest. rewrite length_take, length_app, length_replicate. lia.
  - intros d. induction d as [|b d IH]; [done|].
    change (S (S (String.length (hex_of_bytes d))) = 2 * length (b :: d))%nat.
    change (String.length (hex_of_bytes d) = 2 * length d)%nat in IH. simpl length. lia.
  - intros d. induction d as [|b d IH]; [done|]. simpl. rewrite !andb_true_iff.
    repeat split; [| |exact IH]; by destruct b.
  - intros d. induction d as [|b d IH]; intros [|c e] H; try done.
    injection H as H1 H2 H3. f_equal; [by apply byte_digits|by apply IH].
Qed.

(** ** A batch *)

Definition demo_tx (id snd : string) (i : instr) : Transaction :=
  tx_set_instruction_data (encode i) (Transaction_new (mkTransactionId id) snd "prog").

Definition demo_txs : list Transaction :=
  [ demo_tx "tx_00000001" "alice" (ITransfer 300 7);
    demo_tx "tx_00000002" "bob" (ISetData 1 42);
    demo_tx "tx_00000003" "alice" (IIncrement 1 8);
    demo_tx "tx_00000004" "bob" INoop ].

(** The same with an unknown opcode at the end. *)
Definition demo_bad_txs : list Transaction := demo_txs ++ [demo_tx "tx_00000005" "bob" (IInvalid 4)].

Definition demo_batch : Batch := Batch_new "batch_000001" 0.
(** A batch of ids for [Executor::execute]. *)
Definition demo_id_batch : Batch :=
  mkBatch "batch_000001" [mkTransactionId "tx_1"; mkTransactionId "tx_2"; mkTransactionId "tx_3"]
    0 0 Manual "" None None Pending 0.

Definition demo_full : FullExecutor := FullExecutor_new 200000.

(** The trace a host run returns, with a default where there is none. *)
Definition trace_of (r : option (result ExecError ExecutionTrace)) : ExecutionTrace :=
  match r with Some (Ok t) => t | _ => ExecutionTrace_new "" "" end.

Definition demo_trace : ExecutionTrace :=
  trace_of (@execute_with_transactions Debug toy_hash demo_full demo_batch demo_txs).
Definition demo_bad_trace : ExecutionTrace :=
  trace_of (@execute_with_transactions Debug toy_hash demo_full demo_batch demo_bad_txs).

(** ** An SDK *)

#[export] Instance SerializableTransaction_eq_dec : EqDecision SerializableTransaction.
Proof. solve_decision. Defined.
#[export] Instance ExecutionTraceInput_eq_dec : EqDecision ExecutionTraceInput.
Proof. solve_decision. Defined.
#[export] Instance Sp1Stdin_eq_dec : EqDecision Sp1Stdin.
Proof. solve_decision. Defined.

Definition demo_stdin : Sp1Stdin :=
  mkSp1Stdin (ExecutionTraceInput_from demo_trace) (map SerializableTransaction_from demo_txs)
    (init_balances demo_txs).

(** It has one proof, of the execution on [demo_stdin]. *)
Definition toy_sdk : Sp1Sdk := {|
  Sp1Proof := unit;
  sdk_setup := Ok tt;
  sdk_execute := fun i => if decide (i = demo_stdin) then Ok tt else Err "execution failed";
  sdk_prove := fun i => if decide (i = demo_stdin) then Ok tt else Err "proving failed";
  sdk_verify := fun _ => Ok tt;
  sdk_public_values := fun _ => @guest_run toy_hash demo_stdin;
  bincode_serialize := fun _ => Ok [x01];
  bincode_deserialize := fun bs =>
    match bs with [x01] => Ok tt | _ => Err "io error: unexpected end of file" end;
  prove_elapsed_ms := fun _ => 20;
  verify_elapsed_ms := fun _ => 5;
|}.

Lemma demo_stdin_runs : is_Some (@guest_run toy_hash demo_stdin).
Proof. vm_compute. by eexists. Qed.

Lemma demo_stdin_ok : stdin_ok demo_stdin.
Proof. unfold stdin_ok. cbn [in_state demo_stdin]. apply init_balances_u64. Qed.

#[export] Instance toy_sdk_laws : @Sp1Laws toy_hash toy_sdk.
Proof.
  destruct demo_stdin_runs as [pi Hpi]. split.
  - intros i. cbn [sdk_execute toy_sdk]. case_decide; [|done]. subst. intros _.
    exists pi. exact Hpi.
  - intros i pf. cbn [sdk_prove toy_sdk]. case_decide; [|done]. subst. intros _.
    exists pi. split; exact Hpi.
  - intros i pf _. reflexivity.
  - intros pf _. exists demo_stdin, pi. split; [apply demo_stdin_ok|]. split; exact Hpi.
  - intros [] bs [= <-]. reflexivity.
Qed.

(** ** An SDK that proves every execution

    Its proof of an execution is the input itself, and its verifier runs the
    guest again.  A proof is written as the bits of stdpp's encoding, a byte
    each. *)

#[export] Instance SerializableTransaction_countable : Countable SerializableTransaction.
Proof.
  apply (inj_countable' (fun t => (st_tx_id t, st_sender t, st_instruction_data t))
    (fun t => mkSerializableTransaction t.1.1 t.1.2 t.2)). by intros [].
Defined.
#[export] Instance ExecutionTraceInput_countable : Countable ExecutionTraceInput.
Proof.
  apply (inj_countable' (fun t => (ti_batch_id t, ti_state_root_pre t, ti_state_root_post t,
      ti_trace_hash t, ti_total_compute t, ti_tx_count t))
    (fun t => mkExecutionTraceInput t.1.1.1.1.1 t.1.1.1.1.2 t.1.1.1.2 t.1.1.2 t.1.2 t.2)).
  by intros [].
Defined.
#[export] Instance Sp1Stdin_countable : Countable Sp1Stdin.
Proof.
  apply (inj_countable' (fun i => (in_trace i, in_txs i, in_state i))
    (fun i => mkSp1Stdin i.1.1 i.1.2 i.2)). by intros [].
Defined.

Fixpoint bits_of (p : positive) : list byte :=
  match p with
  | xH => []
  | xO p => x00 :: bits_of p
  | xI p => x01 :: bits_of p
  end.

Fixpoint of_bits (l : list byte) : positive :=
  match l with
  | [] => xH
  | x00 :: l => xO (of_bits l)
  | _ :: l => xI (of_bits l)
  end.

Lemma of_bits_of p : of_bits (bits_of p) = p.
Proof. induction p; simpl; congruence. Qed.

#[export] Instance u64_state_dec s : Decision (u64_state s).
Proof. unfold u64_state. apply _. Defined.
#[export] Instance stdin_ok_dec i : Decision (stdin_ok i).
Proof. unfold stdin_ok. apply _. Defined.

Definition replays (i : Sp1Stdin) : bool :=
  bool_decide (stdin_ok i) && bool_decide (is_Some (@guest_run toy_hash i)).

Definition replay_sdk : Sp1Sdk := {|
  Sp1Proof := Sp1Stdin;
  sdk_setup := Ok tt;
  sdk_execute := fun i => if replays i then Ok tt else Err "execution failed";
  sdk_prove := fun i => if replays i then Ok i else Err "execution failed";
  sdk_verify := fun p => if replays p then Ok tt else Err "invalid proof";
  sdk_public_values := fun p => @guest_run toy_hash p;
  bincode_serialize := fun p => Ok (bits_of (countable.encode p));
  bincode_deserialize := fun bs =>
    match countable.decode (of_bits bs) with
    | Some p => Ok p
    | None => Err "io error: unexpected end of file"
    end;
  prove_elapsed_ms := fun i => 20 * Z.of_nat (length (in_txs i));
  verify_elapsed_ms := fun _ => 5;
|}.

Lemma replays_true i : replays i = true -> stdin_ok i /\ is_Some (@guest_run toy_hash i).
Proof. intros [H1 H2]%andb_true_iff. by rewrite !bool_decide_eq_true in *. Qed.

#[export] Instance replay_sdk_laws : @Sp1Laws toy_hash replay_sdk.
Proof.
  split.
  - intros i. cbn [sdk_execute replay_sdk]. destruct (replays i) eqn:E; [|done]. intros _.
    by apply replays_true.
  - intros i pf. cbn [sdk_prove replay_sdk sdk_public_values].
    destruct (replays i) eqn:E; [|done]. intros [= <-].
    apply replays_true in E as [_ [pi Hpi]]. by exists pi.
  - intros i pf. cbn [sdk_prove replay_sdk sdk_verify].
    destruct (replays i) eqn:E; [|done]. intros [= <-]. by rewrite E.
  - intros pf. cbn [sdk_verify replay_sdk sdk_public_values].
    destruct (replays pf) eqn:E; [|done]. intros _.
    apply replays_true in E as [Hok [pi Hpi]]. by exists pf, pi.
  - intros pf bs [= <-]. cbn [bincode_deserialize replay_sdk].
    by rewrite of_bits_of, countable.decode_encode.
Qed.

(** ** A random generator *)

(** A counter: each sample is the counter reduced to the range asked for. *)
Definition toy_rng : RngLib := {|
  Rng := Z;
  ExpDist := unit;
  seed_from_u64 := fun s => s;
  gen_range := fun _ r lo hi => (lo + r mod (hi - lo), r + 1);
  gen_bool := fun r _ => (Z.even r, r + 1);
  gen_u64 := fun r => (r mod u64_bound, r + 1);
  Exp_new := fun _ => Some tt;
  sample_exp := fun r _ => (f64_of_Z 3, r + 1);
|}.

#[export] Instance toy_rng_laws : @RngLaws toy_rng.
Proof.
  split.
  - intros ty r lo hi Hlt. simpl. pose proof (Z.mod_pos_bound r (hi - lo)). lia.
  - intros r. apply Z.mod_pos_bound, u64_bound_pos.
  - intros r d. vm_compute. reflexivity.
  - by eexists.
Qed.

(** One that always answers with the low end of the range. *)
Definition low_rng : RngLib := {|
  Rng := unit;
  ExpDist := unit;
  seed_from_u64 := fun _ => tt;
  gen_range := fun _ r lo _ => (lo, r);
  gen_bool := fun r _ => (false, r);
  gen_u64 := fun r => (0, r);
  Exp_new := fun _ => Some tt;
  sample_exp := fun r _ => (f64_of_Z 3, r);
|}.

#[export] Instance low_rng_laws : @RngLaws low_rng.
Proof.
  split.
  - intros ty r lo hi Hlt. simpl. lia.
  - intros r. split; [done|apply u64_bound_pos].
  - intros r d. vm_compute. reflexivity.
  - by eexists.
Qed.

(** ** Program addresses *)

Definition toy_addresses : AddressLib := {| receipt_address := fun id => id |}.
