(* ===== verification/NetInstances.v ===== *)
(** * Concrete formats

    Instances of the classes of [Wire], [Files] and [Report], so that their
    theorems can be applied to concrete runs.  A JSON value is one of stdpp's
    generic trees and its text the bits of the tree's encoding; a file is the
    bits of a record's encoding and an end mark.  None of them stands for the
    real format. *)

From Stdlib Require Import ZArith Lia Ascii String Bool Strings.Byte.
From stdpp Require Import base gmap strings countable list.
From S2P Require Import Prelude RustNum RustFmt Types Wire Files Metrics.
From S2P Require Import Instances Report.

Local Open Scope Z_scope.

(** ** Bits as text *)

Fixpoint bit_text (p : positive) : string :=
  match p with
  | xH => EmptyString
  | xO p => String "0" (bit_text p)
  | xI p => String "1" (bit_text p)
  end.

(** Everything from the first other character on is ignored. *)
Fixpoint of_bit_text (s : string) : positive :=
  match s with
  | String "0" s => xO (of_bit_text s)
  | String "1" s => xI (of_bit_text s)
  | _ => xH
  end.

Lemma of_bit_text_bits p tail :
  tail = "" \/ tail = nl -> of_bit_text (bit_text p +:+ tail) = p.
Proof. intros Ht. induction p as [p IH|p IH|]; simpl; [by rewrite IH..|]. by destruct Ht as [->| ->]. Qed.

Lemma bit_text_line p : free_of newline (bit_text p) = true.
Proof. by induction p. Qed.

(** ** JSON *)

Definition toy_value : Type := gen_tree (string + Z).

Definition toy_entry (kv : string * toy_value) : toy_value := GenNode 3 [GenLeaf (inl kv.1); kv.2].
Definition of_toy_entry (t : toy_value) : string * toy_value :=
  match t with
  | GenNode 3 [GenLeaf (inl k); v] => (k, v)
  | _ => ("", GenNode 0 [])
  end.

Definition toy_object (kvs : list (string * toy_value)) : toy_value := GenNode 2 (map toy_entry kvs).

Definition toy_assoc (k : string) (kvs : list (string * toy_value)) : option toy_value :=
  snd <$> List.find (fun kv => String.eqb kv.1 k) kvs.

Definition toy_get (v : toy_value) (k : string) : option toy_value :=
  match v with
  | GenNode 2 l => toy_assoc k (map of_toy_entry l)
  | _ => None
  end.

Definition toy_number (v : toy_value) : option Z :=
  match v with
  | GenLeaf (inr z) => if (0 <=? z) && (z <? u64_bound) then Some z else None
  | _ => None
  end.

Definition toy_byte (v : toy_value) : option byte := u8_of_Z <$> toy_number v.

(** A field of a type, from the value found for it. *)
Fixpoint toy_field (t : field_ty) (v : option toy_value) : option (field toy_value) :=
  match t, v with
  | TString, Some (GenLeaf (inl s)) => Some (FString s)
  | TU64, Some v => FU64 <$> toy_number v
  | TBytes, Some (GenNode 1 l) => FBytes <$> mapM toy_byte l
  | TOptString, Some (GenLeaf (inl s)) => Some (FOptString (Some s))
  | TOptString, Some (GenNode 0 []) => Some (FOptString None)
  | TOptString, None => Some (FOptString None)
  | TValue, Some v => Some (FValue v)
  | TRecord sh, Some v =>
      FRecord <$>
      (fix go (sh : list (string * field_ty)) : option (list (string * field toy_value)) :=
         match sh with
         | [] => Some []
         | (n, t) :: sh => f ← toy_field t (toy_get v n); fs ← go sh; Some ((n, f) :: fs)
         end) sh
  | _, _ => None
  end.

Definition toy_from_value (sh : list (string * field_ty)) (v : toy_value)
    : result string (list (field toy_value)) :=
  match toy_field (TRecord sh) (Some v) with
  | Some (FRecord fs) => Ok (map snd fs)
  | _ => Err "invalid type"
  end.

Definition toy_parse (text : string) : toy_value :=
  default (GenNode 0 []) (countable.decode (of_bit_text text)).

Definition toy_json : JsonLib := {|
  Value := toy_value;
  JNull := GenNode 0 [];
  JString := fun s => GenLeaf (inl s);
  JNumber := fun z => GenLeaf (inr z);
  JArray := fun l => GenNode 1 l;
  JObject := toy_object;
  value_get := toy_get;
  value_as_str := fun v => match v with GenLeaf (inl s) => Some s | _ => None end;
  value_as_u64 := toy_number;
  value_as_array := fun v => match v with GenNode 1 l => Some l | _ => None end;
  json_text := fun v => bit_text (countable.encode v);
  json_pretty := fun v => bit_text (countable.encode v);
  from_text := fun sh text => toy_from_value sh (toy_parse text);
  from_value := toy_from_value;
  plain := fun _ _ => True;
|}.

#[local] Existing Instance toy_json.

Lemma of_toy_entries kvs : map of_toy_entry (map toy_entry kvs) = kvs.
Proof. rewrite map_map. rewrite <-(map_id kvs) at 2. by apply map_ext; intros []. Qed.

Lemma toy_number_u64 z : is_u64 z -> toy_number (GenLeaf (inr z)) = Some z.
Proof.
  intros [H0 H1]. unfold toy_number.
  by rewrite (proj2 (Z.leb_le 0 z)), (proj2 (Z.ltb_lt z _)).
Qed.

Lemma toy_number_range v z : toy_number v = Some z -> is_u64 z.
Proof.
  unfold toy_number. destruct v as [[s|x]|]; [done| |done].
  destruct (_ && _) eqn:E; [|done]. intros [= <-]. zbool. by split.
Qed.

Lemma toy_byte_of b : toy_byte (GenLeaf (inr (u8_to_Z b))) = Some b.
Proof.
  unfold toy_byte. rewrite toy_number_u64; [cbn; by rewrite u8_of_to_Z|].
  pose proof (u8_to_Z_range b). unfold is_u64, u64_bound. lia.
Qed.

Lemma toy_bytes (l : list byte) :
  mapM toy_byte (map (fun b => GenLeaf (inr (u8_to_Z b))) l) = Some l.
Proof.
  induction l as [|b l IH]; [done|]. simpl. rewrite toy_byte_of. cbn.
  change (mapM toy_byte (map (fun b => GenLeaf (inr (u8_to_Z b))) l) ≫= (fun k => Some (b :: k)) =
    Some (b :: l)). by rewrite IH.
Qed.

Lemma toy_assoc_in kvs n (v : toy_value) :
  NoDup (map fst kvs) -> (n, v) ∈ kvs -> toy_assoc n kvs = Some v.
Proof.
  intros Hnd Hin. unfold toy_assoc. induction kvs as [|[m w] kvs IH]; [by apply not_elem_of_nil in Hin|].
  inversion_clear Hnd as [|? ? Hm Hnd']. cbn [List.find fst].
  apply elem_of_cons in Hin as [[= <- <-]|Hin]; [by rewrite String.eqb_refl|].
  destruct (String.eqb_spec m n) as [->|]; [|by apply IH].
  destruct Hm. by apply (list_elem_of_fmap_2 fst _ _ Hin).
Qed.

(** *** Round trip *)

(** Induction over the types with their nested records. *)
Fixpoint field_ty_ind' (P : field_ty -> Prop) (Hs : P TString) (Hz : P TU64) (Hb : P TBytes)
    (Ho : P TOptString) (Hv : P TValue)
    (Hr : forall sh, Forall (fun nt => P nt.2) sh -> P (TRecord sh)) (t : field_ty) : P t :=
  match t with
  | TString => Hs
  | TU64 => Hz
  | TBytes => Hb
  | TOptString => Ho
  | TValue => Hv
  | TRecord sh =>
      Hr sh ((fix go sh : Forall (fun nt => P nt.2) sh :=
        match sh with
        | [] => List.Forall_nil _
        | nt :: sh => List.Forall_cons _ nt sh (field_ty_ind' P Hs Hz Hb Ho Hv Hr nt.2) (go sh)
        end) sh)
  end.

Lemma toy_field_ser t f : has_ty f t -> toy_field t (Some (ser f)) = Some f.
Proof.
  revert f. induction t as [| | | | |sh IH] using field_ty_ind'; intros [] Hf; try done.
  - change (FU64 (V := toy_value) <$> toy_number (GenLeaf (inr z)) = Some (FU64 z)). by rewrite toy_number_u64.
  - change (FBytes (V := toy_value) <$> mapM toy_byte (map (fun b => GenLeaf (inr (u8_to_Z b))) l) = Some (FBytes l)).
    by rewrite toy_bytes.
  - by destruct o.
  - destruct Hf as [Hnd Hf].
    set (kvs := map (fun kv => (kv.1, ser kv.2)) fs).
    change (ser (FRecord fs)) with (toy_object kvs). cbn [toy_field].
    assert (map fst kvs = map fst sh) as Hkeys.
    { subst kvs. rewrite map_map. clear IH Hnd. revert sh Hf.
      induction fs as [|[n f] fs IHf]; intros [|[m t] sh] Hf; try done.
      destruct Hf as (-> & _ & Hf). cbn. f_equal. by apply IHf. }
    assert (forall n f, (n, f) ∈ fs -> toy_get (toy_object kvs) n = Some (ser f)) as Hget.
    { intros n f Hin. unfold toy_get, toy_object. rewrite of_toy_entries.
      apply toy_assoc_in; [exact (eq_ind_r (@NoDup string) Hnd Hkeys)|].
      by apply (list_elem_of_fmap_2 (fun kv => (kv.1, ser kv.2)) _ (n, f)). }
    clearbody kvs. clear Hkeys Hnd. revert sh IH Hf.
    induction fs as [|[n f] fs IHf]; intros [|[m t] sh] IH Hf; try done.
    destruct Hf as (-> & Hf & Hfs). inversion_clear IH as [|? ? Ht Hsh].
    rewrite (Hget m f) by left. cbn [snd] in Ht. rewrite Ht by done. cbn [mbind option_bind].
    specialize (IHf (fun n f Hin => Hget n f (list_elem_of_further _ _ _ Hin)) sh Hsh Hfs).
    match type of IHf with FRecord <$> ?x = _ => destruct x as [fs'|]; [|done] end.
    by injection IHf as ->.
Qed.

Lemma toy_field_type t v f : toy_field t v = Some f -> field_of f t.
Proof.
  revert v f. induction t as [| | | | |sh IH] using field_ty_ind'; intros v f; cbn [toy_field];
    try (repeat case_match; try done; by intros [= <-]).
  - destruct v as [v|]; [|done]. intros (z & Hz & ->)%fmap_Some. by eapply toy_number_range.
  - repeat case_match; try done. by intros (l' & _ & ->)%fmap_Some.
  - destruct v as [v|]; [|done]. intros (fs & Hfs & ->)%fmap_Some. cbn [field_of].
    revert fs Hfs. induction IH as [|[n t] sh Ht Hsh IHsh]; intros fs Hfs; [by injection Hfs as <-|].
    apply bind_Some in Hfs as (f & Hf & Hfs). apply bind_Some in Hfs as (fs' & Hgo & [= <-]).
    split; [done|]. split; [by eapply Ht|by apply IHsh].
Qed.

Lemma toy_from_value_record sh fs :
  has_ty (FRecord fs) (TRecord sh) -> toy_from_value sh (ser (FRecord fs)) = Ok (map snd fs).
Proof. intros Hf. unfold toy_from_value. by rewrite toy_field_ser. Qed.

Lemma toy_from_value_typed sh v l : toy_from_value sh v = Ok l -> Forall2 field_of l (map snd sh).
Proof.
  unfold toy_from_value. destruct (toy_field _ _) as [[]|] eqn:Hf; try done. intros [= <-].
  apply toy_field_type in Hf. cbn [field_of] in Hf. revert sh Hf.
  induction fs as [|[n f] fs IH]; intros [|[m t] sh] Hf; try done.
  destruct Hf as (_ & Hf & Hfs). constructor; [done|by apply IH].
Qed.

Lemma toy_parse_text v tail :
  tail = "" \/ tail = nl -> toy_parse (json_text v +:+ tail) = v.
Proof.
  intros Ht. unfold toy_parse. cbn [json_text toy_json]. rewrite of_bit_text_bits by done.
  by rewrite countable.decode_encode.
Qed.

(** A record without a field has no value for it. *)
Lemma toy_missing sh fs n t :
  (n, t) ∈ sh -> t <> TOptString -> n ∉ map fst fs ->
  exists e, toy_from_value sh (ser (FRecord fs)) = Err e.
Proof.
  intros Hin Ht Hn. unfold toy_from_value.
  match goal with |- context [toy_field ?t ?v] =>
    enough (toy_field t v = None) as Hnone by (rewrite Hnone; by eexists) end.
  set (kvs := map (fun kv => (kv.1, ser kv.2)) fs).
  change (ser (FRecord fs)) with (toy_object kvs). cbn [toy_field].
  assert (toy_get (toy_object kvs) n = None) as Hget.
  { unfold toy_get, toy_object. rewrite of_toy_entries. unfold toy_assoc.
    match goal with |- context [List.find ?p ?l] => destruct (List.find p l) as [[m v]|] eqn:Hf end;
      [|done]. apply find_some in Hf as [Hm Heq].
    apply String.eqb_eq in Heq. cbn in Heq. subst m. destruct Hn.
    apply list_elem_of_In, (list_elem_of_fmap_2 fst) in Hm. subst kvs. change (n ∈ map fst
      (map (fun kv => (kv.1, ser kv.2)) fs)) in Hm. by rewrite map_map in Hm. }
  clearbody kvs. apply fmap_None.
  induction sh as [|[m u] sh IH]; [by apply not_elem_of_nil in Hin|].
  apply elem_of_cons in Hin as [[= -> ->]|Hin].
  - rewrite Hget. by destruct u.
  - destruct (toy_field u _); [|done]. cbn [mbind option_bind]. by rewrite IH.
Qed.

#[export] Instance toy_json_laws : @JsonLaws toy_json.
Proof.
  split; try done.
  - apply toy_from_value_record.
  - intros sh fs tail Hf Ht. cbn [from_text toy_json]. unfold record_text.
    rewrite toy_parse_text by done. by apply toy_from_value_record.
  - intros sh fs tail n t Hin Ht Hn Htail. cbn [from_text toy_json]. unfold record_text.
    rewrite toy_parse_text by done. by eapply toy_missing.
  - intros sh text l. apply toy_from_value_typed.
  - intros sh v l. apply toy_from_value_typed.
  - intros kvs k _. cbn [value_get toy_json JObject]. unfold toy_get, toy_object.
    by rewrite of_toy_entries.
  - intros z. apply toy_number_u64.
  - intros v. apply bit_text_line.
Qed.

(** ** Files *)

#[export] Instance ProofCommitment_eq_dec : EqDecision ProofCommitment.
Proof. solve_decision. Defined.
#[export] Instance ProofCommitment_countable : Countable ProofCommitment.
Proof.
  apply (inj_countable' (fun c => (pc_batch_hash c, pc_trace_hash c, pc_state_root_pre c,
      pc_state_root_post c, pc_total_compute c, pc_tx_count c))
    (fun t => mkProofCommitment t.1.1.1.1.1 t.1.1.1.1.2 t.1.1.1.2 t.1.1.2 t.1.2 t.2)).
  by intros [].
Defined.
#[export] Instance BatchProof_eq_dec : EqDecision BatchProof.
Proof. solve_decision. Defined.
#[export] Instance BatchProof_countable : Countable BatchProof.
Proof.
  apply (inj_countable' (fun p => (pf_batch_id p, pf_proof_data p, pf_proof_hash p,
      pf_commitment p, pf_generated_at p, pf_proving_time_ms p, pf_proof_size_bytes p))
    (fun t => mkBatchProof t.1.1.1.1.1.1 t.1.1.1.1.1.2 t.1.1.1.1.2 t.1.1.1.2 t.1.1.2 t.1.2 t.2)).
  by intros [].
Defined.
#[export] Instance TransactionId_countable : Countable TransactionId.
Proof. apply (inj_countable' as_str mkTransactionId). by intros []. Defined.
#[export] Instance TraceEntry_eq_dec : EqDecision TraceEntry.
Proof. solve_decision. Defined.
#[export] Instance TraceEntry_countable : Countable TraceEntry.
Proof.
  apply (inj_countable' (fun e => (te_tx_idx e, te_tx_id e, te_pre_state_hash e, te_instruction e,
      te_accounts_read e, te_accounts_written e, te_post_state_hash e,
      (te_compute_used e, te_success e, te_error e)))
    (fun t => mkTraceEntry t.1.1.1.1.1.1.1 t.1.1.1.1.1.1.2 t.1.1.1.1.1.2 t.1.1.1.1.2 t.1.1.1.2
      t.1.1.2 t.1.2 t.2.1.1 t.2.1.2 t.2.2)).
  by intros [].
Defined.
#[export] Instance ExecutionTrace_eq_dec : EqDecision ExecutionTrace.
Proof. solve_decision. Defined.
#[export] Instance ExecutionTrace_countable : Countable ExecutionTrace.
Proof.
  apply (inj_countable' (fun t => (et_batch_id t, et_entries t, et_state_root_pre t,
      et_state_root_post t, et_trace_hash t, et_total_compute t, et_success_count t,
      et_failure_count t))
    (fun t => mkExecutionTrace t.1.1.1.1.1.1.1 t.1.1.1.1.1.1.2 t.1.1.1.1.1.2 t.1.1.1.1.2 t.1.1.1.2
      t.1.1.2 t.1.2 t.2)).
  by intros [].
Defined.

(** The bits and an end mark. *)
Definition toy_file `{Countable A} (a : A) : list byte := bits_of (countable.encode a) ++ [x02].

Definition of_toy_file `{Countable A} (bs : list byte) : result string A :=
  match last bs with
  | Some x02 =>
      match countable.decode (of_bits (removelast bs)) with
      | Some a => Ok a
      | None => Err "invalid data"
      end
  | _ => Err "unexpected end of file"
  end.

Lemma of_toy_file_whole `{Countable A} (a : A) : of_toy_file (toy_file a) = Ok a.
Proof.
  unfold of_toy_file, toy_file. rewrite last_snoc, removelast_last, of_bits_of.
  by rewrite countable.decode_encode.
Qed.

Lemma bits_of_bits p : Forall (fun b => b <> x02) (bits_of p).
Proof. induction p; simpl; by repeat constructor. Qed.

Lemma of_toy_file_truncated `{Countable A} (a : A) k :
  (k < length (toy_file a))%nat -> is_ok (of_toy_file (A := A) (take k (toy_file a))) = false.
Proof.
  unfold toy_file. rewrite length_app. simpl. intros Hk. rewrite take_app_le by lia.
  unfold of_toy_file. destruct (last _) as [b|] eqn:Hl; [|done].
  assert (b <> x02) as Hb; [|by destruct b].
  apply (proj1 (Forall_forall _ _) (bits_of_bits (countable.encode a))).
  apply last_Some in Hl as [l Hl]. rewrite <-(take_drop k (bits_of _)), Hl.
  rewrite <-app_assoc. apply elem_of_app. right. left.
Qed.

Definition toy_files : FileCodec := {|
  bincode_proof := fun pf => Ok (toy_file pf);
  unbincode_proof := of_toy_file;
  trace_json := fun t => Ok (toy_file t);
  trace_from_json := of_toy_file;
|}.

#[export] Instance toy_files_laws : @FileLaws toy_files.
Proof.
  split; intros ? bs; cbn; [|intros k|..|intros k]; intros [= <-];
    by apply of_toy_file_whole || apply of_toy_file_truncated.
Qed.

(** ** Reports *)

Definition toy_report : ReportLib := {|
  table_text := fun h rows => String.concat " " (concat (h :: rows));
  csv_bytes := fun rows => list_byte_of_string (String.concat "," (concat rows));
  metrics_json := fun rs => Ok (list_byte_of_string (String.concat "," (map sm_policy_name rs)));
  metrics_from_json := fun _ => Err "not supported";
|}.
