(* ===== verification/UnitTests.v ===== *)
(** * The repository's unit tests, on the model

    Every crate ends with a [mod tests].  Each test is translated as a boolean
    that runs the model's functions and checks what the test asserts, a panic
    or a failed [unwrap] being [false]; the theorems show that the tests pass,
    in a debug build, as [cargo test] makes.  What does not depend on SHA-256
    or on the random generator passes for every one of them; a test that
    asserts two hashes to differ passes unless two of the texts it hashes, which
    are listed, have the same digest.

    Not here are the tests that only build a prover or a verifier
    ([test_prover_creation], [test_verifier_creation]).  The one test [cargo
    test] ignores, [test_sp1_prove], is shown to fail. *)

From Stdlib Require Import ZArith Lia Ascii String Bool Strings.Byte.
From Stdlib Require Import Sorting.Sorted Floats.SpecFloat.
From stdpp Require Import base gmap strings list list_numbers sorting.
From S2P Require Import Prelude RustNum RustFmt Float64 Merkle Types TraceBuilder Executor.
From S2P Require Import TraceFacts Guest Sp1 Agreement Soundness Policy Metrics Ingress Instances.

Local Open Scope Z_scope.

(** ** Assertions *)

(** The assertions of a test, in order. *)
Definition asserts : list bool -> bool := forallb Datatypes.id.

(** [r.unwrap()], the rest of the test after it. *)
Definition unwrapped {E A} (r : option (result E A)) (k : A -> bool) : bool :=
  match r with Some (Ok a) => k a | _ => false end.

(** [s.contains(t)] *)
Definition contains (s t : string) : bool :=
  match String.index 0 t s with Some _ => true | None => false end.

Definition is_empty_str (s : string) : bool := bool_decide (s = "").

(** [==] on [f64] and [>] on the derived order of priorities. *)
Definition f64_eq (x y : f64) : bool := SFeqb x y.
Definition priority_gt (p q : TransactionPriority) : bool := negb (priority_ge q p).

(** [batch.tx_ids = ids] *)
Definition with_tx_ids (ids : list TransactionId) (b : Batch) : Batch :=
  let 'mkBatch id _ ts sealed r h th ph st cu := b in mkBatch id ids ts sealed r h th ph st cu.

Lemma asserts_true l : Forall (eq true) l -> asserts l = true.
Proof. induction 1 as [|b l <- _ IH]; [done|exact IH]. Qed.

Lemma bool_decide_refl {A} (x : A) `{Decision (x = x)} : bool_decide (x = x) = true.
Proof. by apply bool_decide_eq_true. Qed.

(** ** [crates/common] *)

Section common.
Context `{HashLib}.

Definition test_hash_determinism : bool :=
  let data := list_byte_of_string "test data for hashing" in
  let h1 := hash_bytes data in
  let h2 := hash_bytes data in
  asserts [bool_decide (h1 = h2); (String.length h1 =? 64)%nat].

Definition test_merkle_root_determinism : bool :=
  let leaves := [hash_str "a"; hash_str "b"; hash_str "c"] in
  asserts [bool_decide (merkle_root leaves = merkle_root leaves)].

Definition test_merkle_root_empty_lib : bool :=
  let root := merkle_root [] in asserts [negb (is_empty_str root)].

Definition test_merkle_root_single_lib : bool :=
  let leaf := hash_str "single" in asserts [bool_decide (merkle_root [leaf] = leaf)].

Definition test_hash_bytes_deterministic : bool :=
  let h1 := hash_bytes (list_byte_of_string "hello") in
  let h2 := hash_bytes (list_byte_of_string "hello") in
  asserts [bool_decide (h1 = h2); (String.length h1 =? 64)%nat].

Definition test_hash_str : bool := asserts [(String.length (hash_str "hello") =? 64)%nat].

Definition test_merkle_root_empty : bool :=
  let root := merkle_root [] in
  asserts [negb (is_empty_str root); bool_decide (root = hash_bytes (list_byte_of_string "empty"))].

Definition test_merkle_root_single : bool :=
  let leaf := hash_str "leaf" in asserts [bool_decide (merkle_root [leaf] = leaf)].

Definition test_merkle_root_two : bool :=
  let a := hash_str "a" in
  let b := hash_str "b" in
  asserts [bool_decide (merkle_root [a; b] = hash_str (a +:+ b))].

Definition test_merkle_root_odd : bool :=
  let a := hash_str "a" in
  let b := hash_str "b" in
  let c := hash_str "c" in
  let ab := hash_str (a +:+ b) in
  let cc := hash_str (c +:+ c) in
  asserts [bool_decide (merkle_root [a; b; c] = hash_str (ab +:+ cc))].

Definition test_state_root_deterministic : bool :=
  let state : gmap string Z := <["bob" := 200]> (<["alice" := 100]> ∅) in
  asserts [bool_decide (state_root state = state_root state)].

Definition test_state_root_order_independent : bool :=
  let state1 : gmap string Z := <["bob" := 200]> (<["alice" := 100]> ∅) in
  let state2 : gmap string Z := <["alice" := 100]> (<["bob" := 200]> ∅) in
  asserts [bool_decide (state_root state1 = state_root state2)].

Definition test_hash_trace_entry : bool :=
  let h1 := hash_trace_entry "tx1" true 1000 ["a"] ["b"] in
  let h2 := hash_trace_entry "tx1" true 1000 ["a"] ["b"] in
  let h3 := hash_trace_entry "tx1" false 1000 ["a"] ["b"] in
  asserts [bool_decide (h1 = h2); bool_decide (h1 <> h3)].
End common.

Definition test_transaction_id_display : bool :=
  let id := mkTransactionId "tx_123" in asserts [bool_decide (as_str id = "tx_123")].

Definition test_priority_ordering : bool :=
  asserts [priority_gt Critical High; priority_gt High Normal; priority_gt Normal Low].

Definition test_batch_size : bool :=
  let batch := Batch_new "batch_1" 1000 in
  let pushed := with_tx_ids
    (b_tx_ids batch ++ [mkTransactionId "tx_1"] ++ [mkTransactionId "tx_2"]) batch in
  asserts [Batch_size batch =? 0; Batch_size pushed =? 2].

Definition test_seal_reason_display : bool :=
  asserts [bool_decide (SealReason_display CountThreshold = "count_threshold");
           bool_decide (SealReason_display Adaptive = "adaptive")].

Definition test_error_display : bool :=
  let err := IngressComputeBudgetExceeded 2000000 1400000 in
  asserts [contains (IngressError_display err) "2000000";
           contains (IngressError_display err) "1400000"].

Definition test_pipeline_error_from : bool :=
  let pipeline_err := IngressErr EmptyInstruction in
  match pipeline_err with IngressErr _ => true | _ => false end.

Definition test_virtual_clock_advance : bool :=
  let clock := VirtualClock_new 1000 in
  let later := advance clock 500 in
  asserts [now_ms clock =? 1000; now_ms later =? 1500].

Definition test_virtual_clock_sleep : bool :=
  asserts [now_ms (sleep_ms (VirtualClock_new 0) 100) =? 100].

(** [clock] is what the operating system's clock reads as the test starts. *)
Definition test_system_clock_advances (clock : SystemClock) : bool :=
  let t1 := now_ms clock in
  let t2 := now_ms (SystemClock_sleep_ms clock 10) in
  asserts [t1 <=? t2].

Definition make_batch_metrics (latency size : Z) : BatchMetrics := {|
  bm_batch_id := "batch_" +:+ fmt_u64 latency;
  bm_policy_name := "test";
  bm_batch_size := size;
  bm_total_compute_used := size * 1000;
  bm_execution_time_ms := 10;
  bm_proving_time_ms := 50;
  bm_verification_time_ms := 5;
  bm_end_to_end_latency_ms := latency;
  bm_proof_size_bytes := 1000;
  bm_throughput_tps := f64_div (f64_of_Z size) (f64_div (f64_of_Z latency) (f64_of_Z 1000));
  bm_avg_tx_latency_ms := f64_div (f64_of_Z latency) (f64_of_Z size);
  bm_verification_passed := true;
|}.

(** The rest of a test, given the report. *)
Definition reported (r : option SystemMetrics) (k : SystemMetrics -> list bool) : bool :=
  match r with Some m => asserts (k m) | None => false end.

Definition test_aggregate_empty : bool :=
  reported (aggregate_metrics Debug [] "test" "empty" 100) (fun result =>
    [sm_total_batches result =? 0; sm_total_transactions result =? 0]).

Definition test_aggregate_single : bool :=
  reported (aggregate_metrics Debug [make_batch_metrics 100 10] "test" "single" 200) (fun result =>
    [sm_total_batches result =? 1;
     sm_total_transactions result =? 10;
     f64_eq (sm_avg_latency_ms result) (f64_of_Z 100);
     f64_eq (sm_p50_latency_ms result) (f64_of_Z 100);
     sm_sla_violations result =? 0]).

Definition test_aggregate_multiple : bool :=
  let metrics := [make_batch_metrics 50 5; make_batch_metrics 100 10;
                  make_batch_metrics 150 15; make_batch_metrics 200 20] in
  reported (aggregate_metrics Debug metrics "test" "multi" 120) (fun result =>
    [sm_total_batches result =? 4;
     sm_total_transactions result =? 50;
     sm_sla_violations result =? 2]).

Definition test_percentile : bool :=
  let sorted := map f64_of_Z [1; 2; 3; 4; 5; 6; 7; 8; 9; 10] in
  asserts [f64_eq (percentile sorted (f64_of_Z 50)) (f64_of_Z 6);
           f64_eq (percentile sorted (f64_of_Z 0)) (f64_of_Z 1);
           f64_eq (percentile sorted (f64_of_Z 100)) (f64_of_Z 10)].

Definition test_metrics_aggregator : bool :=
  let agg := MetricsAggregator_new in
  let agg := record_metrics agg (make_batch_metrics 100 10) in
  let agg := record_metrics agg (make_batch_metrics 200 20) in
  asserts [batch_count agg =? 2; bool_decide (transaction_count Debug agg = Some 30)] &&
  reported (finalize Debug agg "test" "agg_test" 150) (fun result =>
    [sm_total_batches result =? 2; sm_sla_violations result =? 1]).

(** ** [crates/batch-policy] *)

Definition test_fixed_count_policy : bool :=
  let policy := FixedCountPolicy_new 10 in
  asserts [negb (should_seal policy 5 1000 f64_one);
           should_seal policy 10 0 f64_one;
           should_seal policy 15 0 f64_one].

Definition test_fixed_time_policy : bool :=
  let policy := FixedTimePolicy_new 100 in
  asserts [negb (should_seal policy 0 200 f64_one);
           negb (should_seal policy 5 50 f64_one);
           should_seal policy 5 100 f64_one;
           should_seal policy 1 200 f64_one].

Definition test_hybrid_policy : bool :=
  let policy := HybridPolicy_new 10 100 in
  asserts [negb (should_seal policy 5 50 f64_one);
           should_seal policy 10 0 f64_one;
           should_seal policy 5 100 f64_one].

Definition test_adaptive_policy_basic : bool :=
  let policy := AdaptivePolicy_new 10 50 100 500 in
  asserts [negb (should_seal policy 0 0 f64_one);
           should_seal policy 10 0 f64_one;
           should_seal policy 5 500 f64_one].

Definition test_adaptive_policy_latency_pressure : bool :=
  let policy := AdaptivePolicy_new 10 50 100 500 in
  match foldlM (fun policy _ => observe_latency Debug policy 450) policy (seq 0 10) with
  | Some policy => asserts [compute_threshold policy <? 10]
  | None => false
  end.

Definition test_policy_factory : bool :=
  let config := PolicyConfig_default in
  let hybrid := create_policy "hybrid" config in
  let adaptive := create_policy "adaptive" config in
  asserts [bool_decide (box_name hybrid = "Hybrid"); bool_decide (box_name adaptive = "Adaptive")].

(** ** [crates/trace-builder] *)

Section trace_builder.
Context `{HashLib}.

Definition test_compute_state_root_deterministic : bool :=
  let state : gmap string Z := <["bob" := 200]> (<["alice" := 100]> ∅) in
  asserts [bool_decide (compute_state_root state = compute_state_root state)].

Definition test_compute_state_root_order_independent : bool :=
  let state1 : gmap string Z := <["bob" := 200]> (<["alice" := 100]> ∅) in
  let state2 : gmap string Z := <["alice" := 100]> (<["bob" := 200]> ∅) in
  asserts [bool_decide (compute_state_root state1 = compute_state_root state2)].

Definition test_trace_builder : bool :=
  let initial_state : gmap string Z := <["alice" := 1000]> ∅ in
  let builder := TraceBuilder_new "batch_1" initial_state in
  match add_entry Debug builder 0 (mkTransactionId "tx_1") "pre_hash" "transfer" ["alice"] ["alice"]
          "post_hash" 5000 true None with
  | None => false
  | Some builder =>
      let final_state := <["alice" := 900]> initial_state in
      let trace := build builder final_state in
      asserts [bool_decide (et_batch_id trace = "batch_1");
               (length (et_entries trace) =? 1)%nat;
               negb (is_empty_str (et_trace_hash trace));
               bool_decide (et_state_root_pre trace <> et_state_root_post trace);
               et_total_compute trace =? 5000;
               et_success_count trace =? 1]
  end.

(** ** [crates/execution-engine] *)

Definition make_tx (id : string) (opcode : Z) (data : list byte) : Transaction :=
  let instruction_data := u8_of_Z opcode :: data in
  let tx := Transaction_new (mkTransactionId id) "alice" "test_program" in
  tx_set_arrival_ts 1000 (tx_set_priority Normal (tx_set_estimated_cu 100000
    (tx_set_instruction_data instruction_data tx))).

Definition make_batch (tx_ids : list TransactionId) : Batch :=
  with_tx_ids tx_ids (Batch_new "batch_1" 1000).

(** [trace.entries[0]], the rest of the assertions after it. *)
Definition at_first (t : ExecutionTrace) (k : TraceEntry -> bool) : bool :=
  match et_entries t with e :: _ => k e | [] => false end.

Definition test_execute_basic : bool :=
  let executor := DeterministicExecutor_new 200000 in
  let batch := make_batch [mkTransactionId "tx_1"] in
  unwrapped (execute Debug executor batch) (fun trace =>
    asserts [(length (et_entries trace) =? 1)%nat; at_first trace te_success]).

Definition test_full_executor_noop : bool :=
  let executor := FullExecutor_new 200000 in
  let tx := make_tx "tx_1" 3 [] in
  let batch := make_batch [tx_id tx] in
  unwrapped (execute_with_transactions Debug executor batch [tx]) (fun trace =>
    asserts [(length (et_entries trace) =? 1)%nat; at_first trace te_success]).

Definition test_full_executor_set_data : bool :=
  let executor := FullExecutor_new 200000 in
  let data := u64_to_le_bytes 5 ++ u64_to_le_bytes 12345 in
  let tx := make_tx "tx_1" 1 data in
  let batch := make_batch [tx_id tx] in
  unwrapped (execute_with_transactions Debug executor batch [tx]) (fun trace =>
    asserts [at_first trace te_success;
             at_first trace (fun e => existsb (String.eqb "data_5") (te_accounts_written e))]).

Definition test_deterministic_execution : bool :=
  let executor := FullExecutor_new 200000 in
  let data := u64_to_le_bytes 1 ++ u64_to_le_bytes 999 in
  let tx1 := make_tx "tx_1" 1 data in
  let tx2 := make_tx "tx_2" 2 data in
  let batch1 := make_batch [tx_id tx1; tx_id tx2] in
  let batch2 := make_batch [tx_id tx1; tx_id tx2] in
  unwrapped (execute_with_transactions Debug executor batch1 [tx1; tx2]) (fun trace1 =>
  unwrapped (execute_with_transactions Debug executor batch2 [tx1; tx2]) (fun trace2 =>
    asserts [bool_decide (et_trace_hash trace1 = et_trace_hash trace2);
             bool_decide (et_state_root_post trace1 = et_state_root_post trace2)])).
End trace_builder.

(** ** [crates/ingress] *)

Definition test_validate_success : bool :=
  let tx := Transaction_new (mkTransactionId "tx_1") "alice" "program_1" in
  let tx := tx_set_instruction_data (map u8_of_Z [0; 1; 2; 3]) tx in
  let tx := tx_set_estimated_cu 100000 tx in
  asserts [is_ok (validate tx)].

Definition test_validate_empty_sender : bool :=
  let tx := Transaction_new (mkTransactionId "tx_1") "" "program_1" in
  let tx := tx_set_instruction_data [u8_of_Z 0] tx in
  match validate tx with Err (InvalidSender _) => true | _ => false end.

Definition test_validate_compute_exceeded : bool :=
  let tx := Transaction_new (mkTransactionId "tx_1") "alice" "program_1" in
  let tx := tx_set_instruction_data [u8_of_Z 0] tx in
  let tx := tx_set_estimated_cu 2000000 tx in
  match validate tx with Err (IngressComputeBudgetExceeded _ _) => true | _ => false end.

Section workloads.
Context `{RngLib}.

(** [WorkloadGenerator::new(..).collect()]: one call of [next] more than there
    are transactions. *)
Definition workload (sc : Scenario) (count seed interval : Z) : option (list Transaction) :=
  collect Debug (S (Z.to_nat count)) (WorkloadGenerator_new sc count seed interval).

Definition same_workload (t : Transaction * Transaction) : bool :=
  asserts [bool_decide (as_str (tx_id t.1) = as_str (tx_id t.2));
           arrival_ts t.1 =? arrival_ts t.2;
           estimated_cu t.1 =? estimated_cu t.2].

Definition test_workload_generator_deterministic : bool :=
  match workload Steady 10 42 100, workload Steady 10 42 100 with
  | Some gen1, Some gen2 =>
      asserts [(length gen1 =? length gen2)%nat; forallb same_workload (zip gen1 gen2)]
  | _, _ => false
  end.

(** [txs[i].arrival_ts >= txs[i - 1].arrival_ts] for every [i] from 1. *)
Fixpoint monotonic (txs : list Transaction) : bool :=
  match txs with
  | tx :: (tx' :: _) as rest => (arrival_ts tx <=? arrival_ts tx') && monotonic rest
  | _ => true
  end.

Definition scenario_checks (txs : list Transaction) : bool :=
  asserts [(length txs =? 50)%nat; monotonic txs].

Definition test_workload_generator_scenarios : bool :=
  forallb (fun sc => match workload sc 50 123 50 with
                     | Some txs => scenario_checks txs
                     | None => false
                     end) Scenario_all.

(** The size of the set of priorities. *)
Definition test_mixed_priority_has_variety : bool :=
  match workload MixedPriority 200 456 20 with
  | Some txs => asserts [(1 <? length (remove_dups (map priority txs)))%nat]
  | None => false
  end.
End workloads.

Definition test_scenario_from_str : bool :=
  let parses s sc := match Scenario_from_str s with Ok x => bool_decide (x = sc) | Err _ => false end in
  asserts [parses "steady" Steady; parses "BURSTY" Bursty; parses "mixed_priority" MixedPriority;
           negb (is_ok (Scenario_from_str "unknown"))].

(** ** [crates/sp1-prover] *)

Section sp1_prover.
Context `{HashLib}.

(** Five ids, so that the Merkle tree has an odd level. *)
Definition test_ids : list TransactionId :=
  map (fun i => mkTransactionId ("tx_" +:+ fmt_hex_pad 8 i)) (seqZ 1 5).

Definition test_id_batch : Batch := with_tx_ids test_ids (Batch_new "test_batch" 0).

(** The test's own copy of what the prover rebuilds from an entry. *)
Definition test_initial_state (trace : ExecutionTrace) : gmap string Z :=
  reconstruct_state (et_entries trace).

Definition test_transactions (trace : ExecutionTrace) : list Transaction :=
  map reconstruct_tx (et_entries trace).

(** The guest in SP1's emulator is the SDK's [execute]. *)
Definition test_guest_execute_matches_executor `{Sp1Sdk} : bool :=
  let executor := DeterministicExecutor_new 200000 in
  unwrapped (execute Debug executor test_id_batch) (fun trace =>
    let result := execute_only mkSp1Prover trace (test_transactions trace) (test_initial_state trace) in
    asserts [is_ok result]).

Definition test_state_reconstruction_matches_executor : bool :=
  let executor := DeterministicExecutor_new 200000 in
  unwrapped (execute Debug executor test_id_batch) (fun trace =>
    let reconstructed_pre := compute_state_root (test_initial_state trace) in
    asserts [bool_decide (et_state_root_pre trace = reconstructed_pre)]).

(** The trace of a batch that was never executed. *)
Definition create_test_trace (tx_count : Z) : ExecutionTrace :=
  let entries := map (fun i => {|
      te_tx_idx := i;
      te_tx_id := mkTransactionId ("tx_" +:+ fmt_u64 i);
      te_pre_state_hash := "pre_" +:+ fmt_u64 i;
      te_instruction := "noop";
      te_accounts_read := [];
      te_accounts_written := [];
      te_post_state_hash := "post_" +:+ fmt_u64 i;
      te_compute_used := 1000;
      te_success := true;
      te_error := None |}) (seqZ 0 tx_count) in
  {| et_batch_id := "test_batch";
     et_entries := entries;
     et_state_root_pre := "pre_state_root";
     et_state_root_post := "post_state_root";
     et_trace_hash := "trace_hash";
     et_total_compute := tx_count * 1000;
     et_success_count := tx_count;
     et_failure_count := 0 |}.

(** The test marked [#[ignore]]. *)
Definition test_sp1_prove `{Sp1Sdk} : bool :=
  let trace := create_test_trace 2 in
  let clock := VirtualClock_new 0 in
  let '(result, _) := prove mkSp1Prover trace [] clock in
  match result with
  | Ok proof => asserts [negb (length (pf_proof_data proof) =? 0)%nat; 0 <? pf_proving_time_ms proof]
  | Err _ => false
  end.

Definition test_serializable_transaction : bool :=
  let tx := Transaction_new (mkTransactionId "tx_1") "alice" "program_1" in
  let serializable := SerializableTransaction_from tx in
  asserts [bool_decide (st_tx_id serializable = "tx_1"); bool_decide (st_sender serializable = "alice")].
End sp1_prover.

(** ** The tests pass *)

Section hash_tests.
Context `{HashLaws}.

Lemma hash_bytes_length d : String.length (hash_bytes d) = 64%nat.
Proof. unfold hash_bytes. by rewrite hex_encode_length, sha256_length. Qed.

Lemma digest_nonempty d : is_empty_str (hash_bytes d) = false.
Proof.
  apply bool_decide_eq_false. intros Heq. pose proof (hash_bytes_length d) as Hl.
  by rewrite Heq in Hl.
Qed.

Theorem common_hash_tests_pass :
  Forall (eq true)
    [test_hash_determinism; test_merkle_root_determinism; test_merkle_root_empty_lib;
     test_merkle_root_single_lib; test_hash_bytes_deterministic; test_hash_str;
     test_merkle_root_empty; test_merkle_root_single; test_merkle_root_two; test_merkle_root_odd;
     test_state_root_deterministic; test_state_root_order_independent] /\
  (test_hash_trace_entry = true \/
   collides_in [trace_entry_data "tx1" true 1000 ["a"] ["b"];
                trace_entry_data "tx1" false 1000 ["a"] ["b"]]).
Proof.
  split.
  - repeat apply Forall_cons_2; try apply Forall_nil_2; symmetry; apply asserts_true;
      repeat apply Forall_cons_2; try apply Forall_nil_2; symmetry;
      try (apply bool_decide_eq_true; reflexivity);
      change (merkle_root []) with (hash_bytes (list_byte_of_string "empty")); unfold hash_str;
      by rewrite ?hash_bytes_length, ?digest_nonempty.
  - destruct (decide (hash_trace_entry "tx1" true 1000 ["a"] ["b"] =
      hash_trace_entry "tx1" false 1000 ["a"] ["b"])) as [Heq|Hne].
    + right. eapply hash_str_inj in Heq as [Heq|]; [by vm_compute in Heq|done|by left|].
      right. left.
    + left. unfold test_hash_trace_entry. cbn [asserts forallb Datatypes.id].
      by rewrite bool_decide_refl, bool_decide_true.
Qed.

Theorem trace_builder_tests_pass :
  test_compute_state_root_deterministic = true /\
  test_compute_state_root_order_independent = true /\
  (test_trace_builder = true \/
   collides_in (state_inputs {["alice" := 1000]} ++ state_inputs {["alice" := 900]})).
Proof.
  split; [|split].
  1, 2: apply asserts_true; repeat constructor; symmetry; apply bool_decide_eq_true; reflexivity.
  set (s1 := <["alice" := 1000]> ∅ : gmap string Z). set (s2 := <["alice" := 900]> s1).
  destruct (decide (compute_state_root s1 = compute_state_root s2)) as [Heq|Hne].
  - right. rewrite !compute_state_root_eq in Heq.
    apply state_root_inj in Heq as [Heq|]; [|done|apply (bool_decide_unpack _); by vm_compute..].
    by apply (f_equal (lookup "alice")) in Heq.
  - left. unfold test_trace_builder. fold s1 s2. unfold add_entry, TraceBuilder_new.
    cbn [tb_total_compute tb_success_count tb_failure_count].
    change (u64_add Debug 0 5000) with (Some 5000). change (u64_add Debug 0 1) with (Some 1).
    cbn [mbind option_bind]. apply asserts_true.
    repeat apply Forall_cons_2; try apply Forall_nil_2; symmetry; try reflexivity.
    + change (is_empty_str _) with (is_empty_str (hash_str (trace_entry_data "tx_1" true 5000
        ["alice"] ["alice"]))). unfold hash_str. by rewrite digest_nonempty.
    + by apply bool_decide_eq_true.
Qed.
End hash_tests.

(** The state machine of a batch never looks at a hash. *)
Theorem execution_engine_tests_pass `{HashLib} :
  Forall (eq true)
    [test_execute_basic; test_full_executor_noop; test_full_executor_set_data;
     test_deterministic_execution].
Proof.
  repeat apply Forall_cons_2; try apply Forall_nil_2; symmetry; try reflexivity.
  unfold test_deterministic_execution. match goal with |- unwrapped ?r _ = _ => destruct r as [[t|e]|] eqn:E end;
    [|by vm_compute in E..].
  cbn [unwrapped asserts forallb Datatypes.id]. by rewrite !bool_decide_refl.
Qed.

Theorem other_common_tests_pass :
  Forall (eq true)
    [test_transaction_id_display; test_priority_ordering; test_batch_size; test_seal_reason_display;
     test_error_display; test_pipeline_error_from; test_virtual_clock_advance;
     test_virtual_clock_sleep; test_aggregate_empty; test_aggregate_single; test_aggregate_multiple;
     test_percentile; test_metrics_aggregator].
Proof. repeat constructor; vm_compute; reflexivity. Qed.

(** The operating system's clock may be set back while the test sleeps: the
    test passes when it is not, and its reading has not wrapped. *)
Theorem system_clock_test_passes clock :
  os_nanos clock <= os_wakes clock (os_nanos clock) 10 < 1000000 * u64_bound ->
  test_system_clock_advances clock = true.
Proof.
  intros [Hle Hlt]. apply asserts_true, Forall_cons_2, Forall_nil_2. symmetry. apply Z.leb_le.
  unfold now_ms, SystemClock_Clock, SystemClock_now_ms, SystemClock_sleep_ms. cbn [os_nanos].
  pose proof u64_bound_pos. destruct (os_nanos clock <? 0) eqn:E1, (os_wakes _ _ _ <? 0) eqn:E2; zbool.
  - lia.
  - apply Z.mod_pos_bound, u64_bound_pos.
  - lia.
  - rewrite !Z.mod_small; [apply Z.div_le_mono; lia|..];
      (split; [apply Z.div_pos|apply Z.div_lt_upper_bound]; lia).
Qed.

Theorem batch_policy_tests_pass :
  Forall (eq true)
    [test_fixed_count_policy; test_fixed_time_policy; test_hybrid_policy; test_adaptive_policy_basic;
     test_adaptive_policy_latency_pressure; test_policy_factory].
Proof. repeat constructor; vm_compute; reflexivity. Qed.

(** A generator of any kind that gets through the workload without overflow
    passes; so does the counting one. *)
Section workload_tests.
Context `{RngLaws}.

Lemma monotonic_sorted txs : StronglySorted Z.lt (map arrival_ts txs) -> monotonic txs = true.
Proof.
  induction txs as [|tx [|tx' txs] IH]; [done..|]. intros [Hs Hall]%StronglySorted_inv.
  cbn [monotonic]. apply andb_true_intro. split; [|by apply IH].
  apply Forall_inv in Hall. apply Z.leb_le. lia.
Qed.

Lemma same_workloads txs : forallb same_workload (zip txs txs) = true.
Proof.
  induction txs as [|tx txs IH]; [done|]. cbn [zip zip_with forallb]. apply andb_true_intro.
  split; [|done]. unfold same_workload. cbn [fst snd asserts forallb Datatypes.id].
  by rewrite bool_decide_refl, !Z.eqb_refl.
Qed.

Theorem workload_tests_pass :
  (is_Some (workload Steady 10 42 100) -> test_workload_generator_deterministic = true) /\
  ((forall sc, is_Some (workload sc 50 123 50)) -> test_workload_generator_scenarios = true).
Proof.
  split.
  - intros [txs Htxs]. unfold test_workload_generator_deterministic. rewrite Htxs.
    cbn [asserts forallb Datatypes.id]. by rewrite Nat.eqb_refl, same_workloads.
  - intros Hall. apply forallb_forall. intros sc _. destruct (Hall sc) as [txs Htxs].
    rewrite Htxs. unfold workload in Htxs. apply asserts_true.
    pose proof (collect_arrivals _ _ _ Htxs) as [Hs _].
    apply collect_output in Htxs as [Hids _]; [|simpl; lia|by vm_compute].
    apply (f_equal length) in Hids. rewrite !length_map, length_seqZ in Hids.
    repeat apply Forall_cons_2; try apply Forall_nil_2; symmetry.
    + by apply Nat.eqb_eq.
    + by apply monotonic_sorted.
Qed.
End workload_tests.

Theorem ingress_tests_pass :
  Forall (eq true)
    [test_validate_success; test_validate_empty_sender; test_validate_compute_exceeded;
     @test_workload_generator_deterministic toy_rng; @test_workload_generator_scenarios toy_rng;
     @test_mixed_priority_has_variety toy_rng; test_scenario_from_str].
Proof. repeat constructor; vm_compute; reflexivity. Qed.

(** Whether priorities vary is up to the generator's samples. *)
Lemma variety_needs_samples : @test_mixed_priority_has_variety low_rng = false.
Proof. vm_compute. reflexivity. Qed.

(** An SDK that executes what the guest accepts passes the prover's tests. *)
Theorem sp1_prover_tests_pass `{HashLib, Sp1Sdk} :
  (forall i, stdin_ok i -> is_Some (guest_run i) -> sdk_execute i = Ok tt) ->
  Forall (eq true)
    [test_guest_execute_matches_executor; test_state_reconstruction_matches_executor;
     test_serializable_transaction].
Proof.
  intros Hsdk. repeat apply Forall_cons_2; try apply Forall_nil_2; symmetry; [..|reflexivity].
  - destruct (noop_batch_accepted Debug (DeterministicExecutor_new 200000) test_id_batch)
      as (t & Ht & _ & Hg); [by vm_compute..|].
    unfold test_guest_execute_matches_executor. rewrite Ht.
    apply asserts_true, Forall_cons_2, Forall_nil_2. unfold execute_only.
    rewrite Hsdk; [done| |by eexists].
    unfold stdin_ok. cbn [in_state]. apply reconstruct_state_u64.
  - unfold test_state_reconstruction_matches_executor, execute.
    destruct (noop_host_run Debug (DeterministicExecutor_new 200000) (b_batch_id test_id_batch)
      (init_sender_balances (b_tx_ids test_id_batch)) (b_tx_ids test_id_batch))
      as (b & -> & _ & _ & Hr & He); [by vm_compute..|].
    cbn [mbind option_bind unwrapped]. apply asserts_true, Forall_cons_2, Forall_nil_2. symmetry.
    apply bool_decide_eq_true. unfold test_initial_state, build. cbn [et_state_root_pre et_entries].
    by rewrite Hr, He, reconstruct_state_entries.
Qed.

(** The SDK that replays executions is one. *)
Lemma replay_sdk_tests_pass : @test_guest_execute_matches_executor toy_hash replay_sdk = true.
Proof.
  assert (Forall (eq true) [@test_guest_execute_matches_executor toy_hash replay_sdk;
    @test_state_reconstruction_matches_executor toy_hash; test_serializable_transaction]) as Hall.
  { apply (@sp1_prover_tests_pass toy_hash replay_sdk). intros i Hok Hrun.
    cbn [sdk_execute replay_sdk]. unfold replays. by rewrite !bool_decide_true. }
  symmetry. by apply Forall_inv in Hall.
Qed.

(** The ignored test cannot pass: its trace names the state root
    ["pre_state_root"], which is no digest, and the guest compares it with the
    root it computes. *)
Theorem ignored_test_fails `{HashLaws, Sp1Sdk, !Sp1Laws} : test_sp1_prove = false.
Proof.
  unfold test_sp1_prove. destruct (prove _ _ _ _) as [[proof|e] clock'] eqn:Hp; [|done].
  cbn [prove Sp1Prover_Prover] in Hp. apply proved_pre_root in Hp as [s Hs]. destruct (state_root_digest s) as [Hl _].
  by rewrite <-Hs in Hl.
Qed.
