(* ===== verification/Witnesses.v ===== *)
(** * The theorems on concrete runs

    Each theorem with hypotheses is applied to a concrete input at which the
    hypotheses hold, evaluated by the kernel. *)

From Stdlib Require Import ZArith Lia Ascii String Bool Strings.Byte.
From stdpp Require Import base gmap strings list fin_maps.
From S2P Require Import Prelude RustNum RustFmt BTree Merkle Types TraceBuilder Isa Executor.
From S2P Require Import ExecutorFacts TraceFacts Guest Sp1 Agreement Soundness Instances.

Local Open Scope Z_scope.

(** Decidable closed facts, by evaluation. *)
Ltac evaluate := apply (bool_decide_unpack _); vm_compute; exact I.

Definition w_state : gmap string Z := {["alice" := 1000; "bob" := 5]}.

(** A state in which a transfer's credit overflows. *)
Definition w_rich : gmap string Z := {["data_1" := 10; "account_7" := U64_MAX]}.

Lemma w_state_u64 : u64_state w_state.
Proof. evaluate. Qed.
Lemma w_rich_u64 : u64_state w_rich.
Proof. evaluate. Qed.

(** ** The executor *)

Lemma host_refines_ledger_witness :
  execute_instruction Debug demo_exec w_state "alice" (encode (ITransfer 300 7)) =
  Some (host_exec true "alice" (ITransfer 300 7) w_state).
Proof.
  apply (host_refines_ledger Debug demo_exec w_state "alice" (ITransfer 300 7)).
  - apply w_state_u64.
  - cbn. unfold is_u64, u64_bound. lia.
  - evaluate.
Defined.

Lemma host_panics_iff_witness :
  execute_instruction Debug demo_exec w_rich "data_1" (encode (ITransfer 4 7)) = None.
Proof.
  apply (host_panics_iff Debug demo_exec w_rich "data_1" (encode (ITransfer 4 7)) w_rich_u64).
  split; [reflexivity|evaluate].
Defined.

Lemma host_atomic_and_framed_witness :
  exists s' r, execute_instruction Debug demo_exec w_state "bob" (encode (ITransfer 9 7)) = Some (s', Err r) /\
    s' = w_state.
Proof.
  eexists _, _. split; [reflexivity|].
  apply (host_atomic_and_framed Debug demo_exec w_state "bob" (encode (ITransfer 9 7)) _
    (Err (InsufficientBalance 9 5)) w_state_u64). reflexivity.
Defined.

Lemma host_read_set_sound_witness :
  exists s2', execute_instruction Debug demo_exec {["alice" := 1000]} "alice"
      (encode (ITransfer 300 7)) =
    Some (s2', Ok (["alice"; "account_7"], ["alice"; "account_7"], 5000)) /\
    agree_on ["alice"; "account_7"]
      {["alice" := 700; "account_7" := 300; "bob" := 5]} s2'.
Proof.
  apply (host_read_set_sound Debug demo_exec w_state {["alice" := 1000]} "alice"
    (encode (ITransfer 300 7)) {["alice" := 700; "account_7" := 300; "bob" := 5]}
    ["alice"; "account_7"] ["alice"; "account_7"] 5000).
  - apply w_state_u64.
  - evaluate.
  - vm_compute. reflexivity.
  - intros k Hk. apply list_elem_of_In in Hk as [<-|[<-|[]]]; reflexivity.
Defined.

Lemma host_transfer_supply_witness :
  supply (<["data_1":=6]> (<["account_7":=3]> w_rich)) = supply w_rich - u64_bound.
Proof.
  apply (host_transfer_supply Release demo_exec w_rich "data_1" (encode (ITransfer 4 7)) 4 7
    _ (Ok (["data_1"; "account_7"], ["data_1"; "account_7"], 5000)) w_rich_u64);
    vm_compute; reflexivity.
Defined.

(** ** Traces *)

Lemma full_execution_records_witness :
  @trace_records toy_hash _ tx_id "batch_000001" (init_balances demo_txs) demo_txs demo_trace.
Proof.
  apply (@full_execution_records toy_hash Debug demo_full demo_batch demo_txs).
  - cbn. lia.
  - reflexivity.
  - vm_compute. reflexivity.
Defined.

Lemma full_execution_refines_ledger_witness :
  et_state_root_post demo_trace =
  @state_root toy_hash (ledger_run (ledger_txs demo_txs) (init_balances demo_txs)).
Proof.
  apply (@full_execution_refines_ledger toy_hash Debug demo_full demo_batch demo_txs demo_trace).
  - cbn. lia.
  - evaluate.
  - vm_compute. reflexivity.
Defined.

(** ** Proofs *)

Lemma demo_uncapped : uncapped demo_full.
Proof. split; [reflexivity|cbn; lia]. Qed.

Lemma guest_accepts_iff_witness :
  @guest_main toy_hash Release (ExecutionTraceInput_from demo_bad_trace)
    (map SerializableTransaction_from demo_bad_txs) (init_balances demo_bad_txs) = None.
Proof.
  apply (@guest_accepts_iff toy_hash Debug demo_full demo_batch demo_bad_txs demo_bad_trace).
  - apply demo_uncapped.
  - reflexivity.
  - evaluate.
  - vm_compute. reflexivity.
Defined.

Lemma invalid_opcode_unprovable_witness :
  exists e clk', @Sp1Prover_prove toy_hash toy_sdk _ _ mkSp1Prover demo_bad_trace demo_bad_txs
    (VirtualClock_new 0) = (Err e, clk').
Proof.
  apply (@invalid_opcode_unprovable toy_hash toy_sdk toy_sdk_laws _ _ Debug demo_full demo_batch
    demo_bad_txs demo_bad_trace (demo_tx "tx_00000005" "bob" (IInvalid 4)) 4).
  - apply demo_uncapped.
  - reflexivity.
  - vm_compute. reflexivity.
  - apply elem_of_app. right. left.
  - reflexivity.
Defined.

(** The public inputs of the demonstration run. *)
Definition demo_public : PublicInputs :=
  default (mkPublicInputs "" "" "" "" 0 0) (@guest_run toy_hash demo_stdin).

Lemma guest_sound_witness :
  demo_public = @run_inputs toy_hash "batch_000001" (in_txs demo_stdin) (init_balances demo_txs) /\
  pi_total_compute demo_public = 11000.
Proof.
  split; [|vm_compute; reflexivity].
  apply (@guest_sound toy_hash (in_trace demo_stdin) (in_txs demo_stdin) (in_state demo_stdin)).
  - apply demo_stdin_ok.
  - vm_compute. reflexivity.
Defined.

(** The proof the toy SDK makes of it. *)
Definition demo_proof : BatchProof :=
  match @Sp1Prover_prove toy_hash toy_sdk _ _ mkSp1Prover demo_trace demo_txs (VirtualClock_new 0) with
  | (Ok pf, _) => pf
  | (Err _, _) => mkBatchProof "" [] "" (mkProofCommitment "" "" "" "" 0 0) 0 0 0
  end.

Lemma verified_transition_witness :
  exists id s txs, u64_state s /\
    @run_inputs toy_hash id txs s =
      mkPublicInputs id (et_state_root_pre demo_trace) (et_state_root_post demo_trace)
        (et_trace_hash demo_trace) 11000 (Z.of_nat (length txs)) /\
    (init_balances demo_txs = s \/
     @collides_in toy_hash (@state_inputs toy_hash (init_balances demo_txs) ++ @state_inputs toy_hash s)).
Proof.
  edestruct (@verified_transition toy_hash toy_sdk toy_sdk_laws toy_hash_laws _ _ mkSp1Verifier
    demo_proof demo_trace (VirtualClock_new 0)) as (id & s & txs & Hs & Hrun & Hpre & _).
  - vm_compute. reflexivity.
  - reflexivity.
  - exists id, s, txs. split; [exact Hs|]. split; [rewrite Hrun; f_equal; vm_compute; reflexivity|].
    apply Hpre; [apply init_balances_u64|]. vm_compute. reflexivity.
Defined.

Lemma prove_then_verify_witness :
  exists r clk3, @Sp1Verifier_verify toy_sdk _ _ mkSp1Verifier demo_proof demo_trace
      (VirtualClock_new 0) = Some (Ok r, clk3) /\
    vr_is_valid r = true /\ vr_batch_id r = et_batch_id demo_trace /\ vr_error r = None.
Proof.
  eapply (@prove_then_verify toy_hash toy_sdk toy_sdk_laws _ _ mkSp1Prover mkSp1Verifier
    demo_trace demo_txs (VirtualClock_new 0)).
  vm_compute. reflexivity.
Defined.

Lemma noop_batch_accepted_witness :
  exists t, @execute Debug toy_hash (DeterministicExecutor_new 200000) demo_id_batch = Some (Ok t) /\
    length (et_entries t) = 3%nat.
Proof.
  destruct (@noop_batch_accepted toy_hash Debug (DeterministicExecutor_new 200000) demo_id_batch)
    as (t & Ht & Hl & _).
  - cbn. lia.
  - reflexivity.
  - exists t. split; [exact Ht|exact Hl].
Defined.

(** ** Hashes *)

Lemma state_root_binding_witness : w_state = {["bob" := 5; "alice" := 1000]}.
Proof.
  destruct (@state_root_binding toy_hash toy_hash_laws w_state {["bob" := 5; "alice" := 1000]})
    as [Heq|Hc].
  - apply w_state_u64.
  - evaluate.
  - vm_compute. reflexivity.
  - exact Heq.
  - exfalso. revert Hc. evaluate.
Defined.

Lemma merkle_root_malleable_witness :
  @merkle_root toy_hash ["a"; "b"; "c"; "c"] = @merkle_root toy_hash ["a"; "b"; "c"].
Proof.
  apply (@merkle_root_malleable toy_hash ["a"; "b"] "c").
  - exists 1%nat. reflexivity.
  - reflexivity.
Defined.

(** The hash does not cover the name of the instruction. *)
Definition w_relabelled : list TraceEntry :=
  map (fun e => mkTraceEntry (te_tx_idx e) (te_tx_id e) (te_pre_state_hash e) "relabelled"
    (te_accounts_read e) (te_accounts_written e) (te_post_state_hash e) (te_compute_used e)
    (te_success e) (te_error e)) (et_entries demo_trace).

Lemma trace_hash_binding_witness :
  map entry_outcome (et_entries demo_trace) = map entry_outcome w_relabelled.
Proof.
  destruct (@trace_hash_binding toy_hash toy_hash_laws (et_entries demo_trace) w_relabelled)
    as [Heq|Hc].
  - reflexivity.
  - evaluate.
  - vm_compute. reflexivity.
  - exact Heq.
  - exfalso. revert Hc. evaluate.
Defined.
