(* ===== verification/NodeWitnesses.v ===== *)
(** * The theorems on concrete runs: policies, pipeline, nodes, chain

    As [Witnesses], for the components around the core: a workload of the
    counting generator, a run of the engine, a whole comparison, a node that
    submits, seals and proves one batch, a verifier that attests it, and the
    life of a receipt. *)

From Stdlib Require Import ZArith Lia Ascii String Bool Strings.Byte SpecFloat.
From stdpp Require Import base gmap strings list list_numbers sorting.
From S2P Require Import Prelude RustNum RustFmt Float64 BTree Merkle Types TraceBuilder Isa Executor.
From S2P Require Import ExecutorFacts TraceFacts Guest Sp1 Agreement Soundness.
From S2P Require Import Onchain Policy PolicyFacts Metrics Ingress Engine EngineFacts Simulation.
From S2P Require Import ValidatorNode ValidatorFacts VerifierNode Instances Witnesses.

Local Open Scope Z_scope.

(** ** Policies *)

Lemma adaptive_average_converges_witness :
  exists self', observe_n Debug (AdaptivePolicy_new 10 50 100 500) 40 40 = Some self' /\
    37 <= ad_observed_latency_ms self' <= 40.
Proof.
  apply (adaptive_average_converges Debug (AdaptivePolicy_new 10 50 100 500) 40).
  - cbn. lia.
  - reflexivity.
Defined.

Lemma factory_seals_old_queue_witness :
  should_seal (create_policy "Adaptive" PolicyConfig_default) 1 500 f64_zero = true.
Proof.
  apply (factory_seals_old_queue "Adaptive" PolicyConfig_default 1 500 f64_zero).
  - intros p. vm_compute. discriminate.
  - reflexivity.
  - vm_compute. discriminate.
Defined.

Lemma auto_arrivals_safe_witness :
  exists self', foldlM (record_arrival Release) (AutoPolicy_new 5 50 1000) [10; 20; 5000] =
    Some self' /\ auto_ok self' /\ current_pattern self' <> HighLoad.
Proof.
  apply (auto_arrivals_safe (AutoPolicy_new 5 50 1000) [10; 20; 5000]).
  - repeat split; cbn; (lia || done).
  - cbn. lia.
  - reflexivity.
Defined.

(** ** Metrics *)

Definition w_metrics (size latency : Z) : BatchMetrics :=
  mkBatchMetrics "b" "Hybrid" size (size * 1000) 10 50 5 latency 1000 f64_one f64_one true.

Lemma aggregate_reports_witness :
  exists r, aggregate_metrics Debug [w_metrics 5 50; w_metrics 10 150] "Hybrid" "steady" 100 = Some r /\
    sm_total_transactions r = 15 /\ sm_sla_violations r = 1.
Proof.
  destruct (aggregate_reports Debug [w_metrics 5 50; w_metrics 10 150] "Hybrid" "steady" 100)
    as (r & Hr & _ & Htx & _ & _ & Hsla & _).
  - discriminate.
  - split; [repeat constructor; cbn; lia|]. repeat split; reflexivity.
  - exists r. split; [exact Hr|]. split; [exact Htx|exact Hsla].
Defined.

(** ** Workload *)

Definition w_generator : @WorkloadGenerator toy_rng :=
  @WorkloadGenerator_new toy_rng MixedPriority 3 0 50.

Definition w_workload : list Transaction := default [] (@collect toy_rng Debug 4 w_generator).

Lemma workload_valid_witness :
  Z.of_nat (length w_workload) = 3 /\ NoDup (map tx_id w_workload).
Proof.
  destruct (@workload_valid toy_rng toy_rng_laws Debug MixedPriority 3 0 50 4 w_workload)
    as (Hlen & Hnd & _).
  - split; reflexivity || (vm_compute; discriminate).
  - vm_compute. reflexivity.
  - split; [exact Hlen|exact Hnd].
Defined.

Lemma workload_terminates_witness :
  exists txs, @collect toy_rng Release 4 w_generator = Some txs.
Proof.
  apply (@workload_terminates toy_rng toy_rng_laws MixedPriority 3 0 50).
  split; reflexivity || (vm_compute; discriminate).
Defined.

Lemma workload_arrivals_increase_witness :
  StronglySorted Z.lt (map arrival_ts w_workload).
Proof.
  apply (@workload_arrivals_increase toy_rng toy_rng_laws 4 MixedPriority 3 0 50).
  vm_compute. reflexivity.
Defined.

(** ** Engine *)

Definition w_config : PolicyConfig := mkPolicyConfig 4 500 1000 20 5.

Definition w_engine : PipelineEngine (P := Sp1Prover) (V := Sp1Verifier) (C := VirtualClock) :=
  PipelineEngine_new (create_policy "fixed_count" w_config) (FullExecutor_new 200000)
    mkSp1Prover mkSp1Verifier (VirtualClock_new 0) (mkPipelineConfig 500 200).

#[local] Existing Instances toy_hash toy_sdk.

(** The engine after the demonstration batch. *)
Definition w_run : PipelineEngine :=
  match run_workload Debug w_engine demo_txs with
  | Some (_, self) => self
  | None => w_engine
  end.

Lemma run_accounts_for_all_witness :
  exists segs, mjoin segs = demo_txs /\
    Forall2 (fun seg => sealed_as (C := VirtualClock) Debug (FullExecutor_new 200000) mkSp1Prover
      mkSp1Verifier (sealing_order seg)) segs (batches w_run) /\
    Zsum (map bm_batch_size (batches w_run)) = 4 /\ pending w_run = [].
Proof.
  destruct (run_accounts_for_all Debug (create_policy "fixed_count" w_config)
    (FullExecutor_new 200000) mkSp1Prover mkSp1Verifier (VirtualClock_new 0)
    (mkPipelineConfig 500 200) demo_txs w_run) as ((segs & Hj & _ & Hall) & Hpend & _ & _ & Hsum).
  - reflexivity.
  - vm_compute. reflexivity.
  - exists segs. split; [exact Hj|]. split; [exact Hall|]. split; [exact Hsum|exact Hpend].
Defined.

(** The engine with the batch that cannot be proved in its queue. *)
Definition w_bad_engine : PipelineEngine := set_queues w_engine demo_bad_txs [].

Definition w_bad_result : result ExecError unit * PipelineEngine :=
  default (Ok tt, w_bad_engine) (seal_and_process Debug w_bad_engine).

Lemma failed_batch_is_lost_witness : pending w_bad_result.2 = [].
Proof.
  apply (failed_batch_is_lost Debug w_bad_engine w_bad_result.2
    (BatchFailed "prove failed: prover internal error: proving failed")).
  vm_compute. reflexivity.
Defined.

Lemma batch_order_witness :
  pending (default w_engine (foldlM (enqueue Debug) w_engine w_workload)) =
  List.filter is_high w_workload ++ List.filter (fun tx => negb (is_high tx)) w_workload.
Proof.
  apply (batch_order Debug w_engine).
  - split; reflexivity.
  - vm_compute. reflexivity.
Defined.

(** ** Simulations *)

Definition reports_of {E} (r : option (result E (list SystemMetrics))) : list SystemMetrics :=
  match r with
  | Some (Ok rs) => rs
  | _ => []
  end.

(** The reports of a comparison over workloads of two transactions. *)
Definition w_reports : list SystemMetrics := Eval vm_compute in
  reports_of (@run_comparison toy_hash replay_sdk low_rng Debug 7 2 w_config 200).

Lemma w_reports_run :
  @run_comparison toy_hash replay_sdk low_rng Debug 7 2 w_config 200 = Some (Ok w_reports).
Proof. vm_compute. reflexivity. Qed.

Lemma comparison_reports_witness :
  length w_reports = 20%nat /\ Forall (fun m => sm_total_transactions m = 2) w_reports.
Proof.
  destruct (@comparison_reports toy_hash replay_sdk replay_sdk_laws low_rng low_rng_laws Debug 7 2
    w_config 200 w_reports) as [Hnames Hall].
  - split; reflexivity || (vm_compute; discriminate).
  - exact w_reports_run.
  - split.
    + apply (f_equal length) in Hnames. rewrite !length_map in Hnames. exact Hnames.
    + eapply Forall_impl; [exact Hall|]. intros m [Hm _]. exact Hm.
Defined.

Lemma comparison_terminates_witness :
  is_Some (@run_comparison toy_hash replay_sdk low_rng Release 7 2 w_config 200).
Proof.
  apply (@comparison_terminates toy_hash replay_sdk replay_sdk_laws low_rng low_rng_laws 7 2).
  split; reflexivity || (vm_compute; discriminate).
Defined.

Lemma simulation_aborts_witness : ~ exists m,
  @run_simulation toy_hash replay_sdk toy_rng Debug "hybrid" Steady 0 3 w_config 200 = Some (Ok m).
Proof.
  eapply (@simulation_aborts toy_hash replay_sdk replay_sdk_laws toy_rng toy_rng_laws Debug "hybrid"
    Steady 0 3 w_config 200).
  - reflexivity.
  - split; reflexivity || (vm_compute; discriminate).
  - vm_compute. reflexivity.
  - left.
  - reflexivity.
Defined.

(** ** The validator node *)

Definition w_validator : Validator := Validator_new (mkArgs 8899 "./proofs" PtHybrid 4 5000 None).

Definition w_env : Env VirtualClock := mkEnv (fun n => Z.of_nat n) (VirtualClock_new 0) (Ok tt).

(** The parameters that make the node's transactions those of the batch. *)
Definition w_params (tx : Transaction) : SubmitTxParams :=
  mkSubmitTxParams (sender tx) "prog" (instruction_data tx) None.

(** The state after submitting the first [n] of them. *)
Fixpoint w_submit (s : ValidatorState) (txs : list Transaction) : ValidatorState :=
  match txs with
  | [] => s
  | tx :: txs =>
      match submit_transaction Debug w_env (w_params tx) s with
      | Some (_, s') => w_submit s' txs
      | None => s
      end
  end.

Definition w_full : ValidatorState := w_submit ValidatorState_default demo_txs.

Lemma w_submit_reach txs n :
  node_reach Debug (C := VirtualClock) w_validator n ->
  tx_counter (n_state n) + Z.of_nat (length txs) < 100 -> 0 <= tx_counter (n_state n) ->
  exists sub, length sub = length txs /\ node_reach Debug (C := VirtualClock) w_validator
    (mkNode (w_submit (n_state n) txs) (n_flight n) (n_submitted n ++ sub) (n_sealed n)).
Proof.
  revert n. induction txs as [|tx txs IH]; intros [s fl sub sl] Hr Hc H0; simpl in *.
  { exists []. split; [done|]. by rewrite app_nil_r. }
  unfold submit_transaction, u64_add. rewrite u64_arith_in by (unfold is_u64, u64_bound; lia).
  cbn [mbind option_bind].
  match goal with |- context [w_submit ?st txs] => set (s' := st) end.
  assert (exists tx', node_step Debug (C := VirtualClock) w_validator (mkNode s fl sub sl)
    (mkNode s' fl (sub ++ [tx']) sl)) as [tx' Hst].
  { eexists. eapply (ns_submit Debug w_validator w_env (w_params tx)).
    unfold submit_transaction, u64_add.
    rewrite u64_arith_in by (unfold is_u64, u64_bound; lia). reflexivity. }
  destruct (IH (mkNode s' fl (sub ++ [tx']) sl)) as (sub' & Hl & Hsub');
    [by eapply nr_step|cbn; lia|cbn; lia|].
  exists (tx' :: sub'). split; [by rewrite <-Hl|]. simpl in Hsub'. by rewrite <-app_assoc in Hsub'.
Qed.

(** The record of the proved batch. *)
Definition w_record : ProofRecord :=
  match prove_batch Debug w_validator w_env "batch_000001" (pending_txs w_full) with
  | Some (Ok r) => r
  | _ => mkProofRecord "" "" "" "" 0 0 0 0
  end.

Definition w_sealed : ValidatorState :=
  match seal_batch Debug w_validator w_env w_full with Some (_, s) => s | None => w_full end.

Lemma w_node_reach :
  exists sub, length sub = 4%nat /\ node_reach Debug (C := VirtualClock) w_validator
    (mkNode (push_proof w_record w_sealed) [] sub [("batch_000001", pending_txs w_full)]).
Proof.
  destruct (w_submit_reach demo_txs Node_start (nr_start _ _)) as (sub & Hl & Hr);
    [cbn; lia|cbn; lia|].
  exists sub. split; [exact Hl|]. eapply nr_step; [eapply nr_step; [exact Hr|]|].
  - apply (ns_seal Debug w_validator w_env w_full [] sub []). vm_compute. reflexivity.
  - apply (ns_proved Debug w_validator w_env w_sealed [] []). vm_compute. reflexivity.
Qed.

Lemma node_seals_in_order_witness :
  exists sub, pending_txs w_full ++ pending_txs w_sealed = sub /\ NoDup (map tx_id sub).
Proof.
  destruct w_node_reach as (sub & Hl & Hr). exists sub.
  destruct (node_seals_in_order Debug w_validator
    (mkNode (push_proof w_record w_sealed) [] sub [("batch_000001", pending_txs w_full)]))
    as (Hf & Hnd & _).
  { vm_compute. discriminate. }
  { cbn [n_submitted]. rewrite Hl. reflexivity. }
  { exact Hr. }
  cbn [n_sealed n_state n_submitted map snd] in Hf, Hnd. simpl mjoin in Hf.
  rewrite app_nil_r in Hf. split; [exact Hf|exact Hnd].
Defined.

Lemma published_proofs_genuine_witness :
  exists txs, (pr_batch_id w_record, txs) ∈ [("batch_000001", pending_txs w_full)] /\
    genuine txs w_record.
Proof.
  destruct w_node_reach as (sub & Hl & Hr).
  apply (published_proofs_genuine Debug w_validator
    (mkNode (push_proof w_record w_sealed) [] sub [("batch_000001", pending_txs w_full)])
    w_record).
  - vm_compute. discriminate.
  - cbn [n_submitted]. rewrite Hl. reflexivity.
  - exact Hr.
  - cbn [n_state push_proof proofs]. apply elem_of_app. right. left.
Defined.

(** One transaction waits, and the policy seals at four. *)
Definition w_waiting : ValidatorState := w_submit ValidatorState_default (take 1 demo_txs).

(** ** The verifier node *)

Definition w_node : VerifierNode := mkVerifierNode mkSp1Verifier "./proofs" "verifier_00000001".

Definition w_venv : VEnv VirtualClock :=
  mkVEnv (fun _ => Ok (demo_proof, demo_trace)) (fun _ => 9) 5 (VirtualClock_new 0) "panicked".

Definition w_msg : ProofMessage :=
  mkProofMessage "proof" "batch_000001" "" (pf_commitment demo_proof) 1.

Definition w_attested : VerifierState :=
  match handle_proof_broadcast Debug w_node w_venv w_msg VerifierState_default with
  | Some (_, s) => s
  | None => VerifierState_default
  end.

Lemma verifier_node_invariant_witness :
  current_state_root w_attested = et_state_root_post demo_trace /\
    verification_count w_attested = 1.
Proof.
  destruct (verifier_node_invariant Debug (C := VirtualClock) w_node w_attested) as (Hroot & Hc & _).
  - apply (handle_proof_broadcast_steps Debug w_node w_venv w_msg VerifierState_default (Ok tt)).
    vm_compute. reflexivity.
  - split.
    + eapply eq_trans; [exact Hroot|]. vm_compute. reflexivity.
    + eapply eq_trans; [exact (eq_sym Hc)|]. vm_compute. reflexivity.
Defined.

Definition w_forged : ProofCommitment := mkProofCommitment "" "" "any" "root" 0 99.

Lemma attested_roots_unchecked_witness :
  exists b s', verify_proof Debug w_node w_venv (set_commitment w_forged demo_proof) demo_trace
      VerifierState_default = Some (Ok b, s') /\
    vb_state_root_pre b = "any" /\ vb_state_root_post b = "root" /\ vb_tx_count b = 99 /\
    current_state_root s' = "root" /\ verified_batches s' = [b].
Proof.
  eapply (attested_roots_unchecked Debug w_node w_venv demo_proof demo_trace _ _ w_forged
    VerifierState_default).
  - vm_compute. reflexivity.
  - reflexivity.
  - reflexivity.
  - vm_compute. discriminate.
Defined.

(** ** The chain *)

#[local] Existing Instance toy_addresses.

Definition w_key (n : Z) : Pubkey := [u8_of_Z n].

(** A configuration whose authority is key 1, and one submitted batch. *)
Definition w_accounts : accounts :=
  match process (w_key 1) (Ok 5) (InitializeConfig (w_key 1)) no_accounts ≫=
    process (w_key 2) (Ok 6) (SubmitBatch (w_key 7) (w_key 8) 4 11000) with
  | Ok s => s
  | Err _ => no_accounts
  end.

Definition w_initialized : accounts :=
  match process (w_key 1) (Ok 5) (InitializeConfig (w_key 1)) no_accounts with
  | Ok s => s
  | Err _ => no_accounts
  end.

Lemma w_init_step : step (w_key 1) (InitializeConfig (w_key 1)) no_accounts w_initialized.
Proof. apply (step_ok _ (Ok 5)). vm_compute. reflexivity. Qed.

Lemma w_submit_step : step (w_key 2) (SubmitBatch (w_key 7) (w_key 8) 4 11000)
  w_initialized w_accounts.
Proof. apply (step_ok _ (Ok 6)). vm_compute. reflexivity. Qed.

Lemma w_steps : steps no_accounts w_accounts.
Proof.
  eapply steps_step; [eapply steps_step; [apply steps_refl|exact w_init_step]|exact w_submit_step].
Qed.

Definition w_receipt : BatchReceipt :=
  default (mkBatchReceipt [] [] [] 0 0 false [] 0 0) (a_receipts w_accounts !! w_key 7).

Lemma onchain_invariant_witness : accounts_ok w_accounts.
Proof. apply (onchain_invariant w_accounts). exact w_steps. Defined.

Lemma receipt_history_witness :
  exists r', a_receipts w_accounts !! w_key 7 = Some r' /\ r_batch_id r' = r_batch_id w_receipt.
Proof.
  destruct (receipt_history w_accounts w_accounts (w_key 7) w_receipt) as (r' & Hr & Hid & _).
  - apply steps_refl.
  - vm_compute. reflexivity.
  - exists r'. split; [exact Hr|exact Hid].
Defined.

Lemma submit_batch_succeeds_iff_witness :
  exists s', process (w_key 2) (Ok 9) (SubmitBatch (w_key 9) (w_key 8) 4 0) w_initialized = Ok s' /\
    r_verified <$> a_receipts s' !! w_key 9 = Some false.
Proof.
  eexists. split.
  - apply (submit_batch_succeeds_iff w_initialized (w_key 2) 9 (w_key 9) (w_key 8) 4 0).
    + eapply steps_step; [apply steps_refl|exact w_init_step].
    + eexists. split; [vm_compute; reflexivity|]. split; [reflexivity|]. split; [reflexivity|].
      split; [|reflexivity]. intros addr r Hr. vm_compute in Hr. discriminate Hr.
  - vm_compute. reflexivity.
Defined.

Lemma config_controlled_witness :
  exists c2, a_config w_accounts = Some c2 /\ authority c2 = w_key 1.
Proof.
  destruct (config_controlled w_initialized w_initialized w_accounts (w_key 2)
    (SubmitBatch (w_key 7) (w_key 8) 4 11000) (mkGlobalConfig (w_key 1) false 0 zero32)
    (mkGlobalConfig (w_key 1) false 0 zero32)) as (_ & _ & c2 & Hc2 & Ha & _).
  - apply steps_refl.
  - vm_compute. reflexivity.
  - vm_compute. reflexivity.
  - exact w_submit_step.
  - exists c2. split; [exact Hc2|exact Ha].
Defined.

Lemma anyone_can_verify_witness :
  exists s1 s2,
    process (w_key 3) (Ok 7) (SubmitProof (w_key 7) (w_key 1)) w_accounts = Ok s1 /\
    process (w_key 3) (Ok 8) (VerifyProof (w_key 7)) s1 = Ok s2.
Proof.
  destruct (anyone_can_verify w_accounts (w_key 7) w_receipt (w_key 3) (Ok 7) 8 (w_key 1))
    as (s1 & s2 & H1 & H2 & _).
  - vm_compute. reflexivity.
  - vm_compute. reflexivity.
  - vm_compute. discriminate.
  - exists s1, s2. split; [exact H1|exact H2].
Defined.
