(* ===== verification/NetWitnesses.v ===== *)
(** * The theorems on concrete runs: the network

    As [NodeWitnesses], for the programs that talk to each other: lines and
    connections, a client's submission, a broadcast, the two nodes over a
    directory, and the files of a comparison. *)

From Stdlib Require Import ZArith Lia Ascii String Bool Strings.Byte.
From stdpp Require Import base gmap strings list list_numbers.
From S2P Require Import Prelude RustNum RustFmt Float64 Merkle Types TraceBuilder Isa Executor.
From S2P Require Import ExecutorFacts TraceFacts Guest Sp1 Agreement Soundness TraceTypes Policy.
From S2P Require Import Metrics Ingress Engine Simulation Wire Files VerifierNode VerifierNet.
From S2P Require Import ValidatorNode ValidatorFacts ValidatorNet Client Protocol Network.
From S2P Require Import NetworkFacts Report Instances NetInstances Witnesses NodeWitnesses.

Local Open Scope Z_scope.

#[local] Existing Instances toy_hash toy_sdk toy_json toy_files toy_report.

(** An equation whose sides the virtual machine computes to the same value; the
    value itself, with the formats' functions in its types, is not read back. *)
Ltac vm_equal := match goal with |- ?a = ?b => exact (@eq_refl _ b <: a = b) end.

(** ** Types *)

Lemma trace_well_typed_witness : trace_typed demo_trace.
Proof.
  destruct (trace_well_typed (C := VirtualClock) Debug demo_full demo_batch demo_txs demo_trace)
    as [Ht _].
  - vm_compute. discriminate.
  - reflexivity.
  - vm_compute. reflexivity.
  - exact Ht.
Defined.

(** ** The validator's timer *)

Definition w_late : Env VirtualClock := mkEnv (fun _ => 9000) (VirtualClock_new 9000) (Ok tt).

(** Four transactions wait, two to a batch. *)
Lemma timer_seals_waiting_witness :
  exists s', ticks Release (Validator_new (ValidatorNode.mkArgs 8899 "./proofs" PtTime 2 5000 None)) w_full
    [w_late; w_late] = Some s' /\ pending_txs s' = [].
Proof.
  apply (timer_seals_waiting (ValidatorNode.mkArgs 8899 "./proofs" PtTime 2 5000 None) w_full [w_late; w_late]).
  - vm_compute. discriminate.
  - discriminate.
  - vm_compute. discriminate.
  - repeat constructor; vm_compute; discriminate.
Defined.

(** ** A connection *)

Definition w_call : RpcCall := mkRpcCall "getStatus" (JObject []) 7.

Definition w_turns : list (turn (C := VirtualClock)) :=
  [mkTurn (fun s => s) (Ok (call_line w_call)) w_env (Ok tt);
   mkTurn (fun s => s) (Ok "") w_env (Ok tt)].

Definition w_replies : list (string * RpcReply) :=
  match handle_connection Debug w_validator w_turns w_waiting with
  | Some (rs, _) => rs
  | None => []
  end.

Lemma connection_answers_witness :
  Forall2 (fun (t : turn (C := VirtualClock)) lr => t_read t = Ok lr.1)
    (take 1 w_turns) w_replies.
Proof.
  destruct (connection_answers Debug w_validator w_turns w_waiting w_replies w_waiting) as [Hf _].
  - vm_equal.
  - eapply Forall2_impl; [exact Hf|]. intros t lr [Hr _]. exact Hr.
Defined.

(** ** The client *)

Lemma hex_to_bytes_spec_witness :
  hex_to_bytes (prefix_0x 1 (hex_of_bytes [x01; xff])) = Some [x01; xff] /\
  hex_to_bytes "0x123" = None.
Proof.
  destruct (hex_to_bytes_spec 1 [x01; xff] "0x123") as (H1 & H2 & _).
  split; [exact H1|]. apply H2. reflexivity.
Defined.

Definition w_submit_command : Command := Submit "alice" "prog" "0x03" "high" 2.

Lemma client_submit_delivers_witness :
  exists o, Client.main (talk_validator Debug w_validator (fun _ => w_env) "v")
      (Client.mkArgs "v" "w" w_submit_command) f64_one ((0%nat, ValidatorState_default), []) =
    (Some tt, ((2%nat, add_pending
      [submitted_tx w_env 1 "alice_0" "prog" [x03] "high";
       submitted_tx w_env 2 "alice_1" "prog" [x03] "high"] ValidatorState_default), o)).
Proof.
  eexists. eapply eq_trans.
  - apply (client_submit_delivers Debug w_validator (fun _ => w_env) "v" "w" f64_one "alice" "prog"
      "0x03" [x03] "high" 2 0 ValidatorState_default).
    + reflexivity.
    + discriminate.
    + discriminate.
    + reflexivity.
  - reflexivity.
Defined.

(** ** The verifier's lines *)

Lemma verifier_dispatch_witness :
  (fst <$> VerifierNet.answer_line Debug w_node w_venv
     (record_text (broadcast_fields demo_proof) +:+ "") VerifierState_default) = Some None.
Proof.
  destruct (verifier_dispatch Debug w_node w_venv demo_proof "" w_call VerifierState_default)
    as [Hb _].
  - repeat split; vm_compute; (discriminate || reflexivity).
  - left. reflexivity.
  - exact I.
  - split; [discriminate|reflexivity].
  - rewrite Hb. vm_equal.
Defined.

(** ** The two nodes *)

Definition w_dir : string := "./proofs".
Definition w_id : string := "batch_000001".

Definition w_produced : BatchProof * ExecutionTrace :=
  match produce_proof Debug w_validator w_env w_id (pending_txs w_full) with
  | Some (Ok pt) => pt
  | _ => (demo_proof, demo_trace)
  end.

Lemma w_produces : produces Debug w_validator w_env w_id (pending_txs w_full) w_produced.1 w_produced.2.
Proof. vm_compute. reflexivity. Qed.

Definition w_files : files :=
  <[trace_path w_dir w_id := toy_file w_produced.2]>
    (<[proof_path w_dir w_id := toy_file w_produced.1]> ∅).

Lemma w_pf_id : pf_batch_id w_produced.1 = w_id.
Proof. vm_compute. reflexivity. Qed.

(** The batch is sealed, both files are written and the record is published. *)
Definition w_net (sub : list Transaction) : Net :=
  mkNet (mkNode (push_proof (proof_record w_env w_id w_produced.1) w_sealed) [] sub
           [(w_id, pending_txs w_full)]) w_files [] VerifierState_default.

Lemma w_net_reach :
  exists sub, length sub = 4%nat /\
    net_reach Debug (C := VirtualClock) w_validator w_node w_dir (w_net sub).
Proof.
  destruct (w_submit_reach demo_txs Node_start (nr_start _ _)) as (sub & Hl & Hr);
    [cbn; lia|cbn; lia|].
  exists sub. split; [exact Hl|].
  assert (node_reach Debug (C := VirtualClock) w_validator
    (mkNode w_sealed [(w_id, pending_txs w_full)] sub [(w_id, pending_txs w_full)])) as Hs.
  { eapply nr_step; [exact Hr|].
    apply (ns_seal Debug w_validator w_env w_full [] sub []). vm_compute. reflexivity. }
  apply (quiet_reach Debug w_validator w_node w_dir) in Hs; [|vm_compute; reflexivity].
  assert ((w_id, pending_txs w_full) ∈ [(w_id, pending_txs w_full)]) as Hin by left.
  pose proof (net_write_proof Debug w_validator w_node w_dir w_env
    (mkNode w_sealed [(w_id, pending_txs w_full)] sub [(w_id, pending_txs w_full)]) ∅ []
    VerifierState_default w_id _ _ _ _ (length (toy_file w_produced.1)) Hin w_produces eq_refl) as H1.
  rewrite firstn_all, w_pf_id in H1.
  pose proof (net_write_trace Debug w_validator w_node w_dir w_env
    (mkNode w_sealed [(w_id, pending_txs w_full)] sub [(w_id, pending_txs w_full)])
    (<[proof_path w_dir w_id := toy_file w_produced.1]> ∅) []
    VerifierState_default w_id _ _ _ _ (length (toy_file w_produced.2)) Hin w_produces eq_refl) as H2.
  rewrite firstn_all, w_pf_id in H2.
  eapply rtc_r; [eapply rtc_r; [eapply rtc_r; [exact Hs|exact H1]|exact H2]|].
  change (w_net sub) with (mkNet (mkNode (push_proof (proof_record w_env w_id w_produced.1)
    (n_state (mkNode w_sealed [(w_id, pending_txs w_full)] sub [(w_id, pending_txs w_full)])))
    ([] ++ []) sub [(w_id, pending_txs w_full)]) w_files [] VerifierState_default).
  apply (net_publish Debug w_validator w_node w_dir w_env
    (mkNode w_sealed [(w_id, pending_txs w_full)] sub [(w_id, pending_txs w_full)])
    w_files [] VerifierState_default w_id (pending_txs w_full)
    w_produced.1 w_produced.2 (toy_file w_produced.1) (toy_file w_produced.2) [] []);
    reflexivity.
Qed.

Definition w_published : ProofRecord := proof_record w_env w_id w_produced.1.

Definition w_read : VEnv VirtualClock :=
  mkVEnv (read_batch w_dir (read_file "not found" w_files)) (fun _ => 9) 5 (VirtualClock_new 0) "".

Definition w_round (entries : list string) : poll_round (C := VirtualClock) :=
  mkPollRound (fun v => v) (Ok entries) (fun _ => w_read).

Lemma published_batches_attested_witness :
  exists seen' v', poll_once Debug w_node (∅, VerifierState_default)
      (w_round ["notes.txt"; "batch_000001.proof"]) = Some (seen', v') /\
    exists b, b ∈ verified_batches v' /\ vb_batch_id b = w_id.
Proof.
  destruct w_net_reach as (sub & Hl & Hr).
  destruct (published_batches_attested Debug w_validator w_node w_dir "not found" (w_net sub)
    w_published ["notes.txt"; "batch_000001.proof"]
    (w_round ["notes.txt"; "batch_000001.proof"]) ∅) as (seen' & v' & Hp & _ & b & Hb & Heq).
  - vm_compute. discriminate.
  - vm_compute. discriminate.
  - cbn [w_net nt_node n_submitted]. rewrite Hl. reflexivity.
  - exact Hr.
  - apply elem_of_app. right. left.
  - reflexivity.
  - right. left.
  - reflexivity.
  - apply not_elem_of_empty.
  - vm_compute. split; [discriminate|]. split; [discriminate|reflexivity].
  - exists seen', v'. split; [exact Hp|]. exists b. split; [exact Hb|].
    exact (f_equal (fun q => q.1.1.1.1) Heq).
Defined.

(** The verifier reads the proof file and verifies it. *)
Definition w_verified : VerifierState :=
  match verify_proof Debug w_node w_read w_produced.1 w_produced.2 VerifierState_default with
  | Some (_, v) => v
  | None => VerifierState_default
  end.

Lemma attested_batches_genuine_witness :
  exists b txs, b ∈ verified_batches w_verified /\
    (vb_batch_id b, txs) ∈ [(w_id, pending_txs w_full)] /\ attests_run txs b.
Proof.
  destruct w_net_reach as (sub & Hl & Hr).
  assert (net_reach Debug (C := VirtualClock) w_validator w_node w_dir
    (mkNet (nt_node (w_net sub)) w_files [w_produced.1] w_verified)) as Hr'.
  { eapply rtc_r; [eapply rtc_r; [exact Hr|]|].
    - apply (net_read Debug w_validator w_node w_dir _ w_files [] _ w_id
        (toy_file w_produced.1) w_produced.1); [reflexivity|apply of_toy_file_whole].
    - eapply (net_verify Debug w_validator w_node w_dir w_read _ w_files [w_produced.1]
        VerifierState_default w_produced.1 w_produced.2); [left|]. vm_compute. reflexivity. }
  assert (exists b, b ∈ verified_batches w_verified) as [b Hb] by (eexists; vm_compute; left).
  destruct (attested_batches_genuine Debug w_validator w_node w_dir
    (mkNet (nt_node (w_net sub)) w_files [w_produced.1] w_verified) b) as (txs & Hin & Ha).
  - vm_compute. discriminate.
  - vm_compute. discriminate.
  - cbn [w_net nt_node n_submitted]. rewrite Hl. reflexivity.
  - exact Hr'.
  - exact Hb.
  - exists b, txs. split; [exact Hb|]. split; [exact Hin|exact Ha].
Defined.

(** The first turn falls between the two writes, and lists another batch too. *)
Definition w_torn : files := <[proof_path w_dir w_id := toy_file w_produced.1]> ∅.

Definition w_early : poll_round (C := VirtualClock) :=
  mkPollRound (set_pending ∅) (Ok ["batch_000009.proof"; "batch_000001.proof"])
    (fun _ => mkVEnv (read_batch w_dir (read_file "not found" w_torn)) (fun _ => 9) 5
                (VirtualClock_new 0) "").

(** Both files are there in the second turn. *)
Lemma early_poll_loses_batch_witness :
  exists ps, poll_once Debug w_node (∅, VerifierState_default) w_early = Some ps /\
    w_id ∈ ps.1 /\
    poll_once Debug w_node ps (w_round ["batch_000001.proof"]) = Some ps /\
    verified_batches ps.2 = [].
Proof.
  destruct (early_poll_loses_batch Debug w_node w_dir "not found" w_torn w_id
    ["batch_000009.proof"; "batch_000001.proof"] w_early ∅ VerifierState_default)
    as [_ Hlater].
  - reflexivity.
  - discriminate.
  - right. left.
  - intros bytes t Hf. vm_compute in Hf. discriminate Hf.
  - reflexivity.
  - eexists. split; [reflexivity|]. edestruct Hlater as [Hin _]; [reflexivity|].
    split; [exact Hin|]. split; reflexivity.
Defined.

(** ** The files of a comparison *)

Definition w_world : world :=
  mkWorld (fun _ => Ok tt) (fun _ => Written) (fun _ => Err "") (fun _ => Ok tt) (fun l => l).

(** What a comparison prints and saves. *)
Definition w_saved (rs : list SystemMetrics) : files := (@save_results toy_report w_world rs "out" ∅).2.
Definition w_printed (rs : list SystemMetrics) : list string :=
  [@comparison_table toy_report rs; nl +:+ "Results saved to " +:+ "out"].

Lemma w_outcome (rs : list SystemMetrics) :
  @compare_outcome toy_report w_world rs (Some "out") ∅ = (Ok (), w_printed rs, w_saved rs).
Proof. reflexivity. Qed.

Lemma w_compare_run :
  @Report.main toy_report toy_hash replay_sdk low_rng Debug w_world
    (Compare 7 2 (Some "out") 4 500 1000 200) ∅ = Some (Ok (), w_printed w_reports, w_saved w_reports).
Proof.
  rewrite <- (w_outcome w_reports).
  apply (@compare_prints toy_report toy_hash replay_sdk low_rng Debug w_world 7 2 (Some "out")
    4 500 1000 200 ∅ w_config w_reports); [reflexivity|exact w_reports_run].
Qed.

Lemma compare_saves_reports_witness :
  exists results, w_saved w_reports !! "out/results.csv" =
      Some (csv_bytes (csv_header :: map csv_record results)) /\
    Forall (fun m => sm_total_transactions m = 2) results.
Proof.
  destruct (@compare_saves_reports toy_report toy_hash replay_sdk replay_sdk_laws low_rng
    low_rng_laws Debug w_world 7 2 "out" 4 500 1000 200 ∅ (w_printed w_reports) (w_saved w_reports))
    as (results & json & _ & _ & Hall & _ & _ & Hcsv & _).
  - split; reflexivity || (vm_compute; discriminate).
  - exact w_compare_run.
  - exists results. split; [exact Hcsv|]. eapply Forall_impl; [exact Hall|]. intros m [Hm _].
    exact Hm.
Defined.
